(** * Paging and TLB shootdown of the thor kernel (x86): a shallow embedding

    Source: [thor/kernel/src/arch/x86/paging.cpp] and [paging.hpp].

    The file has two parts.  The first embeds the four-level page-table
    walkers ([KernelPageSpace], [ClientPageSpace]) over a physically indexed
    memory of 64-bit words.  The second embeds the shootdown bookkeeping
    ([PageBinding], [PageSpace], [PageContext]) over an explicit system
    state.  Definitions come first, theorems afterwards. *)

From stdpp Require Import base functions list gmap.
From Stdlib Require Import ZArith Lia Bool Sorted.

Local Open Scope Z_scope.

(* ===================================================================== *)
(** ** Outcomes of kernel code *)
(* ===================================================================== *)

(** A call either returns, or stops the kernel at a failed [assert], or
    cannot get a frame from the allocator, or dereferences a pointer to an
    object that does not exist. *)
Inductive result (A : Type) : Type :=
| Ok (a : A)
| AssertFail
| AllocFail
| Fault.
Arguments Ok {A} a.
Arguments AssertFail {A}.
Arguments AllocFail {A}.
Arguments Fault {A}.

(** State-and-failure monad: kernel code over a state [S]. *)
Definition M (S A : Type) : Type := S → result (A * S).

Definition ret {S A} (a : A) : M S A := λ s, Ok (a, s).

Definition bind {S A B} (m : M S A) (f : A → M S B) : M S B :=
  λ s, match m s with
       | Ok (a, s') => f a s'
       | AssertFail => AssertFail
       | AllocFail => AllocFail
       | Fault => Fault
       end.

Notation "'do' x <- m ; k" := (bind m (λ x, k))
  (at level 10, x name, m at level 100, k at level 200).
Notation "m ;; k" := (bind m (λ _, k))
  (at level 100, k at level 200, right associativity).

(** [assert(c)]. *)
Definition assert {S} (c : bool) : M S unit :=
  λ s, if c then Ok (tt, s) else AssertFail.

Definition is_ok {A} (r : result A) : bool :=
  match r with Ok _ => true | _ => false end.

(** The state after a run, or [d] if the run failed. *)
Definition state_after {S A} (r : result (A * S)) (d : S) : S :=
  match r with Ok (_, s) => s | _ => d end.

(* ===================================================================== *)
(** ** Part 1: page tables *)
(* ===================================================================== *)

(** The anonymous [enum] of PTE bits in paging.cpp. *)
Definition kPagePresent : Z := 0x1.
Definition kPageWrite : Z := 0x2.
Definition kPageUser : Z := 0x4.
Definition kPagePwt : Z := 0x8.
Definition kPagePcd : Z := 0x10.
Definition kPagePat : Z := 0x80.
Definition kPageGlobal : Z := 0x100.
Definition kPageXd : Z := 0x8000000000000000.

(** [kPageSize] of paging.hpp. *)
Definition kPageSize : Z := 0x1000.

(** The literal [0x000FFFFFFFFFF000] that the walkers use to extract the
    next-level frame (bits 12..51). *)
Definition kAddressMask : Z := 0x000FFFFFFFFFF000.

(** [~uint64_t{kPagePresent}] as a 64-bit word. *)
Definition kNotPresent64 : Z := 0xFFFFFFFFFFFFFFFE.

Module page_access.
Definition write : Z := 1.
Definition execute : Z := 2.
End page_access.

Module CachingMode.
Inductive t : Set := null | uncached | writeCombine | writeThrough | writeBack.

(** [==] on the enum. *)
Definition eqb (a b : t) : bool :=
  match a, b with
  | null, null | uncached, uncached | writeCombine, writeCombine
  | writeThrough, writeThrough | writeBack, writeBack => true
  | _, _ => false
  end.
End CachingMode.

Module PageMode.
Inductive t : Set := null | normal | remap.

(** [==] on the enum. *)
Definition eqb (a b : t) : bool :=
  match a, b with
  | null, null | normal, normal | remap, remap => true
  | _, _ => false
  end.
End PageMode.

(** Physical memory as seen by the walkers: an array of 64-bit words, read
    and written at word addresses [frame + 8 * index].  [frames] is the
    sequence of frames that the physical allocator is going to hand out
    (the allocator itself is outside paging.cpp).  Every walker holds
    [irqMutex] and the [_mutex] of its space from its first statement to its
    return, so a call is one uninterrupted run on this state. *)
Record PtState : Type := mkPtState {
  mem : Z → Z;
  frames : list Z
}.

(** [p[i]] as an rvalue and [p[i] = w], for [p] a [uint64_t *]. *)
Definition load (p i : Z) : M PtState Z := λ s, Ok (mem s (p + 8 * i), s).
Definition store (p i w : Z) : M PtState unit :=
  λ s, Ok (tt, mkPtState (<[p + 8 * i := w]> (mem s)) (frames s)).

(** The 512 word stores [for(int i = 0; i < 512; i++) p[i] = 0], the same
    bytes that [memset(p, 0, kPageSize)] writes. *)
Fixpoint zero_words (p : Z) (i : Z) (n : nat) (m : Z → Z) : Z → Z :=
  match n with
  | O => m
  | S n' => zero_words p (i + 1) n' (<[p + 8 * i := 0]> m)
  end.

Definition zero_table (p : Z) : M PtState unit :=
  λ s, Ok (tt, mkPtState (zero_words p 0 512 (mem s)) (frames s)).

(** Modelled from the spec: the physical allocator, which is not in
    paging.cpp.  [SkeletalRegion::global().allocate()] and
    [physicalAllocator->allocate(kPageSize)] return a frame address: the next
    frame of [frames]; an exhausted allocator fails. *)
Definition allocate : M PtState Z :=
  λ s, match frames s with
       | f :: rest => Ok (f, mkPtState (mem s) rest)
       | [] => AllocFail
       end.

(** Modelled from the spec: [SkeletalRegion::access], which is not in
    paging.cpp, gives the pointer through which the words of a frame are
    reached, as the identity window does for [PageAccessor].  Memory is
    indexed physically here, so the pointer is the frame address. *)
Definition SkeletalRegion_access (physical : Z) : M PtState Z := ret physical.

(** The four table indices of a virtual address. *)
Definition index4 (pointer : Z) : Z := Z.land (Z.shiftr pointer 39) 0x1FF.
Definition index3 (pointer : Z) : Z := Z.land (Z.shiftr pointer 30) 0x1FF.
Definition index2 (pointer : Z) : Z := Z.land (Z.shiftr pointer 21) 0x1FF.
Definition index1 (pointer : Z) : Z := Z.land (Z.shiftr pointer 12) 0x1FF.

(** [(w & bit) != 0]. *)
Definition has_bit (w bit : Z) : bool := negb (Z.land w bit =? 0).

Module PageAccessor.
(** [PageAccessor(PhysicalAddr physical)] followed by [get()]: two
    assertions, then the pointer into the identity window
    ([0xFFFF'8000'0000'0000 + physical]), which addresses the words of the
    frame [physical]. *)
Definition new (physical : Z) : M PtState Z :=
  assert (negb (has_bit physical (kPageSize - 1))) ;;
  assert (physical <? 0x400000000000) ;;
  ret physical.
End PageAccessor.

Module KernelPageSpace.

(** [KernelPageSpace::mapSingle4k], paging.cpp lines 298-382. *)
Definition mapSingle4k (rootTable pointer physical flags : Z)
    (caching_mode : CachingMode.t) : M PtState unit :=
  assert (pointer mod 0x1000 =? 0) ;;
  assert (physical mod 0x1000 =? 0) ;;
  let pml4_index := index4 pointer in
  let pdpt_index := index3 pointer in
  let pd_index := index2 pointer in
  let pt_index := index1 pointer in
  (* the pml4 exists already *)
  do pml4_pointer <- SkeletalRegion_access rootTable;
  (* make sure there is a pdpt *)
  do pml4_initial_entry <- load pml4_pointer pml4_index;
  do pdpt_pointer <-
    (if has_bit pml4_initial_entry kPagePresent
     then SkeletalRegion_access (Z.land pml4_initial_entry kAddressMask)
     else
       do pdpt_page <- allocate;
       do pdpt_pointer <- SkeletalRegion_access pdpt_page;
       zero_table pdpt_pointer ;;
       let new_entry := Z.lor (Z.lor pdpt_page kPagePresent) kPageWrite in
       store pml4_pointer pml4_index new_entry ;;
       ret pdpt_pointer);
  do pml4_entry <- load pml4_pointer pml4_index;
  assert (negb (has_bit pml4_entry kPageUser)) ;;
  (* make sure there is a pd *)
  do pdpt_initial_entry <- load pdpt_pointer pdpt_index;
  do pd_pointer <-
    (if has_bit pdpt_initial_entry kPagePresent
     then SkeletalRegion_access (Z.land pdpt_initial_entry kAddressMask)
     else
       do pd_page <- allocate;
       do pd_pointer <- SkeletalRegion_access pd_page;
       zero_table pd_pointer ;;
       let new_entry := Z.lor (Z.lor pd_page kPagePresent) kPageWrite in
       store pdpt_pointer pdpt_index new_entry ;;
       ret pd_pointer);
  do pdpt_entry <- load pdpt_pointer pdpt_index;
  assert (negb (has_bit pdpt_entry kPageUser)) ;;
  (* make sure there is a pt *)
  do pd_initial_entry <- load pd_pointer pd_index;
  do pt_pointer <-
    (if has_bit pd_initial_entry kPagePresent
     then SkeletalRegion_access (Z.land pd_initial_entry kAddressMask)
     else
       do pt_page <- allocate;
       do pt_pointer <- SkeletalRegion_access pt_page;
       zero_table pt_pointer ;;
       let new_entry := Z.lor (Z.lor pt_page kPagePresent) kPageWrite in
       store pd_pointer pd_index new_entry ;;
       ret pt_pointer);
  do pd_entry <- load pd_pointer pd_index;
  assert (negb (has_bit pd_entry kPageUser)) ;;
  (* setup the new pt entry *)
  do pt_entry <- load pt_pointer pt_index;
  assert (Z.land pt_entry kPagePresent =? 0) ;;
  let new_entry := Z.lor (Z.lor physical kPagePresent) kPageGlobal in
  let new_entry :=
    if has_bit flags page_access.write then Z.lor new_entry kPageWrite else new_entry in
  let new_entry :=
    if negb (has_bit flags page_access.execute) then Z.lor new_entry kPageXd else new_entry in
  do new_entry <-
    (if CachingMode.eqb caching_mode CachingMode.writeThrough then
       ret (Z.lor new_entry kPagePwt)
     else if CachingMode.eqb caching_mode CachingMode.writeCombine then
       ret (Z.lor new_entry (Z.lor kPagePat kPagePwt))
     else
       assert (CachingMode.eqb caching_mode CachingMode.null
               || CachingMode.eqb caching_mode CachingMode.writeBack) ;;
       ret new_entry);
  store pt_pointer pt_index new_entry.

(** [KernelPageSpace::unmapSingle4k], paging.cpp lines 384-419. *)
Definition unmapSingle4k (rootTable pointer : Z) : M PtState Z :=
  assert (pointer mod 0x1000 =? 0) ;;
  let pml4_index := index4 pointer in
  let pdpt_index := index3 pointer in
  let pd_index := index2 pointer in
  let pt_index := index1 pointer in
  (* find the pml4_entry *)
  do pml4_pointer <- SkeletalRegion_access rootTable;
  do pml4_entry <- load pml4_pointer pml4_index;
  (* find the pdpt entry *)
  assert (has_bit pml4_entry kPagePresent) ;;
  do pdpt_pointer <- SkeletalRegion_access (Z.land pml4_entry kAddressMask);
  do pdpt_entry <- load pdpt_pointer pdpt_index;
  (* find the pd entry *)
  assert (has_bit pdpt_entry kPagePresent) ;;
  do pd_pointer <- SkeletalRegion_access (Z.land pdpt_entry kAddressMask);
  do pd_entry <- load pd_pointer pd_index;
  (* find the pt entry *)
  assert (has_bit pd_entry kPagePresent) ;;
  do pt_pointer <- SkeletalRegion_access (Z.land pd_entry kAddressMask);
  (* change the pt entry *)
  do pt_entry <- load pt_pointer pt_index;
  assert (has_bit pt_entry kPagePresent) ;;
  store pt_pointer pt_index (Z.lxor pt_entry kPagePresent) ;;
  do pt_entry' <- load pt_pointer pt_index;
  ret (Z.land pt_entry' kAddressMask).

End KernelPageSpace.

Module ClientPageSpace.

(** [ClientPageSpace::mapSingle4k], paging.cpp lines 450-545. *)
Definition mapSingle4k (rootTable pointer physical : Z) (user_page : bool)
    (flags : Z) (caching_mode : CachingMode.t) : M PtState unit :=
  assert (pointer mod 0x1000 =? 0) ;;
  assert (physical mod 0x1000 =? 0) ;;
  let index4 := index4 pointer in
  let index3 := index3 pointer in
  let index2 := index2 pointer in
  let index1 := index1 pointer in
  (* The PML4 does always exist. *)
  do tbl4 <- PageAccessor.new rootTable;
  (* Make sure there is a PDPT. *)
  do entry4 <- load tbl4 index4;
  do tbl3 <-
    (if has_bit entry4 kPagePresent
     then PageAccessor.new (Z.land entry4 kAddressMask)
     else
       do tbl_address <- allocate;
       do accessor3 <- PageAccessor.new tbl_address;
       zero_table accessor3 ;;
       let new_entry := Z.lor (Z.lor tbl_address kPagePresent) kPageWrite in
       let new_entry := if user_page then Z.lor new_entry kPageUser else new_entry in
       store tbl4 index4 new_entry ;;
       ret accessor3);
  do entry4' <- load tbl4 index4;
  assert (if user_page then has_bit entry4' kPageUser
          else Z.land entry4' kPageUser =? 0) ;;
  (* Make sure there is a PD. *)
  do entry3 <- load tbl3 index3;
  do tbl2 <-
    (if has_bit entry3 kPagePresent
     then PageAccessor.new (Z.land entry3 kAddressMask)
     else
       do tbl_address <- allocate;
       do accessor2 <- PageAccessor.new tbl_address;
       zero_table accessor2 ;;
       let new_entry := Z.lor (Z.lor tbl_address kPagePresent) kPageWrite in
       let new_entry := if user_page then Z.lor new_entry kPageUser else new_entry in
       store tbl3 index3 new_entry ;;
       ret accessor2);
  do entry3' <- load tbl3 index3;
  assert (if user_page then has_bit entry3' kPageUser
          else Z.land entry3' kPageUser =? 0) ;;
  (* Make sure there is a PT. *)
  do entry2 <- load tbl2 index2;
  do tbl1 <-
    (if has_bit entry2 kPagePresent
     then PageAccessor.new (Z.land entry2 kAddressMask)
     else
       do tbl_address <- allocate;
       do accessor1 <- PageAccessor.new tbl_address;
       zero_table accessor1 ;;
       let new_entry := Z.lor (Z.lor tbl_address kPagePresent) kPageWrite in
       let new_entry := if user_page then Z.lor new_entry kPageUser else new_entry in
       store tbl2 index2 new_entry ;;
       ret accessor1);
  do entry2' <- load tbl2 index2;
  assert (if user_page then has_bit entry2' kPageUser
          else Z.land entry2' kPageUser =? 0) ;;
  (* Setup the new PTE. *)
  do entry1 <- load tbl1 index1;
  assert (negb (has_bit entry1 kPagePresent)) ;;
  let new_entry := Z.lor physical kPagePresent in
  let new_entry := if user_page then Z.lor new_entry kPageUser else new_entry in
  let new_entry :=
    if has_bit flags page_access.write then Z.lor new_entry kPageWrite else new_entry in
  let new_entry :=
    if negb (has_bit flags page_access.execute) then Z.lor new_entry kPageXd else new_entry in
  do new_entry <-
    (if CachingMode.eqb caching_mode CachingMode.writeThrough then
       ret (Z.lor new_entry kPagePwt)
     else if CachingMode.eqb caching_mode CachingMode.writeCombine then
       ret (Z.lor new_entry (Z.lor kPagePat kPagePwt))
     else
       assert (CachingMode.eqb caching_mode CachingMode.null
               || CachingMode.eqb caching_mode CachingMode.writeBack) ;;
       ret new_entry);
  store tbl1 index1 new_entry.

(** One iteration of the loop of [unmapRange] (lines 565-598) at the
    virtual address [va = pointer + progress]; [continue] returns. *)
Definition unmapRange_body (rootTable va : Z) (mode : PageMode.t) : M PtState unit :=
  let index4 := index4 va in
  let index3 := index3 va in
  let index2 := index2 va in
  let index1 := index1 va in
  (* The PML4 is always present. *)
  do tbl4 <- PageAccessor.new rootTable;
  (* Find the PDPT. *)
  do entry4 <- load tbl4 index4;
  if PageMode.eqb mode PageMode.remap && negb (has_bit entry4 kPagePresent) then ret tt else
  assert (has_bit entry4 kPagePresent) ;;
  do tbl3 <- PageAccessor.new (Z.land entry4 kAddressMask);
  (* Find the PD. *)
  do entry3 <- load tbl3 index3;
  if PageMode.eqb mode PageMode.remap && negb (has_bit entry3 kPagePresent) then ret tt else
  assert (has_bit entry3 kPagePresent) ;;
  do tbl2 <- PageAccessor.new (Z.land entry3 kAddressMask);
  (* Find the PT. *)
  do entry2 <- load tbl2 index2;
  if PageMode.eqb mode PageMode.remap && negb (has_bit entry2 kPagePresent) then ret tt else
  assert (has_bit entry2 kPagePresent) ;;
  do tbl1 <- PageAccessor.new (Z.land entry2 kAddressMask);
  do entry1 <- load tbl1 index1;
  if PageMode.eqb mode PageMode.remap && negb (has_bit entry1 kPagePresent) then ret tt else
  assert (has_bit entry1 kPagePresent) ;;
  store tbl1 index1 (Z.land entry1 kNotPresent64).

(** [for(size_t progress = 0; progress < size; progress += kPageSize)]:
    [n] iterations are left, [pointer + progress] is computed in 64 bits. *)
Fixpoint unmapRange_loop (rootTable pointer : Z) (mode : PageMode.t)
    (progress : Z) (n : nat) : M PtState unit :=
  match n with
  | O => ret tt
  | S n' =>
      unmapRange_body rootTable ((pointer + progress) mod 2 ^ 64) mode ;;
      unmapRange_loop rootTable pointer mode (progress + kPageSize) n'
  end.

(** [ClientPageSpace::unmapRange], paging.cpp lines 547-600.  [size] is a
    multiple of the page size once the second assertion has passed, so
    the loop runs [size / kPageSize] times. *)
Definition unmapRange (rootTable pointer size : Z) (mode : PageMode.t) : M PtState unit :=
  assert (negb (has_bit pointer (kPageSize - 1))) ;;
  assert (negb (has_bit size (kPageSize - 1))) ;;
  unmapRange_loop rootTable pointer mode 0 (Z.to_nat (size / kPageSize)).

(** [ClientPageSpace::isMapped], paging.cpp lines 602-646. *)
Definition isMapped (rootTable pointer : Z) : M PtState bool :=
  assert (negb (has_bit pointer (kPageSize - 1))) ;;
  let index4 := index4 pointer in
  let index3 := index3 pointer in
  let index2 := index2 pointer in
  let index1 := index1 pointer in
  (* The PML4 is always present. *)
  do tbl4 <- PageAccessor.new rootTable;
  (* Find the PDPT. *)
  do entry4 <- load tbl4 index4;
  if negb (has_bit entry4 kPagePresent) then ret false else
  do tbl3 <- PageAccessor.new (Z.land entry4 kAddressMask);
  (* Find the PD. *)
  do entry3 <- load tbl3 index3;
  if negb (has_bit entry3 kPagePresent) then ret false else
  do tbl2 <- PageAccessor.new (Z.land entry3 kAddressMask);
  (* Find the PT. *)
  do entry2 <- load tbl2 index2;
  if negb (has_bit entry2 kPagePresent) then ret false else
  do tbl1 <- PageAccessor.new (Z.land entry2 kAddressMask);
  do entry1 <- load tbl1 index1;
  ret (has_bit entry1 kPagePresent).

End ClientPageSpace.

(** *** The hardware's reading of a page table

    What the MMU does with a tree of tables: starting at a table, follow the
    present entries through the given indices.  These definitions state what
    "the leaf PTE of [v]" and "the entries along the walk path of [v]" are;
    they are not part of paging.cpp. *)

Definition present (w : Z) : bool := Z.testbit w 0.

Definition indices (v : Z) : list Z := [index4 v; index3 v; index2 v; index1 v].

(** Word address of the last entry the walk reaches, if every entry before
    it is present. *)
Fixpoint walk (m : Z → Z) (tbl : Z) (idxs : list Z) : option Z :=
  match idxs with
  | [] => None
  | [i] => Some (tbl + 8 * i)
  | i :: rest =>
      let e := m (tbl + 8 * i) in
      if present e then walk m (Z.land e kAddressMask) rest else None
  end.

(** Word addresses of the entries the walk reads, outermost first; it stops
    after the first entry that is not present. *)
Fixpoint walk_path (m : Z → Z) (tbl : Z) (idxs : list Z) : list Z :=
  match idxs with
  | [] => []
  | i :: rest =>
      let a := tbl + 8 * i in
      a :: (if present (m a) then walk_path m (Z.land (m a) kAddressMask) rest else [])
  end.

(** Tables the walk goes through, the root first. *)
Fixpoint walk_tables (m : Z → Z) (tbl : Z) (idxs : list Z) : list Z :=
  tbl :: match idxs with
         | [] => []
         | i :: rest =>
             let e := m (tbl + 8 * i) in
             if present e then walk_tables m (Z.land e kAddressMask) rest else []
         end.

Definition leaf_address (m : Z → Z) (root v : Z) : option Z := walk m root (indices v).

(** "A present leaf PTE exists for [v]". *)
Definition leaf_present (m : Z → Z) (root v : Z) : bool :=
  match leaf_address m root v with
  | Some a => present (m a)
  | None => false
  end.

(** The tables above the leaf table on the path of [v], as far as present. *)
Definition tables_of (m : Z → Z) (root v : Z) : list Z :=
  walk_tables m root [index4 v; index3 v; index2 v].

(** A byte address lies in the frame [f]. *)
Definition in_frame (f a : Z) : Prop := f ≤ a < f + kPageSize.

Definition page_aligned (a : Z) : Prop := a mod kPageSize = 0.

(** What the walkers need from the allocator: the frames it hands out are
    page-aligned addresses below 2^52, no frame is handed out twice, and none
    of them is a table on the path of [v]. *)
Definition fresh_frames (s : PtState) (root v : Z) : Prop :=
  page_aligned root ∧
  NoDup (frames s) ∧
  Forall (λ f, page_aligned f ∧ 0 ≤ f < 2 ^ 52) (frames s) ∧
  Forall (λ f, f ∉ tables_of (mem s) root v) (frames s).

(** *** Proof devices for the walkers

    The block "make sure there is a next-level table" occurs three times in
    each [mapSingle4k]; [make_table] is that block, with the accessor and
    the user flag as parameters ([KernelPageSpace] never sets the user bit). *)
Definition make_table (access : Z → M PtState Z) (user_page : bool)
    (tbl idx initial_entry : Z) : M PtState Z :=
  if has_bit initial_entry kPagePresent
  then access (Z.land initial_entry kAddressMask)
  else
    do page <- allocate;
    do p <- access page;
    zero_table p ;;
    let new_entry := Z.lor (Z.lor page kPagePresent) kPageWrite in
    let new_entry := if user_page then Z.lor new_entry kPageUser else new_entry in
    store tbl idx new_entry ;;
    ret p.

(** An accessor hands back the frame address and leaves the state alone. *)
Definition transparent (access : Z → M PtState Z) : Prop :=
  ∀ p s q s', access p s = Ok (q, s') → q = p ∧ s' = s.

(** No frame the allocator still holds contains the address [a]. *)
Definition outside_frames (s : PtState) (a : Z) : Prop :=
  Forall (λ f, ¬ in_frame f a) (frames s).

(** What holds of the allocator when the walk stands at table [tbl] and has
    the indices [idxs] before it. *)
Definition walk_inv (s : PtState) (tbl : Z) (idxs : list Z) : Prop :=
  page_aligned tbl ∧
  Forall (λ i, 0 ≤ i < 512) idxs ∧
  NoDup (frames s) ∧
  Forall (λ f, page_aligned f ∧ 0 ≤ f < 2 ^ 52) (frames s) ∧
  Forall (λ f, f ∉ walk_tables (mem s) tbl idxs) (frames s).

(** The entry that [make_table] installs for a new table in frame [page]. *)
Definition table_entry (page : Z) (user_page : bool) : Z :=
  let new_entry := Z.lor (Z.lor page kPagePresent) kPageWrite in
  if user_page then Z.lor new_entry kPageUser else new_entry.

(** The leaf word that [KernelPageSpace::mapSingle4k] stores (lines 369-380)
    when the caching mode passes its assertion. *)
Definition kernel_leaf (physical flags : Z) (caching_mode : CachingMode.t) : Z :=
  let new_entry := Z.lor (Z.lor physical kPagePresent) kPageGlobal in
  let new_entry :=
    if has_bit flags page_access.write then Z.lor new_entry kPageWrite else new_entry in
  let new_entry :=
    if negb (has_bit flags page_access.execute) then Z.lor new_entry kPageXd else new_entry in
  if CachingMode.eqb caching_mode CachingMode.writeThrough then Z.lor new_entry kPagePwt
  else if CachingMode.eqb caching_mode CachingMode.writeCombine
       then Z.lor new_entry (Z.lor kPagePat kPagePwt)
       else new_entry.

(** The leaf word that [ClientPageSpace::mapSingle4k] stores (lines 530-543). *)
Definition client_leaf (physical : Z) (user_page : bool) (flags : Z)
    (caching_mode : CachingMode.t) : Z :=
  let new_entry := Z.lor physical kPagePresent in
  let new_entry := if user_page then Z.lor new_entry kPageUser else new_entry in
  let new_entry :=
    if has_bit flags page_access.write then Z.lor new_entry kPageWrite else new_entry in
  let new_entry :=
    if negb (has_bit flags page_access.execute) then Z.lor new_entry kPageXd else new_entry in
  if CachingMode.eqb caching_mode CachingMode.writeThrough then Z.lor new_entry kPagePwt
  else if CachingMode.eqb caching_mode CachingMode.writeCombine
       then Z.lor new_entry (Z.lor kPagePat kPagePwt)
       else new_entry.

Record mapped (m0 m' : Z → Z) (fr0 fr' : list Z) (root : Z) (i4 i3 i2 i1 : Z)
    (t3 t2 t1 e4 e3 e2 leaf : Z) : Prop := mkMapped {
  mapped_e4 : m' (root + 8 * i4) = e4;
  mapped_e3 : m' (t3 + 8 * i3) = e3;
  mapped_e2 : m' (t2 + 8 * i2) = e2;
  mapped_leaf : m' (t1 + 8 * i1) = leaf;
  mapped_p4 : present e4 = true;
  mapped_p3 : present e3 = true;
  mapped_p2 : present e2 = true;
  mapped_t3 : Z.land e4 kAddressMask = t3;
  mapped_t2 : Z.land e3 kAddressMask = t2;
  mapped_t1 : Z.land e2 kAddressMask = t1;
  mapped_frame :
    ∀ b, Forall (λ f, ¬ in_frame f b) fr0 →
         b ≠ root + 8 * i4 → b ≠ t3 + 8 * i3 → b ≠ t2 + 8 * i2 → b ≠ t1 + 8 * i1 →
         m' b = m0 b;
  mapped_kept :
    ∀ b, present (m0 b) = true → Forall (λ f, ¬ in_frame f b) fr0 →
         b ≠ t1 + 8 * i1 → m' b = m0 b;
  mapped_frames : ∃ used, fr0 = used ++ fr';
  mapped_n4 : root + 8 * i4 ≠ t1 + 8 * i1;
  mapped_n3 : t3 + 8 * i3 ≠ t1 + 8 * i1;
  mapped_n2 : t2 + 8 * i2 ≠ t1 + 8 * i1
}.

(** *** Readings of a leaf word, and states to run the walkers on *)

(** The three cache-control bits of a PTE: PWT (bit 3), PCD (bit 4) and
    PAT (bit 7). *)
Definition cache_bits (w : Z) : bool * bool * bool :=
  (Z.testbit w 3, Z.testbit w 4, Z.testbit w 7).

(** The encoding of a caching mode in (PWT, PCD, PAT) that the data model
    of the specification gives. *)
Definition cache_encoding (c : CachingMode.t) : bool * bool * bool :=
  match c with
  | CachingMode.null | CachingMode.writeBack => (false, false, false)
  | CachingMode.writeThrough => (true, false, false)
  | CachingMode.writeCombine => (true, false, true)
  | CachingMode.uncached => (false, true, false)
  end.

Definition sets_pwt (c : CachingMode.t) : bool :=
  CachingMode.eqb c CachingMode.writeThrough || CachingMode.eqb c CachingMode.writeCombine.

Definition sets_pat (c : CachingMode.t) : bool :=
  CachingMode.eqb c CachingMode.writeCombine.

(** The leaves of the [n] pages from [pointer + progress] on. *)
Definition range_leaf (m : Z → Z) (root pointer progress : Z) (n : nat) (a : Z) : Prop :=
  ∃ k, (k < n)%nat ∧
       leaf_address m root ((pointer + (progress + kPageSize * Z.of_nat k)) mod 2 ^ 64)
       = Some a.

(** A state to run the walkers on: memory is all zero, the root table is the
    frame [0x1000], and the allocator holds three more frames. *)
Definition empty_memory : PtState :=
  mkPtState (λ _, 0) [0x2000; 0x3000; 0x4000].

(** The kernel map of [0x7000] on [empty_memory], and the unmap after it. *)
Definition after_map : PtState :=
  state_after (KernelPageSpace.mapSingle4k 0x1000 0x7000 0x5000 page_access.write
                 CachingMode.null empty_memory) empty_memory.

Definition after_map_and_unmap : PtState :=
  state_after (KernelPageSpace.unmapSingle4k 0x1000 0x7000 after_map) after_map.

(** A state in which the leaf of [0x7000] is mapped: the state after the
    client map on [empty_memory]. *)
Definition one_mapping : PtState :=
  state_after (ClientPageSpace.mapSingle4k 0x1000 0x7000 0x5000 true page_access.write
                 CachingMode.null empty_memory) empty_memory.

(** A PML4 whose entry 0 is present and points to the frame at 2^46, the
    first one outside of the identity window. *)
Definition table_outside_window : PtState :=
  mkPtState (<[0x1000 := 0x400000000001]> (λ _, 0)) [].

(** The loop [for(size_t i = 256; i < 512; i++)] of the constructor of
    [ClientPageSpace] (paging.cpp lines 438-441), with [n] iterations left. *)
Fixpoint share_top_half (tbl4 kernel_table : Z) (i : Z) (n : nat) : M PtState unit :=
  match n with
  | O => ret tt
  | S n' =>
      do entry <- load kernel_table i;
      assert (has_bit entry kPagePresent) ;;
      do entry' <- load kernel_table i;
      store tbl4 i entry' ;;
      share_top_half tbl4 kernel_table (i + 1) n'
  end.

(** [ClientPageSpace::ClientPageSpace], paging.cpp lines 425-443.
    [kernel_pml4] is [KernelPageSpace::global().rootTable()]; the result is
    the root table that the new space is constructed with. *)
Definition ClientPageSpace_new (kernel_pml4 : Z) : M PtState Z :=
  do root_table <- allocate;
  (* Initialize the bottom half to unmapped memory. *)
  do tbl4 <- PageAccessor.new root_table;
  (λ s, Ok (tt, mkPtState (zero_words tbl4 0 256 (mem s)) (frames s))) ;;
  (* Share the top half with the kernel. *)
  do kernel_table <- SkeletalRegion_access kernel_pml4;
  share_top_half tbl4 kernel_table 256 256 ;;
  ret root_table.

(** The page that the loop of [unmapRange] works on in its iteration [k],
    counted from the one at [pointer + progress]. *)
Definition range_page (pointer progress : Z) (k : nat) : Z :=
  (pointer + (progress + kPageSize * Z.of_nat k)) mod 2 ^ 64.

(** The tables on the walk of [v] lie in the identity window, below
    [0x4000'0000'0000], where [PageAccessor] accepts them. *)
Definition in_window (m : Z → Z) (root v : Z) : Prop :=
  Forall (λ t, t < 0x400000000000) (tables_of m root v).

(** A state to construct a client space in: the kernel's PML4 is the frame
    [0x1000], its 256 top entries are present and point to the table in the
    frame [0x10000], every other word is zero; the allocator holds three
    frames. *)
Definition kernel_half : PtState :=
  mkPtState (λ a, if (0x1800 <=? a) && (a <? 0x2000) then 0x10003 else 0)
            [0x2000; 0x3000; 0x4000].

(** The state after the constructor of [ClientPageSpace] has run on it. *)
Definition client_created : PtState :=
  state_after (ClientPageSpace_new 0x1000 kernel_half) kernel_half.

(** The first page of the kernel half of the address space. *)
Definition kernel_half_base : Z := 0xFFFF800000000000.

(** The number of tables that [mapSingle4k] has to make for [v]: one for
    each level below the first entry on the walk that is not present. *)
Definition missing_tables (m : Z → Z) (root v : Z) : nat :=
  (4 - length (tables_of m root v))%nat.

(** The present entries above the leaf on the walk of [v] have the user bit
    exactly if [user_page]: what the assertions after the three table blocks
    of [mapSingle4k] ask for ([KernelPageSpace] asks for no user bit). *)
Definition path_user (m : Z → Z) (root v : Z) (user_page : bool) : Prop :=
  Forall (λ a, present (m a) = true → Z.testbit (m a) 2 = user_page)
         (walk_path m root [index4 v; index3 v; index2 v]).

(** What makes the walk of [mapSingle4k] go through when it stands at table
    [tbl] with the indices [idxs] above the leaf index [i1] before it: the
    allocator holds a frame for every missing table, those frames and the
    tables on the walk are acceptable to the accessor ([okp]), the present
    entries have the right user bit, and the leaf is not present. *)
Definition walk_ready (okp : Z → Prop) (user_page : bool) (i1 : Z)
    (s : PtState) (tbl : Z) (idxs : list Z) : Prop :=
  walk_inv s tbl idxs ∧
  (S (length idxs) - length (walk_tables (mem s) tbl idxs) ≤ length (frames s))%nat ∧
  Forall (λ a, present (mem s a) = true → Z.testbit (mem s a) 2 = user_page)
         (walk_path (mem s) tbl idxs) ∧
  Forall okp (walk_tables (mem s) tbl idxs) ∧
  Forall okp (take (S (length idxs) - length (walk_tables (mem s) tbl idxs)) (frames s)) ∧
  (∀ a, walk (mem s) tbl (idxs ++ [i1]) = Some a → present (mem s a) = false).

(* ===================================================================== *)
(** ** Part 2: bindings, spaces and shootdown *)
(* ===================================================================== *)

(** [maxPcidCount] of paging.hpp. *)
Definition maxPcidCount : nat := 8.

Module ShootNode.
(** [struct ShootNode].  [id] stands for the address of the node object
    (what [shotDown] is called with); the list hook is the position of the
    node in [_shootQueue]. *)
Record t : Type := mk {
  id : nat;
  address : Z;
  size : Z;
  _sequence : Z;
  _bindingsToShoot : Z
}.
End ShootNode.

(** [struct PageSpace].  Spaces are named by numbers; a [SharedPtr] or
    [WeakPtr] to a space is its number. *)
Record PageSpace : Type := mkPageSpace {
  _rootTable : Z;
  _numBindings : Z;
  _shootSequence : Z;
  _shootQueue : list ShootNode.t
}.

(** [struct PageBinding].  [_boundSpace] is the weak pointer: [None] is the
    empty pointer, [Some s] points to the space [s], which may have been
    destroyed since. *)
Record PageBinding : Type := mkPageBinding {
  _pcid : Z;
  _boundSpace : option nat;
  _wasRebound : bool;
  _primaryStamp : Z;
  _alreadyShotSequence : Z
}.

(** [struct PageContext].  [_primaryBinding] points into the [pcidBindings]
    array of the same CPU: it is an index, or [None] for [nullptr]. *)
Record PageContext : Type := mkPageContext {
  _nextStamp : Z;
  _primaryBinding : option nat
}.

(** What [getCpuData()] gives to paging.cpp, and the interrupt flag that
    [intsAreEnabled()] reads. *)
Record CpuData : Type := mkCpuData {
  havePcids : bool;
  intsEnabled : bool;
  pageContext : PageContext;
  pcidBindings : nat → PageBinding
}.

(** Effects that leave the modelled state: writes of CR3, TLB invalidation
    instructions, taking and releasing [PageSpace::_mutex], completion
    callbacks and the shootdown IPI. *)
Inductive Event : Type :=
| EvWriteCr3 (cr3 : Z)
| EvInvalidatePcid (pcid : Z)
| EvInvalidatePage (address : Z)
| EvInvalidatePagePcid (pcid address : Z)
| EvAcquire (space : nat)
| EvRelease (space : nat)
| EvShotDown (node : nat)
| EvShootdownIpi.

(** The state that code running on one CPU works on: that CPU's data, the
    spaces that are alive, and the effects so far (oldest first). *)
Record State : Type := mkState {
  cpu : CpuData;
  spaces : gmap nat PageSpace;
  events : list Event
}.

(** [PageContext()] and [PageBinding()]. *)
Definition PageContext_new : PageContext := mkPageContext 1 None.
Definition PageBinding_new : PageBinding := mkPageBinding 0 None false 0 0.
(** [PageSpace(root_table)]. *)
Definition PageSpace_new (root_table : Z) : PageSpace := mkPageSpace root_table 0 0 [].

Definition getCpuData : M State CpuData := λ s, Ok (cpu s, s).

Definition emit (e : Event) : M State unit :=
  λ s, Ok (tt, mkState (cpu s) (spaces s) (events s ++ [e])).

Fixpoint emit_all (es : list Event) : M State unit :=
  match es with
  | [] => ret tt
  | e :: es' => emit e ;; emit_all es'
  end.

(** Upgrading a weak pointer against the spaces that are alive. *)
Definition upgrade (alive : gmap nat PageSpace) (w : option nat) : option nat :=
  match w with
  | Some sp => match alive !! sp with Some _ => Some sp | None => None end
  | None => None
  end.

(** [WeakPtr::grab()]: the space, if it is still alive. *)
Definition grab (w : option nat) : M State (option nat) :=
  λ s, Ok (upgrade (spaces s) w, s).

(** Reading and writing the object behind a [PageSpace *]. *)
Definition deref (sp : nat) : M State PageSpace :=
  λ s, match spaces s !! sp with
       | Some v => Ok (v, s)
       | None => Fault
       end.
Definition put_space (sp : nat) (v : PageSpace) : M State unit :=
  λ s, Ok (tt, mkState (cpu s) (<[sp := v]> (spaces s)) (events s)).

(** Reading and writing [getCpuData()->pcidBindings[i]] and
    [getCpuData()->pageContext]. *)
Definition binding (i : nat) : M State PageBinding :=
  λ s, Ok (pcidBindings (cpu s) i, s).
Definition put_binding (i : nat) (b : PageBinding) : M State unit :=
  λ s, Ok (tt, mkState
             (mkCpuData (havePcids (cpu s)) (intsEnabled (cpu s)) (pageContext (cpu s))
                        (<[i := b]> (pcidBindings (cpu s))))
             (spaces s) (events s)).
Definition put_context (c : PageContext) : M State unit :=
  λ s, Ok (tt, mkState
             (mkCpuData (havePcids (cpu s)) (intsEnabled (cpu s)) c (pcidBindings (cpu s)))
             (spaces s) (events s)).

(** [while(!complete.empty()) { current = complete.pop_front(); current->shotDown(current); }] *)
Fixpoint run_complete (complete : list ShootNode.t) : M State unit :=
  match complete with
  | [] => ret tt
  | current :: rest => emit (EvShotDown (ShootNode.id current)) ;; run_complete rest
  end.

(** [fetch_sub(1)] on the [unsigned int] counter of a node: the node after
    the decrement. *)
Definition fetch_sub_1 (n : ShootNode.t) : ShootNode.t :=
  ShootNode.mk (ShootNode.id n) (ShootNode.address n) (ShootNode.size n)
    (ShootNode._sequence n) ((ShootNode._bindingsToShoot n - 1) mod 2 ^ 32).

(** The addresses [address + pg] for [pg = 0, kPageSize, ..] below [size]. *)
Definition pages_of (n : ShootNode.t) : list Z :=
  map (λ k, (ShootNode.address n + kPageSize * Z.of_nat k) mod 2 ^ 64)
      (seq 0 (Z.to_nat (ShootNode.size n / kPageSize))).

Module PageBinding.

(** [PageBinding::makePrimary], paging.cpp lines 73-91. *)
Definition makePrimary (this : nat) : M State unit :=
  do c <- getCpuData;
  assert (negb (intsEnabled c)) ;;
  do b <- binding this;
  assert (havePcids c || (_pcid b =? 0)) ;;
  let context := pageContext c in
  (* If we are the primary binding, we might be able to avoid changing CR3. *)
  (if _wasRebound b || negb (bool_decide (_primaryBinding context = Some this)) then
     do space <- grab (_boundSpace b);
     match space with
     | None => assert false
     | Some sp =>
         do s <- deref sp;
         let cr3 := Z.lor (_rootTable s) (_pcid b) in
         let cr3 := if havePcids c then Z.lor cr3 (Z.shiftl 1 63) else cr3 in
         emit (EvWriteCr3 cr3)
     end
   else ret tt) ;;
  put_binding this
    (mkPageBinding (_pcid b) (_boundSpace b) false (_nextStamp context)
                   (_alreadyShotSequence b)) ;;
  put_context (mkPageContext ((_nextStamp context + 1) mod 2 ^ 64) (Some this)).

(** The backward walk over the queue in [rebind] (lines 120-134).  [rq] is
    the queue from [current] towards the front; the result is what stays
    of it, and [complete] with the erased nodes pushed to its front. *)
Fixpoint rebind_scan (already : Z) (rq complete : list ShootNode.t)
    : list ShootNode.t * list ShootNode.t :=
  match rq with
  | [] => ([], complete)
  | current :: predecessors =>
      if ShootNode._sequence current >? already then
        (* Signal completion of the shootdown. *)
        if ShootNode._bindingsToShoot current =? 1 then
          rebind_scan already predecessors (fetch_sub_1 current :: complete)
        else
          let '(rest, complete') := rebind_scan already predecessors complete in
          (fetch_sub_1 current :: rest, complete')
      else (rq, complete)
  end.

(** [PageBinding::rebind], paging.cpp lines 93-155. *)
Definition rebind (this : nat) (space : nat) : M State unit :=
  do c <- getCpuData;
  assert (negb (intsEnabled c)) ;;
  do b <- binding this;
  do unbound <- grab (_boundSpace b);
  if bool_decide (unbound = Some space) then ret tt else
  (* If we switch to another space, we have to invalidate PCIDs. *)
  (if havePcids c then emit (EvInvalidatePcid (_pcid b)) else ret tt) ;;
  put_binding this
    (mkPageBinding (_pcid b) (_boundSpace b) true (_primaryStamp b)
                   (_alreadyShotSequence b)) ;;
  (* Mark everything as shot-down. *)
  do complete <-
    (match unbound with
     | Some u =>
         emit (EvAcquire u) ;;
         do sp <- deref u;
         let '(rq, complete) :=
           rebind_scan (_alreadyShotSequence b) (rev (_shootQueue sp)) [] in
         put_space u
           (mkPageSpace (_rootTable sp) ((_numBindings sp - 1) mod 2 ^ 32)
                        (_shootSequence sp) (rev rq)) ;;
         emit (EvRelease u) ;;
         ret complete
     | None => ret []
     end);
  run_complete complete ;;
  emit (EvAcquire space) ;;
  do sp <- deref space;
  let target_seq := _shootSequence sp in
  put_space space
    (mkPageSpace (_rootTable sp) ((_numBindings sp + 1) mod 2 ^ 32)
                 (_shootSequence sp) (_shootQueue sp)) ;;
  emit (EvRelease space) ;;
  put_binding this (mkPageBinding (_pcid b) (Some space) true (_primaryStamp b) target_seq).

(** The backward walk over the queue in [shootdown] (lines 189-216). *)
Fixpoint shootdown_scan (have_pcids : bool) (pcid already : Z)
    (rq complete : list ShootNode.t) : M State (list ShootNode.t * list ShootNode.t) :=
  match rq with
  | [] => ret ([], complete)
  | current :: predecessors =>
      if ShootNode._sequence current >? already then
        (* Perform the actual shootdown. *)
        assert (negb (has_bit (ShootNode.address current) (kPageSize - 1))) ;;
        assert (negb (has_bit (ShootNode.size current) (kPageSize - 1))) ;;
        (if negb have_pcids then
           assert (pcid =? 0) ;;
           emit_all (map EvInvalidatePage (pages_of current))
         else
           emit_all (map (EvInvalidatePagePcid pcid) (pages_of current))) ;;
        (* Signal completion of the shootdown. *)
        if ShootNode._bindingsToShoot current =? 1 then
          shootdown_scan have_pcids pcid already predecessors (fetch_sub_1 current :: complete)
        else
          do r <- shootdown_scan have_pcids pcid already predecessors complete;
          ret (fetch_sub_1 current :: r.1, r.2)
      else ret (rq, complete)
  end.

(** [PageBinding::shootdown], paging.cpp lines 157-225. *)
Definition shootdown (this : nat) : M State unit :=
  do c <- getCpuData;
  assert (negb (intsEnabled c)) ;;
  do b <- binding this;
  do space <- grab (_boundSpace b);
  match space with
  | None =>
      (* Unbind PageSpaces that have are not alive anymore. *)
      match _boundSpace b with
      | Some _ =>
          emit (EvInvalidatePcid (_pcid b)) ;;
          put_binding this
            (mkPageBinding (_pcid b) None (_wasRebound b) (_primaryStamp b)
                           (_alreadyShotSequence b))
      | None => ret tt
      end
  | Some s =>
      emit (EvAcquire s) ;;
      do sp <- deref s;
      match rev (_shootQueue sp) with
      | [] => emit (EvRelease s)
      | back :: _ =>
          let target_seq := ShootNode._sequence back in
          do r <- shootdown_scan (havePcids c) (_pcid b) (_alreadyShotSequence b)
                    (rev (_shootQueue sp)) [];
          put_space s
            (mkPageSpace (_rootTable sp) (_numBindings sp) (_shootSequence sp) (rev r.1)) ;;
          emit (EvRelease s) ;;
          run_complete r.2 ;;
          put_binding this
            (mkPageBinding (_pcid b) (_boundSpace b) (_wasRebound b) (_primaryStamp b)
                           target_seq)
      end
  end.

End PageBinding.

Module PageSpace.

(** What the loop of [activate] (lines 234-250) decides: it returned after
    [makePrimary] on binding [i], or it left the loop with [k]. *)
Inductive choice : Set :=
| Keep (i : nat)
| Rebind (k : nat).

(** The loop [for(int i = 0; i < maxPcidCount; i++)] with [n] iterations
    left. *)
Fixpoint activate_loop (c : CpuData) (alive : gmap nat PageSpace) (space : nat)
    (n : nat) (i k : nat) : choice :=
  match n with
  | O => Rebind k
  | S n' =>
      (* If the space is currently bound, always keep that binding. *)
      let bound := upgrade alive (_boundSpace (pcidBindings c i)) in
      if bool_decide (bound = Some space) then Keep i
      (* If PCIDs are not supported, we only use the first binding. *)
      else if negb (havePcids c) then Rebind k
      (* Otherwise, prefer the LRU binding. *)
      else activate_loop c alive space n' (S i)
             (if _primaryStamp (pcidBindings c i) <? _primaryStamp (pcidBindings c k)
              then i else k)
  end.

(** [PageSpace::activate], paging.cpp lines 231-254. *)
Definition activate (space : nat) : M State unit :=
  λ s,
    match activate_loop (cpu s) (spaces s) space maxPcidCount 0 0 with
    | Keep i => PageBinding.makePrimary i s
    | Rebind k => (PageBinding.rebind k space ;; PageBinding.makePrimary k) s
    end.

(** [PageSpace::submitShootdown], paging.cpp lines 260-279, on the space
    [this]; the result is the node object after the call. *)
Definition submitShootdown (this : nat) (node : ShootNode.t) : M State ShootNode.t :=
  emit (EvAcquire this) ;;
  do sp <- deref this;
  let any_bindings := negb (_numBindings sp =? 0) in
  do node' <-
    (if any_bindings then
       let node' :=
         ShootNode.mk (ShootNode.id node) (ShootNode.address node) (ShootNode.size node)
                      (_shootSequence sp) (_numBindings sp) in
       put_space this
         (mkPageSpace (_rootTable sp) (_numBindings sp)
                      ((_shootSequence sp + 1) mod 2 ^ 64)
                      (_shootQueue sp ++ [node'])) ;;
       ret node'
     else ret node);
  emit (EvRelease this) ;;
  (if any_bindings then emit EvShootdownIpi
   else emit (EvShotDown (ShootNode.id node))) ;;
  ret node'.

End PageSpace.

(** *** The whole machine *)

Record System : Type := mkSystem {
  cpus : list CpuData;
  sys_spaces : gmap nat PageSpace;
  sys_events : list Event
}.

(** Running kernel code on CPU [c]. *)
Definition on_cpu {A} (c : nat) (op : M State A) : M System A :=
  λ sys,
    match cpus sys !! c with
    | None => Fault
    | Some cd =>
        match op (mkState cd (sys_spaces sys) (sys_events sys)) with
        | Ok (a, s') => Ok (a, mkSystem (<[c := cpu s']> (cpus sys)) (spaces s') (events s'))
        | AssertFail => AssertFail
        | AllocFail => AllocFail
        | Fault => Fault
        end
    end.

(** Modelled from the spec: CPU bring-up, which is not in paging.cpp.  The
    context and the bindings are default-constructed; on a PCID-capable CPU
    binding [i] gets the tag [i + 1] through [setupPcid], otherwise all tags
    stay 0. *)
Definition CpuData_init (have_pcids : bool) : CpuData :=
  mkCpuData have_pcids false PageContext_new
    (λ i, mkPageBinding (if have_pcids then Z.of_nat i + 1 else 0) None false 0 0).

Definition System_init (pcids : list bool) : System :=
  mkSystem (map CpuData_init pcids) ∅ [].

(** The bindings of a CPU, as a list. *)
Definition bindings_of (c : CpuData) : list PageBinding :=
  map (pcidBindings c) (seq 0 maxPcidCount).

(** Number of bindings, over all CPUs, that are bound to the live space [sp]
    and satisfy [p]. *)
Definition count_bindings (sys : System) (sp : nat) (p : PageBinding → bool) : nat :=
  length (filter (λ b, _boundSpace b = Some sp ∧ p b = true)
                 (concat (map bindings_of (cpus sys)))).

(** No binding of the machine holds a weak pointer to [sp]. *)
Definition unreferenced (sys : System) (sp : nat) : Prop :=
  Forall (λ b, _boundSpace b ≠ Some sp) (concat (map bindings_of (cpus sys))).

(** What can happen on the machine, one step at a time: a context switch to
    a live space, the shootdown IPI handler on a binding, a submission, the
    creation and the destruction of a space, a change of the interrupt flag. *)
Inductive step : System → System → Prop :=
| step_activate c sp sys sys' :
    is_Some (sys_spaces sys !! sp) →
    on_cpu c (PageSpace.activate sp) sys = Ok (tt, sys') →
    step sys sys'
| step_shootdown c i sys sys' :
    (i < maxPcidCount)%nat →
    on_cpu c (PageBinding.shootdown i) sys = Ok (tt, sys') →
    step sys sys'
| step_submit c sp node node' sys sys' :
    on_cpu c (PageSpace.submitShootdown sp node) sys = Ok (node', sys') →
    step sys sys'
| step_create sp root_table sys :
    sys_spaces sys !! sp = None →
    unreferenced sys sp →
    step sys (mkSystem (cpus sys) (<[sp := PageSpace_new root_table]> (sys_spaces sys))
                       (sys_events sys))
| step_destroy sp sys :
    step sys (mkSystem (cpus sys) (delete sp (sys_spaces sys)) (sys_events sys))
| step_ints c cd enabled sys :
    cpus sys !! c = Some cd →
    step sys (mkSystem
                (<[c := mkCpuData (havePcids cd) enabled (pageContext cd) (pcidBindings cd)]>
                   (cpus sys))
                (sys_spaces sys) (sys_events sys)).

Inductive reachable : System → Prop :=
| reachable_init pcids : reachable (System_init pcids)
| reachable_step sys sys' : reachable sys → step sys sys' → reachable sys'.

(** Reachable in [n] steps. *)
Inductive reachable_in : nat → System → Prop :=
| reachable_in_init pcids : reachable_in 0 (System_init pcids)
| reachable_in_step n sys sys' :
    reachable_in n sys → step sys sys' → reachable_in (S n) sys'.

(** *** Properties of a CPU, and runs of the machine *)

(** Binding [i] of the CPU is bound to the live space [space]: what
    [bindings[i].boundSpace()] compares equal to [space]. *)
Definition bound_to (c : CpuData) (alive : gmap nat PageSpace) (i space : nat) : Prop :=
  upgrade alive (_boundSpace (pcidBindings c i)) = Some space.

#[global] Instance bound_to_dec c alive i space : Decision (bound_to c alive i space) :=
  decide (upgrade alive (_boundSpace (pcidBindings c i)) = Some space).

(** On a CPU without PCIDs only the first binding is ever bound. *)
Definition first_binding_only (c : CpuData) : Prop :=
  havePcids c = false → ∀ i, (0 < i)%nat → _boundSpace (pcidBindings c i) = None.

(** The LRU clock is ahead of every stamp it has handed out. *)
Definition stamps_below (c : CpuData) : Prop :=
  ∀ i, _primaryStamp (pcidBindings c i) < _nextStamp (pageContext c).

(** The LRU clock after at most [n] steps of the machine. *)
Definition clock_ok (n : nat) (c : CpuData) : Prop :=
  stamps_below c ∧ 0 ≤ _nextStamp (pageContext c) ≤ Z.of_nat n + 1.

(** The space [sp] comes to life with the root table [root_table]. *)
Definition create_space (sp : nat) (root_table : Z) (sys : System) : System :=
  mkSystem (cpus sys) (<[sp := PageSpace_new root_table]> (sys_spaces sys)) (sys_events sys).

(** Kernel code on CPU [c], from [sys]; the state stays if the code fails. *)
Definition after {A} (c : nat) (op : M State A) (sys : System) : System :=
  state_after (on_cpu c op sys) sys.

(** A node as its submitter prepares it: the private fields are not set. *)
Definition new_node (id : nat) (address size : Z) : ShootNode.t :=
  ShootNode.mk id address size 0 0.

(** One CPU without PCIDs; the space 1 is created and activated, then the
    node 7 is submitted on it; then the CPU takes the shootdown IPI; then the
    space 2 is created and activated, which rebinds binding 0 away from
    space 1. *)
Definition run1_bound : System :=
  after 0 (PageSpace.activate 1) (create_space 1 0x1000 (System_init [false])).

Definition run1_submitted : System :=
  after 0 (PageSpace.submitShootdown 1 (new_node 7 0x7000 0x1000)) run1_bound.

Definition run1_shot : System :=
  after 0 (PageBinding.shootdown 0) run1_submitted.

Definition run1_rebound : System :=
  after 0 (PageSpace.activate 2) (create_space 2 0x2000 run1_shot).

(** Two CPUs, both bound to the space 1; the nodes 1 and 2 are submitted;
    both CPUs take the shootdown IPI. *)
Definition run2_bound : System :=
  after 1 (PageSpace.activate 1)
    (after 0 (PageSpace.activate 1) (create_space 1 0x1000 (System_init [false; false]))).

Definition run2_submitted : System :=
  after 0 (PageSpace.submitShootdown 1 (new_node 2 0x8000 0x1000))
    (after 0 (PageSpace.submitShootdown 1 (new_node 1 0x7000 0x1000)) run2_bound).

Definition run2_shot : System :=
  after 1 (PageBinding.shootdown 0) (after 0 (PageBinding.shootdown 0) run2_submitted).

(** The queue of a space of the machine ([[]] if the space is dead). *)
Definition queue_of (sys : System) (sp : nat) : list ShootNode.t :=
  match sys_spaces sys !! sp with
  | Some v => _shootQueue v
  | None => []
  end.

(** The completion callbacks that have been called, oldest first. *)
Definition shot_down (sys : System) : list nat :=
  omap (λ e, match e with EvShotDown n => Some n | _ => None end) (sys_events sys).

(** One CPU with PCIDs on which the space 1 has been activated, and the data
    of that CPU. *)
Definition pcid_bound : System :=
  after 0 (PageSpace.activate 1) (create_space 1 0x1000 (System_init [true])).

Definition pcid_bound_cpu : CpuData :=
  default (CpuData_init true) (cpus pcid_bound !! 0%nat).

(** A CPU with PCIDs after bring-up, and one live space. *)
Definition fresh_cpu_state : State :=
  mkState (CpuData_init true) {[1%nat := PageSpace_new 0x1000]} [].

(** That CPU after it has activated the space 1 and the nodes 7 and 8 have
    been submitted on the space. *)
Definition queued_state : State :=
  let bound := state_after (PageSpace.activate 1 fresh_cpu_state) fresh_cpu_state in
  let first :=
    state_after (PageSpace.submitShootdown 1 (new_node 7 0x7000 0x1000) bound) bound in
  state_after (PageSpace.submitShootdown 1 (new_node 8 0x8000 0x1000) first) first.

(** The sequence counters as the unsigned numbers they are in the source. *)
Definition sequences_nonneg (alive : gmap nat PageSpace) : Prop :=
  ∀ sp v, alive !! sp = Some v →
    0 ≤ _shootSequence v ∧ ∀ N, N ∈ _shootQueue v → 0 ≤ ShootNode._sequence N.

Definition already_nonneg (c : CpuData) : Prop :=
  ∀ i, 0 ≤ _alreadyShotSequence (pcidBindings c i).

(** Every queued node with the sequence 0 is still queued, on the same
    space, afterwards. *)
Definition zero_stays (alive alive' : gmap nat PageSpace) : Prop :=
  ∀ sp v N, alive !! sp = Some v → N ∈ _shootQueue v → ShootNode._sequence N = 0 →
    ∃ v', alive' !! sp = Some v' ∧ N ∈ _shootQueue v'.

(** All sequence numbers of the machine are non-negative. *)
Definition machine_ok (sys : System) : Prop :=
  Forall already_nonneg (cpus sys) ∧ sequences_nonneg (sys_spaces sys).

(** The machine goes from one state to another while the space [sp] stays
    alive. *)
Inductive lives_on (sp : nat) : System → System → Prop :=
| lives_on_refl sys : lives_on sp sys sys
| lives_on_step sys sys' sys'' :
    lives_on sp sys sys' → step sys' sys'' → is_Some (sys_spaces sys'' !! sp) →
    lives_on sp sys sys''.

(** *** What one call leaves behind *)

(** The space [v] after a binding whose [_alreadyShotSequence] is [already]
    has left it in [rebind] (lines 120-137), and the nodes that this
    completes. *)
Definition left_space (already : Z) (v : PageSpace) : PageSpace :=
  mkPageSpace (_rootTable v) ((_numBindings v - 1) mod 2 ^ 32) (_shootSequence v)
    (rev (PageBinding.rebind_scan already (rev (_shootQueue v)) []).1).

Definition left_complete (already : Z) (v : PageSpace) : list ShootNode.t :=
  (PageBinding.rebind_scan already (rev (_shootQueue v)) []).2.

(** The space [v] after a binding has joined it in [rebind] (line 148). *)
Definition joined_space (v : PageSpace) : PageSpace :=
  mkPageSpace (_rootTable v) ((_numBindings v + 1) mod 2 ^ 32) (_shootSequence v)
    (_shootQueue v).

(** The space [v] after a binding whose [_alreadyShotSequence] is [already]
    has scanned its queue in [shootdown] (lines 189-216), and the nodes that
    this completes. *)
Definition shot_space (already : Z) (v : PageSpace) : PageSpace :=
  mkPageSpace (_rootTable v) (_numBindings v) (_shootSequence v)
    (rev (PageBinding.rebind_scan already (rev (_shootQueue v)) []).1).

(** The calls of [shotDown] on the nodes of [complete], front first. *)
Definition callbacks (complete : list ShootNode.t) : list Event :=
  map (λ n, EvShotDown (ShootNode.id n)) complete.

(** The value that [makePrimary] writes to CR3 (lines 83-86). *)
Definition cr3_value (have_pcids : bool) (root_table pcid : Z) : Z :=
  let cr3 := Z.lor root_table pcid in
  if have_pcids then Z.lor cr3 (Z.shiftl 1 63) else cr3.

(** TLB invalidation instructions. *)
Definition is_invalidation (e : Event) : bool :=
  match e with
  | EvInvalidatePcid _ | EvInvalidatePage _ | EvInvalidatePagePcid _ _ => true
  | _ => false
  end.

(** The discipline of [PageSpace::_mutex] in a sequence of effects, given
    the space whose mutex is held at its start: a mutex is taken only while
    none is held, only the mutex that is held is released, completion
    callbacks and the shootdown IPI happen only while none is held, and none
    is held at the end. *)
Fixpoint locks_ok (held : option nat) (es : list Event) : bool :=
  match es with
  | [] => match held with None => true | Some _ => false end
  | EvAcquire sp :: rest =>
      match held with None => locks_ok (Some sp) rest | Some _ => false end
  | EvRelease sp :: rest =>
      match held with
      | Some sp' => bool_decide (sp' = sp) && locks_ok None rest
      | None => false
      end
  | (EvShotDown _ | EvShootdownIpi) :: rest =>
      match held with None => locks_ok None rest | Some _ => false end
  | _ :: rest => locks_ok held rest
  end.

(** *** Invariants of the machine *)

(** Number of bindings of one CPU that point to the space [sp]. *)
Definition count_cpu (c : CpuData) (sp : nat) : nat :=
  length (filter (λ b, _boundSpace b = Some sp ∧ true = true) (bindings_of c)).

(** [_numBindings] of every live space is the number of bindings, over all
    CPUs, that are bound to it. *)
Definition counts_ok (sys : System) : Prop :=
  ∀ sp v, sys_spaces sys !! sp = Some v →
    _numBindings v = Z.of_nat (count_bindings sys sp (λ _, true)).

(** How one call on a CPU may change a live space's [_numBindings] and the
    number of the CPU's bindings that point to the space: both stay, or both
    go up by one, or both go down by one; and no space comes to life. *)
Definition counts_move (s s' : State) : Prop :=
  ∀ x v', spaces s' !! x = Some v' →
    ∃ v, spaces s !! x = Some v ∧
      (_numBindings v' = _numBindings v ∧
       count_cpu (cpu s') x = count_cpu (cpu s) x ∨
       _numBindings v' = (_numBindings v + 1) mod 2 ^ 32 ∧
       count_cpu (cpu s') x = S (count_cpu (cpu s) x) ∨
       _numBindings v' = (_numBindings v - 1) mod 2 ^ 32 ∧
       S (count_cpu (cpu s') x) = count_cpu (cpu s) x).

(** The nodes of [rq], the queue as the scans walk it from its back, have
    strictly falling sequence numbers below [hi]. *)
Fixpoint descending (hi : Z) (rq : list ShootNode.t) : Prop :=
  match rq with
  | [] => True
  | N :: rest => ShootNode._sequence N < hi ∧ descending (ShootNode._sequence N) rest
  end.

(** The order of the sequence numbers of two nodes. *)
Definition earlier (N M : ShootNode.t) : Prop :=
  ShootNode._sequence N < ShootNode._sequence M.

(** Every queue of the machine is in the order of its sequence numbers,
    which are below the number that the next submission gets, and that
    number is at most [n]. *)
Definition queues_ok (n : nat) (alive : gmap nat PageSpace) : Prop :=
  ∀ sp v, alive !! sp = Some v →
    descending (_shootSequence v) (rev (_shootQueue v)) ∧
    0 ≤ _shootSequence v ≤ Z.of_nat n.

(** The counter of every queued node is at least 1 and at most [B]. *)
Definition pending_ok (B : Z) (alive : gmap nat PageSpace) : Prop :=
  ∀ sp v, alive !! sp = Some v →
    Forall (λ N, 1 ≤ ShootNode._bindingsToShoot N ≤ B) (_shootQueue v).

(** What a binding whose [_alreadyShotSequence] is [already] owes to a
    node: one decrement of the counter if the node is newer. *)
Definition visit (already : Z) (N : ShootNode.t) : ShootNode.t :=
  if ShootNode._sequence N >? already then fetch_sub_1 N else N.

(** Whether binding [i] of the CPU points to [sp], as a number. *)
Definition points_to (c : CpuData) (sp : nat) (i : nat) : nat :=
  if decide (_boundSpace (pcidBindings c i) = Some sp) then 1%nat else 0%nat.

(** The nodes that the backward scans of [rebind] and [shootdown] visit:
    the nodes of [rq], the queue from its back, up to the first one that is
    not newer than [already]. *)
Fixpoint visited (already : Z) (rq : list ShootNode.t) : list ShootNode.t :=
  match rq with
  | [] => []
  | N :: rest =>
      if ShootNode._sequence N >? already then N :: visited already rest else []
  end.

(** [invalidatePage(address)], or [invalidatePage(pcid, address)] on a CPU
    with PCIDs, and the invalidations that [shootdown] issues for one node
    (lines 199-206): one for each page of the node. *)
Definition invalidation (have_pcids : bool) (pcid address : Z) : Event :=
  if have_pcids then EvInvalidatePagePcid pcid address else EvInvalidatePage address.

Definition invalidations (have_pcids : bool) (pcid : Z) (N : ShootNode.t) : list Event :=
  map (invalidation have_pcids pcid) (pages_of N).

(** A call has left the tags of the CPU alone. *)
Definition tags_kept (c c' : CpuData) : Prop :=
  havePcids c' = havePcids c ∧
  ∀ i, _pcid (pcidBindings c' i) = _pcid (pcidBindings c i).

(** The tags are those of CPU bring-up. *)
Definition tags_ok (c : CpuData) : Prop :=
  ∀ i, _pcid (pcidBindings c i) = if havePcids c then Z.of_nat i + 1 else 0.

(* ===================================================================== *)
(** ** Lemmas on the monad *)
(* ===================================================================== *)

Section monad_facts.
Context {S : Type}.

Lemma bind_inv {A B} (m : M S A) (f : A → M S B) s r :
  bind m f s = Ok r → ∃ a s1, m s = Ok (a, s1) ∧ f a s1 = Ok r.
Proof.
  unfold bind. destruct (m s) as [[a s1]| | |]; try discriminate. eauto.
Qed.

Lemma bind_run {A B} (m : M S A) (f : A → M S B) s a s1 :
  m s = Ok (a, s1) → bind m f s = f a s1.
Proof. unfold bind. intros ->. reflexivity. Qed.

Lemma assert_inv (c : bool) (s s' : S) u :
  assert c s = Ok (u, s') → c = true ∧ s' = s.
Proof. unfold assert. destruct c; [|discriminate]. intros [= _ ->]. auto. Qed.

Lemma ret_inv {A} (a b : A) (s s' : S) : ret a s = Ok (b, s') → b = a ∧ s' = s.
Proof. unfold ret. intros [= -> ->]. auto. Qed.
End monad_facts.

Lemma run_unit {S} (r : result (unit * S)) (d : S) :
  is_ok r = true → r = Ok (tt, state_after r d).
Proof. destruct r as [[[] s]| | |]; simpl; [reflexivity|discriminate..]. Qed.

Lemma run_any {S A} (r : result (A * S)) (d : S) :
  is_ok r = true → ∃ a, r = Ok (a, state_after r d).
Proof. destruct r as [[a s]| | |]; simpl; [eauto|discriminate..]. Qed.

(** Splits a run [H : (do x <- m; k) s = Ok r] into the run of [m] and the
    run of the rest, again and again, and simplifies the runs of the
    primitive operations. *)
Ltac run_prim H :=
  first
    [ apply assert_inv in H; destruct H as [H ->]
    | apply ret_inv in H; destruct H as [-> ->]
    | progress (unfold load, store, zero_table, SkeletalRegion_access, ret in H);
      injection H as <- <- ].

Ltac run_step H :=
  let a := fresh "a" in
  let s1 := fresh "s" in
  let Hm := fresh "Hm" in
  apply bind_inv in H; destruct H as (a & s1 & Hm & H); cbv zeta in H;
  try run_prim Hm.

(* ===================================================================== *)
(** ** Lemmas on PTE words *)
(* ===================================================================== *)

Lemma land_pow2 w k :
  0 ≤ k → Z.land w (2 ^ k) = if Z.testbit w k then 2 ^ k else 0.
Proof.
  intros Hk. apply Z.bits_inj'. intros n Hn.
  rewrite Z.land_spec, Z.pow2_bits_eqb by lia.
  destruct (Z.eqb_spec k n) as [->|Hne].
  - destruct (Z.testbit w n); simpl.
    + rewrite Z.pow2_bits_eqb by lia. symmetry. apply Z.eqb_refl.
    + symmetry. apply Z.bits_0.
  - rewrite andb_false_r. destruct (Z.testbit w k).
    + rewrite Z.pow2_bits_eqb by lia. symmetry. apply Z.eqb_neq. exact Hne.
    + symmetry. apply Z.bits_0.
Qed.

Lemma has_bit_pow2 w k : 0 ≤ k → has_bit w (2 ^ k) = Z.testbit w k.
Proof.
  intros Hk. unfold has_bit. rewrite land_pow2 by exact Hk.
  destruct (Z.testbit w k); [|reflexivity].
  apply negb_true_iff, Z.eqb_neq. pose proof (Z.pow_pos_nonneg 2 k). lia.
Qed.

Lemma has_bit_present w : has_bit w kPagePresent = present w.
Proof. exact (has_bit_pow2 w 0 ltac:(lia)). Qed.

Lemma has_bit_user w : has_bit w kPageUser = Z.testbit w 2.
Proof. exact (has_bit_pow2 w 2 ltac:(lia)). Qed.

Lemma land_present_zero w : (Z.land w kPagePresent =? 0) = negb (present w).
Proof. rewrite <- has_bit_present. unfold has_bit. symmetry. apply negb_involutive. Qed.

Lemma land_user_zero w : (Z.land w kPageUser =? 0) = negb (Z.testbit w 2).
Proof. rewrite <- has_bit_user. unfold has_bit. symmetry. apply negb_involutive. Qed.

Lemma has_bit_low12 x : has_bit x (kPageSize - 1) = negb (x mod kPageSize =? 0).
Proof.
  unfold has_bit. change (kPageSize - 1) with (Z.ones 12).
  rewrite Z.land_ones by lia. reflexivity.
Qed.

Lemma aligned_low_bits f n : page_aligned f → 0 ≤ n < 12 → Z.testbit f n = false.
Proof.
  unfold page_aligned. intros Hf Hn.
  apply Z.mod_divide in Hf; [|discriminate]. destruct Hf as [q ->].
  change kPageSize with (2 ^ 12). apply Z.mul_pow2_bits_low. lia.
Qed.

Lemma mask_bits n :
  0 ≤ n → Z.testbit kAddressMask n = (12 <=? n) && (n <? 52).
Proof.
  intros Hn. change kAddressMask with (Z.shiftl (Z.ones 40) 12).
  rewrite Z.shiftl_spec by exact Hn.
  destruct (Z.leb_spec 12 n) as [H12|H12]; simpl.
  - destruct (Z.ltb_spec n 52) as [H52|H52].
    + apply Z.ones_spec_low. lia.
    + apply Z.ones_spec_high. lia.
  - apply Z.testbit_neg_r. lia.
Qed.

Lemma high_bits_zero f n : 0 ≤ f < 2 ^ 52 → 52 ≤ n → Z.testbit f n = false.
Proof.
  intros Hf Hn. destruct (Z.eq_dec f 0) as [->|Hne]; [apply Z.bits_0|].
  apply Z.bits_above_log2; [lia|].
  assert (Z.log2 f < 52); [|lia]. apply Z.log2_lt_pow2; lia.
Qed.

Lemma land_mask_frame f : page_aligned f → 0 ≤ f < 2 ^ 52 → Z.land f kAddressMask = f.
Proof.
  intros Ha Hr. apply Z.bits_inj'. intros n Hn.
  rewrite Z.land_spec, mask_bits by exact Hn.
  destruct (Z.leb_spec 12 n) as [H12|H12]; simpl.
  - destruct (Z.ltb_spec n 52) as [H52|H52]; simpl.
    + apply andb_true_r.
    + rewrite andb_false_r. symmetry. apply high_bits_zero; assumption.
  - rewrite andb_false_r. symmetry. apply aligned_low_bits; [assumption|lia].
Qed.

Lemma land_mask_range e : 0 ≤ Z.land e kAddressMask < 2 ^ 52.
Proof.
  assert (H0 : 0 ≤ Z.land e kAddressMask) by (apply Z.land_nonneg; right; discriminate).
  split; [exact H0|].
  destruct (Z.lt_ge_cases (Z.land e kAddressMask) (2 ^ 52)) as [Hlt|Hge]; [exact Hlt|].
  exfalso.
  assert (Hpos : 0 < Z.land e kAddressMask) by lia.
  pose proof (Z.bit_log2 _ Hpos) as Hbit.
  assert (Hlog : 52 ≤ Z.log2 (Z.land e kAddressMask)).
  { apply Z.log2_le_pow2; [exact Hpos|exact Hge]. }
  rewrite Z.land_spec, mask_bits in Hbit by lia.
  replace (Z.log2 (Z.land e kAddressMask) <? 52) with false in Hbit
    by (symmetry; apply Z.ltb_ge; exact Hlog).
  rewrite !andb_false_r in Hbit. discriminate.
Qed.

Lemma land_mask_aligned e : page_aligned (Z.land e kAddressMask).
Proof.
  unfold page_aligned. change kPageSize with (2 ^ 12).
  rewrite <- Z.land_ones by lia.
  apply Z.bits_inj'. intros n Hn.
  rewrite !Z.land_spec, mask_bits, Z.bits_0 by exact Hn.
  destruct (Z.ltb_spec n 12) as [Hlt|Hge].
  - replace (12 <=? n) with false by (symmetry; apply Z.leb_gt; exact Hlt).
    simpl. rewrite andb_false_r. reflexivity.
  - rewrite Z.ones_spec_high by lia. apply andb_false_r.
Qed.

(* ===================================================================== *)
(** ** Lemmas on memory and frames *)
(* ===================================================================== *)

Lemma index_range sh v : 0 ≤ Z.land (Z.shiftr v sh) 0x1FF < 512.
Proof.
  change 0x1FF with (Z.ones 9). rewrite Z.land_ones by lia.
  apply Z.mod_pos_bound. reflexivity.
Qed.

Lemma index4_range v : 0 ≤ index4 v < 512. Proof. apply index_range. Qed.
Lemma index3_range v : 0 ≤ index3 v < 512. Proof. apply index_range. Qed.
Lemma index2_range v : 0 ≤ index2 v < 512. Proof. apply index_range. Qed.
Lemma index1_range v : 0 ≤ index1 v < 512. Proof. apply index_range. Qed.

(** A word of a table lies in the frame of the table. *)
Lemma word_in_frame t i : 0 ≤ i < 512 → in_frame t (t + 8 * i).
Proof. unfold in_frame, kPageSize. lia. Qed.

(** Page-aligned frames that share an address are the same frame. *)
Lemma frames_meet f g a :
  page_aligned f → page_aligned g → in_frame f a → in_frame g a → f = g.
Proof.
  unfold page_aligned, in_frame, kPageSize. intros Hf Hg Ha Hb.
  apply Z.mod_divide in Hf; [|discriminate]. apply Z.mod_divide in Hg; [|discriminate].
  destruct Hf as [p ->], Hg as [q ->]. f_equal. lia.
Qed.

Lemma zero_words_outside p i n m a :
  (∀ k, i ≤ k < i + Z.of_nat n → a ≠ p + 8 * k) → zero_words p i n m a = m a.
Proof.
  revert i m. induction n as [|n IH]; intros i m Hout; [reflexivity|].
  simpl. rewrite IH.
  - apply fn_lookup_insert_ne. intros Heq. apply (Hout i); [lia|]. symmetry. exact Heq.
  - intros k Hk. apply Hout. lia.
Qed.

Lemma zero_words_inside p i n m k :
  i ≤ k < i + Z.of_nat n → zero_words p i n m (p + 8 * k) = 0.
Proof.
  revert i m. induction n as [|n IH]; intros i m Hk; [simpl in Hk; lia|].
  simpl. destruct (Z.eq_dec k i) as [->|Hne].
  - rewrite zero_words_outside; [apply fn_lookup_insert|].
    intros k' Hk'. lia.
  - apply IH. lia.
Qed.

Lemma zero_table_outside p m a : ¬ in_frame p a → zero_words p 0 512 m a = m a.
Proof.
  intros Hout. apply zero_words_outside. intros k Hk ->.
  apply Hout. apply word_in_frame. lia.
Qed.

Lemma zero_table_word p m i : 0 ≤ i < 512 → zero_words p 0 512 m (p + 8 * i) = 0.
Proof. intros Hi. apply zero_words_inside. lia. Qed.

Arguments zero_words : simpl never.

Lemma outside_frames_tail f rest m a :
  outside_frames (mkPtState m (f :: rest)) a → outside_frames (mkPtState m rest) a.
Proof. unfold outside_frames. simpl. intros H. inversion H. assumption. Qed.

(** A word of a page-aligned table that the allocator does not hold lies
    outside of every frame it holds. *)
Lemma table_word_outside s t i :
  page_aligned t → t ∉ frames s →
  Forall (λ f, page_aligned f ∧ 0 ≤ f < 2 ^ 52) (frames s) →
  0 ≤ i < 512 → outside_frames s (t + 8 * i).
Proof.
  intros Ht Hnot Hall Hi. unfold outside_frames.
  rewrite Forall_forall in Hall |- *. intros f Hf Hin.
  apply Hnot. replace t with f; [exact Hf|].
  eapply frames_meet; [apply Hall; exact Hf|exact Ht|exact Hin|].
  apply word_in_frame. exact Hi.
Qed.

Lemma walk_tables_head m t idxs : t ∈ walk_tables m t idxs.
Proof. destruct idxs; simpl; apply list_elem_of_here. Qed.

(* ===================================================================== *)
(** ** The block "make sure there is a next-level table" *)
(* ===================================================================== *)

Lemma table_entry_present f u : present (table_entry f u) = true.
Proof.
  unfold present, table_entry. destruct u; rewrite !Z.lor_spec;
    change (Z.testbit kPagePresent 0) with true; rewrite ?orb_true_r; reflexivity.
Qed.

Lemma table_entry_frame f u :
  page_aligned f → 0 ≤ f < 2 ^ 52 → Z.land (table_entry f u) kAddressMask = f.
Proof.
  intros Ha Hr. unfold table_entry.
  destruct u; rewrite !Z.land_lor_distr_l, land_mask_frame by assumption;
    change (Z.land kPagePresent kAddressMask) with 0;
    change (Z.land kPageWrite kAddressMask) with 0;
    change (Z.land kPageUser kAddressMask) with 0;
    rewrite !Z.lor_0_r; reflexivity.
Qed.

Lemma table_entry_user f u : page_aligned f → Z.testbit (table_entry f u) 2 = u.
Proof.
  intros Ha. unfold table_entry.
  destruct u; rewrite !Z.lor_spec, (aligned_low_bits f 2) by (assumption || lia);
    reflexivity.
Qed.

Lemma PageAccessor_transparent : transparent PageAccessor.new.
Proof.
  intros p s q s' H. unfold PageAccessor.new in H.
  run_step H. run_step H. run_prim H. auto.
Qed.

Lemma SkeletalRegion_transparent : transparent SkeletalRegion_access.
Proof. intros p s q s' H. run_prim H. auto. Qed.

Lemma PageAccessor_window p s q s' :
  PageAccessor.new p s = Ok (q, s') → page_aligned p ∧ p < 0x400000000000.
Proof.
  unfold PageAccessor.new. intros H. run_step H. run_step H.
  rewrite has_bit_low12, negb_involutive in Hm.
  split; [apply Z.eqb_eq; exact Hm|apply Z.ltb_lt; exact Hm0].
Qed.

Lemma PageAccessor_run p s :
  page_aligned p → p < 0x400000000000 → PageAccessor.new p s = Ok (p, s).
Proof.
  intros Ha Hw. unfold PageAccessor.new, bind, assert, ret.
  rewrite has_bit_low12, negb_involutive.
  replace (p mod kPageSize =? 0) with true by (symmetry; apply Z.eqb_eq; exact Ha).
  replace (p <? 0x400000000000) with true by (symmetry; apply Z.ltb_lt; exact Hw).
  reflexivity.
Qed.

Section make_table.
Variable access : Z → M PtState Z.
Hypothesis access_transparent : transparent access.
Variable user_page : bool.

(** The entry is present: the walk follows it, nothing changes. *)
Lemma make_table_present s tbl i rest next s' :
  walk_inv s tbl (i :: rest) →
  present (mem s (tbl + 8 * i)) = true →
  make_table access user_page tbl i (mem s (tbl + 8 * i)) s = Ok (next, s') →
  s' = s ∧ next = Z.land (mem s (tbl + 8 * i)) kAddressMask ∧ walk_inv s next rest.
Proof.
  intros (Ht & Hidx & Hnd & Hok & Hfresh) Hp H.
  unfold make_table in H. rewrite has_bit_present, Hp in H.
  apply access_transparent in H as [-> ->].
  split; [reflexivity|]. split; [reflexivity|].
  split; [apply land_mask_aligned|].
  split; [inversion Hidx; assumption|].
  split; [assumption|]. split; [assumption|].
  eapply Forall_impl; [exact Hfresh|].
  intros f Hf Hin. apply Hf. simpl. rewrite Hp.
  apply list_elem_of_further. exact Hin.
Qed.

(** The entry is absent: a frame is taken, cleared and installed. *)
Lemma make_table_absent s tbl i rest next s' :
  walk_inv s tbl (i :: rest) →
  present (mem s (tbl + 8 * i)) = false →
  make_table access user_page tbl i (mem s (tbl + 8 * i)) s = Ok (next, s') →
  frames s = next :: frames s' ∧
  mem s' = <[tbl + 8 * i := table_entry next user_page]> (zero_words next 0 512 (mem s)) ∧
  walk_inv s' next rest ∧
  tbl ≠ next.
Proof.
  intros (Ht & Hidx & Hnd & Hok & Hfresh) Hp H.
  unfold make_table in H. rewrite has_bit_present, Hp in H.
  run_step H. unfold allocate in Hm.
  destruct (frames s) as [|f fr] eqn:Hfr; [discriminate|].
  injection Hm as <- <-.
  run_step H. apply access_transparent in Hm as [-> ->].
  run_step H. run_step H. run_prim H. simpl.
  change (if user_page then _ else _) with (table_entry f user_page).
  inversion Hnd as [|? ? Hnotin Hnd']; subst.
  inversion Hok as [|? ? [Hfa Hfr'] Hok']; subst.
  inversion Hfresh as [|? ? Hftbl Hfresh']; subst.
  inversion Hidx as [|? ? Hi Hrest]; subst.
  assert (Hne : tbl ≠ f).
  { intros ->. apply Hftbl. apply walk_tables_head. }
  split; [reflexivity|]. split; [reflexivity|].
  split; [|exact Hne].
  split; [exact Hfa|]. split; [exact Hrest|]. split; [exact Hnd'|].
  split; [exact Hok'|]. simpl.
  assert (Hwt : walk_tables
            (<[tbl + 8 * i := table_entry f user_page]> (zero_words f 0 512 (mem s)))
            f rest = [f]).
  { destruct rest as [|j rest']; [reflexivity|]. simpl.
    inversion Hrest as [|? ? Hj _]; subst.
    rewrite fn_lookup_insert_ne.
    - rewrite zero_table_word by exact Hj. reflexivity.
    - intros Heq. apply Hne. symmetry.
      eapply (frames_meet f tbl (f + 8 * j)); [exact Hfa|exact Ht|..].
      + apply word_in_frame. exact Hj.
      + rewrite <- Heq. apply word_in_frame. exact Hi. }
  rewrite Hwt. rewrite Forall_forall. intros g Hg Hin.
  apply list_elem_of_singleton in Hin. subst g. contradiction.
Qed.

(** What every run of the block guarantees. *)
Lemma make_table_spec s tbl i rest next s' :
  walk_inv s tbl (i :: rest) →
  make_table access user_page tbl i (mem s (tbl + 8 * i)) s = Ok (next, s') →
  let a := tbl + 8 * i in
  walk_inv s' next rest ∧
  present (mem s' a) = true ∧
  Z.land (mem s' a) kAddressMask = next ∧
  outside_frames s' a ∧
  (∀ b, present (mem s b) = true → outside_frames s b → mem s' b = mem s b) ∧
  (∀ b, outside_frames s b → outside_frames s' b) ∧
  (∀ b, outside_frames s b → b ≠ a → mem s' b = mem s b) ∧
  (present (mem s a) = true ∧ s' = s ∨
   present (mem s a) = false ∧ frames s = next :: frames s' ∧
   mem s' a = table_entry next user_page).
Proof.
  intros Hinv H a. pose proof Hinv as (Ht & Hidx & Hnd & Hok & Hfresh).
  assert (Hi : 0 ≤ i < 512) by (inversion Hidx; assumption).
  assert (Htbl : tbl ∉ frames s).
  { intros Hin. rewrite Forall_forall in Hfresh.
    apply (Hfresh tbl Hin). apply walk_tables_head. }
  destruct (present (mem s a)) eqn:Hp.
  - destruct (make_table_present _ _ _ _ _ _ Hinv Hp H) as (-> & -> & Hinv').
    split; [exact Hinv'|]. split; [exact Hp|]. split; [reflexivity|].
    split; [apply table_word_outside; assumption|].
    split; [reflexivity|]. split; [auto|]. split; [reflexivity|].
    left. auto.
  - destruct (make_table_absent _ _ _ _ _ _ Hinv Hp H) as (Hfr & Hmem & Hinv' & Hne).
    pose proof Hinv' as (Hfa & _ & _ & Hok' & _).
    assert (Hnext : page_aligned next ∧ 0 ≤ next < 2 ^ 52).
    { rewrite Hfr in Hok. inversion Hok. assumption. }
    assert (Hsub : ∀ b, outside_frames s b → outside_frames s' b).
    { intros b Hb. unfold outside_frames in *. rewrite Hfr in Hb.
      inversion Hb. assumption. }
    assert (Hout : ∀ b, outside_frames s b → ¬ in_frame next b).
    { intros b Hb. unfold outside_frames in Hb. rewrite Hfr in Hb.
      inversion Hb. assumption. }
    split; [exact Hinv'|]. rewrite Hmem.
    split; [rewrite fn_lookup_insert; apply table_entry_present|].
    split; [rewrite fn_lookup_insert; apply table_entry_frame; apply Hnext|].
    split; [apply Hsub, table_word_outside; assumption|].
    split.
    { intros b Hb Hbo. rewrite fn_lookup_insert_ne.
      - apply zero_table_outside, Hout, Hbo.
      - intros Heq. subst b. unfold a in Hp. rewrite Hp in Hb. discriminate. }
    split; [exact Hsub|].
    split.
    { intros b Hbo Hba. rewrite fn_lookup_insert_ne by (intros Heq; apply Hba; subst b; reflexivity).
      apply zero_table_outside, Hout, Hbo. }
    right. split; [reflexivity|]. split; [exact Hfr|]. apply fn_lookup_insert.
Qed.
End make_table.

(* ===================================================================== *)
(** ** Three levels of tables and the leaf store *)
(* ===================================================================== *)

Section three_levels.
Variable access : Z → M PtState Z.
Hypothesis access_transparent : transparent access.
Variable user_page : bool.

Lemma three_levels s0 root i4 i3 i2 i1 t3 s1 t2 s2 t1 s3 leaf :
  walk_inv s0 root [i4; i3; i2] →
  make_table access user_page root i4 (mem s0 (root + 8 * i4)) s0 = Ok (t3, s1) →
  make_table access user_page t3 i3 (mem s1 (t3 + 8 * i3)) s1 = Ok (t2, s2) →
  make_table access user_page t2 i2 (mem s2 (t2 + 8 * i2)) s2 = Ok (t1, s3) →
  present (mem s3 (t1 + 8 * i1)) = false →
  mapped (mem s0) (<[t1 + 8 * i1 := leaf]> (mem s3)) (frames s0) (frames s3)
         root i4 i3 i2 i1 t3 t2 t1
         (mem s1 (root + 8 * i4)) (mem s2 (t3 + 8 * i3)) (mem s3 (t2 + 8 * i2)) leaf.
Proof.
  intros Hinv0 H4 H3 H2 Hleaf.
  destruct (make_table_spec access access_transparent user_page _ _ _ _ _ _ Hinv0 H4)
    as (Hinv1 & P4 & F4 & O4 & St4 & Sub4 & Ch4 & C4).
  destruct (make_table_spec access access_transparent user_page _ _ _ _ _ _ Hinv1 H3)
    as (Hinv2 & P3 & F3 & O3 & St3 & Sub3 & Ch3 & C3).
  destruct (make_table_spec access access_transparent user_page _ _ _ _ _ _ Hinv2 H2)
    as (Hinv3 & P2 & F2 & O2 & St2 & Sub2 & Ch2 & C2).
  assert (E43 : mem s2 (root + 8 * i4) = mem s1 (root + 8 * i4)) by (apply St3; assumption).
  assert (P43 : present (mem s2 (root + 8 * i4)) = true) by (rewrite E43; exact P4).
  assert (E42 : mem s3 (root + 8 * i4) = mem s1 (root + 8 * i4)).
  { rewrite <- E43. apply St2; [exact P43|apply Sub3; exact O4]. }
  assert (E32 : mem s3 (t3 + 8 * i3) = mem s2 (t3 + 8 * i3)) by (apply St2; assumption).
  assert (N4 : root + 8 * i4 ≠ t1 + 8 * i1).
  { intros Heq. rewrite <- Heq, E42, P4 in Hleaf. discriminate. }
  assert (N3 : t3 + 8 * i3 ≠ t1 + 8 * i1).
  { intros Heq. rewrite <- Heq, E32, P3 in Hleaf. discriminate. }
  assert (N2 : t2 + 8 * i2 ≠ t1 + 8 * i1).
  { intros Heq. rewrite <- Heq, P2 in Hleaf. discriminate. }
  constructor.
  - rewrite fn_lookup_insert_ne by (intros Heq; apply N4; symmetry; exact Heq). exact E42.
  - rewrite fn_lookup_insert_ne by (intros Heq; apply N3; symmetry; exact Heq). exact E32.
  - rewrite fn_lookup_insert_ne by (intros Heq; apply N2; symmetry; exact Heq). reflexivity.
  - apply fn_lookup_insert.
  - exact P4.
  - exact P3.
  - exact P2.
  - exact F4.
  - exact F3.
  - exact F2.
  - intros b Hb B4 B3 B2 B1.
    rewrite fn_lookup_insert_ne by (intros Heq; apply B1; symmetry; exact Heq).
    rewrite Ch2, Ch3, Ch4; auto.
  - intros b Hb Hbo B1.
    rewrite fn_lookup_insert_ne by (intros Heq; apply B1; symmetry; exact Heq).
    assert (E1 : mem s1 b = mem s0 b) by (apply St4; assumption).
    assert (E2 : mem s2 b = mem s1 b).
    { apply St3; [rewrite E1; exact Hb|apply Sub4; exact Hbo]. }
    rewrite St2; [congruence| |apply Sub3, Sub4; exact Hbo].
    rewrite E2, E1. exact Hb.
  - destruct C4 as [[_ ->]|(_ & Hf4 & _)], C3 as [[_ ->]|(_ & Hf3 & _)],
      C2 as [[_ ->]|(_ & Hf2 & _)].
    + exists []. reflexivity.
    + exists [t1]. exact Hf2.
    + exists [t2]. exact Hf3.
    + exists [t2; t1]. rewrite Hf3, Hf2. reflexivity.
    + exists [t3]. exact Hf4.
    + exists [t3; t1]. rewrite Hf4, Hf2. reflexivity.
    + exists [t3; t2]. rewrite Hf4, Hf3. reflexivity.
    + exists [t3; t2; t1]. rewrite Hf4, Hf3, Hf2. reflexivity.
  - exact N4.
  - exact N3.
  - exact N2.
Qed.
End three_levels.

(** After a mapping the hardware walk of the indices ends at the leaf. *)
Lemma mapped_walk m0 m' fr0 fr' root i4 i3 i2 i1 t3 t2 t1 e4 e3 e2 leaf :
  mapped m0 m' fr0 fr' root i4 i3 i2 i1 t3 t2 t1 e4 e3 e2 leaf →
  walk m' root [i4; i3; i2; i1] = Some (t1 + 8 * i1) ∧
  walk_path m' root [i4; i3; i2; i1] =
    [root + 8 * i4; t3 + 8 * i3; t2 + 8 * i2; t1 + 8 * i1].
Proof.
  intros [E4 E3 E2 EL P4 P3 P2 T3 T2 T1 _ _ _ _ _ _]. simpl.
  rewrite E4, P4, T3, E3, P3, T2, E2, P2, T1.
  split; [reflexivity|]. destruct (present (m' (t1 + 8 * i1))); reflexivity.
Qed.

(* ===================================================================== *)
(** ** What a successful [mapSingle4k] has done *)
(* ===================================================================== *)

Lemma caching_block_inv (e : Z) c (s : PtState) a s' :
  (if CachingMode.eqb c CachingMode.writeThrough then ret (Z.lor e kPagePwt)
   else if CachingMode.eqb c CachingMode.writeCombine
        then ret (Z.lor e (Z.lor kPagePat kPagePwt))
        else assert (CachingMode.eqb c CachingMode.null
                     || CachingMode.eqb c CachingMode.writeBack) ;; ret e) s
  = Ok (a, s') →
  s' = s ∧ c ≠ CachingMode.uncached ∧
  a = (if CachingMode.eqb c CachingMode.writeThrough then Z.lor e kPagePwt
       else if CachingMode.eqb c CachingMode.writeCombine
            then Z.lor e (Z.lor kPagePat kPagePwt)
            else e).
Proof.
  destruct c; simpl; intros H; try discriminate H;
    try (run_prim H; repeat split; discriminate);
    run_step H; run_prim H; repeat split; discriminate.
Qed.

Lemma fresh_frames_walk_inv s root v :
  fresh_frames s root v → walk_inv s root [index4 v; index3 v; index2 v].
Proof.
  intros (Hr & Hnd & Hok & Hfresh). split; [exact Hr|].
  split; [|auto].
  repeat constructor; apply index_range.
Qed.

Lemma kernel_map_mapped root v p flags c s u s' :
  fresh_frames s root v →
  KernelPageSpace.mapSingle4k root v p flags c s = Ok (u, s') →
  page_aligned v ∧ page_aligned p ∧ c ≠ CachingMode.uncached ∧
  ∃ t3 t2 t1 e4 e3 e2,
    mapped (mem s) (mem s') (frames s) (frames s') root
           (index4 v) (index3 v) (index2 v) (index1 v) t3 t2 t1 e4 e3 e2
           (kernel_leaf p flags c) ∧
    Z.testbit e4 2 = false ∧ Z.testbit e3 2 = false ∧ Z.testbit e2 2 = false.
Proof.
  intros Hfresh H. apply fresh_frames_walk_inv in Hfresh.
  unfold KernelPageSpace.mapSingle4k in H.
  run_step H. run_step H. cbv zeta in H.
  do 16 run_step H.
  apply caching_block_inv in Hm8 as (-> & Hc & ->).
  run_prim H.
  rewrite has_bit_user in Hm2, Hm4, Hm6. apply negb_true_iff in Hm2, Hm4, Hm6.
  rewrite land_present_zero in Hm7. apply negb_true_iff in Hm7.
  split; [apply Z.eqb_eq; exact Hm|]. split; [apply Z.eqb_eq; exact Hm0|].
  split; [exact Hc|].
  pose proof (three_levels SkeletalRegion_access SkeletalRegion_transparent false
                s root _ _ _ (index1 v) _ _ _ _ _ _ (kernel_leaf p flags c)
                Hfresh Hm1 Hm3 Hm5 Hm7) as Hmapped.
  eexists _, _, _, _, _, _. split; [exact Hmapped|].
  split; [exact Hm2|]. split; [exact Hm4|]. exact Hm6.
Qed.

Lemma client_map_mapped root v p user_page flags c s u s' :
  fresh_frames s root v →
  ClientPageSpace.mapSingle4k root v p user_page flags c s = Ok (u, s') →
  page_aligned v ∧ page_aligned p ∧ c ≠ CachingMode.uncached ∧
  ∃ t3 t2 t1 e4 e3 e2,
    mapped (mem s) (mem s') (frames s) (frames s') root
           (index4 v) (index3 v) (index2 v) (index1 v) t3 t2 t1 e4 e3 e2
           (client_leaf p user_page flags c) ∧
    Z.testbit e4 2 = user_page ∧ Z.testbit e3 2 = user_page ∧
    Z.testbit e2 2 = user_page.
Proof.
  intros Hfresh H. apply fresh_frames_walk_inv in Hfresh.
  unfold ClientPageSpace.mapSingle4k in H.
  run_step H. run_step H. cbv zeta in H.
  run_step H. apply PageAccessor_transparent in Hm1 as [-> ->].
  do 15 run_step H.
  apply caching_block_inv in Hm8 as (-> & Hc & ->).
  run_prim H.
  assert (Huser : ∀ e, (if user_page then has_bit e kPageUser
                        else Z.land e kPageUser =? 0) = true →
                       Z.testbit e 2 = user_page).
  { intros e He. destruct user_page.
    - rewrite has_bit_user in He. exact He.
    - rewrite land_user_zero in He. apply negb_true_iff in He. exact He. }
  apply Huser in Hm2, Hm4, Hm6.
  rewrite has_bit_present in Hm7. apply negb_true_iff in Hm7.
  split; [apply Z.eqb_eq; exact Hm|]. split; [apply Z.eqb_eq; exact Hm0|].
  split; [exact Hc|].
  pose proof (three_levels PageAccessor.new PageAccessor_transparent user_page
                s root _ _ _ (index1 v) _ _ _ _ _ _ (client_leaf p user_page flags c)
                Hfresh Hm1 Hm3 Hm5 Hm7) as Hmapped.
  eexists _, _, _, _, _, _. split; [exact Hmapped|].
  split; [exact Hm2|]. split; [exact Hm4|]. exact Hm6.
Qed.

(* ===================================================================== *)
(** ** The bits of the leaf words *)
(* ===================================================================== *)

Ltac flag_bits :=
  change kPagePresent with (2 ^ 0); change kPageWrite with (2 ^ 1);
  change kPageUser with (2 ^ 2); change kPagePwt with (2 ^ 3);
  change kPagePcd with (2 ^ 4); change kPagePat with (2 ^ 7);
  change kPageGlobal with (2 ^ 8); change kPageXd with (2 ^ 63);
  rewrite ?Z.lor_spec, ?Z.pow2_bits_eqb by lia.

Ltac bool_cases n :=
  repeat match goal with
         | |- context [?a =? n] => destruct (a =? n)
         | |- context [Z.testbit ?p n] => destruct (Z.testbit p n)
         end;
  reflexivity.

Lemma kernel_leaf_bit p flags c n :
  0 ≤ n →
  Z.testbit (kernel_leaf p flags c) n =
    Z.testbit p n || (0 =? n) || (8 =? n)
    || has_bit flags page_access.write && (1 =? n)
    || negb (has_bit flags page_access.execute) && (63 =? n)
    || sets_pwt c && (3 =? n) || sets_pat c && (7 =? n).
Proof.
  intros Hn. unfold kernel_leaf, sets_pwt, sets_pat.
  destruct c, (has_bit flags page_access.write), (has_bit flags page_access.execute);
    cbn [CachingMode.eqb negb orb andb]; flag_bits; bool_cases n.
Qed.

Lemma client_leaf_bit p user_page flags c n :
  0 ≤ n →
  Z.testbit (client_leaf p user_page flags c) n =
    Z.testbit p n || (0 =? n) || user_page && (2 =? n)
    || has_bit flags page_access.write && (1 =? n)
    || negb (has_bit flags page_access.execute) && (63 =? n)
    || sets_pwt c && (3 =? n) || sets_pat c && (7 =? n).
Proof.
  intros Hn. unfold client_leaf, sets_pwt, sets_pat.
  destruct c, user_page, (has_bit flags page_access.write),
    (has_bit flags page_access.execute);
    cbn [CachingMode.eqb negb orb andb]; flag_bits; bool_cases n.
Qed.

Lemma kernel_leaf_low p flags c n :
  page_aligned p → 0 ≤ n < 12 →
  Z.testbit (kernel_leaf p flags c) n =
    (0 =? n) || (8 =? n) || has_bit flags page_access.write && (1 =? n)
    || sets_pwt c && (3 =? n) || sets_pat c && (7 =? n).
Proof.
  intros Hp Hn. rewrite kernel_leaf_bit, (aligned_low_bits p n) by (assumption || lia).
  replace (63 =? n) with false by (symmetry; apply Z.eqb_neq; lia).
  rewrite andb_false_r, orb_false_r. reflexivity.
Qed.

Lemma client_leaf_low p user_page flags c n :
  page_aligned p → 0 ≤ n < 12 →
  Z.testbit (client_leaf p user_page flags c) n =
    (0 =? n) || user_page && (2 =? n) || has_bit flags page_access.write && (1 =? n)
    || sets_pwt c && (3 =? n) || sets_pat c && (7 =? n).
Proof.
  intros Hp Hn. rewrite client_leaf_bit, (aligned_low_bits p n) by (assumption || lia).
  replace (63 =? n) with false by (symmetry; apply Z.eqb_neq; lia).
  rewrite andb_false_r, orb_false_r. reflexivity.
Qed.

Lemma kernel_leaf_cache p flags c :
  page_aligned p → c ≠ CachingMode.uncached →
  cache_bits (kernel_leaf p flags c) = cache_encoding c.
Proof.
  intros Hp Hc. unfold cache_bits. rewrite !kernel_leaf_low by (assumption || lia).
  destruct c, (has_bit flags page_access.write); try reflexivity; contradiction.
Qed.

Lemma client_leaf_cache p user_page flags c :
  page_aligned p → c ≠ CachingMode.uncached →
  cache_bits (client_leaf p user_page flags c) = cache_encoding c.
Proof.
  intros Hp Hc. unfold cache_bits. rewrite !client_leaf_low by (assumption || lia).
  destruct c, user_page, (has_bit flags page_access.write); try reflexivity; contradiction.
Qed.

(** The frame field of a word does not see the attribute bits. *)
Lemma frame_field_eq w p :
  (∀ n, 12 ≤ n < 52 → Z.testbit w n = Z.testbit p n) →
  Z.land w kAddressMask = Z.land p kAddressMask.
Proof.
  intros H. apply Z.bits_inj'. intros n Hn. rewrite !Z.land_spec, mask_bits by exact Hn.
  destruct (Z.leb_spec 12 n); simpl; [|rewrite !andb_false_r; reflexivity].
  destruct (Z.ltb_spec n 52); simpl; [|rewrite !andb_false_r; reflexivity].
  rewrite H by lia. reflexivity.
Qed.

(* ===================================================================== *)
(** ** Walking to a leaf *)
(* ===================================================================== *)

Lemma walk4_inv m root i4 i3 i2 i1 a :
  walk m root [i4; i3; i2; i1] = Some a →
  let e4 := m (root + 8 * i4) in
  let e3 := m (Z.land e4 kAddressMask + 8 * i3) in
  let e2 := m (Z.land e3 kAddressMask + 8 * i2) in
  present e4 = true ∧ present e3 = true ∧ present e2 = true ∧
  a = Z.land e2 kAddressMask + 8 * i1.
Proof.
  simpl. intros H.
  destruct (present (m (root + 8 * i4))); [|discriminate].
  destruct (present (m (Z.land (m (root + 8 * i4)) kAddressMask + 8 * i3))); [|discriminate].
  destruct (present (m (Z.land (m (Z.land (m (root + 8 * i4)) kAddressMask + 8 * i3))
                          kAddressMask + 8 * i2))); [|discriminate].
  injection H as <-. auto.
Qed.

Lemma lxor_present_bit w n :
  0 ≤ n → Z.testbit (Z.lxor w kPagePresent) n = xorb (Z.testbit w n) (0 =? n).
Proof.
  intros Hn. rewrite Z.lxor_spec. change kPagePresent with (2 ^ 0).
  rewrite Z.pow2_bits_eqb by lia. reflexivity.
Qed.

Lemma notpresent_bits n : 0 ≤ n → Z.testbit kNotPresent64 n = (1 <=? n) && (n <? 64).
Proof.
  intros Hn. change kNotPresent64 with (Z.shiftl (Z.ones 63) 1).
  rewrite Z.shiftl_spec by exact Hn.
  destruct (Z.leb_spec 1 n); simpl.
  - destruct (Z.ltb_spec n 64).
    + apply Z.ones_spec_low. lia.
    + apply Z.ones_spec_high. lia.
  - apply Z.testbit_neg_r. lia.
Qed.

Lemma land_notpresent_bit w n :
  0 ≤ n → Z.testbit (Z.land w kNotPresent64) n = Z.testbit w n && (1 <=? n) && (n <? 64).
Proof.
  intros Hn. rewrite Z.land_spec, notpresent_bits by exact Hn. apply andb_assoc.
Qed.

(** [KernelPageSpace::unmapSingle4k] succeeds exactly on an aligned address
    with a present leaf, and then flips the present bit of the leaf. *)
Lemma kernel_unmap_inv root v s r s' :
  KernelPageSpace.unmapSingle4k root v s = Ok (r, s') →
  page_aligned v ∧
  ∃ a, leaf_address (mem s) root v = Some a ∧ present (mem s a) = true ∧
       s' = mkPtState (<[a := Z.lxor (mem s a) kPagePresent]> (mem s)) (frames s) ∧
       r = Z.land (Z.lxor (mem s a) kPagePresent) kAddressMask.
Proof.
  intros H. unfold KernelPageSpace.unmapSingle4k in H.
  run_step H. cbv zeta in H. do 14 run_step H. run_prim H.
  rewrite has_bit_present in Hm0. rewrite has_bit_present in Hm1.
  rewrite has_bit_present in Hm2. rewrite has_bit_present in Hm3.
  split; [apply Z.eqb_eq; assumption|].
  eexists. split.
  - unfold leaf_address, indices. simpl. rewrite Hm0, Hm1, Hm2. reflexivity.
  - split; [exact Hm3|]. split; [reflexivity|]. simpl.
    rewrite fn_lookup_insert. reflexivity.
Qed.

Lemma kernel_unmap_run root v s a :
  page_aligned v → leaf_address (mem s) root v = Some a → present (mem s a) = true →
  KernelPageSpace.unmapSingle4k root v s =
    Ok (Z.land (Z.lxor (mem s a) kPagePresent) kAddressMask,
        mkPtState (<[a := Z.lxor (mem s a) kPagePresent]> (mem s)) (frames s)).
Proof.
  intros Hv Hwalk Hp. apply walk4_inv in Hwalk. cbv zeta in Hwalk.
  destruct Hwalk as (P4 & P3 & P2 & ->).
  cbv beta delta [KernelPageSpace.unmapSingle4k bind assert load store ret
                    SkeletalRegion_access].
  replace (v mod 4096 =? 0) with true by (symmetry; apply Z.eqb_eq; exact Hv).
  cbv beta iota zeta. rewrite has_bit_present, P4.
  cbv beta iota zeta. rewrite has_bit_present, P3.
  cbv beta iota zeta. rewrite has_bit_present, P2.
  cbv beta iota zeta. rewrite has_bit_present, Hp.
  cbv beta iota zeta. cbn [mem frames].
  rewrite fn_lookup_insert. reflexivity.
Qed.

(* ===================================================================== *)
(** ** Claims on the page tables *)
(* ===================================================================== *)

(** Closes a decidable goal on concrete data by evaluation. *)
Ltac by_evaluation := apply (bool_decide_unpack _); vm_compute; exact I.

Lemma empty_memory_fresh v : fresh_frames empty_memory 0x1000 v.
Proof.
  split; [reflexivity|]. split; [by_evaluation|].
  split.
  { repeat constructor; (reflexivity || lia). }
  unfold tables_of. simpl. repeat constructor; by_evaluation.
Qed.

Lemma mapped_leaf_address m0 m' fr0 fr' root v t3 t2 t1 e4 e3 e2 leaf :
  mapped m0 m' fr0 fr' root (index4 v) (index3 v) (index2 v) (index1 v)
         t3 t2 t1 e4 e3 e2 leaf →
  leaf_address m' root v = Some (t1 + 8 * index1 v) ∧
  walk_path m' root (indices v) =
    [root + 8 * index4 v; t3 + 8 * index3 v; t2 + 8 * index2 v; t1 + 8 * index1 v].
Proof. intros H. exact (mapped_walk _ _ _ _ _ _ _ _ _ _ _ _ _ _ _ _ H). Qed.

(** C6.  After [KernelPageSpace::mapSingle4k] has returned, the hardware
    walk of [v] reads four entries; the leaf is present, has the Global bit
    set and the User bit clear, and the three intermediate entries have the
    User bit clear.  After [ClientPageSpace::mapSingle4k] with
    [user_page = true] has returned, the leaf and the three intermediate
    entries on the walk of [v] all have the User bit set. *)
Theorem C6_global_and_user_bits :
  (∀ root v p flags c s u s',
     fresh_frames s root v →
     KernelPageSpace.mapSingle4k root v p flags c s = Ok (u, s') →
     ∃ a4 a3 a2 a1,
       walk_path (mem s') root (indices v) = [a4; a3; a2; a1] ∧
       leaf_address (mem s') root v = Some a1 ∧
       present (mem s' a1) = true ∧
       has_bit (mem s' a1) kPageGlobal = true ∧
       has_bit (mem s' a1) kPageUser = false ∧
       has_bit (mem s' a4) kPageUser = false ∧
       has_bit (mem s' a3) kPageUser = false ∧
       has_bit (mem s' a2) kPageUser = false) ∧
  (∀ root v p flags c s u s',
     fresh_frames s root v →
     ClientPageSpace.mapSingle4k root v p true flags c s = Ok (u, s') →
     ∃ a4 a3 a2 a1,
       walk_path (mem s') root (indices v) = [a4; a3; a2; a1] ∧
       leaf_address (mem s') root v = Some a1 ∧
       present (mem s' a1) = true ∧
       has_bit (mem s' a1) kPageUser = true ∧
       has_bit (mem s' a4) kPageUser = true ∧
       has_bit (mem s' a3) kPageUser = true ∧
       has_bit (mem s' a2) kPageUser = true).
Proof.
  split.
  - intros root v p flags c s u s' Hfresh Hrun.
    destruct (kernel_map_mapped _ _ _ _ _ _ _ _ Hfresh Hrun)
      as (Hv & Hp & Hc & t3 & t2 & t1 & e4 & e3 & e2 & Hm & U4 & U3 & U2).
    destruct (mapped_leaf_address _ _ _ _ _ _ _ _ _ _ _ _ _ Hm) as [Hleaf Hpath].
    destruct Hm as [E4 E3 E2 EL _ _ _ _ _ _ _ _ _ _ _ _].
    exists (root + 8 * index4 v), (t3 + 8 * index3 v), (t2 + 8 * index2 v),
      (t1 + 8 * index1 v).
    rewrite E4, E3, E2, EL. unfold present.
    change kPageGlobal with (2 ^ 8).
    rewrite !has_bit_user, has_bit_pow2, !kernel_leaf_low by (assumption || lia).
    repeat split; try assumption; try reflexivity;
      destruct (has_bit flags page_access.write), (sets_pwt c), (sets_pat c); reflexivity.
  - intros root v p flags c s u s' Hfresh Hrun.
    destruct (client_map_mapped _ _ _ _ _ _ _ _ _ Hfresh Hrun)
      as (Hv & Hp & Hc & t3 & t2 & t1 & e4 & e3 & e2 & Hm & U4 & U3 & U2).
    destruct (mapped_leaf_address _ _ _ _ _ _ _ _ _ _ _ _ _ Hm) as [Hleaf Hpath].
    destruct Hm as [E4 E3 E2 EL _ _ _ _ _ _ _ _ _ _ _ _].
    exists (root + 8 * index4 v), (t3 + 8 * index3 v), (t2 + 8 * index2 v),
      (t1 + 8 * index1 v).
    rewrite E4, E3, E2, EL. unfold present.
    rewrite !has_bit_user, !client_leaf_low by (assumption || lia).
    repeat split; try assumption; try reflexivity;
      destruct (has_bit flags page_access.write), (sets_pwt c), (sets_pat c); reflexivity.
Qed.

(** Both [mapSingle4k] return on [empty_memory]. *)
Lemma kernel_map_empty_ok :
  is_ok (KernelPageSpace.mapSingle4k 0x1000 0x7000 0x5000 page_access.write
           CachingMode.writeCombine empty_memory) = true.
Proof. vm_compute. reflexivity. Qed.

Lemma client_map_empty_ok :
  is_ok (ClientPageSpace.mapSingle4k 0x1000 0x7000 0x5000 true page_access.write
           CachingMode.writeCombine empty_memory) = true.
Proof. vm_compute. reflexivity. Qed.

Lemma C6_witness :
  (∃ s', KernelPageSpace.mapSingle4k 0x1000 0x7000 0x5000 page_access.write
           CachingMode.writeCombine empty_memory = Ok (tt, s') ∧
         ∃ a4 a3 a2 a1,
           walk_path (mem s') 0x1000 (indices 0x7000) = [a4; a3; a2; a1] ∧
           leaf_address (mem s') 0x1000 0x7000 = Some a1 ∧
           present (mem s' a1) = true ∧
           has_bit (mem s' a1) kPageGlobal = true ∧
           has_bit (mem s' a1) kPageUser = false ∧
           has_bit (mem s' a4) kPageUser = false ∧
           has_bit (mem s' a3) kPageUser = false ∧
           has_bit (mem s' a2) kPageUser = false) ∧
  (∃ s', ClientPageSpace.mapSingle4k 0x1000 0x7000 0x5000 true page_access.write
           CachingMode.writeCombine empty_memory = Ok (tt, s') ∧
         ∃ a4 a3 a2 a1,
           walk_path (mem s') 0x1000 (indices 0x7000) = [a4; a3; a2; a1] ∧
           leaf_address (mem s') 0x1000 0x7000 = Some a1 ∧
           present (mem s' a1) = true ∧
           has_bit (mem s' a1) kPageUser = true ∧
           has_bit (mem s' a4) kPageUser = true ∧
           has_bit (mem s' a3) kPageUser = true ∧
           has_bit (mem s' a2) kPageUser = true).
Proof.
  split.
  - pose proof kernel_map_empty_ok as Hok.
    destruct (KernelPageSpace.mapSingle4k 0x1000 0x7000 0x5000 page_access.write
                CachingMode.writeCombine empty_memory) as [[[] s']| | |] eqn:Hrun;
      try discriminate Hok.
    exists s'. split; [reflexivity|].
    exact (proj1 C6_global_and_user_bits _ _ _ _ _ _ _ _
             (empty_memory_fresh 0x7000) Hrun).
  - pose proof client_map_empty_ok as Hok.
    destruct (ClientPageSpace.mapSingle4k 0x1000 0x7000 0x5000 true page_access.write
                CachingMode.writeCombine empty_memory) as [[[] s']| | |] eqn:Hrun;
      try discriminate Hok.
    exists s'. split; [reflexivity|].
    exact (proj2 C6_global_and_user_bits _ _ _ _ _ _ _ _
             (empty_memory_fresh 0x7000) Hrun).
Defined.

Lemma kernel_map_not_uncached root v p flags s u s' :
  KernelPageSpace.mapSingle4k root v p flags CachingMode.uncached s = Ok (u, s') → False.
Proof.
  intros H. unfold KernelPageSpace.mapSingle4k in H.
  run_step H. run_step H. cbv zeta in H. do 16 run_step H.
  apply caching_block_inv in Hm8 as (_ & Hc & _). apply Hc. reflexivity.
Qed.

Lemma client_map_not_uncached root v p user_page flags s u s' :
  ClientPageSpace.mapSingle4k root v p user_page flags CachingMode.uncached s = Ok (u, s') →
  False.
Proof.
  intros H. unfold ClientPageSpace.mapSingle4k in H.
  run_step H. run_step H. cbv zeta in H. do 16 run_step H.
  apply caching_block_inv in Hm9 as (_ & Hc & _). apply Hc. reflexivity.
Qed.

(** C3, as the code has it.  When [mapSingle4k] of either space returns, the
    caching mode was not [uncached] and the cache bits (PWT, PCD, PAT) of the
    leaf PTE of [v] are: none for [null] and [writeBack], PWT alone for
    [writeThrough], PWT and PAT for [writeCombine].  With the mode [uncached]
    neither [mapSingle4k] returns, in any state. *)
Theorem C3_cache_bits_of_leaf :
  (∀ root v p flags c s u s',
     fresh_frames s root v →
     KernelPageSpace.mapSingle4k root v p flags c s = Ok (u, s') →
     c ≠ CachingMode.uncached ∧
     ∃ a, leaf_address (mem s') root v = Some a ∧
          cache_bits (mem s' a) = cache_encoding c) ∧
  (∀ root v p user_page flags c s u s',
     fresh_frames s root v →
     ClientPageSpace.mapSingle4k root v p user_page flags c s = Ok (u, s') →
     c ≠ CachingMode.uncached ∧
     ∃ a, leaf_address (mem s') root v = Some a ∧
          cache_bits (mem s' a) = cache_encoding c) ∧
  (∀ root v p flags s,
     is_ok (KernelPageSpace.mapSingle4k root v p flags CachingMode.uncached s) = false) ∧
  (∀ root v p user_page flags s,
     is_ok (ClientPageSpace.mapSingle4k root v p user_page flags CachingMode.uncached s)
     = false).
Proof.
  split; [|split; [|split]].
  - intros root v p flags c s u s' Hfresh Hrun.
    destruct (kernel_map_mapped _ _ _ _ _ _ _ _ Hfresh Hrun)
      as (Hv & Hp & Hc & t3 & t2 & t1 & e4 & e3 & e2 & Hm & _).
    split; [exact Hc|]. exists (t1 + 8 * index1 v).
    split; [apply (mapped_leaf_address _ _ _ _ _ _ _ _ _ _ _ _ _ Hm)|].
    rewrite (mapped_leaf _ _ _ _ _ _ _ _ _ _ _ _ _ _ _ _ Hm).
    apply kernel_leaf_cache; assumption.
  - intros root v p user_page flags c s u s' Hfresh Hrun.
    destruct (client_map_mapped _ _ _ _ _ _ _ _ _ Hfresh Hrun)
      as (Hv & Hp & Hc & t3 & t2 & t1 & e4 & e3 & e2 & Hm & _).
    split; [exact Hc|]. exists (t1 + 8 * index1 v).
    split; [apply (mapped_leaf_address _ _ _ _ _ _ _ _ _ _ _ _ _ Hm)|].
    rewrite (mapped_leaf _ _ _ _ _ _ _ _ _ _ _ _ _ _ _ _ Hm).
    apply client_leaf_cache; assumption.
  - intros root v p flags s.
    destruct (KernelPageSpace.mapSingle4k root v p flags CachingMode.uncached s)
      as [[u s']| | |] eqn:Hrun; try reflexivity.
    destruct (kernel_map_not_uncached _ _ _ _ _ _ _ Hrun).
  - intros root v p user_page flags s.
    destruct (ClientPageSpace.mapSingle4k root v p user_page flags CachingMode.uncached s)
      as [[u s']| | |] eqn:Hrun; try reflexivity.
    destruct (client_map_not_uncached _ _ _ _ _ _ _ _ Hrun).
Qed.

Lemma C3_witness :
  (∃ s', KernelPageSpace.mapSingle4k 0x1000 0x7000 0x5000 page_access.write
           CachingMode.writeCombine empty_memory = Ok (tt, s') ∧
         ∃ a, leaf_address (mem s') 0x1000 0x7000 = Some a ∧
              cache_bits (mem s' a) = (true, false, true)) ∧
  (∃ s', ClientPageSpace.mapSingle4k 0x1000 0x7000 0x5000 true page_access.write
           CachingMode.writeCombine empty_memory = Ok (tt, s') ∧
         ∃ a, leaf_address (mem s') 0x1000 0x7000 = Some a ∧
              cache_bits (mem s' a) = (true, false, true)).
Proof.
  split.
  - pose proof kernel_map_empty_ok as Hok.
    destruct (KernelPageSpace.mapSingle4k 0x1000 0x7000 0x5000 page_access.write
                CachingMode.writeCombine empty_memory) as [[[] s']| | |] eqn:Hrun;
      try discriminate Hok.
    exists s'. split; [reflexivity|].
    exact (proj2 (proj1 C3_cache_bits_of_leaf _ _ _ _ _ _ _ _
                    (empty_memory_fresh 0x7000) Hrun)).
  - pose proof client_map_empty_ok as Hok.
    destruct (ClientPageSpace.mapSingle4k 0x1000 0x7000 0x5000 true page_access.write
                CachingMode.writeCombine empty_memory) as [[[] s']| | |] eqn:Hrun;
      try discriminate Hok.
    exists s'. split; [reflexivity|].
    exact (proj2 (proj1 (proj2 C3_cache_bits_of_leaf) _ _ _ _ _ _ _ _ _
                    (empty_memory_fresh 0x7000) Hrun)).
Defined.

(** C3 as stated fails: with the caching mode [uncached] both [mapSingle4k]
    stop at the assertion on the caching mode; no leaf with the PCD bit is
    produced. *)
Lemma C3_counterexample :
  KernelPageSpace.mapSingle4k 0x1000 0x7000 0x5000 page_access.write
    CachingMode.uncached empty_memory = AssertFail ∧
  ClientPageSpace.mapSingle4k 0x1000 0x7000 0x5000 true page_access.write
    CachingMode.uncached empty_memory = AssertFail.
Proof. split; vm_compute; reflexivity. Qed.

Lemma kernel_leaf_present p flags c : present (kernel_leaf p flags c) = true.
Proof.
  unfold present. rewrite kernel_leaf_bit by lia.
  change (0 =? 0) with true. rewrite orb_true_r. reflexivity.
Qed.

Lemma kernel_leaf_unmapped_frame p flags c :
  Z.land (Z.lxor (kernel_leaf p flags c) kPagePresent) kAddressMask
  = Z.land p kAddressMask.
Proof.
  apply frame_field_eq. intros n Hn.
  rewrite lxor_present_bit, kernel_leaf_bit by lia.
  repeat match goal with
         | |- context [?k =? n] =>
             replace (k =? n) with false by (symmetry; apply Z.eqb_neq; lia)
         end.
  rewrite !andb_false_r, !orb_false_r. apply xorb_false_r.
Qed.




(* ===================================================================== *)
(** ** [ClientPageSpace::isMapped] *)
(* ===================================================================== *)

Lemma assert_run {S} (c : bool) (s : S) : c = true → assert c s = Ok (tt, s).
Proof. intros ->. reflexivity. Qed.

Lemma aligned_assert_run x (s : PtState) :
  page_aligned x → assert (negb (has_bit x (kPageSize - 1))) s = Ok (tt, s).
Proof.
  intros Hx. apply assert_run. rewrite has_bit_low12, negb_involutive.
  apply Z.eqb_eq. exact Hx.
Qed.

Lemma aligned_assert_inv x (s s' : PtState) u :
  assert (negb (has_bit x (kPageSize - 1))) s = Ok (u, s') → page_aligned x.
Proof.
  intros H. apply assert_inv in H as [H _].
  rewrite has_bit_low12, negb_involutive in H. apply Z.eqb_eq. exact H.
Qed.

(** Whenever [isMapped] returns, it returns whether the leaf is present and
    leaves the state alone. *)
Lemma isMapped_inv root v s b s' :
  ClientPageSpace.isMapped root v s = Ok (b, s') →
  b = leaf_present (mem s) root v ∧ s' = s ∧ page_aligned v.
Proof.
  intros H. unfold ClientPageSpace.isMapped in H.
  run_step H. cbv zeta in H.
  run_step H. apply PageAccessor_transparent in Hm0 as [-> ->].
  run_step H. rewrite has_bit_present in H.
  unfold leaf_present, leaf_address, indices. simpl.
  assert (Hv : page_aligned v).
  { apply Z.eqb_eq. rewrite has_bit_low12, negb_involutive in Hm. exact Hm. }
  destruct (present (mem s (root + 8 * index4 v))); simpl in H; [|run_prim H; auto].
  run_step H. apply PageAccessor_transparent in Hm0 as [-> ->].
  run_step H. rewrite has_bit_present in H.
  destruct (present (mem s (_ + 8 * index3 v))); simpl in H; [|run_prim H; auto].
  run_step H. apply PageAccessor_transparent in Hm0 as [-> ->].
  run_step H. rewrite has_bit_present in H.
  destruct (present (mem s (_ + 8 * index2 v))); simpl in H; [|run_prim H; auto].
  run_step H. apply PageAccessor_transparent in Hm0 as [-> ->].
  run_step H. run_prim H. rewrite has_bit_present. auto.
Qed.

(** On an aligned address, with the tables of the walk inside the identity
    window, [isMapped] returns. *)
Lemma isMapped_run root v s :
  page_aligned v → page_aligned root →
  Forall (λ t, t < 0x400000000000) (tables_of (mem s) root v) →
  ClientPageSpace.isMapped root v s = Ok (leaf_present (mem s) root v, s).
Proof.
  intros Hv Hr Hw. unfold tables_of in Hw. simpl in Hw.
  unfold leaf_present, leaf_address, indices. simpl.
  unfold ClientPageSpace.isMapped.
  erewrite bind_run by (apply aligned_assert_run; exact Hv). cbv zeta.
  inversion Hw as [|? ? Hroot Hw3]; subst.
  erewrite bind_run by (apply PageAccessor_run; assumption).
  erewrite bind_run by reflexivity. rewrite has_bit_present.
  destruct (present (mem s (root + 8 * index4 v))); simpl; [|reflexivity].
  inversion Hw3 as [|? ? Ht3 Hw2]; subst.
  erewrite bind_run by (apply PageAccessor_run; [apply land_mask_aligned|assumption]).
  erewrite bind_run by reflexivity. rewrite has_bit_present.
  destruct (present (mem s (_ + 8 * index3 v))); simpl; [|reflexivity].
  inversion Hw2 as [|? ? Ht2 Hw1]; subst.
  erewrite bind_run by (apply PageAccessor_run; [apply land_mask_aligned|assumption]).
  erewrite bind_run by reflexivity. rewrite has_bit_present.
  destruct (present (mem s (_ + 8 * index2 v))); simpl; [|reflexivity].
  inversion Hw1 as [|? ? Ht1 _]; subst.
  erewrite bind_run by (apply PageAccessor_run; [apply land_mask_aligned|assumption]).
  erewrite bind_run by reflexivity. rewrite has_bit_present. reflexivity.
Qed.

(** C5, as the code has it.  For a page-aligned [v], a page-aligned root and
    tables of the walk below [0x4000'0000'0000] (the range that
    [PageAccessor] accepts), [isMapped(v)] returns whether the leaf PTE of
    [v] is present, fails no assertion and changes nothing; and whenever
    [isMapped] returns at all, that is what it returns. *)
Theorem C5_isMapped_result :
  (∀ root v s,
     page_aligned v → page_aligned root →
     Forall (λ t, t < 0x400000000000) (tables_of (mem s) root v) →
     ClientPageSpace.isMapped root v s = Ok (leaf_present (mem s) root v, s)) ∧
  (∀ root v s b s',
     ClientPageSpace.isMapped root v s = Ok (b, s') →
     b = leaf_present (mem s) root v ∧ s' = s).
Proof.
  split.
  - exact isMapped_run.
  - intros root v s b s' H. destruct (isMapped_inv _ _ _ _ _ H) as (? & ? & _). auto.
Qed.

Lemma one_mapping_tables :
  tables_of (mem one_mapping) 0x1000 0x7000 = [0x1000; 0x2000; 0x3000; 0x4000] ∧
  tables_of (mem one_mapping) 0x1000 0x8000 = [0x1000; 0x2000; 0x3000; 0x4000] ∧
  leaf_present (mem one_mapping) 0x1000 0x7000 = true ∧
  leaf_present (mem one_mapping) 0x1000 0x8000 = false.
Proof. repeat split; vm_compute; reflexivity. Qed.

Lemma C5_witness :
  ClientPageSpace.isMapped 0x1000 0x7000 one_mapping = Ok (true, one_mapping) ∧
  ClientPageSpace.isMapped 0x1000 0x8000 one_mapping = Ok (false, one_mapping).
Proof.
  destruct one_mapping_tables as (T7 & T8 & L7 & L8).
  split.
  - rewrite <- L7.
    apply (proj1 C5_isMapped_result); [reflexivity|reflexivity|].
    rewrite T7. repeat constructor.
  - rewrite <- L8.
    apply (proj1 C5_isMapped_result); [reflexivity|reflexivity|].
    rewrite T8. repeat constructor.
Defined.

(** C5 as stated fails: [isMapped] fails its first assertion on an address
    that is not page-aligned, and the assertion of [PageAccessor] on a table
    outside of the identity window. *)
Lemma C5_counterexample :
  ClientPageSpace.isMapped 0x1000 0x7001 empty_memory = AssertFail ∧
  ClientPageSpace.isMapped 0x1000 0x7000 table_outside_window = AssertFail.
Proof. split; vm_compute; reflexivity. Qed.

(* ===================================================================== *)
(** ** [ClientPageSpace::unmapRange] *)
(* ===================================================================== *)

Lemma present_cleared w : present (Z.land w kNotPresent64) = false.
Proof.
  unfold present. rewrite land_notpresent_bit by lia.
  change (1 <=? 0) with false. rewrite andb_false_r. reflexivity.
Qed.

(** One iteration either skips the page or clears the present bit of its
    present leaf. *)
Lemma unmapRange_body_inv root va mode s u s' :
  ClientPageSpace.unmapRange_body root va mode s = Ok (u, s') →
  s' = s ∨
  ∃ a, leaf_address (mem s) root va = Some a ∧ present (mem s a) = true ∧
       s' = mkPtState (<[a := Z.land (mem s a) kNotPresent64]> (mem s)) (frames s).
Proof.
  intros H. unfold ClientPageSpace.unmapRange_body in H. cbv zeta in H.
  run_step H. apply PageAccessor_transparent in Hm as [-> ->].
  run_step H.
  destruct (PageMode.eqb mode PageMode.remap
            && negb (has_bit (mem s (root + 8 * index4 va)) kPagePresent));
    [run_prim H; auto|].
  run_step H. run_step H. apply PageAccessor_transparent in Hm0 as [-> ->].
  run_step H.
  destruct (PageMode.eqb mode PageMode.remap && negb (has_bit (mem s _) kPagePresent));
    [run_prim H; auto|].
  run_step H. run_step H. apply PageAccessor_transparent in Hm1 as [-> ->].
  run_step H.
  destruct (PageMode.eqb mode PageMode.remap && negb (has_bit (mem s _) kPagePresent));
    [run_prim H; auto|].
  run_step H. run_step H. apply PageAccessor_transparent in Hm2 as [-> ->].
  run_step H.
  destruct (PageMode.eqb mode PageMode.remap && negb (has_bit (mem s _) kPagePresent));
    [run_prim H; auto|].
  run_step H. run_prim H.
  rewrite has_bit_present in Hm. rewrite has_bit_present in Hm0.
  rewrite has_bit_present in Hm1. rewrite has_bit_present in Hm2.
  right. eexists. split.
  - unfold leaf_address, indices. simpl. rewrite Hm, Hm0, Hm1. reflexivity.
  - split; [exact Hm2|reflexivity].
Qed.

Lemma walk_cons m tbl i j rest :
  walk m tbl (i :: j :: rest) =
    if present (m (tbl + 8 * i))
    then walk m (Z.land (m (tbl + 8 * i)) kAddressMask) (j :: rest)
    else None.
Proof. reflexivity. Qed.

(** Clearing the present bit of one word does not create a walk. *)
Lemma walk_before_clear m a0 tbl idxs a :
  walk (<[a0 := Z.land (m a0) kNotPresent64]> m) tbl idxs = Some a →
  walk m tbl idxs = Some a.
Proof.
  revert tbl. induction idxs as [|i rest IH]; intros tbl H; [discriminate|].
  destruct rest as [|j rest]; [exact H|].
  rewrite walk_cons in H |- *.
  destruct (Z.eq_dec a0 (tbl + 8 * i)) as [Heq|Hne].
  - rewrite <- Heq in H. rewrite fn_lookup_insert, present_cleared in H. discriminate.
  - rewrite fn_lookup_insert_ne in H by exact Hne.
    destruct (present (m (tbl + 8 * i))); [|discriminate].
    apply IH. exact H.
Qed.

Lemma unmapRange_loop_inv root pointer mode n :
  ∀ progress s u s',
    ClientPageSpace.unmapRange_loop root pointer mode progress n s = Ok (u, s') →
    frames s' = frames s ∧
    ∀ w, mem s' w = mem s w ∨
         (present (mem s w) = true ∧ mem s' w = Z.land (mem s w) kNotPresent64 ∧
          range_leaf (mem s) root pointer progress n w).
Proof.
  induction n as [|n IH]; intros progress s u s' H.
  - run_prim H. auto.
  - cbn [ClientPageSpace.unmapRange_loop] in H.
    apply bind_inv in H. destruct H as (u1 & s1 & Hbody & H).
    destruct (IH _ _ _ _ H) as [Hfr Hrest].
    assert (Hshift : ∀ m w, range_leaf m root pointer (progress + kPageSize) n w →
                            range_leaf m root pointer progress (S n) w).
    { intros m w (k & Hk & Hl). exists (S k). split; [lia|].
      rewrite <- Hl. do 3 f_equal. lia. }
    destruct (unmapRange_body_inv _ _ _ _ _ _ Hbody) as [->|(a0 & Hl0 & Hp0 & ->)].
    + split; [exact Hfr|]. intros w.
      destruct (Hrest w) as [?|(? & ? & ?)]; [left; assumption|].
      right. auto.
    + cbn [mem frames] in *. split; [exact Hfr|]. intros w.
      destruct (Z.eq_dec a0 w) as [Heq|Hne].
      * subst w. right. split; [exact Hp0|].
        assert (Hhere : range_leaf (mem s) root pointer progress (S n) a0).
        { exists 0%nat. split; [lia|]. rewrite <- Hl0. do 3 f_equal. lia. }
        split; [|exact Hhere].
        destruct (Hrest a0) as [Hsame|(Hp & _)].
        -- rewrite Hsame. apply fn_lookup_insert.
        -- rewrite fn_lookup_insert, present_cleared in Hp. discriminate.
      * destruct (Hrest w) as [Hsame|(Hp & Hsame & Hl)].
        -- left. rewrite Hsame. apply fn_lookup_insert_ne. exact Hne.
        -- rewrite fn_lookup_insert_ne in Hp, Hsame by exact Hne.
           right. split; [exact Hp|]. split; [exact Hsame|].
           apply Hshift. destruct Hl as (k & Hk & Hl). exists k. split; [exact Hk|].
           eapply walk_before_clear. exact Hl.
Qed.

Lemma kernel_unmap_ok :
  is_ok (KernelPageSpace.unmapSingle4k 0x1000 0x7000 after_map) = true.
Proof. vm_compute. reflexivity. Qed.

Lemma client_unmapRange_ok :
  is_ok (ClientPageSpace.unmapRange 0x1000 0x7000 0x1000 PageMode.normal one_mapping)
  = true.
Proof. vm_compute. reflexivity. Qed.

(* ===================================================================== *)
(** ** Lemmas on the bookkeeping primitives *)
(* ===================================================================== *)

Ltac bk_prim H :=
  first
    [ apply assert_inv in H; destruct H as [H ->]
    | apply ret_inv in H; destruct H as [-> ->]
    | progress (unfold getCpuData, binding, put_binding, put_context, put_space, emit,
                grab, ret in H);
      injection H as <- <- ].

Ltac bk_step H :=
  let a := fresh "a" in
  let s1 := fresh "s" in
  let Hm := fresh "Hm" in
  apply bind_inv in H; destruct H as (a & s1 & Hm & H); cbv zeta in H;
  try bk_prim Hm.

Tactic Notation "bind_as" hyp(H) ident(x) ident(s1) ident(Hx) :=
  apply bind_inv in H; destruct H as (x & s1 & Hx & H); cbv zeta in H.

Lemma deref_inv sp s v s' : deref sp s = Ok (v, s') → spaces s !! sp = Some v ∧ s' = s.
Proof.
  unfold deref. destruct (spaces s !! sp); [|discriminate]. intros [= -> ->]. auto.
Qed.

Lemma emit_all_inv es s u s' :
  emit_all es s = Ok (u, s') → s' = mkState (cpu s) (spaces s) (events s ++ es).
Proof.
  revert s. induction es as [|e es IH]; intros s H.
  - bk_prim H. rewrite app_nil_r. destruct s; reflexivity.
  - cbn [emit_all] in H. bk_step H. apply IH in H. subst s'. cbn.
    rewrite <- app_assoc. reflexivity.
Qed.

Lemma run_complete_inv l s u s' :
  run_complete l s = Ok (u, s') →
  s' = mkState (cpu s) (spaces s) (events s ++ map (λ n, EvShotDown (ShootNode.id n)) l).
Proof.
  revert s. induction l as [|n l IH]; intros s H.
  - bk_prim H. rewrite app_nil_r. destruct s; reflexivity.
  - cbn [run_complete] in H. bk_step H. apply IH in H. subst s'. cbn.
    rewrite <- app_assoc. reflexivity.
Qed.

(** The CR3 block of [makePrimary] only adds events. *)
Lemma cr3_block_inv (cond hp : bool) (w : option nat) (pcid : Z) s u s' :
  (if cond then
     do space <- grab w;
     match space with
     | Some sp =>
         do s0 <- deref sp;
         emit (EvWriteCr3 (if hp then Z.lor (Z.lor (_rootTable s0) pcid) (Z.shiftl 1 63)
                           else Z.lor (_rootTable s0) pcid))
     | None => assert false
     end
   else ret tt) s = Ok (u, s') →
  cpu s' = cpu s ∧ spaces s' = spaces s ∧
  (cond = true → is_Some (upgrade (spaces s) w)).
Proof.
  intros H. destruct cond.
  - bk_step H. destruct (upgrade (spaces s) w) as [sp|] eqn:Hup.
    + bk_step H. apply deref_inv in Hm as [_ ->]. bk_prim H. simpl. eauto.
    + apply assert_inv in H as [H _]. discriminate.
  - bk_prim H. split; [reflexivity|]. split; [reflexivity|]. discriminate.
Qed.

Lemma makePrimary_inv this s u s' :
  PageBinding.makePrimary this s = Ok (u, s') →
  let c := cpu s in
  let b := pcidBindings c this in
  intsEnabled c = false ∧
  spaces s' = spaces s ∧
  cpu s' =
    mkCpuData (havePcids c) (intsEnabled c)
      (mkPageContext ((_nextStamp (pageContext c) + 1) mod 2 ^ 64) (Some this))
      (<[this := mkPageBinding (_pcid b) (_boundSpace b) false
                   (_nextStamp (pageContext c)) (_alreadyShotSequence b)]>
         (pcidBindings c)).
Proof.
  intros H. unfold PageBinding.makePrimary in H.
  do 6 bk_step H. bk_prim H. cbn.
  apply cr3_block_inv in Hm1 as (Hc & Hs & _).
  apply negb_true_iff in Hm.
  rewrite Hc, Hs. auto.
Qed.

(** The block of [rebind] that leaves the old space: the CPU data stay. *)
Lemma unbind_block_inv (w : option nat) (already : Z) s complete s' :
  match w with
  | Some u =>
      emit (EvAcquire u) ;;
      do sp <- deref u;
      let '(rq, complete) := PageBinding.rebind_scan already (rev (_shootQueue sp)) [] in
      put_space u
        (mkPageSpace (_rootTable sp) ((_numBindings sp - 1) mod 2 ^ 32)
                     (_shootSequence sp) (rev rq)) ;;
      emit (EvRelease u) ;;
      ret complete
  | None => ret []
  end s = Ok (complete, s') →
  cpu s' = cpu s.
Proof.
  intros H. destruct w as [old|].
  - bk_step H. apply bind_inv in H. destruct H as (sp & s1 & Hd & H).
    apply deref_inv in Hd as [_ ->].
    destruct (PageBinding.rebind_scan already (rev (_shootQueue sp)) []) as [rq c].
    bk_step H. bk_step H. bk_prim H. reflexivity.
  - bk_prim H. reflexivity.
Qed.

(** What [rebind] does to the data of the CPU. *)
Lemma rebind_inv this space s u s' :
  PageBinding.rebind this space s = Ok (u, s') →
  intsEnabled (cpu s) = false ∧
  havePcids (cpu s') = havePcids (cpu s) ∧
  intsEnabled (cpu s') = intsEnabled (cpu s) ∧
  pageContext (cpu s') = pageContext (cpu s) ∧
  (∀ i, i ≠ this → pcidBindings (cpu s') i = pcidBindings (cpu s) i) ∧
  _primaryStamp (pcidBindings (cpu s') this) = _primaryStamp (pcidBindings (cpu s) this) ∧
  _pcid (pcidBindings (cpu s') this) = _pcid (pcidBindings (cpu s) this) ∧
  upgrade (spaces s') (_boundSpace (pcidBindings (cpu s') this)) = Some space.
Proof.
  intros H. unfold PageBinding.rebind in H.
  do 4 bk_step H. apply negb_true_iff in Hm.
  destruct (bool_decide (upgrade (spaces s) (_boundSpace (pcidBindings (cpu s) this))
                         = Some space)) eqn:Hb.
  - bk_prim H. apply bool_decide_eq_true in Hb. repeat split; auto.
  - do 3 bk_step H.
    assert (Hs0 : cpu s0 = cpu s).
    { destruct (havePcids (cpu s)); bk_prim Hm0; reflexivity. }
    apply unbind_block_inv in Hm1. cbn [cpu] in Hm1. rewrite Hs0 in Hm1.
    bk_step H. apply run_complete_inv in Hm2. subst s2.
    bk_step H. apply bind_inv in H. destruct H as (sp & s3 & Hd & H).
    apply deref_inv in Hd as [Hsp ->]. cbn [spaces] in Hsp.
    bk_step H. bk_step H. bk_prim H. cbn. rewrite Hm1. cbn.
    split; [exact Hm|]. split; [reflexivity|]. split; [reflexivity|].
    split; [reflexivity|].
    split.
    { intros i Hi. rewrite !fn_lookup_insert_ne by congruence. reflexivity. }
    rewrite !fn_lookup_insert. cbn.
    split; [reflexivity|]. split; [reflexivity|].
    rewrite lookup_insert_eq. reflexivity.
Qed.

Lemma shootdown_scan_inv hp pcid already rq :
  ∀ complete s r s',
    PageBinding.shootdown_scan hp pcid already rq complete s = Ok (r, s') →
    cpu s' = cpu s ∧ spaces s' = spaces s.
Proof.
  induction rq as [|current preds IH]; intros complete s r s' H.
  - bk_prim H. auto.
  - cbn [PageBinding.shootdown_scan] in H.
    destruct (ShootNode._sequence current >? already); [|bk_prim H; auto].
    bk_step H. bk_step H. bk_step H.
    assert (Hs0 : cpu s0 = cpu s ∧ spaces s0 = spaces s).
    { destruct hp; cbn [negb] in Hm1.
      - apply emit_all_inv in Hm1. subst s0. auto.
      - bk_step Hm1. apply emit_all_inv in Hm1. subst s0. auto. }
    destruct Hs0 as [Hc Hsp].
    destruct (ShootNode._bindingsToShoot current =? 1).
    + apply IH in H as [-> ->]. auto.
    + apply bind_inv in H. destruct H as (r0 & s1 & Hrec & H).
      apply IH in Hrec as [Hc1 Hsp1]. bk_prim H. split; congruence.
Qed.

(** What [shootdown] does to the data of the CPU: the binding either stays
    bound as it was, or loses its pointer to a dead space. *)
Lemma shootdown_inv this s u s' :
  PageBinding.shootdown this s = Ok (u, s') →
  havePcids (cpu s') = havePcids (cpu s) ∧
  pageContext (cpu s') = pageContext (cpu s) ∧
  (∀ i, i ≠ this → pcidBindings (cpu s') i = pcidBindings (cpu s) i) ∧
  _primaryStamp (pcidBindings (cpu s') this) = _primaryStamp (pcidBindings (cpu s) this) ∧
  (_boundSpace (pcidBindings (cpu s') this) = _boundSpace (pcidBindings (cpu s) this) ∨
   _boundSpace (pcidBindings (cpu s') this) = None).
Proof.
  intros H. unfold PageBinding.shootdown in H.
  do 4 bk_step H.
  destruct (upgrade (spaces s) (_boundSpace (pcidBindings (cpu s) this))) as [sp|].
  - bk_step H. apply bind_inv in H. destruct H as (v & s1 & Hd & H).
    apply deref_inv in Hd as [_ ->].
    destruct (rev (_shootQueue v)) as [|back rest] eqn:Hq.
    + bk_prim H. cbn. repeat split; auto.
    + apply bind_inv in H. destruct H as (r & s2 & Hscan & H).
      apply shootdown_scan_inv in Hscan as [Hc _]. cbn [cpu] in Hc.
      bind_as H u1 s3 Hput. bk_prim Hput.
      bind_as H u2 s4 Hrel. bk_prim Hrel.
      bind_as H u3 s5 Hrun. apply run_complete_inv in Hrun. subst s5.
      bk_prim H. cbn. rewrite Hc.
      split; [reflexivity|]. split; [reflexivity|].
      split; [intros i Hi; apply fn_lookup_insert_ne; congruence|].
      rewrite fn_lookup_insert. cbn. auto.
  - destruct (_boundSpace (pcidBindings (cpu s) this)) as [dead|] eqn:Hbs.
    + bk_step H. bk_prim H. cbn.
      split; [reflexivity|]. split; [reflexivity|].
      split; [intros i Hi; apply fn_lookup_insert_ne; congruence|].
      rewrite fn_lookup_insert. cbn. auto.
    + bk_prim H. repeat split; auto.
Qed.

Lemma submitShootdown_inv this node s node' s' :
  PageSpace.submitShootdown this node s = Ok (node', s') → cpu s' = cpu s.
Proof.
  intros H. unfold PageSpace.submitShootdown in H.
  bind_as H u0 s0 Hacq. bk_prim Hacq.
  bind_as H sp s1 Hd. apply deref_inv in Hd as [_ ->].
  bind_as H n1 s2 Hput.
  assert (Hc : cpu s2 = cpu s).
  { destruct (negb (_numBindings sp =? 0)).
    - bind_as Hput u1 s3 Hp. bk_prim Hp. bk_prim Hput. reflexivity.
    - bk_prim Hput. reflexivity. }
  bind_as H u1 s3 Hrel. bk_prim Hrel.
  bind_as H u2 s4 Hipi.
  assert (Hc' : cpu s4 = cpu s2).
  { destruct (negb (_numBindings sp =? 0)); bk_prim Hipi; reflexivity. }
  bk_prim H. congruence.
Qed.

(* ===================================================================== *)
(** ** The loop of [activate] *)
(* ===================================================================== *)

Section activate_loop.
Variable c : CpuData.
Variable alive : gmap nat PageSpace.
Variable space : nat.

Let stamp (i : nat) : Z := _primaryStamp (pcidBindings c i).

Lemma loop_keep :
  havePcids c = true →
  ∀ n i k j, (i ≤ j < i + n)%nat → bound_to c alive j space →
    ∃ j', (i ≤ j' ≤ j)%nat ∧ bound_to c alive j' space ∧
          PageSpace.activate_loop c alive space n i k = PageSpace.Keep j'.
Proof.
  intros Hp. induction n as [|n IH]; intros i k j Hj Hb; [lia|].
  cbn [PageSpace.activate_loop]. cbv zeta.
  destruct (bool_decide (upgrade alive (_boundSpace (pcidBindings c i)) = Some space))
    eqn:Hi.
  - exists i. apply bool_decide_eq_true in Hi. split; [lia|]. auto.
  - rewrite Hp. cbn [negb].
    apply bool_decide_eq_false in Hi.
    assert (Hne : j ≠ i) by (intros ->; apply Hi; exact Hb).
    destruct (IH (S i) (if stamp i <? stamp k then i else k) j ltac:(lia) Hb)
      as (j' & Hj' & Hb' & Hl).
    exists j'. split; [lia|]. auto.
Qed.

Lemma loop_rebind :
  havePcids c = true →
  ∀ n i k, (∀ j, (i ≤ j < i + n)%nat → ¬ bound_to c alive j space) →
    ∃ k', PageSpace.activate_loop c alive space n i k = PageSpace.Rebind k' ∧
          (k' = k ∨ (i ≤ k' < i + n)%nat) ∧
          stamp k' ≤ stamp k ∧
          ∀ j, (i ≤ j < i + n)%nat → stamp k' ≤ stamp j.
Proof.
  intros Hp. induction n as [|n IH]; intros i k Hnone.
  - exists k. cbn. split; [reflexivity|]. split; [auto|]. split; [lia|].
    intros j Hj. lia.
  - cbn [PageSpace.activate_loop]. cbv zeta.
    destruct (bool_decide (upgrade alive (_boundSpace (pcidBindings c i)) = Some space))
      eqn:Hi.
    { apply bool_decide_eq_true in Hi. destruct (Hnone i ltac:(lia) Hi). }
    rewrite Hp. cbn [negb]. fold (stamp i) (stamp k).
    destruct (IH (S i) (if stamp i <? stamp k then i else k)) as (k' & Hl & Hk' & Hle & Hmin).
    { intros j Hj. apply Hnone. lia. }
    exists k'. split; [exact Hl|].
    assert (Hboth : stamp k' ≤ stamp i ∧ stamp k' ≤ stamp k).
    { destruct (Z.ltb_spec (stamp i) (stamp k)); lia. }
    split.
    { destruct Hk' as [->|Hk']; [|right; lia].
      destruct (stamp i <? stamp k); [right; lia|left; reflexivity]. }
    split; [lia|].
    intros j Hj. destruct (decide (j = i)) as [->|Hne]; [lia|]. apply Hmin. lia.
Qed.

Lemma loop_without_pcids n i k :
  havePcids c = false →
  PageSpace.activate_loop c alive space (S n) i k =
    if bool_decide (bound_to c alive i space) then PageSpace.Keep i
    else PageSpace.Rebind k.
Proof.
  intros Hp. cbn [PageSpace.activate_loop]. cbv zeta. unfold bound_to.
  destruct (bool_decide _); [reflexivity|]. rewrite Hp. reflexivity.
Qed.
End activate_loop.

(** [activate] keeps [first_binding_only]. *)
Lemma activate_first_binding_only space s u s' :
  first_binding_only (cpu s) →
  PageSpace.activate space s = Ok (u, s') →
  first_binding_only (cpu s').
Proof.
  intros Hinv H Hp'.
  assert (Hkeep : ∀ i s1 u1 s2, PageBinding.makePrimary i s1 = Ok (u1, s2) →
            havePcids (cpu s2) = havePcids (cpu s1) ∧
            ∀ j, j ≠ i → pcidBindings (cpu s2) j = pcidBindings (cpu s1) j).
  { intros i s1 u1 s2 Hmp. apply makePrimary_inv in Hmp as (_ & _ & ->). cbn.
    split; [reflexivity|]. intros j Hj. apply fn_lookup_insert_ne. congruence. }
  unfold PageSpace.activate in H.
  destruct (havePcids (cpu s)) eqn:Hp.
  - exfalso.
    destruct (PageSpace.activate_loop (cpu s) (spaces s) space maxPcidCount 0 0).
    + apply Hkeep in H as [Hh _]. congruence.
    + bind_as H u1 s1 Hreb. apply rebind_inv in Hreb as (_ & Hh1 & _).
      apply Hkeep in H as [Hh _]. congruence.
  - unfold maxPcidCount in H. rewrite loop_without_pcids in H by exact Hp.
    intros i Hi.
    destruct (bool_decide (bound_to (cpu s) (spaces s) 0 space)).
    + apply Hkeep in H as [_ Hb]. rewrite Hb by lia. apply Hinv; assumption.
    + bind_as H u1 s1 Hreb.
      apply rebind_inv in Hreb as (_ & _ & _ & _ & Hb1 & _).
      apply Hkeep in H as [_ Hb]. rewrite Hb, Hb1 by lia. apply Hinv; assumption.
Qed.

Lemma on_cpu_inv {A} c (op : M State A) sys a sys' :
  on_cpu c op sys = Ok (a, sys') →
  ∃ cd s', cpus sys !! c = Some cd ∧
           op (mkState cd (sys_spaces sys) (sys_events sys)) = Ok (a, s') ∧
           sys' = mkSystem (<[c := cpu s']> (cpus sys)) (spaces s') (events s').
Proof.
  unfold on_cpu. intros H. destruct (cpus sys !! c) as [cd|]; [|discriminate].
  destruct (op (mkState cd (sys_spaces sys) (sys_events sys))) as [[a' s']| | |] eqn:Hop;
    try discriminate.
  injection H as Ha Hs. subst a' sys'. exists cd, s'. auto.
Qed.

(** In every reachable state, every CPU satisfies [first_binding_only]. *)
Lemma reachable_first_binding_only sys :
  reachable sys → Forall first_binding_only (cpus sys).
Proof.
  induction 1 as [pcids|sys sys' Hreach IH Hstep].
  - unfold System_init. cbn. apply Forall_forall. intros cd Hin.
    apply list_elem_of_fmap in Hin as (hp & -> & _). intros _ i _. reflexivity.
  - assert (Hone : ∀ c cd cd', cpus sys !! c = Some cd →
              (first_binding_only cd → first_binding_only cd') →
              Forall first_binding_only (<[c := cd']> (cpus sys))).
    { intros c cd cd' Hc Himp. apply Forall_insert; [exact IH|].
      apply Himp. rewrite Forall_forall in IH. apply IH.
      eapply list_elem_of_lookup_2. exact Hc. }
    inversion Hstep; subst; cbn [cpus]; try exact IH.
    + apply on_cpu_inv in H0 as (cd & s' & Hc & Hop & ->). cbn [cpus].
      apply (Hone c cd _ Hc). intros Hcd.
      exact (activate_first_binding_only _ (mkState cd _ _) _ _ Hcd Hop).
    + apply on_cpu_inv in H0 as (cd & s' & Hc & Hop & ->). cbn [cpus].
      apply (Hone c cd _ Hc). intros Hcd Hp' j Hj.
      apply shootdown_inv in Hop as (Hh & _ & Hother & _ & Hthis). cbn [cpu] in *.
      destruct (decide (j = i)) as [->|Hne].
      * destruct Hthis as [-> | ->]; [|reflexivity]. apply Hcd; [congruence|exact Hj].
      * rewrite Hother by exact Hne. apply Hcd; [congruence|exact Hj].
    + apply on_cpu_inv in H as (cd & s' & Hc & Hop & ->). cbn [cpus].
      apply (Hone c cd _ Hc). intros Hcd.
      apply submitShootdown_inv in Hop. cbn [cpu] in Hop. rewrite Hop. exact Hcd.
    + apply (Hone c cd _ H). intros Hcd Hp' j Hj. cbn in *. apply Hcd; assumption.
Qed.

Lemma loop_result c alive space n :
  ∀ i k,
    match PageSpace.activate_loop c alive space n i k with
    | PageSpace.Keep j => (i ≤ j < i + n)%nat ∧ bound_to c alive j space
    | PageSpace.Rebind k' => k' = k ∨ (i ≤ k' < i + n)%nat
    end.
Proof.
  induction n as [|n IH]; intros i k; cbn [PageSpace.activate_loop]; cbv zeta.
  - left. reflexivity.
  - destruct (bool_decide (upgrade alive (_boundSpace (pcidBindings c i)) = Some space))
      eqn:Hi.
    + apply bool_decide_eq_true in Hi. split; [lia|exact Hi].
    + destruct (negb (havePcids c)); [left; reflexivity|].
      specialize (IH (S i) (if _primaryStamp (pcidBindings c i)
                              <? _primaryStamp (pcidBindings c k) then i else k)).
      destruct (PageSpace.activate_loop c alive space n (S i) _).
      * destruct IH. split; [lia|assumption].
      * destruct IH as [->|IH]; [|right; lia].
        destruct (_ <? _); [right; lia|left; reflexivity].
Qed.

(* ===================================================================== *)
(** ** Claims on activation and submission *)
(* ===================================================================== *)

(** C7.  In every reachable state of the machine, on every CPU:
    if some binding of the CPU's array is bound to [space], then
    [activate(space)] is [makePrimary] on a binding that is bound to [space],
    and nothing else (no [rebind]); otherwise [activate(space)] is
    [rebind(space)] followed by [makePrimary] on a binding [k] of the array,
    where on a CPU with PCIDs no binding of the array has a smaller
    [primaryStamp] than [k], and on a CPU without PCIDs [k] is 0. *)
Theorem C7_activate_choice sys c cd space :
  reachable sys → cpus sys !! c = Some cd →
  ((∃ i, (i < maxPcidCount)%nat ∧ bound_to cd (sys_spaces sys) i space) →
   ∃ j, (j < maxPcidCount)%nat ∧ bound_to cd (sys_spaces sys) j space ∧
        PageSpace.activate space (mkState cd (sys_spaces sys) (sys_events sys))
        = PageBinding.makePrimary j (mkState cd (sys_spaces sys) (sys_events sys))) ∧
  ((∀ i, (i < maxPcidCount)%nat → ¬ bound_to cd (sys_spaces sys) i space) →
   ∃ k, (k < maxPcidCount)%nat ∧
        PageSpace.activate space (mkState cd (sys_spaces sys) (sys_events sys))
        = (PageBinding.rebind k space ;; PageBinding.makePrimary k)
            (mkState cd (sys_spaces sys) (sys_events sys)) ∧
        (havePcids cd = true →
         ∀ i, (i < maxPcidCount)%nat →
              _primaryStamp (pcidBindings cd k) ≤ _primaryStamp (pcidBindings cd i)) ∧
        (havePcids cd = false → k = 0%nat)).
Proof.
  intros Hreach Hc.
  assert (Hfirst : first_binding_only cd).
  { pose proof (reachable_first_binding_only _ Hreach) as Hall.
    rewrite Forall_forall in Hall. apply Hall. eapply list_elem_of_lookup_2. exact Hc. }
  unfold PageSpace.activate. cbn [cpu spaces].
  split.
  - intros (i & Hi & Hb).
    destruct (havePcids cd) eqn:Hp.
    + destruct (loop_keep cd (sys_spaces sys) space Hp maxPcidCount 0 0 i
                  ltac:(lia) Hb) as (j & Hj & Hbj & ->).
      exists j. split; [lia|]. auto.
    + assert (i = 0%nat) as ->.
      { destruct i as [|i]; [reflexivity|]. exfalso.
        unfold bound_to in Hb. rewrite (Hfirst Hp (S i)) in Hb by lia. discriminate. }
      unfold maxPcidCount at 2. rewrite loop_without_pcids by exact Hp.
      rewrite bool_decide_eq_true_2 by exact Hb.
      exists 0%nat. auto.
  - intros Hnone.
    destruct (havePcids cd) eqn:Hp.
    + destruct (loop_rebind cd (sys_spaces sys) space Hp maxPcidCount 0 0)
        as (k & -> & Hk & _ & Hmin).
      { intros j Hj. apply Hnone. lia. }
      exists k. split; [unfold maxPcidCount in *; lia|].
      split; [reflexivity|]. split; [|discriminate].
      intros _ i Hi. apply Hmin. lia.
    + unfold maxPcidCount at 2. rewrite loop_without_pcids by exact Hp.
      rewrite bool_decide_eq_false_2 by (apply Hnone; unfold maxPcidCount; lia).
      exists 0%nat. split; [unfold maxPcidCount; lia|].
      split; [reflexivity|]. split; [discriminate|reflexivity].
Qed.

Lemma pcid_bound_reachable : reachable pcid_bound.
Proof.
  eapply reachable_step.
  - eapply reachable_step; [apply (reachable_init [true])|].
    apply (step_create 1 0x1000); [reflexivity|].
    apply (bool_decide_unpack _). vm_compute. exact I.
  - apply (step_activate 0 1); [eexists; vm_compute; reflexivity|].
    apply run_unit. vm_compute. reflexivity.
Qed.

Lemma pcid_bound_lookup : cpus pcid_bound !! 0%nat = Some pcid_bound_cpu.
Proof.
  unfold pcid_bound_cpu. destruct (cpus pcid_bound !! 0%nat) eqn:E; [reflexivity|].
  exfalso. apply lookup_ge_None in E.
  assert (Hlen : length (cpus pcid_bound) = 1%nat) by (vm_compute; reflexivity).
  lia.
Qed.

Lemma pcid_bound_to : bound_to pcid_bound_cpu (sys_spaces pcid_bound) 0 1.
Proof. unfold bound_to. vm_compute. reflexivity. Qed.

Lemma C7_witness :
  (∃ j, (j < maxPcidCount)%nat ∧ bound_to pcid_bound_cpu (sys_spaces pcid_bound) j 1 ∧
        PageSpace.activate 1
          (mkState pcid_bound_cpu (sys_spaces pcid_bound) (sys_events pcid_bound))
        = PageBinding.makePrimary j
            (mkState pcid_bound_cpu (sys_spaces pcid_bound) (sys_events pcid_bound))) ∧
  (∃ k, (k < maxPcidCount)%nat ∧
        PageSpace.activate 1 (mkState (CpuData_init true) ∅ [])
        = (PageBinding.rebind k 1 ;; PageBinding.makePrimary k)
            (mkState (CpuData_init true) ∅ []) ∧
        (havePcids (CpuData_init true) = true →
         ∀ i, (i < maxPcidCount)%nat →
              _primaryStamp (pcidBindings (CpuData_init true) k)
              ≤ _primaryStamp (pcidBindings (CpuData_init true) i)) ∧
        (havePcids (CpuData_init true) = false → k = 0%nat)).
Proof.
  split.
  - apply (proj1 (C7_activate_choice pcid_bound 0 pcid_bound_cpu 1
                    pcid_bound_reachable pcid_bound_lookup)).
    exists 0%nat. split; [unfold maxPcidCount; lia|exact pcid_bound_to].
  - apply (proj2 (C7_activate_choice (System_init [true]) 0 (CpuData_init true) 1
                    (reachable_init [true]) eq_refl)).
    intros i _ H. discriminate H.
Defined.

(** C8.  On a space with [numBindings == 0], [submitShootdown(node)] takes
    and releases the lock of the space, then calls the completion callback of
    the node, and returns: the node has been given no sequence number, the
    space (its queue, its sequence counter) is as before, and no IPI was
    sent. *)
Theorem C8_submit_without_bindings this node s sp :
  spaces s !! this = Some sp → _numBindings sp = 0 →
  PageSpace.submitShootdown this node s =
    Ok (node, mkState (cpu s) (spaces s)
                (events s ++ [EvAcquire this; EvRelease this;
                              EvShotDown (ShootNode.id node)])).
Proof.
  intros Hsp Hn.
  unfold PageSpace.submitShootdown, bind, emit, deref, ret. cbn.
  rewrite Hsp, Hn. cbn. rewrite <- !app_assoc. reflexivity.
Qed.

Lemma C8_witness :
  PageSpace.submitShootdown 1 (ShootNode.mk 7 0x7000 0x1000 0 0)
    (mkState (CpuData_init true) {[1%nat := PageSpace_new 0x1000]} []) =
  Ok (ShootNode.mk 7 0x7000 0x1000 0 0,
      mkState (CpuData_init true) {[1%nat := PageSpace_new 0x1000]}
        [EvAcquire 1; EvRelease 1; EvShotDown 7]).
Proof.
  exact (C8_submit_without_bindings 1 (ShootNode.mk 7 0x7000 0x1000 0 0)
           (mkState (CpuData_init true) {[1%nat := PageSpace_new 0x1000]} [])
           (PageSpace_new 0x1000) (lookup_singleton_eq _ _) eq_refl).
Defined.

(** [makePrimary] on a binding that is bound to [space]. *)
Lemma makePrimary_primary this space s u s' :
  stamps_below (cpu s) →
  bound_to (cpu s) (spaces s) this space →
  PageBinding.makePrimary this s = Ok (u, s') →
  _primaryBinding (pageContext (cpu s')) = Some this ∧
  bound_to (cpu s') (spaces s') this space ∧
  _wasRebound (pcidBindings (cpu s') this) = false ∧
  ∀ i, i ≠ this →
       _primaryStamp (pcidBindings (cpu s') i) < _primaryStamp (pcidBindings (cpu s') this).
Proof.
  intros Hst Hb H. apply makePrimary_inv in H as (_ & Hsp & Hc).
  unfold bound_to in *. rewrite Hc, Hsp. cbn. rewrite fn_lookup_insert. cbn.
  split; [reflexivity|]. split; [exact Hb|]. split; [reflexivity|].
  intros i Hi. rewrite fn_lookup_insert_ne by congruence. apply Hst.
Qed.

(** When [activate(space)] returns on a CPU whose LRU clock is ahead of the
    stamps of its bindings, the primary binding is bound to [space], its
    [wasRebound] flag is clear and its stamp is the greatest. *)
Lemma activate_makes_primary space s u s' :
  stamps_below (cpu s) →
  PageSpace.activate space s = Ok (u, s') →
  ∃ p, (p < maxPcidCount)%nat ∧
       _primaryBinding (pageContext (cpu s')) = Some p ∧
       bound_to (cpu s') (spaces s') p space ∧
       _wasRebound (pcidBindings (cpu s') p) = false ∧
       ∀ i, i ≠ p →
            _primaryStamp (pcidBindings (cpu s') i)
            < _primaryStamp (pcidBindings (cpu s') p).
Proof.
  intros Hst H. unfold PageSpace.activate in H.
  pose proof (loop_result (cpu s) (spaces s) space maxPcidCount 0 0) as Hloop.
  destruct (PageSpace.activate_loop (cpu s) (spaces s) space maxPcidCount 0 0) as [j|k].
  - destruct Hloop as [Hj Hb]. exists j. split; [unfold maxPcidCount in *; lia|].
    exact (makePrimary_primary _ _ _ _ _ Hst Hb H).
  - bind_as H u1 s1 Hreb.
    apply rebind_inv in Hreb as (_ & _ & _ & Hctx & Hother & Hstamp & _ & Hb).
    exists k. split; [unfold maxPcidCount in *; lia|].
    apply (makePrimary_primary _ _ _ _ _) with (2 := Hb) (3 := H).
    intros i. rewrite Hctx. destruct (decide (i = k)) as [->|Hne].
    + rewrite Hstamp. apply Hst.
    + rewrite Hother by exact Hne. apply Hst.
Qed.

(** The clock stays ahead of the stamps as long as it does not wrap. *)
Lemma activate_stamps_below space s u s' :
  stamps_below (cpu s) →
  0 ≤ _nextStamp (pageContext (cpu s)) < 2 ^ 64 - 1 →
  PageSpace.activate space s = Ok (u, s') →
  stamps_below (cpu s').
Proof.
  intros Hst Hwrap H.
  assert (Hmp : ∀ i s1 u1 s2, stamps_below (cpu s1) →
            0 ≤ _nextStamp (pageContext (cpu s1)) < 2 ^ 64 - 1 →
            PageBinding.makePrimary i s1 = Ok (u1, s2) → stamps_below (cpu s2)).
  { intros i s1 u1 s2 Hst1 Hw1 Hm. apply makePrimary_inv in Hm as (_ & _ & ->).
    intros j. cbn. pose proof (Hst1 j) as Hj.
    rewrite Z.mod_small by lia.
    destruct (decide (j = i)) as [->|Hne].
    - rewrite fn_lookup_insert. cbn. lia.
    - rewrite fn_lookup_insert_ne by congruence. lia. }
  unfold PageSpace.activate in H.
  destruct (PageSpace.activate_loop (cpu s) (spaces s) space maxPcidCount 0 0) as [j|k].
  - exact (Hmp _ _ _ _ Hst Hwrap H).
  - bind_as H u1 s1 Hreb.
    apply rebind_inv in Hreb as (_ & _ & _ & Hctx & Hother & Hstamp & _).
    apply (Hmp _ _ _ _) with (3 := H); [|rewrite Hctx; exact Hwrap].
    intros i. rewrite Hctx. destruct (decide (i = k)) as [->|Hne].
    + rewrite Hstamp. apply Hst.
    + rewrite Hother by exact Hne. apply Hst.
Qed.

Lemma reachable_in_reachable n sys : reachable_in n sys → reachable sys.
Proof.
  induction 1 as [pcids|n sys sys' _ IH Hstep].
  - apply reachable_init.
  - exact (reachable_step _ _ IH Hstep).
Qed.

Lemma clock_ok_later n c : clock_ok n c → clock_ok (S n) c.
Proof. intros [Hst Hn]. split; [exact Hst|lia]. Qed.

Lemma activate_clock_ok n space s u s' :
  Z.of_nat (S n) < 2 ^ 64 - 1 →
  clock_ok n (cpu s) →
  PageSpace.activate space s = Ok (u, s') →
  clock_ok (S n) (cpu s').
Proof.
  intros Hn [Hst Hclock] H.
  split; [apply (activate_stamps_below space s u s' Hst); [lia|exact H]|].
  assert (Hmp : ∀ i s1 u1 s2, PageBinding.makePrimary i s1 = Ok (u1, s2) →
            _nextStamp (pageContext (cpu s2))
            = (_nextStamp (pageContext (cpu s1)) + 1) mod 2 ^ 64).
  { intros i s1 u1 s2 Hm. apply makePrimary_inv in Hm as (_ & _ & ->). reflexivity. }
  unfold PageSpace.activate in H.
  destruct (PageSpace.activate_loop (cpu s) (spaces s) space maxPcidCount 0 0) as [j|k].
  - rewrite (Hmp _ _ _ _ H), Z.mod_small by lia. lia.
  - bind_as H u1 s1 Hreb.
    apply rebind_inv in Hreb as (_ & _ & _ & Hctx & _).
    rewrite (Hmp _ _ _ _ H), Hctx, Z.mod_small by lia. lia.
Qed.

(** In every state reachable in fewer than 2^64 - 1 steps, the clock of
    every CPU is ahead of the stamps of its bindings. *)
Lemma reachable_in_clock_ok n sys :
  reachable_in n sys → Z.of_nat n < 2 ^ 64 - 1 → Forall (clock_ok n) (cpus sys).
Proof.
  induction 1 as [pcids|n sys sys' Hreach IH Hstep]; intros Hn.
  - unfold System_init. cbn. apply Forall_forall. intros cd Hin.
    apply list_elem_of_fmap in Hin as (hp & -> & _).
    split; [intros i; reflexivity|cbn; lia].
  - specialize (IH ltac:(lia)).
    assert (Hlater : Forall (clock_ok (S n)) (cpus sys)).
    { eapply Forall_impl; [exact IH|]. intros cd. apply clock_ok_later. }
    assert (Hone : ∀ c cd cd', cpus sys !! c = Some cd →
              (clock_ok n cd → clock_ok (S n) cd') →
              Forall (clock_ok (S n)) (<[c := cd']> (cpus sys))).
    { intros c cd cd' Hc Himp. apply Forall_insert; [exact Hlater|].
      apply Himp. rewrite Forall_forall in IH. apply IH.
      eapply list_elem_of_lookup_2. exact Hc. }
    inversion Hstep; subst; cbn [cpus]; try exact Hlater.
    + apply on_cpu_inv in H0 as (cd & s' & Hc & Hop & ->). cbn [cpus].
      apply (Hone c cd _ Hc). intros Hcd.
      exact (activate_clock_ok n _ (mkState cd _ _) _ _ Hn Hcd Hop).
    + apply on_cpu_inv in H0 as (cd & s' & Hc & Hop & ->). cbn [cpus].
      apply (Hone c cd _ Hc). intros Hcd. apply clock_ok_later.
      apply shootdown_inv in Hop as (_ & Hctx & Hother & Hthis & _). cbn [cpu] in *.
      destruct Hcd as [Hst Hclock]. split; [|rewrite Hctx; exact Hclock].
      intros j. rewrite Hctx. destruct (decide (j = i)) as [->|Hne].
      * rewrite Hthis. apply Hst.
      * rewrite Hother by exact Hne. apply Hst.
    + apply on_cpu_inv in H as (cd & s' & Hc & Hop & ->). cbn [cpus].
      apply (Hone c cd _ Hc). intros Hcd. apply clock_ok_later.
      apply submitShootdown_inv in Hop. cbn [cpu] in Hop. rewrite Hop. exact Hcd.
    + apply (Hone c cd _ H). intros Hcd. apply clock_ok_later. exact Hcd.
Qed.

(** C10.  In every state of the machine that is reachable in fewer than
    2^64 - 1 steps (before the 64-bit LRU clock can wrap), when
    [activate(space)] returns on a CPU, the primary binding of that CPU is a
    binding of its array that is bound to [space] (its weak pointer upgrades
    to [space]), whose [wasRebound] flag is clear and whose [primaryStamp] is
    greater than the stamp of every other binding of the CPU. *)
Theorem C10_after_activate n sys c cd space u s' :
  reachable_in n sys → Z.of_nat n < 2 ^ 64 - 1 → cpus sys !! c = Some cd →
  PageSpace.activate space (mkState cd (sys_spaces sys) (sys_events sys)) = Ok (u, s') →
  ∃ p, (p < maxPcidCount)%nat ∧
       _primaryBinding (pageContext (cpu s')) = Some p ∧
       bound_to (cpu s') (spaces s') p space ∧
       _wasRebound (pcidBindings (cpu s') p) = false ∧
       ∀ i, i ≠ p →
            _primaryStamp (pcidBindings (cpu s') i)
            < _primaryStamp (pcidBindings (cpu s') p).
Proof.
  intros Hreach Hn Hc Hrun.
  pose proof (reachable_in_clock_ok _ _ Hreach Hn) as Hall.
  rewrite Forall_forall in Hall.
  destruct (Hall cd (list_elem_of_lookup_2 _ _ _ Hc)) as [Hst _].
  exact (activate_makes_primary space (mkState cd _ _) u s' Hst Hrun).
Qed.

Lemma fresh_cpu_reachable :
  reachable_in 1 (create_space 1 0x1000 (System_init [true])).
Proof.
  apply reachable_in_step with (sys := System_init [true]).
  - apply reachable_in_init.
  - apply (step_create 1 0x1000); [reflexivity|].
    apply (bool_decide_unpack _). vm_compute. exact I.
Qed.

Lemma fresh_cpu_activate_ok : is_ok (PageSpace.activate 1 fresh_cpu_state) = true.
Proof. vm_compute. reflexivity. Qed.

Lemma C10_witness :
  ∃ s' p, PageSpace.activate 1 fresh_cpu_state = Ok (tt, s') ∧
          _primaryBinding (pageContext (cpu s')) = Some p ∧
          bound_to (cpu s') (spaces s') p 1 ∧
          _wasRebound (pcidBindings (cpu s') p) = false.
Proof.
  pose proof fresh_cpu_activate_ok as Hok.
  destruct (PageSpace.activate 1 fresh_cpu_state) as [[[] s']| | |] eqn:Hrun;
    try discriminate Hok.
  destruct (C10_after_activate 1 (create_space 1 0x1000 (System_init [true])) 0
              (CpuData_init true) 1 tt s' fresh_cpu_reachable ltac:(lia) eq_refl Hrun)
    as (p & _ & Hp & Hb & Hw & _).
  exists s', p. auto.
Defined.

(* ===================================================================== *)
(** ** Shootdown runs *)
(* ===================================================================== *)

Lemma run1_steps_ok :
  is_ok (on_cpu 0 (PageSpace.activate 1) (create_space 1 0x1000 (System_init [false])))
  = true ∧
  is_ok (on_cpu 0 (PageSpace.submitShootdown 1 (new_node 7 0x7000 0x1000)) run1_bound)
  = true ∧
  is_ok (on_cpu 0 (PageBinding.shootdown 0) run1_submitted) = true ∧
  is_ok (on_cpu 0 (PageSpace.activate 2) (create_space 2 0x2000 run1_shot)) = true.
Proof. repeat split; vm_compute; reflexivity. Qed.

Lemma run1_reachable :
  reachable run1_bound ∧ reachable run1_submitted ∧ reachable run1_shot ∧
  reachable run1_rebound.
Proof.
  destruct run1_steps_ok as (H1 & H2 & H3 & H4).
  assert (R1 : reachable run1_bound).
  { eapply reachable_step.
    - eapply reachable_step; [apply (reachable_init [false])|].
      apply (step_create 1 0x1000). + reflexivity. + vm_compute. repeat constructor; discriminate.
    - apply (step_activate 0 1);
        [eexists; vm_compute; reflexivity|apply run_unit; exact H1]. }
  assert (R2 : reachable run1_submitted).
  { eapply reachable_step; [exact R1|].
    destruct (run_any _ run1_bound H2) as (n' & Hn').
    exact (step_submit 0 1 _ n' _ _ Hn'). }
  assert (R3 : reachable run1_shot).
  { eapply reachable_step; [exact R2|].
    apply (step_shootdown 0 0); [unfold maxPcidCount; lia|apply run_unit; exact H3]. }
  repeat split; try assumption.
  eapply reachable_step.
  - eapply reachable_step; [exact R3|].
    apply (step_create 2 0x2000).
    + vm_compute. reflexivity.
    + apply (bool_decide_unpack _). vm_compute. exact I.
  - apply (step_activate 0 2);
      [eexists; vm_compute; reflexivity|apply run_unit; exact H4].
Qed.

(** C2 fails in a reachable state.  One binding is bound to the fresh space
    1 ([rebind] snapshots [alreadyShotSequence = shootSequence = 0]); the
    first node submitted gets the sequence 0 and [bindingsToShoot = 1]; but
    no binding of the machine has [alreadyShotSequence < 0]: the count of
    the invariant is 0. *)
Theorem C2_invariant_fails :
  reachable run1_submitted ∧
  queue_of run1_submitted 1 = [ShootNode.mk 7 0x7000 0x1000 0 1] ∧
  count_bindings run1_submitted 1 (λ b, _alreadyShotSequence b <? 0) = 0%nat ∧
  count_bindings run1_submitted 1 (λ b, true) = 1%nat.
Proof.
  split; [apply run1_reachable|].
  repeat split; vm_compute; reflexivity.
Qed.

(* ===================================================================== *)
(** ** Nodes that no scan reaches *)
(* ===================================================================== *)

Lemma rebind_scan_keeps already rq :
  ∀ complete N,
    N ∈ rq → ShootNode._sequence N ≤ already →
    N ∈ (PageBinding.rebind_scan already rq complete).1.
Proof.
  induction rq as [|current preds IH]; intros complete N Hin Hseq.
  - inversion Hin.
  - cbn [PageBinding.rebind_scan].
    destruct (Z.gtb_spec (ShootNode._sequence current) already) as [Hgt|Hle];
      [|exact Hin].
    assert (Hpreds : N ∈ preds).
    { apply elem_of_cons in Hin as [->|Hin]; [lia|exact Hin]. }
    destruct (ShootNode._bindingsToShoot current =? 1).
    + apply IH; assumption.
    + specialize (IH complete N Hpreds Hseq).
      destruct (PageBinding.rebind_scan already preds complete) as [rest c'].
      cbn in *. apply list_elem_of_further. exact IH.
Qed.

Lemma rebind_scan_sequences already rq :
  ∀ complete N',
    N' ∈ (PageBinding.rebind_scan already rq complete).1 →
    ∃ N, N ∈ rq ∧ ShootNode._sequence N' = ShootNode._sequence N.
Proof.
  induction rq as [|current preds IH]; intros complete N' Hin.
  - inversion Hin.
  - cbn [PageBinding.rebind_scan] in Hin.
    destruct (ShootNode._sequence current >? already); [|eauto].
    destruct (ShootNode._bindingsToShoot current =? 1).
    + destruct (IH _ _ Hin) as (N & HN & Hs). exists N. split; [|exact Hs].
      apply list_elem_of_further. exact HN.
    + specialize (IH complete N').
      destruct (PageBinding.rebind_scan already preds complete) as [rest c'].
      cbn in *. apply elem_of_cons in Hin as [->|Hin].
      * exists current. split; [apply list_elem_of_here|reflexivity].
      * destruct (IH Hin) as (N & HN & Hs). exists N. split; [|exact Hs].
        apply list_elem_of_further. exact HN.
Qed.

Lemma shootdown_scan_keeps hp pcid already rq :
  ∀ complete s r s' N,
    PageBinding.shootdown_scan hp pcid already rq complete s = Ok (r, s') →
    N ∈ rq → ShootNode._sequence N ≤ already → N ∈ r.1.
Proof.
  induction rq as [|current preds IH]; intros complete s r s' N H Hin Hseq.
  - inversion Hin.
  - cbn [PageBinding.shootdown_scan] in H.
    destruct (Z.gtb_spec (ShootNode._sequence current) already) as [Hgt|Hle].
    + assert (Hpreds : N ∈ preds).
      { apply elem_of_cons in Hin as [->|Hin]; [lia|exact Hin]. }
      bind_as H u1 s1 Ha1. bind_as H u2 s2 Ha2. bind_as H u3 s3 Hinv.
      destruct (ShootNode._bindingsToShoot current =? 1).
      * exact (IH _ _ _ _ _ H Hpreds Hseq).
      * bind_as H r0 s4 Hrec. bk_prim H. cbn.
        apply list_elem_of_further. exact (IH _ _ _ _ _ Hrec Hpreds Hseq).
    + bk_prim H. exact Hin.
Qed.

Lemma shootdown_scan_sequences hp pcid already rq :
  ∀ complete s r s' N',
    PageBinding.shootdown_scan hp pcid already rq complete s = Ok (r, s') →
    N' ∈ r.1 →
    ∃ N, N ∈ rq ∧ ShootNode._sequence N' = ShootNode._sequence N.
Proof.
  induction rq as [|current preds IH]; intros complete s r s' N' H Hin.
  - bk_prim H. inversion Hin.
  - cbn [PageBinding.shootdown_scan] in H.
    destruct (ShootNode._sequence current >? already).
    + bind_as H u1 s1 Ha1. bind_as H u2 s2 Ha2. bind_as H u3 s3 Hinv.
      destruct (ShootNode._bindingsToShoot current =? 1).
      * destruct (IH _ _ _ _ _ H Hin) as (N & HN & Hs). exists N. split; [|exact Hs].
        apply list_elem_of_further. exact HN.
      * bind_as H r0 s4 Hrec. bk_prim H. cbn in Hin.
        apply elem_of_cons in Hin as [->|Hin].
        -- exists current. split; [apply list_elem_of_here|reflexivity].
        -- destruct (IH _ _ _ _ _ Hrec Hin) as (N & HN & Hs). exists N.
           split; [|exact Hs]. apply list_elem_of_further. exact HN.
    + bk_prim H. eauto.
Qed.

Lemma zero_stays_refl alive : zero_stays alive alive.
Proof. intros sp v N Hv HN _. eauto. Qed.

Lemma zero_stays_trans a b c : zero_stays a b → zero_stays b c → zero_stays a c.
Proof.
  intros Hab Hbc sp v N Hv HN Hz.
  destruct (Hab sp v N Hv HN Hz) as (v' & Hv' & HN'). exact (Hbc sp v' N Hv' HN' Hz).
Qed.

Lemma zero_stays_insert alive sp0 v0 v0' :
  alive !! sp0 = Some v0 →
  (∀ N, N ∈ _shootQueue v0 → ShootNode._sequence N = 0 → N ∈ _shootQueue v0') →
  zero_stays alive (<[sp0 := v0']> alive).
Proof.
  intros H0 Hq sp v N Hv HN Hz. destruct (decide (sp = sp0)) as [->|Hne].
  - rewrite H0 in Hv. injection Hv as <-. exists v0'.
    rewrite lookup_insert_eq. split; [reflexivity|]. apply Hq; assumption.
  - exists v. rewrite lookup_insert_ne by congruence. auto.
Qed.

Lemma sequences_nonneg_insert alive sp0 v0' :
  sequences_nonneg alive →
  0 ≤ _shootSequence v0' →
  (∀ N, N ∈ _shootQueue v0' → 0 ≤ ShootNode._sequence N) →
  sequences_nonneg (<[sp0 := v0']> alive).
Proof.
  intros Hall Hs Hq sp v Hv. destruct (decide (sp = sp0)) as [->|Hne].
  - rewrite lookup_insert_eq in Hv. injection Hv as <-. auto.
  - rewrite lookup_insert_ne in Hv by congruence. exact (Hall sp v Hv).
Qed.

Lemma elem_of_rev {A} (x : A) (l : list A) : x ∈ rev l ↔ x ∈ l.
Proof. rewrite !list_elem_of_In. symmetry. apply in_rev. Qed.

(** The block of [rebind] that leaves the old space keeps the nodes with the
    sequence 0. *)
Lemma unbind_block_zero (w : option nat) (already : Z) s complete s' :
  0 ≤ already → sequences_nonneg (spaces s) →
  match w with
  | Some u =>
      emit (EvAcquire u) ;;
      do sp <- deref u;
      let '(rq, complete) := PageBinding.rebind_scan already (rev (_shootQueue sp)) [] in
      put_space u
        (mkPageSpace (_rootTable sp) ((_numBindings sp - 1) mod 2 ^ 32)
                     (_shootSequence sp) (rev rq)) ;;
      emit (EvRelease u) ;;
      ret complete
  | None => ret []
  end s = Ok (complete, s') →
  sequences_nonneg (spaces s') ∧ zero_stays (spaces s) (spaces s').
Proof.
  intros Ha Hnn H. destruct w as [old|].
  - bk_step H. bind_as H sp s1 Hd. apply deref_inv in Hd as [Hsp ->]. cbn in Hsp.
    pose proof (rebind_scan_keeps already (rev (_shootQueue sp)) []) as Hkeep.
    pose proof (rebind_scan_sequences already (rev (_shootQueue sp)) []) as Hseq.
    destruct (PageBinding.rebind_scan already (rev (_shootQueue sp)) []) as [rq c].
    cbn in Hkeep, Hseq.
    bk_step H. bk_step H. bk_prim H. cbn.
    destruct (Hnn old sp Hsp) as [Hs Hq].
    split.
    + apply sequences_nonneg_insert; [exact Hnn|exact Hs|]. cbn.
      intros N HN. apply (proj1 (elem_of_rev _ _)) in HN.
      destruct (Hseq N HN) as (N0 & HN0 & ->). apply Hq.
      apply (proj1 (elem_of_rev _ _)). exact HN0.
    + apply (zero_stays_insert _ _ sp); [exact Hsp|]. cbn.
      intros N HN Hz. apply (proj2 (elem_of_rev _ _)). apply Hkeep; [|lia].
      apply (proj2 (elem_of_rev _ _)). exact HN.
  - bk_prim H. split; [exact Hnn|apply zero_stays_refl].
Qed.

Lemma makePrimary_zero this s u s' :
  already_nonneg (cpu s) →
  PageBinding.makePrimary this s = Ok (u, s') →
  already_nonneg (cpu s') ∧ spaces s' = spaces s.
Proof.
  intros Ha H. apply makePrimary_inv in H as (_ & Hsp & Hc).
  split; [|exact Hsp]. rewrite Hc. intros i. cbn.
  destruct (decide (i = this)) as [->|Hne].
  - rewrite fn_lookup_insert. cbn. apply Ha.
  - rewrite fn_lookup_insert_ne by congruence. apply Ha.
Qed.

Lemma rebind_zero this space s u s' :
  already_nonneg (cpu s) → sequences_nonneg (spaces s) →
  PageBinding.rebind this space s = Ok (u, s') →
  already_nonneg (cpu s') ∧ sequences_nonneg (spaces s') ∧
  zero_stays (spaces s) (spaces s').
Proof.
  intros Ha Hnn H. unfold PageBinding.rebind in H.
  do 4 bk_step H.
  destruct (bool_decide (upgrade (spaces s) (_boundSpace (pcidBindings (cpu s) this))
                         = Some space)).
  - bk_prim H. split; [exact Ha|]. split; [exact Hnn|apply zero_stays_refl].
  - bind_as H u0 s0 Hinv.
    assert (Hs0 : cpu s0 = cpu s ∧ spaces s0 = spaces s).
    { destruct (havePcids (cpu s)); bk_prim Hinv; auto. }
    destruct Hs0 as [Hc0 Hsp0].
    bind_as H u1 s1 Hput. bk_prim Hput.
    bind_as H complete s2 Hblock.
    pose proof (unbind_block_inv _ _ _ _ _ Hblock) as Hc2. cbn [cpu] in Hc2.
    apply unbind_block_zero in Hblock as [Hnn2 Hz2];
      [|apply Ha|cbn [spaces]; rewrite Hsp0; exact Hnn].
    cbn [spaces] in Hz2. rewrite Hsp0 in Hz2.
    bind_as H u3 s3 Hrun. apply run_complete_inv in Hrun. subst s3.
    bind_as H u4 s4 Hacq. bk_prim Hacq.
    bind_as H sp s5 Hd. apply deref_inv in Hd as [Hsp ->]. cbn [spaces] in Hsp.
    bind_as H u5 s5 Hput. bk_prim Hput.
    bind_as H u6 s6 Hrel. bk_prim Hrel.
    bk_prim H. cbn. rewrite Hc2. cbn.
    destruct (Hnn2 space sp Hsp) as [Hs Hq].
    split.
    { intros i. cbn [pcidBindings]. destruct (decide (i = this)) as [->|Hne].
      - rewrite fn_lookup_insert. cbn. exact Hs.
      - rewrite !fn_lookup_insert_ne by congruence. rewrite Hc0. apply Ha. }
    split.
    { apply sequences_nonneg_insert; [exact Hnn2|exact Hs|exact Hq]. }
    eapply zero_stays_trans; [exact Hz2|].
    apply (zero_stays_insert _ _ sp); [exact Hsp|]. cbn. auto.
Qed.

Lemma shootdown_zero this s u s' :
  already_nonneg (cpu s) → sequences_nonneg (spaces s) →
  PageBinding.shootdown this s = Ok (u, s') →
  already_nonneg (cpu s') ∧ sequences_nonneg (spaces s') ∧
  zero_stays (spaces s) (spaces s').
Proof.
  intros Ha Hnn H. unfold PageBinding.shootdown in H.
  do 4 bk_step H.
  assert (Hclear : ∀ b, 0 ≤ _alreadyShotSequence b →
            already_nonneg
              (mkCpuData (havePcids (cpu s)) (intsEnabled (cpu s)) (pageContext (cpu s))
                         (<[this := b]> (pcidBindings (cpu s))))).
  { intros b Hb i. cbn. destruct (decide (i = this)) as [->|Hne].
    - rewrite fn_lookup_insert. exact Hb.
    - rewrite fn_lookup_insert_ne by congruence. apply Ha. }
  destruct (upgrade (spaces s) (_boundSpace (pcidBindings (cpu s) this))) as [sp|].
  - bind_as H u0 s0 Hacq. bk_prim Hacq.
    bind_as H v s1 Hd. apply deref_inv in Hd as [Hv ->]. cbn [spaces] in Hv.
    destruct (Hnn sp v Hv) as [Hs Hq].
    destruct (rev (_shootQueue v)) as [|back rest] eqn:Hrev.
    + bk_prim H. cbn. split; [exact Ha|]. split; [exact Hnn|apply zero_stays_refl].
    + bind_as H r s2 Hscan.
      pose proof (shootdown_scan_inv _ _ _ _ _ _ _ _ Hscan) as [Hc2 Hsp2].
      cbn [cpu spaces] in Hc2, Hsp2.
      pose proof (λ N, shootdown_scan_keeps _ _ _ _ _ _ _ _ N Hscan) as Hkeep.
      pose proof (λ N, shootdown_scan_sequences _ _ _ _ _ _ _ _ N Hscan) as Hseq.
      bind_as H u3 s3 Hput. bk_prim Hput.
      bind_as H u4 s4 Hrel. bk_prim Hrel.
      bind_as H u5 s5 Hrun. apply run_complete_inv in Hrun. subst s5.
      bk_prim H. cbn. rewrite Hc2, Hsp2.
      assert (Hin : ∀ N, N ∈ back :: rest ↔ N ∈ _shootQueue v).
      { intros N. rewrite <- Hrev. apply elem_of_rev. }
      split.
      { apply Hclear. cbn. apply Hq. apply Hin. apply list_elem_of_here. }
      split.
      { apply sequences_nonneg_insert; [exact Hnn|exact Hs|]. cbn.
        intros N HN. apply (proj1 (elem_of_rev _ _)) in HN.
        destruct (Hseq N HN) as (N0 & HN0 & ->). apply Hq, Hin. exact HN0. }
      apply (zero_stays_insert _ _ v); [exact Hv|]. cbn.
      intros N HN Hz. apply (proj2 (elem_of_rev _ _)).
      apply Hkeep; [apply Hin; exact HN|]. rewrite Hz. apply Ha.
  - destruct (_boundSpace (pcidBindings (cpu s) this)) as [dead|].
    + bind_as H u0 s0 Hinv. bk_prim Hinv. bk_prim H. cbn.
      split; [apply Hclear; cbn; apply Ha|]. split; [exact Hnn|apply zero_stays_refl].
    + bk_prim H. split; [exact Ha|]. split; [exact Hnn|apply zero_stays_refl].
Qed.

Lemma submitShootdown_zero this node s node' s' :
  sequences_nonneg (spaces s) →
  PageSpace.submitShootdown this node s = Ok (node', s') →
  sequences_nonneg (spaces s') ∧ zero_stays (spaces s) (spaces s').
Proof.
  intros Hnn H. unfold PageSpace.submitShootdown in H.
  bind_as H u0 s0 Hacq. bk_prim Hacq.
  bind_as H sp s1 Hd. apply deref_inv in Hd as [Hsp ->]. cbn [spaces] in Hsp.
  destruct (Hnn this sp Hsp) as [Hs Hq].
  bind_as H n1 s2 Hput.
  assert (Hgoal : sequences_nonneg (spaces s2) ∧ zero_stays (spaces s) (spaces s2)).
  { destruct (negb (_numBindings sp =? 0)).
    - bind_as Hput u1 s3 Hp. bk_prim Hp. bk_prim Hput. cbn. split.
      + apply sequences_nonneg_insert; [exact Hnn| |].
        * cbn. apply Z.mod_pos_bound. reflexivity.
        * cbn. intros N HN. apply elem_of_app in HN as [HN|HN]; [apply Hq; exact HN|].
          apply list_elem_of_singleton in HN. subst N. cbn. exact Hs.
      + apply (zero_stays_insert _ _ sp); [exact Hsp|]. cbn.
        intros N HN _. apply elem_of_app. left. exact HN.
    - bk_prim Hput. cbn. split; [exact Hnn|apply zero_stays_refl]. }
  bind_as H u1 s3 Hrel. bk_prim Hrel.
  bind_as H u2 s4 Hipi.
  assert (Hsp4 : spaces s4 = spaces s2).
  { destruct (negb (_numBindings sp =? 0)); bk_prim Hipi; reflexivity. }
  bk_prim H. rewrite Hsp4. exact Hgoal.
Qed.

Lemma activate_zero space s u s' :
  already_nonneg (cpu s) → sequences_nonneg (spaces s) →
  PageSpace.activate space s = Ok (u, s') →
  already_nonneg (cpu s') ∧ sequences_nonneg (spaces s') ∧
  zero_stays (spaces s) (spaces s').
Proof.
  intros Ha Hnn H. unfold PageSpace.activate in H.
  destruct (PageSpace.activate_loop (cpu s) (spaces s) space maxPcidCount 0 0) as [j|k].
  - apply makePrimary_zero in H as [Ha' ->]; [|exact Ha].
    split; [exact Ha'|]. split; [exact Hnn|apply zero_stays_refl].
  - bind_as H u1 s1 Hreb.
    apply rebind_zero in Hreb as (Ha1 & Hnn1 & Hz1); [|exact Ha|exact Hnn].
    apply makePrimary_zero in H as [Ha' ->]; [|exact Ha1]. auto.
Qed.

Lemma zero_stays_kept alive alive' sp v N v' :
  zero_stays alive alive' →
  alive !! sp = Some v → N ∈ _shootQueue v → ShootNode._sequence N = 0 →
  alive' !! sp = Some v' → N ∈ _shootQueue v'.
Proof.
  intros Hz Hv HN Hs Hv'. destruct (Hz sp v N Hv HN Hs) as (v'' & Hv'' & HN'').
  congruence.
Qed.

(** A step keeps the sequence numbers non-negative, and keeps every queued
    node with the sequence 0 in its queue as long as the space is there. *)
Lemma step_zero sys sys' :
  machine_ok sys → step sys sys' →
  machine_ok sys' ∧
  ∀ sp v N v',
    sys_spaces sys !! sp = Some v → N ∈ _shootQueue v → ShootNode._sequence N = 0 →
    sys_spaces sys' !! sp = Some v' → N ∈ _shootQueue v'.
Proof.
  intros [Hcpus Hnn] Hstep.
  assert (Hcd : ∀ c cd, cpus sys !! c = Some cd → already_nonneg cd).
  { intros c cd Hc. rewrite Forall_forall in Hcpus. apply Hcpus.
    eapply list_elem_of_lookup_2. exact Hc. }
  unfold machine_ok. inversion Hstep; subst; cbn [cpus sys_spaces].
  - apply on_cpu_inv in H0 as (cd & s' & Hc & Hop & ->). cbn [cpus sys_spaces].
    apply (activate_zero _ (mkState cd _ _)) in Hop as (Ha & Hnn' & Hz);
      [|exact (Hcd _ _ Hc)|exact Hnn].
    split; [split; [apply Forall_insert; assumption|exact Hnn']|].
    intros sp0 v N v'. apply zero_stays_kept. exact Hz.
  - apply on_cpu_inv in H0 as (cd & s' & Hc & Hop & ->). cbn [cpus sys_spaces].
    apply (shootdown_zero _ (mkState cd _ _)) in Hop as (Ha & Hnn' & Hz);
      [|exact (Hcd _ _ Hc)|exact Hnn].
    split; [split; [apply Forall_insert; assumption|exact Hnn']|].
    intros sp0 v N v'. apply zero_stays_kept. exact Hz.
  - apply on_cpu_inv in H as (cd & s' & Hc & Hop & ->). cbn [cpus sys_spaces].
    pose proof (submitShootdown_inv _ _ _ _ _ Hop) as Hsame. cbn [cpu] in Hsame.
    apply (submitShootdown_zero _ _ (mkState cd _ _)) in Hop as (Hnn' & Hz);
      [|exact Hnn].
    split; [split; [apply Forall_insert; [exact Hcpus|]|exact Hnn']|].
    + rewrite Hsame. exact (Hcd _ _ Hc).
    + intros sp0 v N v'. apply zero_stays_kept. exact Hz.
  - split.
    + split; [exact Hcpus|].
      apply sequences_nonneg_insert; [exact Hnn|cbn; lia|].
      cbn. intros N HN. inversion HN.
    + intros sp0 v N v' Hv HN Hs Hv'.
      rewrite lookup_insert_ne in Hv' by congruence. congruence.
  - split.
    + split; [exact Hcpus|]. intros sp0 v Hv.
      apply lookup_delete_Some in Hv as [_ Hv]. exact (Hnn sp0 v Hv).
    + intros sp0 v N v' Hv HN Hs Hv'.
      apply lookup_delete_Some in Hv' as [_ Hv']. congruence.
  - split; [|intros sp0 v N v' Hv HN Hs Hv'; congruence].
    split; [|exact Hnn]. apply Forall_insert; [exact Hcpus|].
    intros i. cbn. exact (Hcd _ _ H i).
Qed.

Lemma reachable_machine_ok sys : reachable sys → machine_ok sys.
Proof.
  induction 1 as [pcids|sys sys' _ IH Hstep].
  - split.
    + unfold System_init. cbn. apply Forall_forall. intros cd Hin.
      apply list_elem_of_fmap in Hin as (hp & -> & _). intros i. cbn. lia.
    + intros sp v Hv. cbn in Hv. rewrite lookup_empty in Hv. discriminate.
  - exact (proj1 (step_zero _ _ IH Hstep)).
Qed.

Lemma lives_on_reachable sp sys sys' :
  reachable sys → lives_on sp sys sys' → reachable sys'.
Proof.
  intros Hreach Hl. induction Hl as [sys|sys sys' sys'' _ IH Hstep _].
  - exact Hreach.
  - exact (reachable_step _ _ (IH Hreach) Hstep).
Qed.

(** The node that got the sequence 0 never leaves the queue.  In a reachable
    state, a node with [sequence == 0] that is in the queue of the space [sp]
    is still in that queue, with the same [bindingsToShoot], after any
    number of steps of the machine during which the space stays alive: no
    scan of [shootdown] or [rebind] reaches it, so its completion callback
    is not called. *)
Theorem sequence_zero_is_never_shot sp sys sys' N :
  reachable sys → lives_on sp sys sys' →
  N ∈ queue_of sys sp → ShootNode._sequence N = 0 →
  N ∈ queue_of sys' sp.
Proof.
  intros Hreach Hl. induction Hl as [sys|sys sys' sys'' Hl IH Hstep Halive];
    intros HN Hs; [exact HN|].
  specialize (IH Hreach HN Hs).
  pose proof (reachable_machine_ok _ (lives_on_reachable _ _ _ Hreach Hl)) as Hok.
  destruct (step_zero _ _ Hok Hstep) as [_ Hkept].
  unfold queue_of in IH |- *.
  destruct (sys_spaces sys' !! sp) as [v|] eqn:Hv; [|inversion IH].
  destruct Halive as [v' Hv']. rewrite Hv'.
  exact (Hkept sp v N v' Hv IH Hs Hv').
Qed.

(** C1 fails.  In the first run the node 7 is submitted while binding 0 of
    CPU 0 is bound to the space 1.  Neither the shootdown scan of that
    binding nor its later rebind away from the space decrements the node
    (both walk the queue only while [sequence > alreadyShotSequence], and
    both are 0): the node stays in the queue with [bindingsToShoot = 1], its
    callback has not been called, and no binding is bound to the space any
    more.  Whatever the machine does after the submission, the node is in
    the queue for as long as the space lives.  In the second run two CPUs are
    bound, two nodes are submitted and both CPUs scan: only the callback of
    the second node is called and the first node is still in the queue. *)
Theorem C1_node_never_completes :
  reachable run1_rebound ∧
  queue_of run1_submitted 1 = [ShootNode.mk 7 0x7000 0x1000 0 1] ∧
  queue_of run1_shot 1 = [ShootNode.mk 7 0x7000 0x1000 0 1] ∧
  queue_of run1_rebound 1 = [ShootNode.mk 7 0x7000 0x1000 0 1] ∧
  shot_down run1_rebound = [] ∧
  count_bindings run1_rebound 1 (λ b, true) = 0%nat ∧
  (∀ sys', lives_on 1 run1_submitted sys' →
           ShootNode.mk 7 0x7000 0x1000 0 1 ∈ queue_of sys' 1) ∧
  queue_of run2_submitted 1 =
    [ShootNode.mk 1 0x7000 0x1000 0 2; ShootNode.mk 2 0x8000 0x1000 1 2] ∧
  queue_of run2_shot 1 = [ShootNode.mk 1 0x7000 0x1000 0 2] ∧
  shot_down run2_shot = [2%nat].
Proof.
  assert (Hq : queue_of run1_submitted 1 = [ShootNode.mk 7 0x7000 0x1000 0 1])
    by (vm_compute; reflexivity).
  split; [apply run1_reachable|]. split; [exact Hq|].
  split; [vm_compute; reflexivity|]. split; [vm_compute; reflexivity|].
  split; [vm_compute; reflexivity|]. split; [vm_compute; reflexivity|].
  split.
  { intros sys' Hl.
    apply (sequence_zero_is_never_shot 1 run1_submitted sys');
      [apply run1_reachable|exact Hl| |reflexivity].
    rewrite Hq. apply list_elem_of_here. }
  repeat split; vm_compute; reflexivity.
Qed.

(* ===================================================================== *)
(** ** More on the walkers: what a mapping holds *)
(* ===================================================================== *)

Lemma leaf_frame_field leaf p :
  page_aligned p → 0 ≤ p < 2 ^ 52 →
  (∀ n, 12 ≤ n < 52 → Z.testbit leaf n = Z.testbit p n) →
  Z.land leaf kAddressMask = p.
Proof.
  intros Hp Hr Hbits. rewrite (frame_field_eq leaf p Hbits).
  apply land_mask_frame; assumption.
Qed.

Lemma kernel_leaf_fields p flags c :
  page_aligned p → 0 ≤ p < 2 ^ 52 →
  Z.land (kernel_leaf p flags c) kAddressMask = p ∧
  has_bit (kernel_leaf p flags c) kPageWrite = has_bit flags page_access.write ∧
  has_bit (kernel_leaf p flags c) kPageXd = negb (has_bit flags page_access.execute).
Proof.
  intros Hp Hr. split; [|split].
  - apply leaf_frame_field; [assumption..|]. intros n Hn.
    rewrite kernel_leaf_bit by lia.
    repeat match goal with
           | |- context [?k =? n] =>
               replace (k =? n) with false by (symmetry; apply Z.eqb_neq; lia)
           end.
    rewrite !andb_false_r, !orb_false_r. reflexivity.
  - change kPageWrite with (2 ^ 1). rewrite has_bit_pow2, kernel_leaf_low by (assumption || lia).
    destruct (has_bit flags page_access.write), (sets_pwt c), (sets_pat c); reflexivity.
  - change kPageXd with (2 ^ 63). rewrite has_bit_pow2, kernel_leaf_bit by lia.
    rewrite (high_bits_zero p 63) by lia.
    destruct (has_bit flags page_access.write), (has_bit flags page_access.execute),
      (sets_pwt c), (sets_pat c); reflexivity.
Qed.

Lemma client_leaf_fields p user_page flags c :
  page_aligned p → 0 ≤ p < 2 ^ 52 →
  Z.land (client_leaf p user_page flags c) kAddressMask = p ∧
  has_bit (client_leaf p user_page flags c) kPageWrite = has_bit flags page_access.write ∧
  has_bit (client_leaf p user_page flags c) kPageXd
  = negb (has_bit flags page_access.execute) ∧
  has_bit (client_leaf p user_page flags c) kPageUser = user_page ∧
  has_bit (client_leaf p user_page flags c) kPageGlobal = false.
Proof.
  intros Hp Hr. split; [|split; [|split; [|split]]].
  - apply leaf_frame_field; [assumption..|]. intros n Hn.
    rewrite client_leaf_bit by lia.
    repeat match goal with
           | |- context [?k =? n] =>
               replace (k =? n) with false by (symmetry; apply Z.eqb_neq; lia)
           end.
    rewrite !andb_false_r, !orb_false_r. reflexivity.
  - change kPageWrite with (2 ^ 1). rewrite has_bit_pow2, client_leaf_low by (assumption || lia).
    destruct user_page, (has_bit flags page_access.write), (sets_pwt c), (sets_pat c);
      reflexivity.
  - change kPageXd with (2 ^ 63). rewrite has_bit_pow2, client_leaf_bit by lia.
    rewrite (high_bits_zero p 63) by lia.
    destruct user_page, (has_bit flags page_access.write),
      (has_bit flags page_access.execute), (sets_pwt c), (sets_pat c); reflexivity.
  - rewrite has_bit_user, client_leaf_low by (assumption || lia).
    destruct user_page, (has_bit flags page_access.write), (sets_pwt c), (sets_pat c);
      reflexivity.
  - change kPageGlobal with (2 ^ 8). rewrite has_bit_pow2, client_leaf_low by (assumption || lia).
    destruct user_page, (has_bit flags page_access.write), (sets_pwt c), (sets_pat c);
      reflexivity.
Qed.

(** X1.  After [KernelPageSpace::mapSingle4k(v, p, flags, c)] has returned,
    for a frame [p] below 2^52, the leaf PTE of [v] holds [p] in its frame
    field, has the write bit exactly if [flags] has [page_access::write],
    and has the no-execute bit exactly if [flags] lacks
    [page_access::execute]. *)
Theorem X1_kernel_map_leaf_fields root v p flags c s u s' :
  fresh_frames s root v → 0 ≤ p < 2 ^ 52 →
  KernelPageSpace.mapSingle4k root v p flags c s = Ok (u, s') →
  ∃ a, leaf_address (mem s') root v = Some a ∧
       Z.land (mem s' a) kAddressMask = p ∧
       has_bit (mem s' a) kPageWrite = has_bit flags page_access.write ∧
       has_bit (mem s' a) kPageXd = negb (has_bit flags page_access.execute).
Proof.
  intros Hfresh Hr Hrun.
  destruct (kernel_map_mapped _ _ _ _ _ _ _ _ Hfresh Hrun)
    as (Hv & Hp & Hc & t3 & t2 & t1 & e4 & e3 & e2 & Hm & _).
  destruct (mapped_leaf_address _ _ _ _ _ _ _ _ _ _ _ _ _ Hm) as [Hleaf _].
  exists (t1 + 8 * index1 v). split; [exact Hleaf|].
  rewrite (mapped_leaf _ _ _ _ _ _ _ _ _ _ _ _ _ _ _ _ Hm).
  apply kernel_leaf_fields; assumption.
Qed.

Lemma X1_witness :
  ∃ s' a,
    KernelPageSpace.mapSingle4k 0x1000 0x7000 0x5000 page_access.write
      CachingMode.writeCombine empty_memory = Ok (tt, s') ∧
    leaf_address (mem s') 0x1000 0x7000 = Some a ∧
    Z.land (mem s' a) kAddressMask = 0x5000 ∧
    has_bit (mem s' a) kPageWrite = true ∧
    has_bit (mem s' a) kPageXd = true.
Proof.
  pose proof kernel_map_empty_ok as Hok.
  destruct (KernelPageSpace.mapSingle4k 0x1000 0x7000 0x5000 page_access.write
              CachingMode.writeCombine empty_memory) as [[[] s']| | |] eqn:Hrun;
    try discriminate Hok.
  assert (Hr : 0 ≤ 0x5000 < 2 ^ 52) by lia.
  destruct (X1_kernel_map_leaf_fields _ _ _ _ _ _ _ _ (empty_memory_fresh 0x7000) Hr Hrun)
    as (a & Hleaf & Hf & Hw & Hx).
  exists s', a. auto.
Defined.

(** X2.  After [ClientPageSpace::mapSingle4k(v, p, user, flags, c)] has
    returned, for a frame [p] below 2^52, the leaf PTE of [v] holds [p] in
    its frame field, has the write bit exactly if [flags] has
    [page_access::write], the no-execute bit exactly if [flags] lacks
    [page_access::execute], the user bit exactly if [user] is set, and never
    the global bit. *)
Theorem X2_client_map_leaf_fields root v p user_page flags c s u s' :
  fresh_frames s root v → 0 ≤ p < 2 ^ 52 →
  ClientPageSpace.mapSingle4k root v p user_page flags c s = Ok (u, s') →
  ∃ a, leaf_address (mem s') root v = Some a ∧
       Z.land (mem s' a) kAddressMask = p ∧
       has_bit (mem s' a) kPageWrite = has_bit flags page_access.write ∧
       has_bit (mem s' a) kPageXd = negb (has_bit flags page_access.execute) ∧
       has_bit (mem s' a) kPageUser = user_page ∧
       has_bit (mem s' a) kPageGlobal = false.
Proof.
  intros Hfresh Hr Hrun.
  destruct (client_map_mapped _ _ _ _ _ _ _ _ _ Hfresh Hrun)
    as (Hv & Hp & Hc & t3 & t2 & t1 & e4 & e3 & e2 & Hm & _).
  destruct (mapped_leaf_address _ _ _ _ _ _ _ _ _ _ _ _ _ Hm) as [Hleaf _].
  exists (t1 + 8 * index1 v). split; [exact Hleaf|].
  rewrite (mapped_leaf _ _ _ _ _ _ _ _ _ _ _ _ _ _ _ _ Hm).
  apply client_leaf_fields; assumption.
Qed.

Lemma X2_witness :
  ∃ s' a,
    ClientPageSpace.mapSingle4k 0x1000 0x7000 0x5000 true page_access.write
      CachingMode.writeCombine empty_memory = Ok (tt, s') ∧
    leaf_address (mem s') 0x1000 0x7000 = Some a ∧
    Z.land (mem s' a) kAddressMask = 0x5000 ∧
    has_bit (mem s' a) kPageWrite = true ∧
    has_bit (mem s' a) kPageXd = true ∧
    has_bit (mem s' a) kPageUser = true.
Proof.
  pose proof client_map_empty_ok as Hok.
  destruct (ClientPageSpace.mapSingle4k 0x1000 0x7000 0x5000 true page_access.write
              CachingMode.writeCombine empty_memory) as [[[] s']| | |] eqn:Hrun;
    try discriminate Hok.
  assert (Hr : 0 ≤ 0x5000 < 2 ^ 52) by lia.
  destruct (X2_client_map_leaf_fields _ _ _ _ _ _ _ _ _ (empty_memory_fresh 0x7000) Hr Hrun)
    as (a & Hleaf & Hf & Hw & Hx & Hu & _).
  exists s', a. repeat split; assumption.
Defined.

Lemma leaf_present_inv m root v :
  leaf_present m root v = true →
  let e4 := m (root + 8 * index4 v) in
  let e3 := m (Z.land e4 kAddressMask + 8 * index3 v) in
  let e2 := m (Z.land e3 kAddressMask + 8 * index2 v) in
  present e4 = true ∧ present e3 = true ∧ present e2 = true ∧
  present (m (Z.land e2 kAddressMask + 8 * index1 v)) = true.
Proof.
  unfold leaf_present, leaf_address, indices. intros H.
  destruct (walk m root [index4 v; index3 v; index2 v; index1 v]) as [a|] eqn:Hw;
    [|discriminate].
  destruct (walk4_inv _ _ _ _ _ _ _ Hw) as (P4 & P3 & P2 & ->).
  cbv zeta. auto.
Qed.

(** X3.  Mapping a page that has a present leaf PTE already stops the kernel
    at an assertion, in both [mapSingle4k]: a mapping is never overwritten. *)
Theorem X3_map_twice_fails :
  (∀ root v p flags c s,
     leaf_present (mem s) root v = true →
     KernelPageSpace.mapSingle4k root v p flags c s = AssertFail) ∧
  (∀ root v p user_page flags c s,
     leaf_present (mem s) root v = true →
     ClientPageSpace.mapSingle4k root v p user_page flags c s = AssertFail).
Proof.
  split.
  - intros root v p flags c s H.
    destruct (leaf_present_inv _ _ _ H) as (P4 & P3 & P2 & P1).
    unfold KernelPageSpace.mapSingle4k, bind, assert, load, SkeletalRegion_access, ret.
    cbv zeta.
    destruct (v mod 4096 =? 0); cbv beta iota; [|reflexivity].
    destruct (p mod 4096 =? 0); cbv beta iota; [|reflexivity].
    rewrite !has_bit_present, P4. cbv beta iota.
    destruct (negb (has_bit _ kPageUser)); cbv beta iota; [|reflexivity].
    rewrite ?has_bit_present, P3. cbv beta iota.
    destruct (negb (has_bit _ kPageUser)); cbv beta iota; [|reflexivity].
    rewrite ?has_bit_present, P2. cbv beta iota.
    destruct (negb (has_bit _ kPageUser)); cbv beta iota; [|reflexivity].
    rewrite land_present_zero, P1. reflexivity.
  - intros root v p user_page flags c s H.
    destruct (leaf_present_inv _ _ _ H) as (P4 & P3 & P2 & P1).
    unfold ClientPageSpace.mapSingle4k, PageAccessor.new, bind, assert, load, ret.
    cbv zeta.
    destruct (v mod 4096 =? 0); cbv beta iota; [|reflexivity].
    destruct (p mod 4096 =? 0); cbv beta iota; [|reflexivity].
    destruct (negb (has_bit root _)); cbv beta iota; [|reflexivity].
    destruct (root <? _); cbv beta iota; [|reflexivity].
    rewrite !has_bit_present, P4. cbv beta iota.
    destruct (negb (has_bit (Z.land _ kAddressMask) _)); cbv beta iota; [|reflexivity].
    destruct (Z.land _ kAddressMask <? _); cbv beta iota; [|reflexivity].
    destruct (if user_page then _ else _); cbv beta iota; [|reflexivity].
    rewrite ?has_bit_present, P3. cbv beta iota.
    destruct (negb (has_bit (Z.land _ kAddressMask) _)); cbv beta iota; [|reflexivity].
    destruct (Z.land _ kAddressMask <? _); cbv beta iota; [|reflexivity].
    destruct (if user_page then _ else _); cbv beta iota; [|reflexivity].
    rewrite ?has_bit_present, P2. cbv beta iota.
    destruct (negb (has_bit (Z.land _ kAddressMask) _)); cbv beta iota; [|reflexivity].
    destruct (Z.land _ kAddressMask <? _); cbv beta iota; [|reflexivity].
    destruct (if user_page then _ else _); cbv beta iota; [|reflexivity].
    rewrite ?has_bit_present, P1. reflexivity.
Qed.

Lemma X3_witness :
  KernelPageSpace.mapSingle4k 0x1000 0x7000 0x6000 0 CachingMode.null after_map
  = AssertFail ∧
  ClientPageSpace.mapSingle4k 0x1000 0x7000 0x6000 true 0 CachingMode.null one_mapping
  = AssertFail.
Proof.
  split.
  - apply (proj1 X3_map_twice_fails). vm_compute. reflexivity.
  - apply (proj2 X3_map_twice_fails). vm_compute. reflexivity.
Defined.

(* ===================================================================== *)
(** ** A mapping leaves the other mappings alone *)
(* ===================================================================== *)

Section three_levels_kept.
Variable access : Z → M PtState Z.
Hypothesis access_transparent : transparent access.
Variable user_page : bool.

(** The three table blocks and the leaf store change no word that held a
    present entry outside of the allocator's frames. *)
Lemma three_levels_kept s0 root i4 i3 i2 i1 t3 s1 t2 s2 t1 s3 leaf :
  walk_inv s0 root [i4; i3; i2] →
  make_table access user_page root i4 (mem s0 (root + 8 * i4)) s0 = Ok (t3, s1) →
  make_table access user_page t3 i3 (mem s1 (t3 + 8 * i3)) s1 = Ok (t2, s2) →
  make_table access user_page t2 i2 (mem s2 (t2 + 8 * i2)) s2 = Ok (t1, s3) →
  present (mem s3 (t1 + 8 * i1)) = false →
  ∀ b, present (mem s0 b) = true → outside_frames s0 b →
       (<[t1 + 8 * i1 := leaf]> (mem s3)) b = mem s0 b.
Proof.
  intros Hinv0 H4 H3 H2 Hleaf b Hb Hbo.
  destruct (make_table_spec access access_transparent user_page _ _ _ _ _ _ Hinv0 H4)
    as (Hinv1 & _ & _ & _ & St4 & Sub4 & _ & _).
  destruct (make_table_spec access access_transparent user_page _ _ _ _ _ _ Hinv1 H3)
    as (Hinv2 & _ & _ & _ & St3 & Sub3 & _ & _).
  destruct (make_table_spec access access_transparent user_page _ _ _ _ _ _ Hinv2 H2)
    as (_ & _ & _ & _ & St2 & _ & _ & _).
  assert (E1 : mem s1 b = mem s0 b) by (apply St4; assumption).
  assert (E2 : mem s2 b = mem s1 b).
  { apply St3; [rewrite E1; exact Hb|apply Sub4; exact Hbo]. }
  assert (E3 : mem s3 b = mem s2 b).
  { apply St2; [rewrite E2, E1; exact Hb|apply Sub3, Sub4; exact Hbo]. }
  assert (Hne : t1 + 8 * i1 ≠ b).
  { intros <-. rewrite E3, E2, E1, Hb in Hleaf. discriminate. }
  rewrite fn_lookup_insert_ne by exact Hne. congruence.
Qed.
End three_levels_kept.

Lemma kernel_map_keeps root v p flags c s u s' :
  fresh_frames s root v →
  KernelPageSpace.mapSingle4k root v p flags c s = Ok (u, s') →
  ∀ b, present (mem s b) = true → outside_frames s b → mem s' b = mem s b.
Proof.
  intros Hfresh H. apply fresh_frames_walk_inv in Hfresh.
  unfold KernelPageSpace.mapSingle4k in H.
  run_step H. run_step H. cbv zeta in H.
  do 16 run_step H.
  apply caching_block_inv in Hm8 as (-> & Hc & ->).
  run_prim H.
  rewrite land_present_zero in Hm7. apply negb_true_iff in Hm7.
  exact (three_levels_kept SkeletalRegion_access SkeletalRegion_transparent false
           s root _ _ _ (index1 v) _ _ _ _ _ _ (kernel_leaf p flags c)
           Hfresh Hm1 Hm3 Hm5 Hm7).
Qed.

Lemma client_map_keeps root v p user_page flags c s u s' :
  fresh_frames s root v →
  ClientPageSpace.mapSingle4k root v p user_page flags c s = Ok (u, s') →
  ∀ b, present (mem s b) = true → outside_frames s b → mem s' b = mem s b.
Proof.
  intros Hfresh H. apply fresh_frames_walk_inv in Hfresh.
  unfold ClientPageSpace.mapSingle4k in H.
  run_step H. run_step H. cbv zeta in H.
  run_step H. apply PageAccessor_transparent in Hm1 as [-> ->].
  do 15 run_step H.
  apply caching_block_inv in Hm8 as (-> & Hc & ->).
  run_prim H.
  rewrite has_bit_present in Hm7. apply negb_true_iff in Hm7.
  exact (three_levels_kept PageAccessor.new PageAccessor_transparent user_page
           s root _ _ _ (index1 v) _ _ _ _ _ _ (client_leaf p user_page flags c)
           Hfresh Hm1 Hm3 Hm5 Hm7).
Qed.

(** A present leaf whose tables are not among the allocator's frames is
    reached by the same walk, and holds the same word, in every memory that
    keeps the present words outside of those frames. *)
Lemma walk_kept s m' root w a :
  fresh_frames s root w →
  (∀ b, present (mem s b) = true → outside_frames s b → m' b = mem s b) →
  leaf_address (mem s) root w = Some a → present (mem s a) = true →
  leaf_address m' root w = Some a ∧ m' a = mem s a.
Proof.
  intros (Hr & _ & Hok & Hfresh) Hkept Hleaf Hpa.
  unfold leaf_address, indices in *.
  destruct (walk4_inv _ _ _ _ _ _ _ Hleaf) as (P4 & P3 & P2 & Ha). cbv zeta in *.
  set (e4 := mem s (root + 8 * index4 w)) in *.
  set (e3 := mem s (Z.land e4 kAddressMask + 8 * index3 w)) in *.
  set (e2 := mem s (Z.land e3 kAddressMask + 8 * index2 w)) in *.
  assert (Htabs : tables_of (mem s) root w =
                  [root; Z.land e4 kAddressMask; Z.land e3 kAddressMask;
                   Z.land e2 kAddressMask]).
  { unfold tables_of. simpl. fold e4. rewrite P4. fold e3. rewrite P3. fold e2.
    rewrite P2. reflexivity. }
  rewrite Htabs in Hfresh.
  assert (Hout : ∀ t i, t ∈ [root; Z.land e4 kAddressMask; Z.land e3 kAddressMask;
                             Z.land e2 kAddressMask] →
                        0 ≤ i < 512 → outside_frames s (t + 8 * i)).
  { intros t i Ht Hi. apply table_word_outside; [|
      |exact Hok|exact Hi].
    - set_unfold in Ht. destruct Ht as [-> | [-> | [-> | [-> | []]]]];
        [exact Hr|apply land_mask_aligned..].
    - intros Hin. rewrite Forall_forall in Hfresh. exact (Hfresh _ Hin Ht). }
  assert (E4 : m' (root + 8 * index4 w) = e4).
  { apply Hkept; [exact P4|]. apply Hout; [set_solver|apply index4_range]. }
  assert (E3 : m' (Z.land e4 kAddressMask + 8 * index3 w) = e3).
  { apply Hkept; [exact P3|]. apply Hout; [set_solver|apply index3_range]. }
  assert (E2 : m' (Z.land e3 kAddressMask + 8 * index2 w) = e2).
  { apply Hkept; [exact P2|]. apply Hout; [set_solver|apply index2_range]. }
  split.
  - simpl. rewrite E4, P4, E3, P3, E2, P2, Ha. reflexivity.
  - apply Hkept; [exact Hpa|]. rewrite Ha. apply Hout; [set_solver|apply index1_range].
Qed.

(** X4.  A mapping of [v] leaves every other mapping as it is: a page [w]
    that had a present leaf PTE before [mapSingle4k(v, ..)] has the same
    leaf PTE, with the same contents, when the call has returned.  The
    allocator's frames must not be tables on the walks of [v] and [w]. *)
Theorem X4_map_keeps_other_mappings :
  (∀ root v p flags c s u s' w a,
     fresh_frames s root v → fresh_frames s root w →
     KernelPageSpace.mapSingle4k root v p flags c s = Ok (u, s') →
     leaf_address (mem s) root w = Some a → present (mem s a) = true →
     leaf_address (mem s') root w = Some a ∧ mem s' a = mem s a) ∧
  (∀ root v p user_page flags c s u s' w a,
     fresh_frames s root v → fresh_frames s root w →
     ClientPageSpace.mapSingle4k root v p user_page flags c s = Ok (u, s') →
     leaf_address (mem s) root w = Some a → present (mem s a) = true →
     leaf_address (mem s') root w = Some a ∧ mem s' a = mem s a).
Proof.
  split.
  - intros root v p flags c s u s' w a Hv Hw Hrun Hleaf Hpa.
    apply (walk_kept s (mem s') root w a Hw); [|assumption..].
    exact (kernel_map_keeps _ _ _ _ _ _ _ _ Hv Hrun).
  - intros root v p user_page flags c s u s' w a Hv Hw Hrun Hleaf Hpa.
    apply (walk_kept s (mem s') root w a Hw); [|assumption..].
    exact (client_map_keeps _ _ _ _ _ _ _ _ _ Hv Hrun).
Qed.

Lemma no_frames_fresh s root v :
  page_aligned root → frames s = [] → fresh_frames s root v.
Proof.
  intros Hr Hf. unfold fresh_frames. rewrite Hf.
  split; [exact Hr|]. split; [constructor|]. split; constructor.
Qed.

Lemma second_map_ok :
  is_ok (KernelPageSpace.mapSingle4k 0x1000 0x8000 0x6000 0 CachingMode.null after_map)
  = true ∧
  is_ok (ClientPageSpace.mapSingle4k 0x1000 0x8000 0x6000 true 0 CachingMode.null
           one_mapping) = true.
Proof. split; vm_compute; reflexivity. Qed.

Lemma first_mapping_leaf :
  frames after_map = [] ∧ frames one_mapping = [] ∧
  leaf_address (mem after_map) 0x1000 0x7000 = Some 0x4038 ∧
  leaf_address (mem one_mapping) 0x1000 0x7000 = Some 0x4038 ∧
  present (mem after_map 0x4038) = true ∧
  present (mem one_mapping 0x4038) = true.
Proof. repeat split; vm_compute; reflexivity. Qed.

Lemma X4_witness :
  (∃ s', KernelPageSpace.mapSingle4k 0x1000 0x8000 0x6000 0 CachingMode.null after_map
         = Ok (tt, s') ∧
         leaf_address (mem s') 0x1000 0x7000 = Some 0x4038 ∧
         mem s' 0x4038 = mem after_map 0x4038) ∧
  (∃ s', ClientPageSpace.mapSingle4k 0x1000 0x8000 0x6000 true 0 CachingMode.null
           one_mapping = Ok (tt, s') ∧
         leaf_address (mem s') 0x1000 0x7000 = Some 0x4038 ∧
         mem s' 0x4038 = mem one_mapping 0x4038).
Proof.
  destruct first_mapping_leaf as (Fk & Fc & Lk & Lc & Pk & Pc).
  assert (Hr : page_aligned 0x1000) by reflexivity.
  split.
  - pose proof (proj1 second_map_ok) as Hok.
    destruct (KernelPageSpace.mapSingle4k 0x1000 0x8000 0x6000 0 CachingMode.null
                after_map) as [[[] s']| | |] eqn:Hrun; try discriminate Hok.
    exists s'. split; [reflexivity|].
    exact (proj1 X4_map_keeps_other_mappings _ _ _ _ _ _ _ _ _ _
             (no_frames_fresh _ _ 0x8000 Hr Fk) (no_frames_fresh _ _ 0x7000 Hr Fk)
             Hrun Lk Pk).
  - pose proof (proj2 second_map_ok) as Hok.
    destruct (ClientPageSpace.mapSingle4k 0x1000 0x8000 0x6000 true 0 CachingMode.null
                one_mapping) as [[[] s']| | |] eqn:Hrun; try discriminate Hok.
    exists s'. split; [reflexivity|].
    exact (proj2 X4_map_keeps_other_mappings _ _ _ _ _ _ _ _ _ _ _
             (no_frames_fresh _ _ 0x8000 Hr Fc) (no_frames_fresh _ _ 0x7000 Hr Fc)
             Hrun Lc Pc).
Defined.

(* ===================================================================== *)
(** ** [mapSingle4k], [isMapped] and [unmapRange] of a client space together *)
(* ===================================================================== *)

Lemma make_table_window user_page tbl i e s next s' :
  make_table PageAccessor.new user_page tbl i e s = Ok (next, s') →
  next < 0x400000000000.
Proof.
  unfold make_table. intros H.
  destruct (has_bit e kPagePresent).
  - pose proof (PageAccessor_window _ _ _ _ H) as [_ Hw].
    apply PageAccessor_transparent in H as [-> _]. exact Hw.
  - apply bind_inv in H. destruct H as (page & s1 & _ & H).
    apply bind_inv in H. destruct H as (q & s2 & Hacc & H).
    pose proof (PageAccessor_window _ _ _ _ Hacc) as [_ Hw].
    apply PageAccessor_transparent in Hacc as [-> ->].
    do 2 run_step H. run_prim H. exact Hw.
Qed.

(** The tables that [ClientPageSpace::mapSingle4k] went through lie in the
    identity window. *)
Lemma client_map_tables root v p user_page flags c s u s' :
  fresh_frames s root v →
  ClientPageSpace.mapSingle4k root v p user_page flags c s = Ok (u, s') →
  page_aligned v ∧ page_aligned root ∧
  ∃ t3 t2 t1 e4 e3 e2,
    mapped (mem s) (mem s') (frames s) (frames s') root
           (index4 v) (index3 v) (index2 v) (index1 v) t3 t2 t1 e4 e3 e2
           (client_leaf p user_page flags c) ∧
    Forall (λ t, t < 0x400000000000) [root; t3; t2; t1].
Proof.
  intros Hfresh H. pose proof Hfresh as (Hr & _).
  apply fresh_frames_walk_inv in Hfresh.
  unfold ClientPageSpace.mapSingle4k in H.
  run_step H. run_step H. cbv zeta in H.
  run_step H. pose proof (PageAccessor_window _ _ _ _ Hm1) as [_ Hw4].
  apply PageAccessor_transparent in Hm1 as [-> ->].
  do 15 run_step H.
  apply caching_block_inv in Hm8 as (-> & Hc & ->).
  run_prim H.
  rewrite has_bit_present in Hm7. apply negb_true_iff in Hm7.
  split; [apply Z.eqb_eq; exact Hm|]. split; [exact Hr|].
  pose proof (three_levels PageAccessor.new PageAccessor_transparent user_page
                s root _ _ _ (index1 v) _ _ _ _ _ _ (client_leaf p user_page flags c)
                Hfresh Hm1 Hm3 Hm5 Hm7) as Hmapped.
  eexists _, _, _, _, _, _. split; [exact Hmapped|].
  repeat constructor; [exact Hw4|eapply make_table_window; eassumption..].
Qed.

Lemma client_leaf_present p user_page flags c :
  present (client_leaf p user_page flags c) = true.
Proof.
  unfold present. rewrite client_leaf_bit by lia.
  change (0 =? 0) with true. rewrite orb_true_r. reflexivity.
Qed.

Lemma mapped_tables_of m0 m' fr0 fr' root v t3 t2 t1 e4 e3 e2 leaf :
  mapped m0 m' fr0 fr' root (index4 v) (index3 v) (index2 v) (index1 v)
         t3 t2 t1 e4 e3 e2 leaf →
  tables_of m' root v = [root; t3; t2; t1].
Proof.
  intros [E4 E3 E2 _ P4 P3 P2 T3 T2 T1 _ _ _ _ _ _].
  unfold tables_of. simpl. rewrite E4, P4, T3, E3, P3, T2, E2, P2, T1. reflexivity.
Qed.

(** X5.  After [ClientPageSpace::mapSingle4k(v, ..)] has returned,
    [isMapped(v)] returns [true], fails no assertion and changes nothing. *)
Theorem X5_map_then_isMapped root v p user_page flags c s u s' :
  fresh_frames s root v →
  ClientPageSpace.mapSingle4k root v p user_page flags c s = Ok (u, s') →
  ClientPageSpace.isMapped root v s' = Ok (true, s').
Proof.
  intros Hfresh Hrun.
  destruct (client_map_tables _ _ _ _ _ _ _ _ _ Hfresh Hrun)
    as (Hv & Hr & t3 & t2 & t1 & e4 & e3 & e2 & Hm & Hw).
  rewrite <- (mapped_tables_of _ _ _ _ _ _ _ _ _ _ _ _ _ Hm) in Hw.
  rewrite (isMapped_run root v s' Hv Hr Hw). do 2 f_equal.
  destruct (mapped_leaf_address _ _ _ _ _ _ _ _ _ _ _ _ _ Hm) as [Hleaf _].
  unfold leaf_present. rewrite Hleaf, (mapped_leaf _ _ _ _ _ _ _ _ _ _ _ _ _ _ _ _ Hm).
  apply client_leaf_present.
Qed.

Lemma X5_witness :
  ∃ s', ClientPageSpace.mapSingle4k 0x1000 0x7000 0x5000 true page_access.write
          CachingMode.writeCombine empty_memory = Ok (tt, s') ∧
        ClientPageSpace.isMapped 0x1000 0x7000 s' = Ok (true, s').
Proof.
  pose proof client_map_empty_ok as Hok.
  destruct (ClientPageSpace.mapSingle4k 0x1000 0x7000 0x5000 true page_access.write
              CachingMode.writeCombine empty_memory) as [[[] s']| | |] eqn:Hrun;
    try discriminate Hok.
  exists s'. split; [reflexivity|].
  exact (X5_map_then_isMapped _ _ _ _ _ _ _ _ _ (empty_memory_fresh 0x7000) Hrun).
Defined.

(** One iteration of [unmapRange], on tables in the identity window: a
    present leaf loses its present bit; a page without one is skipped in
    [remap] mode and stops the kernel otherwise. *)
Lemma unmapRange_body_run root va mode s :
  page_aligned root → in_window (mem s) root va →
  ClientPageSpace.unmapRange_body root va mode s =
    match leaf_address (mem s) root va with
    | Some a =>
        if present (mem s a)
        then Ok (tt, mkPtState (<[a := Z.land (mem s a) kNotPresent64]> (mem s)) (frames s))
        else if PageMode.eqb mode PageMode.remap then Ok (tt, s) else AssertFail
    | None => if PageMode.eqb mode PageMode.remap then Ok (tt, s) else AssertFail
    end.
Proof.
  intros Hr Hw. unfold in_window, tables_of in Hw. simpl in Hw.
  unfold leaf_address, indices. simpl.
  unfold ClientPageSpace.unmapRange_body. cbv zeta.
  inversion Hw as [|? ? Hroot Hw3]; subst.
  erewrite bind_run by (apply PageAccessor_run; assumption).
  erewrite bind_run by reflexivity. rewrite has_bit_present.
  destruct (present (mem s (root + 8 * index4 va))); simpl;
    [|destruct mode; reflexivity].
  rewrite andb_false_r. erewrite bind_run by reflexivity.
  inversion Hw3 as [|? ? Ht3 Hw2]; subst.
  erewrite bind_run by (apply PageAccessor_run; [apply land_mask_aligned|assumption]).
  erewrite bind_run by reflexivity. rewrite has_bit_present.
  destruct (present (mem s (_ + 8 * index3 va))); simpl;
    [|destruct mode; reflexivity].
  rewrite andb_false_r. erewrite bind_run by reflexivity.
  inversion Hw2 as [|? ? Ht2 Hw1]; subst.
  erewrite bind_run by (apply PageAccessor_run; [apply land_mask_aligned|assumption]).
  erewrite bind_run by reflexivity. rewrite has_bit_present.
  destruct (present (mem s (_ + 8 * index2 va))); simpl;
    [|destruct mode; reflexivity].
  rewrite andb_false_r. erewrite bind_run by reflexivity.
  inversion Hw1 as [|? ? Ht1 _]; subst.
  erewrite bind_run by (apply PageAccessor_run; [apply land_mask_aligned|assumption]).
  erewrite bind_run by reflexivity. rewrite has_bit_present.
  destruct (present (mem s (_ + 8 * index1 va))); simpl;
    [|destruct mode; reflexivity].
  rewrite andb_false_r. reflexivity.
Qed.

(** The walk after the present bit of the leaf of a fresh mapping has been
    cleared. *)
Lemma mapped_then_cleared m0 m' fr0 fr' root v t3 t2 t1 e4 e3 e2 leaf w :
  mapped m0 m' fr0 fr' root (index4 v) (index3 v) (index2 v) (index1 v)
         t3 t2 t1 e4 e3 e2 leaf →
  let m2 := <[t1 + 8 * index1 v := w]> m' in
  tables_of m2 root v = [root; t3; t2; t1] ∧
  leaf_address m2 root v = Some (t1 + 8 * index1 v).
Proof.
  intros [E4 E3 E2 _ P4 P3 P2 T3 T2 T1 _ _ _ N4 N3 N2] m2.
  assert (Hsame : ∀ b, b ≠ t1 + 8 * index1 v → m2 b = m' b).
  { intros b Hb. unfold m2. apply fn_lookup_insert_ne. congruence. }
  unfold tables_of, leaf_address, indices. simpl.
  rewrite !(Hsame _ N4), E4, P4, T3, !(Hsame _ N3), E3, P3, T2, !(Hsame _ N2), E2, P2, T1.
  split; reflexivity.
Qed.

(** X6.  After [ClientPageSpace::mapSingle4k(v, ..)] has returned,
    [unmapRange(v, kPageSize, mode)] returns in either mode, and then
    [isMapped(v)] returns [false]; the unmap changes the leaf PTE of [v]
    only and gives no frame back to the allocator. *)
Theorem X6_map_then_unmapRange root v p user_page flags c mode s u s1 :
  fresh_frames s root v → 0 ≤ v < 2 ^ 64 →
  ClientPageSpace.mapSingle4k root v p user_page flags c s = Ok (u, s1) →
  ∃ s2 a,
    ClientPageSpace.unmapRange root v kPageSize mode s1 = Ok (tt, s2) ∧
    ClientPageSpace.isMapped root v s2 = Ok (false, s2) ∧
    leaf_address (mem s1) root v = Some a ∧
    (∀ b, b ≠ a → mem s2 b = mem s1 b) ∧
    frames s2 = frames s1.
Proof.
  intros Hfresh Hrange Hrun.
  destruct (client_map_tables _ _ _ _ _ _ _ _ _ Hfresh Hrun)
    as (Hv & Hr & t3 & t2 & t1 & e4 & e3 & e2 & Hm & Hw).
  destruct (mapped_leaf_address _ _ _ _ _ _ _ _ _ _ _ _ _ Hm) as [Hleaf _].
  pose proof (mapped_leaf _ _ _ _ _ _ _ _ _ _ _ _ _ _ _ _ Hm) as EL.
  pose proof (mapped_tables_of _ _ _ _ _ _ _ _ _ _ _ _ _ Hm) as Htabs.
  set (a := t1 + 8 * index1 v) in *.
  set (w := Z.land (mem s1 a) kNotPresent64).
  assert (Hpa : present (mem s1 a) = true) by (rewrite EL; apply client_leaf_present).
  destruct (mapped_then_cleared _ _ _ _ _ _ _ _ _ _ _ _ _ w Hm) as [Htabs2 Hleaf2].
  fold a in Htabs2, Hleaf2.
  exists (mkPtState (<[a := w]> (mem s1)) (frames s1)), a. cbn [mem frames].
  split; [|split; [|split; [exact Hleaf|split; [|reflexivity]]]].
  - unfold ClientPageSpace.unmapRange.
    erewrite bind_run by (apply aligned_assert_run; exact Hv).
    erewrite bind_run by (apply aligned_assert_run; reflexivity).
    change (Z.to_nat (kPageSize / kPageSize)) with 1%nat.
    cbn [ClientPageSpace.unmapRange_loop].
    rewrite Z.add_0_r, (Z.mod_small v) by lia.
    erewrite bind_run; [reflexivity|].
    rewrite unmapRange_body_run; [|exact Hr|unfold in_window; rewrite Htabs; exact Hw].
    rewrite Hleaf, Hpa. reflexivity.
  - rewrite isMapped_run; [|exact Hv|exact Hr|cbn [mem]; rewrite Htabs2; exact Hw].
    cbn [mem]. unfold leaf_present. rewrite Hleaf2, fn_lookup_insert.
    unfold w. rewrite present_cleared. reflexivity.
  - intros b Hb. apply fn_lookup_insert_ne. congruence.
Qed.

Lemma X6_witness :
  ∃ s1 s2,
    ClientPageSpace.mapSingle4k 0x1000 0x7000 0x5000 true page_access.write
      CachingMode.writeCombine empty_memory = Ok (tt, s1) ∧
    ClientPageSpace.unmapRange 0x1000 0x7000 kPageSize PageMode.normal s1 = Ok (tt, s2) ∧
    ClientPageSpace.isMapped 0x1000 0x7000 s2 = Ok (false, s2).
Proof.
  pose proof client_map_empty_ok as Hok.
  destruct (ClientPageSpace.mapSingle4k 0x1000 0x7000 0x5000 true page_access.write
              CachingMode.writeCombine empty_memory) as [[[] s1]| | |] eqn:Hrun;
    try discriminate Hok.
  assert (Hrange : 0 ≤ 0x7000 < 2 ^ 64) by lia.
  destruct (X6_map_then_unmapRange _ _ _ _ _ _ PageMode.normal _ _ _
              (empty_memory_fresh 0x7000) Hrange Hrun) as (s2 & a & Hun & Hmapped & _).
  exists s1, s2. auto.
Defined.

(* ===================================================================== *)
(** ** What [unmapRange] leaves behind *)
(* ===================================================================== *)

(** One iteration that returns has skipped a page without present leaf, in
    [remap] mode, or has cleared the present bit of a present leaf. *)
Lemma unmapRange_body_cases root va mode s u s' :
  ClientPageSpace.unmapRange_body root va mode s = Ok (u, s') →
  (mode = PageMode.remap ∧ leaf_present (mem s) root va = false ∧ s' = s) ∨
  ∃ a, leaf_address (mem s) root va = Some a ∧ present (mem s a) = true ∧
       s' = mkPtState (<[a := Z.land (mem s a) kNotPresent64]> (mem s)) (frames s).
Proof.
  intros H. unfold ClientPageSpace.unmapRange_body in H. cbv zeta in H.
  assert (Hremap : ∀ b, PageMode.eqb mode PageMode.remap && b = true →
                        mode = PageMode.remap).
  { intros b Hb. apply andb_true_iff in Hb as [Hb _]. destruct mode; (discriminate || auto). }
  unfold leaf_present, leaf_address, indices. simpl.
  run_step H. apply PageAccessor_transparent in Hm as [-> ->].
  run_step H. rewrite has_bit_present in H.
  destruct (present (mem s (root + 8 * index4 va))) eqn:P4; simpl in H;
    [rewrite andb_false_r in H
    |destruct (PageMode.eqb mode PageMode.remap) eqn:Hmode; simpl in H;
     [run_prim H; left; eauto|run_step H; discriminate]].
  run_step H. run_step H. apply PageAccessor_transparent in Hm0 as [-> ->].
  run_step H. rewrite has_bit_present in H.
  destruct (present (mem s (_ + 8 * index3 va))) eqn:P3; simpl in H;
    [rewrite andb_false_r in H
    |destruct (PageMode.eqb mode PageMode.remap) eqn:Hmode; simpl in H;
     [run_prim H; left; eauto|run_step H; discriminate]].
  run_step H. run_step H. apply PageAccessor_transparent in Hm1 as [-> ->].
  run_step H. rewrite has_bit_present in H.
  destruct (present (mem s (_ + 8 * index2 va))) eqn:P2; simpl in H;
    [rewrite andb_false_r in H
    |destruct (PageMode.eqb mode PageMode.remap) eqn:Hmode; simpl in H;
     [run_prim H; left; eauto|run_step H; discriminate]].
  run_step H. run_step H. apply PageAccessor_transparent in Hm2 as [-> ->].
  run_step H. rewrite has_bit_present in H.
  destruct (present (mem s (_ + 8 * index1 va))) eqn:P1; simpl in H;
    [rewrite andb_false_r in H
    |destruct (PageMode.eqb mode PageMode.remap) eqn:Hmode; simpl in H;
     [run_prim H; left; eauto|run_step H; discriminate]].
  run_step H. run_prim H. right. eexists. split; [reflexivity|].
  split; [exact P1|reflexivity].
Qed.

(** Clearing present bits does not create a walk, nor a present leaf. *)
Lemma walk_before_clears m m' tbl idxs a :
  (∀ w, m' w = m w ∨ m' w = Z.land (m w) kNotPresent64) →
  walk m' tbl idxs = Some a → walk m tbl idxs = Some a.
Proof.
  intros Hrel. revert tbl. induction idxs as [|i rest IH]; intros tbl H; [discriminate|].
  destruct rest as [|j rest]; [exact H|].
  rewrite walk_cons in H |- *.
  destruct (Hrel (tbl + 8 * i)) as [Heq|Heq]; rewrite Heq in H.
  - destruct (present (m (tbl + 8 * i))); [|discriminate]. apply IH. exact H.
  - rewrite present_cleared in H. discriminate.
Qed.

Lemma leaf_present_before_clears m m' root v :
  (∀ w, m' w = m w ∨ m' w = Z.land (m w) kNotPresent64) →
  leaf_present m' root v = true → leaf_present m root v = true.
Proof.
  intros Hrel. unfold leaf_present, leaf_address.
  destruct (walk m' root (indices v)) as [a|] eqn:Hw; [|discriminate].
  rewrite (walk_before_clears m m' _ _ _ Hrel Hw).
  destruct (Hrel a) as [-> | ->]; [auto|].
  rewrite present_cleared. discriminate.
Qed.

Lemma unmapRange_loop_clears root pointer mode n progress s u s' :
  ClientPageSpace.unmapRange_loop root pointer mode progress n s = Ok (u, s') →
  ∀ w, mem s' w = mem s w ∨ mem s' w = Z.land (mem s w) kNotPresent64.
Proof.
  intros H w. destruct (unmapRange_loop_inv _ _ _ _ _ _ _ _ H) as [_ Hmem].
  destruct (Hmem w) as [?|(_ & ? & _)]; auto.
Qed.

Lemma unmapRange_body_clears root va mode s u s' :
  ClientPageSpace.unmapRange_body root va mode s = Ok (u, s') →
  ∀ w, mem s' w = mem s w ∨ mem s' w = Z.land (mem s w) kNotPresent64.
Proof.
  intros H w. destruct (unmapRange_body_inv _ _ _ _ _ _ H) as [->|(a & _ & _ & ->)];
    [auto|]. cbn [mem]. destruct (Z.eq_dec a w) as [->|Hne].
  - right. apply fn_lookup_insert.
  - left. apply fn_lookup_insert_ne. exact Hne.
Qed.

Lemma range_page_first pointer progress :
  range_page pointer progress 0 = (pointer + progress) mod 2 ^ 64.
Proof. unfold range_page. f_equal. lia. Qed.

Lemma range_page_next pointer progress k :
  range_page pointer progress (S k) = range_page pointer (progress + kPageSize) k.
Proof. unfold range_page. f_equal. lia. Qed.

(** When the loop has returned, no page it went over has a present leaf. *)
Lemma unmapRange_loop_unmapped root pointer mode n :
  ∀ progress s u s',
    ClientPageSpace.unmapRange_loop root pointer mode progress n s = Ok (u, s') →
    ∀ k, (k < n)%nat → leaf_present (mem s') root (range_page pointer progress k) = false.
Proof.
  induction n as [|n IH]; intros progress s u s' H k Hk; [lia|].
  cbn [ClientPageSpace.unmapRange_loop] in H.
  apply bind_inv in H. destruct H as (u1 & s1 & Hbody & H).
  destruct k as [|k].
  - rewrite range_page_first. apply not_true_is_false. intros Hp.
    apply (leaf_present_before_clears (mem s1)) in Hp;
      [|exact (unmapRange_loop_clears _ _ _ _ _ _ _ _ H)].
    destruct (unmapRange_body_cases _ _ _ _ _ _ Hbody)
      as [(_ & Hnp & ->)|(a & Hl & Hpa & ->)]; [congruence|].
    cbn [mem] in Hp. unfold leaf_present, leaf_address in Hp.
    destruct (walk _ root _) as [a'|] eqn:Hw; [|discriminate].
    pose proof (walk_before_clear _ _ _ _ _ Hw) as Hw0.
    unfold leaf_address in Hl. rewrite Hl in Hw0. injection Hw0 as <-.
    rewrite fn_lookup_insert, present_cleared in Hp. discriminate.
  - rewrite range_page_next. apply (IH _ _ _ _ H). lia.
Qed.

(** In [normal] mode the loop returns only if every page it goes over had a
    present leaf when it started. *)
Lemma unmapRange_loop_mapped root pointer n :
  ∀ progress s u s',
    ClientPageSpace.unmapRange_loop root pointer PageMode.normal progress n s
    = Ok (u, s') →
    ∀ k, (k < n)%nat → leaf_present (mem s) root (range_page pointer progress k) = true.
Proof.
  induction n as [|n IH]; intros progress s u s' H k Hk; [lia|].
  cbn [ClientPageSpace.unmapRange_loop] in H.
  apply bind_inv in H. destruct H as (u1 & s1 & Hbody & H).
  destruct k as [|k].
  - rewrite range_page_first.
    destruct (unmapRange_body_cases _ _ _ _ _ _ Hbody)
      as [(Hmode & _)|(a & Hl & Hpa & _)]; [discriminate|].
    unfold leaf_present. rewrite Hl. exact Hpa.
  - rewrite range_page_next.
    apply (leaf_present_before_clears (mem s) (mem s1));
      [exact (unmapRange_body_clears _ _ _ _ _ _ Hbody)|].
    apply (IH _ _ _ _ H). lia.
Qed.

(** In [remap] mode the loop skips a range without present leaves. *)
Lemma unmapRange_loop_skips root pointer s n :
  page_aligned root →
  ∀ progress,
    (∀ k, (k < n)%nat →
          in_window (mem s) root (range_page pointer progress k) ∧
          leaf_present (mem s) root (range_page pointer progress k) = false) →
    ClientPageSpace.unmapRange_loop root pointer PageMode.remap progress n s = Ok (tt, s).
Proof.
  intros Hr. induction n as [|n IH]; intros progress Hall; [reflexivity|].
  cbn [ClientPageSpace.unmapRange_loop].
  destruct (Hall 0%nat ltac:(lia)) as [Hw Hnp]. rewrite range_page_first in Hw, Hnp.
  erewrite bind_run.
  - apply IH. intros k Hk. rewrite <- range_page_next. apply Hall. lia.
  - rewrite unmapRange_body_run by assumption.
    unfold leaf_present in Hnp.
    destruct (leaf_address (mem s) root _) as [a|]; [|reflexivity].
    rewrite Hnp. reflexivity.
Qed.

Lemma unmapRange_inv root pointer size mode s u s' :
  ClientPageSpace.unmapRange root pointer size mode s = Ok (u, s') →
  page_aligned pointer ∧ page_aligned size ∧
  ClientPageSpace.unmapRange_loop root pointer mode 0 (Z.to_nat (size / kPageSize)) s
  = Ok (u, s').
Proof.
  unfold ClientPageSpace.unmapRange. intros H.
  apply bind_inv in H. destruct H as (u1 & s1 & Hp & H).
  pose proof (aligned_assert_inv _ _ _ _ Hp) as Hpa. apply assert_inv in Hp as [_ ->].
  apply bind_inv in H. destruct H as (u2 & s2 & Hs & H).
  pose proof (aligned_assert_inv _ _ _ _ Hs) as Hsa. apply assert_inv in Hs as [_ ->].
  auto.
Qed.

Lemma land_notpresent_idem w :
  Z.land (Z.land w kNotPresent64) kNotPresent64 = Z.land w kNotPresent64.
Proof. rewrite <- Z.land_assoc, Z.land_diag. reflexivity. Qed.

(** In [normal] mode every iteration finds the leaf of its page present and
    clears it; the word stays cleared until the loop ends. *)
Lemma unmapRange_loop_normal root pointer n :
  ∀ progress s u s',
    ClientPageSpace.unmapRange_loop root pointer PageMode.normal progress n s
    = Ok (u, s') →
    ∀ k, (k < n)%nat →
         ∃ a, leaf_address (mem s) root (range_page pointer progress k) = Some a ∧
              present (mem s a) = true ∧
              mem s' a = Z.land (mem s a) kNotPresent64.
Proof.
  induction n as [|n IH]; intros progress s u s' H k Hk; [lia|].
  cbn [ClientPageSpace.unmapRange_loop] in H.
  apply bind_inv in H. destruct H as (u1 & s1 & Hbody & H).
  destruct (unmapRange_body_cases _ _ _ _ _ _ Hbody)
    as [(Hmode & _)|(a0 & Hl0 & Hp0 & ->)]; [discriminate Hmode|].
  pose proof (unmapRange_loop_clears _ _ _ _ _ _ _ _ H) as Hclears. cbn [mem] in Hclears.
  destruct k as [|k].
  - rewrite range_page_first. exists a0. split; [exact Hl0|]. split; [exact Hp0|].
    destruct (Hclears a0) as [Hsame|Hsame]; rewrite Hsame, fn_lookup_insert;
      [reflexivity|apply land_notpresent_idem].
  - rewrite range_page_next.
    destruct (IH _ _ _ _ H k ltac:(lia)) as (a & Hl & Hp & Hm). cbn [mem] in Hl, Hp, Hm.
    assert (Hne : a0 ≠ a).
    { intros ->. rewrite fn_lookup_insert, present_cleared in Hp. discriminate Hp. }
    rewrite fn_lookup_insert_ne in Hp, Hm by exact Hne.
    exists a. split; [|split; [exact Hp|exact Hm]].
    unfold leaf_address in Hl |- *. eapply walk_before_clear. exact Hl.
Qed.

(** C9.  When [KernelPageSpace::unmapSingle4k(v)] returns, the leaf PTE of
    [v] was present, its present bit is now clear and every other bit of it
    (so also the frame field, bits 12-51) is as before; every other word of
    memory is unchanged and the allocator holds the same frames.  When
    [ClientPageSpace::unmapRange] returns, the allocator holds the same
    frames, and every word of memory is either unchanged or was the present
    leaf PTE of a page of the range and lost its present bit only (bits 1-63
    and the frame field are as before).  And it does clear the present bits:
    afterwards no page of the range has a present leaf PTE; the leaf PTE
    that a page of the range had is not present any more, unless the walk of
    that page does not reach it any more (which takes a table entry on that
    walk that was itself the leaf PTE of a page of the range); and in
    [normal] mode every page of the range had a present leaf PTE, which is
    not present any more. *)
Theorem C9_unmap_clears_present_only :
  (∀ root v s r s',
     KernelPageSpace.unmapSingle4k root v s = Ok (r, s') →
     ∃ a, leaf_address (mem s) root v = Some a ∧
          present (mem s a) = true ∧
          present (mem s' a) = false ∧
          (∀ n, 0 < n → Z.testbit (mem s' a) n = Z.testbit (mem s a) n) ∧
          Z.land (mem s' a) kAddressMask = Z.land (mem s a) kAddressMask ∧
          (∀ b, b ≠ a → mem s' b = mem s b) ∧
          frames s' = frames s) ∧
  (∀ root pointer size mode s u s',
     ClientPageSpace.unmapRange root pointer size mode s = Ok (u, s') →
     frames s' = frames s ∧
     (∀ a, mem s' a = mem s a ∨
           (present (mem s a) = true ∧
            range_leaf (mem s) root pointer 0 (Z.to_nat (size / kPageSize)) a ∧
            present (mem s' a) = false ∧
            (∀ n, 1 ≤ n < 64 → Z.testbit (mem s' a) n = Z.testbit (mem s a) n) ∧
            Z.land (mem s' a) kAddressMask = Z.land (mem s a) kAddressMask)) ∧
     (∀ k, (k < Z.to_nat (size / kPageSize))%nat →
           leaf_present (mem s') root (range_page pointer 0 k) = false) ∧
     (∀ k a, (k < Z.to_nat (size / kPageSize))%nat →
             leaf_address (mem s) root (range_page pointer 0 k) = Some a →
             present (mem s a) = true →
             present (mem s' a) = false ∨
             leaf_address (mem s') root (range_page pointer 0 k) = None) ∧
     (mode = PageMode.normal →
      ∀ k, (k < Z.to_nat (size / kPageSize))%nat →
           ∃ a, leaf_address (mem s) root (range_page pointer 0 k) = Some a ∧
                present (mem s a) = true ∧
                present (mem s' a) = false)).
Proof.
  split.
  - intros root v s r s' H.
    destruct (kernel_unmap_inv _ _ _ _ _ H) as (_ & a & Hl & Hp & -> & _).
    exists a. cbn [mem frames]. rewrite fn_lookup_insert.
    split; [exact Hl|]. split; [exact Hp|].
    assert (Hbits : ∀ n, 0 < n →
              Z.testbit (Z.lxor (mem s a) kPagePresent) n = Z.testbit (mem s a) n).
    { intros n Hn. rewrite lxor_present_bit by lia.
      replace (0 =? n) with false by (symmetry; apply Z.eqb_neq; lia).
      apply xorb_false_r. }
    split.
    { unfold present in *. rewrite lxor_present_bit, Hp by lia. reflexivity. }
    split; [exact Hbits|].
    split; [apply frame_field_eq; intros n Hn; apply Hbits; lia|].
    split; [|reflexivity].
    intros b Hb. apply fn_lookup_insert_ne. congruence.
  - intros root pointer size mode s u s' H.
    unfold ClientPageSpace.unmapRange in H. run_step H. run_step H.
    destruct (unmapRange_loop_inv _ _ _ _ _ _ _ _ H) as [Hfr Hall].
    pose proof (unmapRange_loop_clears _ _ _ _ _ _ _ _ H) as Hclears.
    pose proof (unmapRange_loop_unmapped _ _ _ _ _ _ _ _ H) as Hun.
    split; [exact Hfr|]. split; [|split; [exact Hun|split]].
    + intros w.
      destruct (Hall w) as [Heq|(Hp & Heq & Hl)]; [left; exact Heq|].
      right. rewrite Heq.
      assert (Hbits : ∀ n, 1 ≤ n < 64 →
                Z.testbit (Z.land (mem s w) kNotPresent64) n = Z.testbit (mem s w) n).
      { intros n Hn. rewrite land_notpresent_bit by lia.
        replace (1 <=? n) with true by (symmetry; apply Z.leb_le; lia).
        replace (n <? 64) with true by (symmetry; apply Z.ltb_lt; lia).
        rewrite !andb_true_r. reflexivity. }
      split; [exact Hp|]. split; [exact Hl|].
      split; [apply present_cleared|].
      split; [exact Hbits|].
      apply frame_field_eq. intros n Hn. apply Hbits. lia.
    + intros k w Hk Hl Hp. specialize (Hun k Hk).
      unfold leaf_present in Hun.
      destruct (leaf_address (mem s') root (range_page pointer 0 k)) as [w'|] eqn:Hl';
        [|right; reflexivity].
      left. unfold leaf_address in Hl, Hl'.
      apply (walk_before_clears (mem s)) in Hl'; [|exact Hclears].
      rewrite Hl in Hl'. injection Hl' as <-. exact Hun.
    + intros -> k Hk.
      destruct (unmapRange_loop_normal _ _ _ _ _ _ _ H k Hk) as (w & Hl & Hp & Hw).
      exists w. split; [exact Hl|]. split; [exact Hp|].
      rewrite Hw. apply present_cleared.
Qed.

Lemma C9_witness :
  (∃ r s' a,
     KernelPageSpace.unmapSingle4k 0x1000 0x7000 after_map = Ok (r, s') ∧
     leaf_address (mem after_map) 0x1000 0x7000 = Some a ∧
     present (mem s' a) = false ∧
     Z.land (mem s' a) kAddressMask = Z.land (mem after_map a) kAddressMask) ∧
  (∃ s' a,
     ClientPageSpace.unmapRange 0x1000 0x7000 0x1000 PageMode.normal one_mapping
       = Ok (tt, s') ∧
     frames s' = frames one_mapping ∧
     leaf_address (mem one_mapping) 0x1000 0x7000 = Some a ∧
     present (mem one_mapping a) = true ∧
     present (mem s' a) = false ∧
     Z.land (mem s' a) kAddressMask = Z.land (mem one_mapping a) kAddressMask ∧
     leaf_present (mem s') 0x1000 0x7000 = false).
Proof.
  split.
  - pose proof kernel_unmap_ok as Hok.
    destruct (KernelPageSpace.unmapSingle4k 0x1000 0x7000 after_map)
      as [[r s']| | |] eqn:Hrun; try discriminate Hok.
    destruct (proj1 C9_unmap_clears_present_only _ _ _ _ _ Hrun)
      as (a & Hl & _ & Hnp & _ & Hframe & _).
    exists r, s', a. auto.
  - pose proof client_unmapRange_ok as Hok.
    destruct (ClientPageSpace.unmapRange 0x1000 0x7000 0x1000 PageMode.normal one_mapping)
      as [[[] s']| | |] eqn:Hrun; try discriminate Hok.
    destruct (proj2 C9_unmap_clears_present_only _ _ _ _ _ _ _ Hrun)
      as (Hfr & Hframe & Hun & _ & Hnormal).
    assert (H0 : (0 < Z.to_nat (0x1000 / kPageSize))%nat) by (change (0 < 1)%nat; lia).
    destruct (Hnormal eq_refl 0%nat H0) as (a & Hl & Hp & Hnp).
    specialize (Hun 0%nat H0).
    change (range_page 0x7000 0 0) with 0x7000 in Hl, Hun.
    exists s', a. split; [reflexivity|]. split; [exact Hfr|]. split; [exact Hl|].
    split; [exact Hp|]. split; [exact Hnp|]. split; [|exact Hun].
    destruct (Hframe a) as [Hsame|(_ & _ & _ & _ & Hfield)]; [|exact Hfield].
    rewrite Hsame in Hnp. congruence.
Defined.

(** X7.  When [ClientPageSpace::unmapRange(pointer, size, mode)] has
    returned, in either mode, no page of the range has a present leaf PTE. *)
Theorem X7_unmapRange_unmaps root pointer size mode s u s' :
  ClientPageSpace.unmapRange root pointer size mode s = Ok (u, s') →
  ∀ k, (k < Z.to_nat (size / kPageSize))%nat →
       leaf_present (mem s') root (range_page pointer 0 k) = false.
Proof.
  intros H. apply unmapRange_inv in H as (_ & _ & H).
  exact (unmapRange_loop_unmapped _ _ _ _ _ _ _ _ H).
Qed.

Lemma remap_two_pages_ok :
  is_ok (ClientPageSpace.unmapRange 0x1000 0x7000 0x2000 PageMode.remap one_mapping)
  = true.
Proof. vm_compute. reflexivity. Qed.

Lemma X7_witness :
  ∃ s', ClientPageSpace.unmapRange 0x1000 0x7000 0x2000 PageMode.remap one_mapping
        = Ok (tt, s') ∧
        leaf_present (mem s') 0x1000 0x7000 = false ∧
        leaf_present (mem s') 0x1000 0x8000 = false.
Proof.
  pose proof remap_two_pages_ok as Hok.
  destruct (ClientPageSpace.unmapRange 0x1000 0x7000 0x2000 PageMode.remap one_mapping)
    as [[[] s']| | |] eqn:Hrun; try discriminate Hok.
  exists s'. split; [reflexivity|].
  assert (H0 : (0 < Z.to_nat (0x2000 / kPageSize))%nat) by (change (0 < 2)%nat; lia).
  assert (H1 : (1 < Z.to_nat (0x2000 / kPageSize))%nat) by (change (1 < 2)%nat; lia).
  split.
  - exact (X7_unmapRange_unmaps _ _ _ _ _ _ _ Hrun 0%nat H0).
  - exact (X7_unmapRange_unmaps _ _ _ _ _ _ _ Hrun 1%nat H1).
Defined.

(** X8.  [unmapRange(pointer, size, PageMode::remap)] on a range in which
    no page has a present leaf PTE returns and changes nothing.  The
    arguments must be page-aligned and the tables on the walks of the pages
    must lie in the identity window. *)
Theorem X8_unmapRange_remap_skips root pointer size s :
  page_aligned root → page_aligned pointer → page_aligned size →
  (∀ k, (k < Z.to_nat (size / kPageSize))%nat →
        in_window (mem s) root (range_page pointer 0 k) ∧
        leaf_present (mem s) root (range_page pointer 0 k) = false) →
  ClientPageSpace.unmapRange root pointer size PageMode.remap s = Ok (tt, s).
Proof.
  intros Hr Hp Hs Hall. unfold ClientPageSpace.unmapRange.
  erewrite bind_run by (apply aligned_assert_run; exact Hp).
  erewrite bind_run by (apply aligned_assert_run; exact Hs).
  apply unmapRange_loop_skips; assumption.
Qed.

Lemma empty_memory_unmapped v :
  in_window (mem empty_memory) 0x1000 v ∧ leaf_present (mem empty_memory) 0x1000 v = false.
Proof.
  split; [|reflexivity].
  unfold in_window. change (tables_of (mem empty_memory) 0x1000 v) with [0x1000].
  repeat constructor.
Qed.

Lemma X8_witness :
  ClientPageSpace.unmapRange 0x1000 0x7000 0x2000 PageMode.remap empty_memory
  = Ok (tt, empty_memory).
Proof.
  apply X8_unmapRange_remap_skips; [reflexivity..|].
  intros k _. apply empty_memory_unmapped.
Defined.

(** X9.  [unmapRange(pointer, size, PageMode::normal)] returns only if every
    page of the range had a present leaf PTE when it was called: on a range
    with an unmapped page it stops the kernel. *)
Theorem X9_unmapRange_normal_needs_mappings root pointer size s u s' :
  ClientPageSpace.unmapRange root pointer size PageMode.normal s = Ok (u, s') →
  ∀ k, (k < Z.to_nat (size / kPageSize))%nat →
       leaf_present (mem s) root (range_page pointer 0 k) = true.
Proof.
  intros H. apply unmapRange_inv in H as (_ & _ & H).
  exact (unmapRange_loop_mapped _ _ _ _ _ _ _ H).
Qed.

Lemma X9_witness :
  ∃ s', ClientPageSpace.unmapRange 0x1000 0x7000 0x1000 PageMode.normal one_mapping
        = Ok (tt, s') ∧
        leaf_present (mem one_mapping) 0x1000 0x7000 = true.
Proof.
  pose proof client_unmapRange_ok as Hok.
  destruct (ClientPageSpace.unmapRange 0x1000 0x7000 0x1000 PageMode.normal one_mapping)
    as [[[] s']| | |] eqn:Hrun; try discriminate Hok.
  exists s'. split; [reflexivity|].
  assert (H0 : (0 < Z.to_nat (0x1000 / kPageSize))%nat) by (change (0 < 1)%nat; lia).
  exact (X9_unmapRange_normal_needs_mappings _ _ _ _ _ _ Hrun 0%nat H0).
Defined.

(* ===================================================================== *)
(** ** [KernelPageSpace::unmapSingle4k] on a page that is not mapped *)
(* ===================================================================== *)

Lemma kernel_unmap_absent root v s :
  leaf_present (mem s) root v = false →
  KernelPageSpace.unmapSingle4k root v s = AssertFail.
Proof.
  unfold leaf_present, leaf_address, indices. simpl. intros H.
  unfold KernelPageSpace.unmapSingle4k, bind, assert, load, store, SkeletalRegion_access, ret.
  cbv zeta.
  destruct (v mod 4096 =? 0); cbv beta iota; [|reflexivity].
  rewrite ?has_bit_present.
  destruct (present (mem s (root + 8 * index4 v))); cbv beta iota; [|reflexivity].
  rewrite ?has_bit_present.
  destruct (present (mem s (_ + 8 * index3 v))); cbv beta iota; [|reflexivity].
  rewrite ?has_bit_present.
  destruct (present (mem s (_ + 8 * index2 v))); cbv beta iota; [|reflexivity].
  rewrite ?has_bit_present, H. reflexivity.
Qed.

Lemma walk_before_unset m m' tbl idxs a :
  (∀ w, m' w = m w ∨ present (m' w) = false) →
  walk m' tbl idxs = Some a → walk m tbl idxs = Some a.
Proof.
  intros Hrel. revert tbl. induction idxs as [|i rest IH]; intros tbl H; [discriminate|].
  destruct rest as [|j rest]; [exact H|].
  rewrite walk_cons in H |- *.
  destruct (Hrel (tbl + 8 * i)) as [Heq|Heq]; rewrite Heq in H; [|discriminate].
  destruct (present (m (tbl + 8 * i))); [|discriminate]. apply IH. exact H.
Qed.

Lemma kernel_unmap_unmapped root v s r s' :
  KernelPageSpace.unmapSingle4k root v s = Ok (r, s') →
  leaf_present (mem s') root v = false.
Proof.
  intros H. destruct (kernel_unmap_inv _ _ _ _ _ H) as (_ & a & Hl & Hp & -> & _).
  cbn [mem].
  assert (Hflip : present (Z.lxor (mem s a) kPagePresent) = false).
  { unfold present in *. rewrite lxor_present_bit, Hp by lia. reflexivity. }
  unfold leaf_present, leaf_address.
  destruct (walk _ root (indices v)) as [a'|] eqn:Hw; [|reflexivity].
  apply (walk_before_unset (mem s)) in Hw.
  - unfold leaf_address in Hl. rewrite Hl in Hw. injection Hw as <-.
    rewrite fn_lookup_insert. exact Hflip.
  - intros w. destruct (Z.eq_dec a w) as [->|Hne].
    + right. rewrite fn_lookup_insert. exact Hflip.
    + left. apply fn_lookup_insert_ne. exact Hne.
Qed.

(** X10.  [KernelPageSpace::unmapSingle4k(v)] on a page without present leaf
    PTE stops the kernel at an assertion; so does a second
    [unmapSingle4k(v)] after one that has returned. *)
Theorem X10_kernel_unmap_needs_mapping :
  (∀ root v s,
     leaf_present (mem s) root v = false →
     KernelPageSpace.unmapSingle4k root v s = AssertFail) ∧
  (∀ root v s r s',
     KernelPageSpace.unmapSingle4k root v s = Ok (r, s') →
     KernelPageSpace.unmapSingle4k root v s' = AssertFail).
Proof.
  split.
  - exact kernel_unmap_absent.
  - intros root v s r s' H. apply kernel_unmap_absent.
    exact (kernel_unmap_unmapped _ _ _ _ _ H).
Qed.

Lemma X10_witness :
  KernelPageSpace.unmapSingle4k 0x1000 0x7000 empty_memory = AssertFail ∧
  KernelPageSpace.unmapSingle4k 0x1000 0x7000 after_map_and_unmap = AssertFail.
Proof.
  split.
  - apply (proj1 X10_kernel_unmap_needs_mapping). reflexivity.
  - pose proof kernel_unmap_ok as Hok.
    unfold after_map_and_unmap.
    destruct (KernelPageSpace.unmapSingle4k 0x1000 0x7000 after_map)
      as [[r s']| | |] eqn:Hrun; try discriminate Hok.
    exact (proj2 X10_kernel_unmap_needs_mapping _ _ _ _ _ Hrun).
Defined.

(* ===================================================================== *)
(** ** The constructor of [ClientPageSpace] *)
(* ===================================================================== *)

(** The copy loop, for two tables whose words do not overlap unless they are
    the same words. *)
Lemma share_top_half_inv tbl4 kt n :
  (∀ j k, 0 ≤ j < 512 → 0 ≤ k < 512 → tbl4 + 8 * j = kt + 8 * k → j = k) →
  ∀ i s u s',
    0 ≤ i → i + Z.of_nat n ≤ 512 →
    share_top_half tbl4 kt i n s = Ok (u, s') →
    frames s' = frames s ∧
    (∀ j, i ≤ j < i + Z.of_nat n →
          present (mem s (kt + 8 * j)) = true ∧
          mem s' (tbl4 + 8 * j) = mem s (kt + 8 * j)) ∧
    (∀ a, (∀ j, i ≤ j < i + Z.of_nat n → a ≠ tbl4 + 8 * j) → mem s' a = mem s a).
Proof.
  intros Hsep. induction n as [|n IH]; intros i s u s' Hi Hn H.
  - run_prim H. split; [reflexivity|]. split; [lia|reflexivity].
  - cbn [share_top_half] in H.
    do 4 run_step H. rewrite has_bit_present in Hm.
    assert (Hi1 : 0 ≤ i + 1) by lia.
    assert (Hn1 : i + 1 + Z.of_nat n ≤ 512) by lia.
    destruct (IH _ _ _ _ Hi1 Hn1 H) as (Hfr & Hcopy & Hrest).
    cbn [mem frames] in *.
    assert (Hkt : ∀ j, i < j < 512 → (<[tbl4 + 8 * i := mem s (kt + 8 * i)]> (mem s))
                                       (kt + 8 * j) = mem s (kt + 8 * j)).
    { intros j Hj. apply fn_lookup_insert_ne. intros Heq.
      assert (i = j) by (apply Hsep; (lia || exact Heq)). lia. }
    split; [exact Hfr|]. split.
    + intros j Hj. destruct (Z.eq_dec j i) as [->|Hne].
      * split; [exact Hm|].
        rewrite Hrest by (intros j Hj' Heq; lia). apply fn_lookup_insert.
      * destruct (Hcopy j ltac:(lia)) as [Hp Hc]. rewrite Hkt in Hp, Hc by lia. auto.
    + intros w Hw. rewrite Hrest by (intros j Hj; apply Hw; lia).
      apply fn_lookup_insert_ne. intros Heq. apply (Hw i); [lia|]. symmetry. exact Heq.
Qed.

(** Two page-aligned frames have their words apart, or are one frame. *)
Lemma aligned_words_apart f g j k :
  page_aligned f → page_aligned g → 0 ≤ j < 512 → 0 ≤ k < 512 →
  f + 8 * j = g + 8 * k → j = k.
Proof.
  intros Hf Hg Hj Hk Heq.
  assert (f = g).
  { apply (frames_meet f g (f + 8 * j)); [assumption..|apply word_in_frame; exact Hj|].
    rewrite Heq. apply word_in_frame; exact Hk. }
  lia.
Qed.

(** What the constructor leaves in memory. *)
Lemma ClientPageSpace_new_inv kernel_pml4 s root s' :
  page_aligned kernel_pml4 →
  ClientPageSpace_new kernel_pml4 s = Ok (root, s') →
  page_aligned root ∧ root < 0x400000000000 ∧ frames s = root :: frames s' ∧
  (∀ i, 0 ≤ i < 256 → mem s' (root + 8 * i) = 0) ∧
  (∀ i, 256 ≤ i < 512 →
        present (mem s' (root + 8 * i)) = true ∧
        mem s' (root + 8 * i) = mem s' (kernel_pml4 + 8 * i)) ∧
  (∀ a, ¬ in_frame root a → mem s' a = mem s a).
Proof.
  intros Hk H. unfold ClientPageSpace_new in H.
  apply bind_inv in H. destruct H as (root0 & s1 & Halloc & H).
  apply bind_inv in H. destruct H as (tbl4 & s2 & Hacc & H).
  pose proof (PageAccessor_window _ _ _ _ Hacc) as [Hr Hw].
  apply PageAccessor_transparent in Hacc as [-> ->].
  apply bind_inv in H. destruct H as (u3 & s3 & Hzero & H). injection Hzero as <- <-.
  run_step H. apply bind_inv in H. destruct H as (u4 & s4 & Hshare & H).
  run_prim H. rename root0 into root, s4 into s'.
  unfold allocate in Halloc. destruct (frames s) as [|f rest] eqn:Hfs; [discriminate|].
  injection Halloc as -> <-. cbn [mem frames] in *.
  assert (Hsep : ∀ j k, 0 ≤ j < 512 → 0 ≤ k < 512 →
                        root + 8 * j = kernel_pml4 + 8 * k → j = k).
  { intros j k. apply aligned_words_apart; assumption. }
  assert (H256 : 256 + Z.of_nat 256 ≤ 512) by lia.
  destruct (share_top_half_inv _ _ _ Hsep 256 _ _ _ ltac:(lia) H256 Hshare)
    as (Hfr & Hcopy & Hrest).
  cbn [mem frames] in *.
  assert (Hlow : ∀ i, 0 ≤ i < 256 → mem s' (root + 8 * i) = 0).
  { intros i Hi. rewrite Hrest by (intros j Hj; lia).
    apply zero_words_inside. lia. }
  assert (Hout : ∀ a, ¬ in_frame root a → mem s' a = mem s a).
  { intros a Ha. rewrite Hrest.
    - apply zero_words_outside. intros k Hk' ->. apply Ha, word_in_frame. lia.
    - intros j Hj ->. apply Ha, word_in_frame. lia. }
  split; [exact Hr|]. split; [exact Hw|]. split; [rewrite Hfr; reflexivity|].
  split; [exact Hlow|]. split; [|exact Hout].
  intros i Hi. destruct (Hcopy i ltac:(lia)) as [Hp Hc].
  assert (Hsame : mem s' (kernel_pml4 + 8 * i)
                  = zero_words root 0 256 (mem s) (kernel_pml4 + 8 * i)).
  { destruct (Z.eq_dec root kernel_pml4) as [<-|Hne]; [exact Hc|].
    rewrite Hrest; [reflexivity|]. intros j Hj Heq.
    apply Hne. symmetry.
    apply (frames_meet _ _ (kernel_pml4 + 8 * i));
      [assumption..|apply word_in_frame; lia|].
    rewrite Heq. apply word_in_frame. lia. }
  rewrite Hc, Hsame. auto.
Qed.

(** X11.  The constructor of [ClientPageSpace] takes one frame from the
    allocator for the root table and writes into that frame only; in the
    new space no page of the bottom half (PML4 index below 256) is mapped:
    [isMapped] returns [false] for it. *)
Theorem X11_new_space_bottom_half kernel_pml4 s root s' :
  page_aligned kernel_pml4 →
  ClientPageSpace_new kernel_pml4 s = Ok (root, s') →
  frames s = root :: frames s' ∧
  (∀ a, ¬ in_frame root a → mem s' a = mem s a) ∧
  ∀ v, page_aligned v → index4 v < 256 →
       ClientPageSpace.isMapped root v s' = Ok (false, s').
Proof.
  intros Hk Hnew.
  destruct (ClientPageSpace_new_inv _ _ _ _ Hk Hnew)
    as (Hr & Hw & Hfr & Hlow & _ & Hout).
  split; [exact Hfr|]. split; [exact Hout|].
  intros v Hv Hi.
  assert (He : mem s' (root + 8 * index4 v) = 0).
  { apply Hlow. pose proof (index4_range v). lia. }
  rewrite isMapped_run; [|exact Hv|exact Hr|].
  - unfold leaf_present, leaf_address, indices. simpl. rewrite He. reflexivity.
  - unfold tables_of. simpl. rewrite He. simpl. repeat constructor. exact Hw.
Qed.

Lemma client_created_ok : is_ok (ClientPageSpace_new 0x1000 kernel_half) = true.
Proof. vm_compute. reflexivity. Qed.

Lemma X11_witness :
  ∃ root s', ClientPageSpace_new 0x1000 kernel_half = Ok (root, s') ∧
             frames kernel_half = root :: frames s' ∧
             ClientPageSpace.isMapped root 0x7000 s' = Ok (false, s').
Proof.
  pose proof client_created_ok as Hok.
  destruct (ClientPageSpace_new 0x1000 kernel_half) as [[root s']| | |] eqn:Hrun;
    try discriminate Hok.
  assert (Hk : page_aligned 0x1000) by reflexivity.
  destruct (X11_new_space_bottom_half _ _ _ _ Hk Hrun) as (Hfr & _ & Hlow).
  exists root, s'. split; [reflexivity|]. split; [exact Hfr|].
  apply Hlow; [reflexivity|]. change (index4 0x7000) with 0. lia.
Defined.

(** X12.  In the space that the constructor of [ClientPageSpace] has made,
    the top half (PML4 index 256 and above) is the kernel's: the 256 top
    entries of the new root are present and equal the kernel's, so the walk
    of a top-half address ends at the same leaf PTE from either root. *)
Theorem X12_new_space_shares_top_half kernel_pml4 s root s' :
  page_aligned kernel_pml4 →
  ClientPageSpace_new kernel_pml4 s = Ok (root, s') →
  (∀ i, 256 ≤ i < 512 →
        present (mem s' (root + 8 * i)) = true ∧
        mem s' (root + 8 * i) = mem s' (kernel_pml4 + 8 * i)) ∧
  ∀ v, 256 ≤ index4 v →
       leaf_address (mem s') root v = leaf_address (mem s') kernel_pml4 v ∧
       leaf_present (mem s') root v = leaf_present (mem s') kernel_pml4 v.
Proof.
  intros Hk Hnew.
  destruct (ClientPageSpace_new_inv _ _ _ _ Hk Hnew) as (_ & _ & _ & _ & Htop & _).
  split; [exact Htop|]. intros v Hi.
  assert (He : mem s' (root + 8 * index4 v) = mem s' (kernel_pml4 + 8 * index4 v)).
  { apply Htop. pose proof (index4_range v). lia. }
  assert (Hl : leaf_address (mem s') root v = leaf_address (mem s') kernel_pml4 v).
  { unfold leaf_address, indices. rewrite !walk_cons, He. reflexivity. }
  split; [exact Hl|]. unfold leaf_present. rewrite Hl. reflexivity.
Qed.

Lemma X12_witness :
  ∃ root s', ClientPageSpace_new 0x1000 kernel_half = Ok (root, s') ∧
             leaf_address (mem s') root kernel_half_base
             = leaf_address (mem s') 0x1000 kernel_half_base.
Proof.
  pose proof client_created_ok as Hok.
  destruct (ClientPageSpace_new 0x1000 kernel_half) as [[root s']| | |] eqn:Hrun;
    try discriminate Hok.
  assert (Hk : page_aligned 0x1000) by reflexivity.
  destruct (X12_new_space_shares_top_half _ _ _ _ Hk Hrun) as [_ Hshared].
  exists root, s'. split; [reflexivity|].
  apply Hshared. change (index4 kernel_half_base) with 256. lia.
Defined.

(** Writes into a frame that is not a table of a walk leave the walk's tables
    as they are. *)
Lemma walk_tables_outside m m' f idxs :
  page_aligned f → Forall (λ i, 0 ≤ i < 512) idxs →
  (∀ a, ¬ in_frame f a → m' a = m a) →
  ∀ tbl, page_aligned tbl → f ∉ walk_tables m tbl idxs →
         walk_tables m' tbl idxs = walk_tables m tbl idxs.
Proof.
  intros Hf Hidx Hout. induction Hidx as [|i rest Hi _ IH]; intros tbl Ht Hnot;
    [reflexivity|].
  cbn [walk_tables] in *.
  assert (Hne : f ≠ tbl) by (intros ->; apply Hnot, list_elem_of_here).
  assert (He : m' (tbl + 8 * i) = m (tbl + 8 * i)).
  { apply Hout. intros Hin. apply Hne.
    exact (frames_meet _ _ _ Hf Ht Hin (word_in_frame tbl i Hi)). }
  rewrite He. f_equal.
  destruct (present (m (tbl + 8 * i))); [|reflexivity].
  apply IH; [apply land_mask_aligned|].
  intros Hin. apply Hnot. apply list_elem_of_further. exact Hin.
Qed.

(** The allocator is as fresh for the kernel's walk after the constructor
    as it was before. *)
Lemma fresh_frames_after_new kernel_pml4 s root s' v :
  fresh_frames s kernel_pml4 v →
  ClientPageSpace_new kernel_pml4 s = Ok (root, s') →
  fresh_frames s' kernel_pml4 v ∧ root ∉ frames s'.
Proof.
  intros (Hk & Hnd & Hok & Hfresh) Hnew.
  destruct (ClientPageSpace_new_inv _ _ _ _ Hk Hnew)
    as (Hr & _ & Hfr & _ & _ & Hout).
  rewrite Hfr in Hnd, Hok, Hfresh.
  apply NoDup_cons in Hnd as [Hnotin Hnd].
  apply Forall_cons in Hok as [_ Hok].
  apply Forall_cons in Hfresh as [Hroot Hfresh].
  split; [|exact Hnotin].
  split; [exact Hk|]. split; [exact Hnd|]. split; [exact Hok|].
  unfold tables_of in *.
  rewrite (walk_tables_outside (mem s) (mem s') root _ Hr); [exact Hfresh| |exact Hout
    |exact Hk|exact Hroot].
  repeat constructor; apply index_range.
Qed.

(** X13.  A mapping that the kernel makes in the top half after a client
    space has been constructed is a mapping of the client space too: the
    walk of [v] from the client's root ends at the leaf PTE that
    [KernelPageSpace::mapSingle4k] has written. *)
Theorem X13_kernel_mappings_are_shared kernel_pml4 s root s1 v p flags c u s2 :
  fresh_frames s kernel_pml4 v →
  ClientPageSpace_new kernel_pml4 s = Ok (root, s1) →
  256 ≤ index4 v →
  KernelPageSpace.mapSingle4k kernel_pml4 v p flags c s1 = Ok (u, s2) →
  ∃ a, leaf_address (mem s2) kernel_pml4 v = Some a ∧
       leaf_address (mem s2) root v = Some a ∧
       mem s2 a = kernel_leaf p flags c.
Proof.
  intros Hfresh Hnew Hi Hmap.
  destruct (fresh_frames_after_new _ _ _ _ _ Hfresh Hnew) as [Hfresh1 Hnotin].
  pose proof Hfresh as (Hk & _).
  destruct (ClientPageSpace_new_inv _ _ _ _ Hk Hnew) as (Hr & _ & _ & _ & Htop & _).
  pose proof (index4_range v) as Hi4.
  destruct (Htop (index4 v) ltac:(lia)) as [Hp He].
  pose proof Hfresh1 as (_ & _ & Hok1 & Hnot1).
  assert (Hkout : kernel_pml4 ∉ frames s1).
  { intros Hin. rewrite Forall_forall in Hnot1. apply (Hnot1 _ Hin).
    unfold tables_of. apply walk_tables_head. }
  pose proof (kernel_map_keeps _ _ _ _ _ _ _ _ Hfresh1 Hmap) as Hkeep.
  assert (E1 : mem s2 (root + 8 * index4 v) = mem s1 (root + 8 * index4 v)).
  { apply Hkeep; [exact Hp|]. apply table_word_outside; assumption. }
  assert (E2 : mem s2 (kernel_pml4 + 8 * index4 v) = mem s1 (kernel_pml4 + 8 * index4 v)).
  { apply Hkeep; [rewrite <- He; exact Hp|]. apply table_word_outside; assumption. }
  destruct (kernel_map_mapped _ _ _ _ _ _ _ _ Hfresh1 Hmap)
    as (_ & _ & _ & t3 & t2 & t1 & e4 & e3 & e2 & Hm & _).
  destruct (mapped_leaf_address _ _ _ _ _ _ _ _ _ _ _ _ _ Hm) as [Hleaf _].
  exists (t1 + 8 * index1 v). split; [exact Hleaf|].
  split; [|exact (mapped_leaf _ _ _ _ _ _ _ _ _ _ _ _ _ _ _ _ Hm)].
  rewrite <- Hleaf. unfold leaf_address, indices.
  rewrite !walk_cons, E1, E2, He. reflexivity.
Qed.

Lemma kernel_half_fresh : fresh_frames kernel_half 0x1000 kernel_half_base.
Proof.
  assert (Ht : tables_of (mem kernel_half) 0x1000 kernel_half_base = [0x1000; 0x10000])
    by (vm_compute; reflexivity).
  split; [reflexivity|]. split; [by_evaluation|].
  split.
  { repeat constructor; (reflexivity || lia). }
  rewrite Ht. repeat constructor; by_evaluation.
Qed.

Lemma shared_map_ok :
  is_ok (KernelPageSpace.mapSingle4k 0x1000 kernel_half_base 0x5000 page_access.write
           CachingMode.null client_created) = true.
Proof. vm_compute. reflexivity. Qed.

Lemma X13_witness :
  ∃ root s2 a,
    ClientPageSpace_new 0x1000 kernel_half = Ok (root, client_created) ∧
    KernelPageSpace.mapSingle4k 0x1000 kernel_half_base 0x5000 page_access.write
      CachingMode.null client_created = Ok (tt, s2) ∧
    leaf_address (mem s2) 0x1000 kernel_half_base = Some a ∧
    leaf_address (mem s2) root kernel_half_base = Some a.
Proof.
  assert (Hnew : ∃ root, ClientPageSpace_new 0x1000 kernel_half
                         = Ok (root, client_created))
    by exact (run_any _ kernel_half client_created_ok).
  destruct Hnew as [root Hnew].
  pose proof (run_unit _ client_created shared_map_ok) as Hmap.
  assert (Hi : 256 ≤ index4 kernel_half_base) by (change (256 ≤ 256); lia).
  destruct (X13_kernel_mappings_are_shared _ _ _ _ _ _ _ _ _ _
              kernel_half_fresh Hnew Hi Hmap) as (a & Hk & Hc & _).
  eexists root, _, a. split; [exact Hnew|]. split; [exact Hmap|].
  split; [exact Hk|exact Hc].
Defined.

(* ===================================================================== *)
(** ** What a call of the bookkeeping leaves behind *)
(* ===================================================================== *)

Lemma invalidations_only {A} (f : A → Event) (l : list A) :
  (∀ a, is_invalidation (f a) = true) → forallb is_invalidation (map f l) = true.
Proof.
  intros Hf. induction l as [|a l IH]; [reflexivity|].
  cbn [map forallb]. rewrite Hf, IH. reflexivity.
Qed.

(** The scan of [shootdown] treats the queue as the scan of [rebind] does;
    besides, it only invalidates TLB entries. *)
Lemma shootdown_scan_spec hp pcid already rq :
  ∀ complete s r s',
    PageBinding.shootdown_scan hp pcid already rq complete s = Ok (r, s') →
    r = PageBinding.rebind_scan already rq complete ∧
    cpu s' = cpu s ∧ spaces s' = spaces s ∧
    ∃ es, events s' = events s ++ es ∧ forallb is_invalidation es = true.
Proof.
  induction rq as [|current preds IH]; intros complete s r s' H.
  - bk_prim H. repeat split. exists []. rewrite app_nil_r. auto.
  - cbn [PageBinding.shootdown_scan PageBinding.rebind_scan] in *.
    destruct (ShootNode._sequence current >? already);
      [|bk_prim H; repeat split; exists []; rewrite app_nil_r; auto].
    bk_step H. bk_step H. bind_as H u3 s3 Hinv.
    assert (Hs3 : cpu s3 = cpu s ∧ spaces s3 = spaces s ∧
                  ∃ es, events s3 = events s ++ es ∧ forallb is_invalidation es = true).
    { destruct hp; cbn [negb] in Hinv.
      - apply emit_all_inv in Hinv. subst s3. cbn. repeat split.
        eexists. split; [reflexivity|].
        apply invalidations_only. reflexivity.
      - bk_step Hinv. apply emit_all_inv in Hinv. subst s3. cbn. repeat split.
        eexists. split; [reflexivity|].
        apply invalidations_only. reflexivity. }
    destruct Hs3 as (Hc3 & Hsp3 & es3 & He3 & Hf3).
    assert (Hjoin : ∀ s4 es4, events s4 = events s3 ++ es4 →
                              forallb is_invalidation es4 = true →
                              ∃ es, events s4 = events s ++ es ∧
                                    forallb is_invalidation es = true).
    { intros s4 es4 He4 Hf4. exists (es3 ++ es4).
      rewrite He4, He3, app_assoc. split; [reflexivity|].
      rewrite forallb_app, Hf3, Hf4. reflexivity. }
    destruct (ShootNode._bindingsToShoot current =? 1).
    + destruct (IH _ _ _ _ H) as (-> & Hc & Hsp & es & He & Hf).
      split; [reflexivity|]. split; [congruence|]. split; [congruence|]. eauto.
    + bind_as H r0 s4 Hrec. bk_prim H.
      destruct (IH _ _ _ _ Hrec) as (-> & Hc & Hsp & es & He & Hf).
      split.
      { destruct (PageBinding.rebind_scan already preds complete); reflexivity. }
      split; [congruence|]. split; [congruence|]. eauto.
Qed.

(** [makePrimary]: its assertions, and what it writes to CR3. *)
Lemma makePrimary_spec this s u s' :
  PageBinding.makePrimary this s = Ok (u, s') →
  let c := cpu s in
  let b := pcidBindings c this in
  intsEnabled c = false ∧
  havePcids c || (_pcid b =? 0) = true ∧
  spaces s' = spaces s ∧
  cpu s' =
    mkCpuData (havePcids c) (intsEnabled c)
      (mkPageContext ((_nextStamp (pageContext c) + 1) mod 2 ^ 64) (Some this))
      (<[this := mkPageBinding (_pcid b) (_boundSpace b) false
                   (_nextStamp (pageContext c)) (_alreadyShotSequence b)]>
         (pcidBindings c)) ∧
  if _wasRebound b || negb (bool_decide (_primaryBinding (pageContext c) = Some this))
  then ∃ sp v, upgrade (spaces s) (_boundSpace b) = Some sp ∧ spaces s !! sp = Some v ∧
               events s' = events s ++ [EvWriteCr3 (cr3_value (havePcids c) (_rootTable v)
                                                      (_pcid b))]
  else events s' = events s.
Proof.
  intros H. pose proof (makePrimary_inv _ _ _ _ H) as (Hints & Hsp & Hcpu).
  cbv zeta in *. split; [exact Hints|].
  unfold PageBinding.makePrimary in H.
  do 4 bk_step H. bind_as H u1 s1 Hcr3.
  bk_step H. bk_prim H. cbn [events].
  split; [exact Hm0|]. split; [exact Hsp|]. split; [exact Hcpu|].
  destruct (_wasRebound (pcidBindings (cpu s) this)
            || negb (bool_decide (_primaryBinding (pageContext (cpu s)) = Some this))).
  - bk_step Hcr3.
    destruct (upgrade (spaces s) (_boundSpace (pcidBindings (cpu s) this))) as [sp|];
      [|apply assert_inv in Hcr3 as [Hf _]; discriminate].
    bind_as Hcr3 v s2 Hd. apply deref_inv in Hd as [Hv ->]. bk_prim Hcr3.
    exists sp, v. cbn. auto.
  - bk_prim Hcr3. reflexivity.
Qed.

(** [rebind]: it returns at once if the binding is bound to the space;
    otherwise it leaves the old space, if that is alive, completes what this
    completes, and joins the new one. *)
Lemma rebind_spec this space s u s' :
  PageBinding.rebind this space s = Ok (u, s') →
  let c := cpu s in
  let b := pcidBindings c this in
  intsEnabled c = false ∧
  (upgrade (spaces s) (_boundSpace b) = Some space ∧ s' = s ∨
   upgrade (spaces s) (_boundSpace b) ≠ Some space ∧
   ∃ mid done sp,
     match upgrade (spaces s) (_boundSpace b) with
     | Some old =>
         ∃ v, spaces s !! old = Some v ∧
              mid = <[old := left_space (_alreadyShotSequence b) v]> (spaces s) ∧
              done = [EvAcquire old; EvRelease old]
                     ++ callbacks (left_complete (_alreadyShotSequence b) v)
     | None => mid = spaces s ∧ done = []
     end ∧
     mid !! space = Some sp ∧
     spaces s' = <[space := joined_space sp]> mid ∧
     havePcids (cpu s') = havePcids c ∧ intsEnabled (cpu s') = intsEnabled c ∧
     pageContext (cpu s') = pageContext c ∧
     (∀ i, pcidBindings (cpu s') i =
           (<[this := mkPageBinding (_pcid b) (Some space) true (_primaryStamp b)
                        (_shootSequence sp)]> (pcidBindings c)) i) ∧
     events s' =
       events s ++ (if havePcids c then [EvInvalidatePcid (_pcid b)] else [])
       ++ done ++ [EvAcquire space; EvRelease space]).
Proof.
  intros H. cbv zeta. unfold PageBinding.rebind in H.
  do 4 bk_step H. apply negb_true_iff in Hm. split; [exact Hm|].
  set (b := pcidBindings (cpu s) this) in *.
  destruct (bool_decide (upgrade (spaces s) (_boundSpace b) = Some space)) eqn:Hb.
  { bk_prim H. apply bool_decide_eq_true in Hb. auto. }
  apply bool_decide_eq_false in Hb. right. split; [exact Hb|].
  bind_as H u0 s0 Hinv.
  assert (Hs0 : s0 = mkState (cpu s) (spaces s)
                       (events s ++ (if havePcids (cpu s)
                                     then [EvInvalidatePcid (_pcid b)] else []))).
  { destruct (havePcids (cpu s)); bk_prim Hinv; [reflexivity|].
    rewrite app_nil_r. destruct s; reflexivity. }
  clear Hinv. subst s0.
  bind_as H u1 s1 Hput. bk_prim Hput.
  bind_as H complete s2 Hleave.
  bind_as H u3 s3 Hrun. apply run_complete_inv in Hrun. subst s3.
  bind_as H u4 s4 Hacq. bk_prim Hacq.
  bind_as H sp s5 Hd. apply deref_inv in Hd as [Hsp ->]. cbn [spaces] in Hsp.
  bind_as H u6 s6 Hput. bk_prim Hput.
  bind_as H u7 s7 Hrel. bk_prim Hrel. bk_prim H. cbn.
  destruct (upgrade (spaces s) (_boundSpace b)) as [old|].
  - bind_as Hleave u8 s8 Hacq. bk_prim Hacq.
    bind_as Hleave v s9 Hd. apply deref_inv in Hd as [Hv ->]. cbn [spaces] in Hv.
    destruct (PageBinding.rebind_scan (_alreadyShotSequence b) (rev (_shootQueue v)) [])
      as [rq done] eqn:Hscan.
    bind_as Hleave u9 s10 Hput. bk_prim Hput.
    bind_as Hleave u10 s11 Hrel. bk_prim Hrel. bk_prim Hleave.
    cbn in *. eexists _, _, sp. split.
    { exists v. unfold left_space, left_complete. rewrite Hscan. cbn. eauto. }
    split; [exact Hsp|]. split; [reflexivity|].
    do 3 (split; [reflexivity|]).
    split; [|rewrite <- !app_assoc; reflexivity].
    intros i. destruct (decide (i = this)) as [->|Hne].
    + rewrite !fn_lookup_insert. reflexivity.
    + rewrite !fn_lookup_insert_ne by congruence. reflexivity.
  - bk_prim Hleave. cbn in *. eexists _, _, sp. split; [eauto|].
    split; [exact Hsp|]. split; [reflexivity|].
    do 3 (split; [reflexivity|]).
    split; [|rewrite <- !app_assoc; reflexivity].
    intros i. destruct (decide (i = this)) as [->|Hne].
    + rewrite !fn_lookup_insert. reflexivity.
    + rewrite !fn_lookup_insert_ne by congruence. reflexivity.
Qed.

(** [shootdown]: a binding to a dead space is cleared; a binding to a live
    space scans the queue of the space under its mutex, and calls the
    callbacks of the nodes that this completes after it has released it. *)
Lemma shootdown_spec this s u s' :
  PageBinding.shootdown this s = Ok (u, s') →
  let c := cpu s in
  let b := pcidBindings c this in
  intsEnabled c = false ∧
  havePcids (cpu s') = havePcids c ∧ intsEnabled (cpu s') = intsEnabled c ∧
  pageContext (cpu s') = pageContext c ∧
  match upgrade (spaces s) (_boundSpace b) with
  | None =>
      spaces s' = spaces s ∧
      match _boundSpace b with
      | Some _ =>
          (∀ i, pcidBindings (cpu s') i =
                (<[this := mkPageBinding (_pcid b) None (_wasRebound b) (_primaryStamp b)
                             (_alreadyShotSequence b)]> (pcidBindings c)) i) ∧
          events s' = events s ++ [EvInvalidatePcid (_pcid b)]
      | None =>
          (∀ i, pcidBindings (cpu s') i = pcidBindings c i) ∧ events s' = events s
      end
  | Some sp =>
      ∃ v, spaces s !! sp = Some v ∧
        match rev (_shootQueue v) with
        | [] =>
            spaces s' = spaces s ∧
            (∀ i, pcidBindings (cpu s') i = pcidBindings c i) ∧
            events s' = events s ++ [EvAcquire sp; EvRelease sp]
        | back :: _ =>
            spaces s' = <[sp := shot_space (_alreadyShotSequence b) v]> (spaces s) ∧
            (∀ i, pcidBindings (cpu s') i =
                  (<[this := mkPageBinding (_pcid b) (_boundSpace b) (_wasRebound b)
                               (_primaryStamp b) (ShootNode._sequence back)]>
                     (pcidBindings c)) i) ∧
            ∃ tlb, forallb is_invalidation tlb = true ∧
                   events s' =
                     events s ++ [EvAcquire sp] ++ tlb ++ [EvRelease sp]
                     ++ callbacks (left_complete (_alreadyShotSequence b) v)
        end
  end.
Proof.
  intros H. cbv zeta. unfold PageBinding.shootdown in H.
  do 4 bk_step H. apply negb_true_iff in Hm. split; [exact Hm|].
  set (b := pcidBindings (cpu s) this) in *.
  destruct (upgrade (spaces s) (_boundSpace b)) as [sp|].
  - bind_as H u0 s0 Hacq. bk_prim Hacq.
    bind_as H v s1 Hd. apply deref_inv in Hd as [Hv ->]. cbn [spaces] in Hv.
    unfold shot_space, left_complete.
    destruct (rev (_shootQueue v)) as [|back rest] eqn:Hrev.
    + bk_prim H. cbn. do 3 (split; [reflexivity|]). exists v. split; [exact Hv|].
      rewrite Hrev, <- app_assoc. auto.
    + bind_as H r s2 Hscan.
      apply shootdown_scan_spec in Hscan as (-> & Hc2 & Hsp2 & tlb & He2 & Htlb).
      cbn [cpu spaces events] in Hc2, Hsp2, He2.
      bind_as H u3 s3 Hput. bk_prim Hput.
      bind_as H u4 s4 Hrel. bk_prim Hrel.
      bind_as H u5 s5 Hrun. apply run_complete_inv in Hrun. subst s5.
      bk_prim H. cbn. rewrite Hc2, Hsp2, He2.
      do 3 (split; [reflexivity|]). exists v. split; [exact Hv|].
      rewrite Hrev. split; [reflexivity|]. split; [reflexivity|].
      exists tlb. split; [exact Htlb|]. unfold callbacks.
      rewrite <- !app_assoc. reflexivity.
  - destruct (_boundSpace b) as [dead|].
    + bind_as H u0 s0 Hinv. bk_prim Hinv. bk_prim H. cbn. repeat split; reflexivity.
    + bk_prim H. repeat split; reflexivity.
Qed.

(** [submitShootdown]: without bindings the callback is called at once;
    otherwise the node gets the next sequence number and the number of
    bindings, goes to the back of the queue, and the IPI is sent. *)
Lemma submitShootdown_spec this node s node' s' :
  PageSpace.submitShootdown this node s = Ok (node', s') →
  ∃ sp, spaces s !! this = Some sp ∧ cpu s' = cpu s ∧
    if _numBindings sp =? 0 then
      node' = node ∧ spaces s' = spaces s ∧
      events s' = events s ++ [EvAcquire this; EvRelease this;
                               EvShotDown (ShootNode.id node)]
    else
      node' = ShootNode.mk (ShootNode.id node) (ShootNode.address node)
                (ShootNode.size node) (_shootSequence sp) (_numBindings sp) ∧
      spaces s' =
        <[this := mkPageSpace (_rootTable sp) (_numBindings sp)
                    ((_shootSequence sp + 1) mod 2 ^ 64) (_shootQueue sp ++ [node'])]>
          (spaces s) ∧
      events s' = events s ++ [EvAcquire this; EvRelease this; EvShootdownIpi].
Proof.
  intros H. unfold PageSpace.submitShootdown in H.
  bind_as H u0 s0 Hacq. bk_prim Hacq.
  bind_as H sp s1 Hd. apply deref_inv in Hd as [Hsp ->]. cbn [spaces] in Hsp.
  exists sp. split; [exact Hsp|].
  bind_as H n1 s2 Hput.
  destruct (_numBindings sp =? 0); cbn [negb] in *.
  - bk_prim Hput. bind_as H u1 s3 Hrel. bk_prim Hrel.
    bind_as H u2 s4 Hcb. bk_prim Hcb. bk_prim H. cbn.
    rewrite <- !app_assoc. auto.
  - bind_as Hput u1 s3 Hp. bk_prim Hp. bk_prim Hput.
    bind_as H u2 s4 Hrel. bk_prim Hrel.
    bind_as H u3 s5 Hipi. bk_prim Hipi. bk_prim H. cbn.
    rewrite <- !app_assoc. auto.
Qed.

(* ===================================================================== *)
(** ** Activating the space that is active *)
(* ===================================================================== *)

Lemma upgrade_insert (alive : gmap nat PageSpace) k v w :
  is_Some (alive !! k) → upgrade (<[k := v]> alive) w = upgrade alive w.
Proof.
  intros [v0 Hk]. destruct w as [sp|]; [|reflexivity]. cbn.
  destruct (decide (sp = k)) as [->|Hne].
  - rewrite lookup_insert_eq, Hk. reflexivity.
  - rewrite lookup_insert_ne by congruence. reflexivity.
Qed.

(** [rebind] destroys no space and creates none. *)
Lemma rebind_upgrade this space s u s' :
  PageBinding.rebind this space s = Ok (u, s') →
  ∀ w, upgrade (spaces s') w = upgrade (spaces s) w.
Proof.
  intros H w. destruct (rebind_spec _ _ _ _ _ H) as [_ Hcases]. cbv zeta in Hcases.
  destruct Hcases as [[_ ->]|(_ & mid & done & sp & Hold & Hsp & -> & _)]; [reflexivity|].
  rewrite upgrade_insert by eauto.
  destruct (upgrade (spaces s) _) as [old|].
  - destruct Hold as (v & Hv & -> & _). apply upgrade_insert. eauto.
  - destruct Hold as [-> _]. reflexivity.
Qed.

Section activate_loop_again.
Variable c : CpuData.
Variable alive : gmap nat PageSpace.
Variable space : nat.

(** The loop keeps the first binding that is bound to the space. *)
Lemma loop_first p :
  bound_to c alive p space →
  ∀ n i k, (i ≤ p < i + n)%nat → havePcids c = true ∨ p = i →
    (∀ j, (i ≤ j < p)%nat → ¬ bound_to c alive j space) →
    PageSpace.activate_loop c alive space n i k = PageSpace.Keep p.
Proof.
  intros Hp. induction n as [|n IH]; intros i k Hi Hpc Hnone; [lia|].
  cbn [PageSpace.activate_loop]. cbv zeta.
  destruct (bool_decide (upgrade alive (_boundSpace (pcidBindings c i)) = Some space))
    eqn:Hb.
  - apply bool_decide_eq_true in Hb.
    destruct (decide (p = i)) as [->|Hne]; [reflexivity|].
    destruct (Hnone i ltac:(lia) Hb).
  - apply bool_decide_eq_false in Hb.
    assert (Hne : p ≠ i) by (intros ->; exact (Hb Hp)).
    destruct Hpc as [Hpc|Hpc]; [|contradiction].
    rewrite Hpc. cbn [negb].
    apply IH; [lia|left; exact Hpc|]. intros j Hj. apply Hnone. lia.
Qed.

(** When the loop ends with a binding to rebind, it has seen no binding
    that is bound to the space. *)
Lemma loop_rebind_none :
  ∀ n i k k',
    PageSpace.activate_loop c alive space n i k = PageSpace.Rebind k' →
    havePcids c = true →
    ∀ j, (i ≤ j < i + n)%nat → ¬ bound_to c alive j space.
Proof.
  induction n as [|n IH]; intros i k k' Hl Hpc j Hj; [lia|].
  cbn [PageSpace.activate_loop] in Hl. cbv zeta in Hl.
  destruct (bool_decide (upgrade alive (_boundSpace (pcidBindings c i)) = Some space))
    eqn:Hb; [discriminate|].
  apply bool_decide_eq_false in Hb.
  rewrite Hpc in Hl. cbn [negb] in Hl.
  destruct (decide (j = i)) as [->|Hne]; [exact Hb|].
  apply (IH _ _ _ Hl Hpc). lia.
Qed.
End activate_loop_again.

(** [makePrimary] on the primary binding, if it was not rebound, has no
    effect outside of the CPU's data. *)
Lemma makePrimary_warm this s :
  intsEnabled (cpu s) = false →
  havePcids (cpu s) || (_pcid (pcidBindings (cpu s) this) =? 0) = true →
  _wasRebound (pcidBindings (cpu s) this) = false →
  _primaryBinding (pageContext (cpu s)) = Some this →
  ∃ s', PageBinding.makePrimary this s = Ok (tt, s') ∧
        events s' = events s ∧ spaces s' = spaces s ∧
        ∀ i, _boundSpace (pcidBindings (cpu s') i) = _boundSpace (pcidBindings (cpu s) i).
Proof.
  intros Hints Hpcid Hreb Hprim.
  unfold PageBinding.makePrimary, bind, getCpuData, assert, binding, put_binding,
    put_context, ret.
  rewrite Hints. cbn [negb]. rewrite Hpcid, Hreb, bool_decide_eq_true_2 by exact Hprim.
  cbn. eexists. split; [reflexivity|]. cbn. split; [reflexivity|]. split; [reflexivity|].
  intros i. destruct (decide (i = this)) as [->|Hne].
  - rewrite fn_lookup_insert. reflexivity.
  - rewrite fn_lookup_insert_ne by congruence. reflexivity.
Qed.

Lemma loop_keep_first c alive space :
  ∀ n i k j,
    PageSpace.activate_loop c alive space n i k = PageSpace.Keep j →
    (havePcids c = true ∨ j = i) ∧
    ∀ j', (i ≤ j' < j)%nat → ¬ bound_to c alive j' space.
Proof.
  induction n as [|n IH]; intros i k j Hl; [discriminate|].
  cbn [PageSpace.activate_loop] in Hl. cbv zeta in Hl.
  destruct (bool_decide (upgrade alive (_boundSpace (pcidBindings c i)) = Some space))
    eqn:Hb.
  - injection Hl as <-. split; [auto|]. intros j' Hj'. lia.
  - apply bool_decide_eq_false in Hb.
    destruct (havePcids c) eqn:Hpc; cbn [negb] in Hl; [|discriminate].
    destruct (IH _ _ _ Hl) as [_ Hnone]. split; [auto|].
    intros j' Hj'. destruct (decide (j' = i)) as [->|Hne]; [exact Hb|].
    apply Hnone. lia.
Qed.

(** What holds of the binding that [makePrimary] has made primary. *)
Lemma makePrimary_after this s u s' :
  PageBinding.makePrimary this s = Ok (u, s') →
  intsEnabled (cpu s') = false ∧
  havePcids (cpu s') || (_pcid (pcidBindings (cpu s') this) =? 0) = true ∧
  _wasRebound (pcidBindings (cpu s') this) = false ∧
  _primaryBinding (pageContext (cpu s')) = Some this ∧
  havePcids (cpu s') = havePcids (cpu s) ∧
  spaces s' = spaces s ∧
  ∀ i, _boundSpace (pcidBindings (cpu s') i) = _boundSpace (pcidBindings (cpu s) i).
Proof.
  intros H. destruct (makePrimary_spec _ _ _ _ H) as (Hints & Hpcid & Hsp & Hcpu & _).
  cbv zeta in *. rewrite Hcpu. cbn. rewrite fn_lookup_insert. cbn.
  repeat split; try assumption.
  intros i. destruct (decide (i = this)) as [->|Hne].
  - rewrite fn_lookup_insert. reflexivity.
  - rewrite fn_lookup_insert_ne by congruence. reflexivity.
Qed.

(** X14.  Activating a space a second time, right after [activate] has
    returned for it, is free: the second [activate] returns, writes nothing
    to CR3, invalidates nothing, takes no mutex, changes no space and no
    binding's space; only the LRU stamp advances. *)
Theorem X14_activate_again_is_free space s u s1 :
  PageSpace.activate space s = Ok (u, s1) →
  ∃ s2, PageSpace.activate space s1 = Ok (tt, s2) ∧
        events s2 = events s1 ∧ spaces s2 = spaces s1 ∧
        ∀ i, _boundSpace (pcidBindings (cpu s2) i) = _boundSpace (pcidBindings (cpu s1) i).
Proof.
  intros H. unfold PageSpace.activate in H.
  assert (Hgoal : ∃ p, PageSpace.activate_loop (cpu s1) (spaces s1) space maxPcidCount 0 0
                       = PageSpace.Keep p ∧
                       intsEnabled (cpu s1) = false ∧
                       havePcids (cpu s1) || (_pcid (pcidBindings (cpu s1) p) =? 0) = true ∧
                       _wasRebound (pcidBindings (cpu s1) p) = false ∧
                       _primaryBinding (pageContext (cpu s1)) = Some p).
  { pose proof (loop_result (cpu s) (spaces s) space maxPcidCount 0 0) as Hres.
    destruct (PageSpace.activate_loop (cpu s) (spaces s) space maxPcidCount 0 0)
      as [j|k] eqn:Hloop.
    - destruct (makePrimary_after _ _ _ _ H) as (F1 & F2 & F3 & F4 & Hhp & Hsp & Hbs).
      destruct Hres as [Hj Hbound].
      destruct (loop_keep_first _ _ _ _ _ _ _ Hloop) as [Hpc Hnone].
      exists j. split; [|auto].
      apply loop_first.
      + unfold bound_to in *. rewrite Hsp, Hbs. exact Hbound.
      + lia.
      + rewrite Hhp. exact Hpc.
      + intros j' Hj' Hb'. apply (Hnone j' Hj').
        unfold bound_to in *. rewrite Hsp, Hbs in Hb'. exact Hb'.
    - bind_as H u0 s0 Hreb.
      destruct (makePrimary_after _ _ _ _ H) as (F1 & F2 & F3 & F4 & Hhp & Hsp & Hbs).
      pose proof (rebind_upgrade _ _ _ _ _ Hreb) as Hup.
      destruct (rebind_inv _ _ _ _ _ Hreb) as (_ & Hhp0 & _ & _ & Hother & _ & _ & Hbound).
      exists k. split; [|auto].
      apply loop_first.
      + unfold bound_to. rewrite Hsp, Hbs. exact Hbound.
      + unfold maxPcidCount in *. lia.
      + rewrite Hhp, Hhp0. destruct (havePcids (cpu s)) eqn:Hpc; [auto|].
        right. unfold maxPcidCount in Hloop.
        rewrite loop_without_pcids in Hloop by exact Hpc.
        destruct (bool_decide _); [discriminate|]. injection Hloop as <-. reflexivity.
      + intros j' Hj' Hb'.
        destruct (havePcids (cpu s)) eqn:Hpc.
        * apply (loop_rebind_none _ _ _ _ _ _ _ Hloop Hpc j');
            [unfold maxPcidCount in *; lia|].
          unfold bound_to in *.
          rewrite Hsp, Hbs, Hup, Hother in Hb' by lia. exact Hb'.
        * unfold maxPcidCount in Hloop.
          rewrite loop_without_pcids in Hloop by exact Hpc.
          destruct (bool_decide _); [discriminate|]. injection Hloop as <-. lia. }
  destruct Hgoal as (p & Hloop & F1 & F2 & F3 & F4).
  unfold PageSpace.activate. rewrite Hloop.
  apply makePrimary_warm; assumption.
Qed.

Lemma X14_witness :
  ∃ s1 s2, PageSpace.activate 1 fresh_cpu_state = Ok (tt, s1) ∧
           PageSpace.activate 1 s1 = Ok (tt, s2) ∧ events s2 = events s1.
Proof.
  pose proof fresh_cpu_activate_ok as Hok.
  destruct (PageSpace.activate 1 fresh_cpu_state) as [[[] s1]| | |] eqn:Hrun;
    try discriminate Hok.
  destruct (X14_activate_again_is_free _ _ _ _ Hrun) as (s2 & Hagain & Hev & _).
  exists s1, s2. auto.
Defined.

(* ===================================================================== *)
(** ** Counting the bindings of a space *)
(* ===================================================================== *)

Lemma sum_cons (x : nat) (l : list nat) : sum_list (x :: l) = (x + sum_list l)%nat.
Proof. reflexivity. Qed.

Lemma filter_length_sum {A B} (P : B → Prop) `{∀ x, Decision (P x)} (f : A → B)
    (l : list A) :
  length (filter P (map f l))
  = sum_list (map (λ a, if decide (P (f a)) then 1%nat else 0%nat) l).
Proof.
  induction l as [|a l IH]; [reflexivity|].
  cbn [map]. rewrite !sum_cons. rewrite filter_cons.
  destruct (decide (P (f a))); cbn [length]; rewrite IH; reflexivity.
Qed.

Lemma sum_list_ext {A} (g g' : A → nat) (l : list A) :
  (∀ a, a ∈ l → g' a = g a) → sum_list (map g' l) = sum_list (map g l).
Proof.
  induction l as [|a l IH]; intros Hg; [reflexivity|].
  cbn [map]. rewrite !sum_cons. rewrite Hg by apply list_elem_of_here.
  rewrite IH; [reflexivity|]. intros b Hb. apply Hg. apply list_elem_of_further. exact Hb.
Qed.

(** A sum in which one summand changes. *)
Lemma sum_list_change {A} (g g' : A → nat) (l : list A) (k : A) :
  NoDup l → k ∈ l → (∀ a, a ∈ l → a ≠ k → g' a = g a) →
  (sum_list (map g' l) + g k = sum_list (map g l) + g' k)%nat.
Proof.
  induction l as [|a l IH]; intros Hnd Hk Hg; [inversion Hk|].
  apply NoDup_cons in Hnd as [Hnotin Hnd].
  cbn [map]. rewrite !sum_cons.
  destruct (elem_of_cons l k a) as [Hcases _]. destruct (Hcases Hk) as [->|Hin].
  - rewrite (sum_list_ext g g' l); [lia|].
    intros b Hb. apply Hg; [apply list_elem_of_further; exact Hb|].
    intros ->. contradiction.
  - rewrite (Hg a) by (apply list_elem_of_here || (intros ->; contradiction)).
    specialize (IH Hnd Hin). 
    assert (Hrest : ∀ b, b ∈ l → b ≠ k → g' b = g b).
    { intros b Hb Hne. apply Hg; [apply list_elem_of_further; exact Hb|exact Hne]. }
    specialize (IH Hrest). lia.
Qed.

Lemma sum_list_insert {A} (g : A → nat) (l : list A) (c : nat) (x y : A) :
  l !! c = Some x →
  (sum_list (map g (<[c := y]> l)) + g x = sum_list (map g l) + g y)%nat.
Proof.
  revert c. induction l as [|a l IH]; intros c Hc; [discriminate|].
  destruct c as [|c]; simpl in Hc; simpl insert; cbn [map]; rewrite !sum_cons.
  - injection Hc as ->. lia.
  - specialize (IH c Hc). lia.
Qed.

Lemma count_cpu_sum c sp :
  count_cpu c sp = sum_list (map (points_to c sp) (seq 0 maxPcidCount)).
Proof.
  unfold count_cpu, bindings_of. rewrite filter_length_sum.
  apply sum_list_ext. intros i _. unfold points_to.
  destruct (decide (_boundSpace (pcidBindings c i) = Some sp)) as [Hb|Hb];
    destruct (decide (_ ∧ _)) as [Hd|Hd]; try reflexivity.
  - destruct Hd. auto.
  - destruct Hd as [Hd _]. contradiction.
Qed.

Lemma count_bindings_sum sys sp :
  count_bindings sys sp (λ _, true) = sum_list (map (λ c, count_cpu c sp) (cpus sys)).
Proof.
  unfold count_bindings, count_cpu. induction (cpus sys) as [|c l IH]; [reflexivity|].
  cbn [map concat]. rewrite !sum_cons. rewrite filter_app, length_app, IH. reflexivity.
Qed.

(** The count after the data of one CPU have changed. *)
Lemma count_bindings_insert sys c cd cd' alive' events' sp :
  cpus sys !! c = Some cd →
  (count_bindings (mkSystem (<[c := cd']> (cpus sys)) alive' events') sp (λ _, true)
   + count_cpu cd sp
   = count_bindings sys sp (λ _, true) + count_cpu cd' sp)%nat.
Proof.
  intros Hc. rewrite !count_bindings_sum. cbn [cpus].
  apply (sum_list_insert (λ c, count_cpu c sp)). exact Hc.
Qed.

(** The count on a CPU on which the binding [k] may have changed. *)
Lemma count_cpu_change cd cd' k sp :
  (k < maxPcidCount)%nat →
  (∀ i, i ≠ k → _boundSpace (pcidBindings cd' i) = _boundSpace (pcidBindings cd i)) →
  (count_cpu cd' sp + points_to cd sp k = count_cpu cd sp + points_to cd' sp k)%nat.
Proof.
  intros Hk Hother. rewrite !count_cpu_sum.
  apply sum_list_change; [apply NoDup_seq|apply elem_of_seq; lia|].
  intros i _ Hne. unfold points_to. rewrite Hother by exact Hne. reflexivity.
Qed.

Lemma count_cpu_same cd cd' sp :
  (∀ i, _boundSpace (pcidBindings cd' i) = _boundSpace (pcidBindings cd i)) →
  count_cpu cd' sp = count_cpu cd sp.
Proof.
  intros Hsame. rewrite !count_cpu_sum. apply sum_list_ext.
  intros i _. unfold points_to. rewrite Hsame. reflexivity.
Qed.

Lemma count_cpu_le cd sp : (count_cpu cd sp ≤ maxPcidCount)%nat.
Proof.
  unfold count_cpu. etransitivity; [apply length_filter|].
  unfold bindings_of. rewrite length_map, length_seq. reflexivity.
Qed.

Lemma count_bindings_le sys sp :
  (count_bindings sys sp (λ _, true) ≤ maxPcidCount * length (cpus sys))%nat.
Proof.
  rewrite count_bindings_sum. induction (cpus sys) as [|c l IH]; [cbn; lia|].
  cbn [map length]. rewrite !sum_cons. pose proof (count_cpu_le c sp). lia.
Qed.

Lemma upgrade_Some (alive : gmap nat PageSpace) w sp :
  upgrade alive w = Some sp → w = Some sp ∧ is_Some (alive !! sp).
Proof.
  destruct w as [x|]; [|discriminate]. cbn.
  destruct (alive !! x) eqn:Hx; [|discriminate]. intros [= ->]. eauto.
Qed.

Lemma upgrade_None (alive : gmap nat PageSpace) w sp :
  upgrade alive w = None → is_Some (alive !! sp) → w ≠ Some sp.
Proof.
  intros Hup [v Hv] ->. cbn in Hup. rewrite Hv in Hup. discriminate.
Qed.

Lemma points_to_yes c sp i :
  _boundSpace (pcidBindings c i) = Some sp → points_to c sp i = 1%nat.
Proof. intros H. unfold points_to. rewrite decide_True by exact H. reflexivity. Qed.

Lemma points_to_no c sp i :
  _boundSpace (pcidBindings c i) ≠ Some sp → points_to c sp i = 0%nat.
Proof. intros H. unfold points_to. rewrite decide_False by exact H. reflexivity. Qed.

Lemma counts_move_same s s' :
  (∀ x v', spaces s' !! x = Some v' →
           ∃ v, spaces s !! x = Some v ∧ _numBindings v' = _numBindings v) →
  (∀ x, is_Some (spaces s !! x) → count_cpu (cpu s') x = count_cpu (cpu s) x) →
  counts_move s s'.
Proof.
  intros Hsp Hc x v' Hx. destruct (Hsp x v' Hx) as (v & Hv & Hn).
  exists v. split; [exact Hv|]. left. split; [exact Hn|]. apply Hc. eauto.
Qed.

Lemma makePrimary_counts this s u s' :
  PageBinding.makePrimary this s = Ok (u, s') → counts_move s s'.
Proof.
  intros H. destruct (makePrimary_after _ _ _ _ H) as (_ & _ & _ & _ & _ & Hsp & Hbs).
  apply counts_move_same.
  - intros x v' Hx. rewrite Hsp in Hx. eauto.
  - intros x _. apply count_cpu_same. exact Hbs.
Qed.

Lemma submitShootdown_counts this node s node' s' :
  PageSpace.submitShootdown this node s = Ok (node', s') → counts_move s s'.
Proof.
  intros H. destruct (submitShootdown_spec _ _ _ _ _ H) as (sp & Hsp & Hc & Hcases).
  apply counts_move_same; [|intros x _; rewrite Hc; reflexivity].
  intros x v' Hx.
  destruct (_numBindings sp =? 0).
  - destruct Hcases as (_ & Hs & _). rewrite Hs in Hx. eauto.
  - destruct Hcases as (_ & Hs & _). rewrite Hs in Hx.
    destruct (decide (x = this)) as [->|Hne].
    + rewrite lookup_insert_eq in Hx. injection Hx as <-. eauto.
    + rewrite lookup_insert_ne in Hx by congruence. eauto.
Qed.

Lemma shootdown_counts this s u s' :
  (this < maxPcidCount)%nat →
  PageBinding.shootdown this s = Ok (u, s') → counts_move s s'.
Proof.
  intros Hthis H.
  destruct (shootdown_spec _ _ _ _ H) as (_ & _ & _ & _ & Hcases). cbv zeta in Hcases.
  set (b := pcidBindings (cpu s) this) in *.
  destruct (upgrade (spaces s) (_boundSpace b)) as [sp|] eqn:Hup.
  - destruct Hcases as (v & Hv & Hcases).
    assert (Hsame : ∀ b', _boundSpace b' = _boundSpace b →
              (∀ i, pcidBindings (cpu s') i = (<[this := b']> (pcidBindings (cpu s))) i) →
              ∀ x, count_cpu (cpu s') x = count_cpu (cpu s) x).
    { intros b' Hb' Hall x. apply count_cpu_same. intros i. rewrite Hall.
      destruct (decide (i = this)) as [->|Hne].
      - rewrite fn_lookup_insert. exact Hb'.
      - rewrite fn_lookup_insert_ne by congruence. reflexivity. }
    destruct (rev (_shootQueue v)) as [|back rest].
    + destruct Hcases as (Hs & Hb & _). apply counts_move_same.
      * intros x v' Hx. rewrite Hs in Hx. eauto.
      * intros x _. apply count_cpu_same. intros i. rewrite Hb. reflexivity.
    + destruct Hcases as (Hs & Hb & _). apply counts_move_same.
      * intros x v' Hx. rewrite Hs in Hx.
        destruct (decide (x = sp)) as [->|Hne].
        -- rewrite lookup_insert_eq in Hx. injection Hx as <-. eauto.
        -- rewrite lookup_insert_ne in Hx by congruence. eauto.
      * intros x _. eapply Hsame; [|exact Hb]. reflexivity.
  - destruct Hcases as [Hs Hcases]. apply counts_move_same.
    + intros x v' Hx. rewrite Hs in Hx. eauto.
    + intros x Hx. pose proof (upgrade_None _ _ x Hup Hx) as Hnot.
      destruct (_boundSpace b) as [dead|] eqn:Hbs.
      * destruct Hcases as [Hb _].
        pose proof (count_cpu_change (cpu s) (cpu s') this x Hthis) as Hch.
        rewrite (points_to_no (cpu s)), (points_to_no (cpu s')) in Hch.
        -- rewrite <- !plus_n_O in Hch. apply Hch.
           intros i Hi. rewrite Hb, fn_lookup_insert_ne by congruence. reflexivity.
        -- rewrite Hb, fn_lookup_insert. discriminate.
        -- fold b. rewrite Hbs. exact Hnot.
      * destruct Hcases as [Hb _]. apply count_cpu_same. intros i. rewrite Hb. reflexivity.
Qed.

Lemma rebind_counts this space s u s' :
  (this < maxPcidCount)%nat →
  PageBinding.rebind this space s = Ok (u, s') → counts_move s s'.
Proof.
  intros Hthis H. destruct (rebind_spec _ _ _ _ _ H) as [_ Hcases]. cbv zeta in Hcases.
  set (b := pcidBindings (cpu s) this) in *.
  destruct Hcases
    as [[_ ->]|(Hne & mid & done & sp0 & Hold & Hsp & Hs & _ & _ & _ & Hb & _)].
  { apply counts_move_same; [eauto|reflexivity]. }
  assert (Hch : ∀ x, (count_cpu (cpu s') x + points_to (cpu s) x this
                      = count_cpu (cpu s) x + points_to (cpu s') x this)%nat).
  { intros x. apply count_cpu_change; [exact Hthis|].
    intros i Hi. rewrite Hb, fn_lookup_insert_ne by congruence. reflexivity. }
  assert (Hafter : _boundSpace (pcidBindings (cpu s') this) = Some space).
  { rewrite Hb, fn_lookup_insert. reflexivity. }
  assert (Hthere : ∀ x, x ≠ space → points_to (cpu s') x this = 0%nat).
  { intros x Hx. apply points_to_no. rewrite Hafter. congruence. }
  pose proof (points_to_yes _ _ _ Hafter) as Hhere.
  intros x v' Hx. rewrite Hs in Hx.
  destruct (upgrade (spaces s) (_boundSpace b)) as [old|] eqn:Hup.
  - destruct Hold as (v & Hv & -> & _).
    destruct (upgrade_Some _ _ _ Hup) as [Hbs _]. fold b in Hbs.
    assert (Hos : old ≠ space) by congruence.
    rewrite lookup_insert_ne in Hsp by exact Hos.
    destruct (decide (x = space)) as [->|Hxs].
    + rewrite lookup_insert_eq in Hx. injection Hx as <-.
      exists sp0. split; [exact Hsp|]. right. left. split; [reflexivity|].
      specialize (Hch space). rewrite Hhere, points_to_no in Hch; [lia|].
      fold b. rewrite Hbs. congruence.
    + rewrite lookup_insert_ne in Hx by congruence.
      destruct (decide (x = old)) as [->|Hxo].
      * rewrite lookup_insert_eq in Hx. injection Hx as <-.
        exists v. split; [exact Hv|]. right. right. split; [reflexivity|].
        specialize (Hch old). rewrite (Hthere old Hxs), (points_to_yes _ _ _ Hbs) in Hch.
        lia.
      * rewrite lookup_insert_ne in Hx by congruence.
        exists v'. split; [exact Hx|]. left. split; [reflexivity|].
        specialize (Hch x). rewrite (Hthere x Hxs), points_to_no in Hch; [lia|].
        fold b. rewrite Hbs. congruence.
  - destruct Hold as [-> _].
    destruct (decide (x = space)) as [->|Hxs].
    + rewrite lookup_insert_eq in Hx. injection Hx as <-.
      exists sp0. split; [exact Hsp|]. right. left. split; [reflexivity|].
      specialize (Hch space). rewrite Hhere, points_to_no in Hch; [lia|].
      apply (upgrade_None _ _ _ Hup). eauto.
    + rewrite lookup_insert_ne in Hx by congruence.
      exists v'. split; [exact Hx|]. left. split; [reflexivity|].
      specialize (Hch x). rewrite (Hthere x Hxs), points_to_no in Hch; [lia|].
      apply (upgrade_None _ _ _ Hup). eauto.
Qed.

Lemma activate_counts space s u s' :
  PageSpace.activate space s = Ok (u, s') → counts_move s s'.
Proof.
  intros H. unfold PageSpace.activate in H.
  pose proof (loop_result (cpu s) (spaces s) space maxPcidCount 0 0) as Hres.
  destruct (PageSpace.activate_loop (cpu s) (spaces s) space maxPcidCount 0 0) as [j|k].
  - exact (makePrimary_counts _ _ _ _ H).
  - bind_as H u0 s0 Hreb.
    assert (Hk : (k < maxPcidCount)%nat) by (unfold maxPcidCount in *; lia).
    pose proof (rebind_counts _ _ _ _ _ Hk Hreb) as Hmove.
    destruct (makePrimary_after _ _ _ _ H) as (_ & _ & _ & _ & _ & Hsp & Hbs).
    intros x v' Hx. rewrite Hsp in Hx.
    destruct (Hmove x v' Hx) as (v & Hv & Hcases). exists v. split; [exact Hv|].
    rewrite (count_cpu_same (cpu s0) (cpu s') x Hbs). exact Hcases.
Qed.

(** A call on one CPU that moves the counts together keeps [counts_ok]. *)
Lemma counts_ok_on_cpu sys c cd s' :
  Z.of_nat (maxPcidCount * length (cpus sys)) < 2 ^ 32 →
  counts_ok sys → cpus sys !! c = Some cd →
  counts_move (mkState cd (sys_spaces sys) (sys_events sys)) s' →
  counts_ok (mkSystem (<[c := cpu s']> (cpus sys)) (spaces s') (events s')).
Proof.
  intros Hbound Hok Hc Hmove x v' Hx. cbn [sys_spaces] in Hx.
  destruct (Hmove x v' Hx) as (v & Hv & Hcases). cbn [spaces cpu] in Hv, Hcases.
  pose proof (Hok x v Hv) as Hn.
  pose proof (count_bindings_insert sys c cd (cpu s') (spaces s') (events s') x Hc) as Hins.
  pose proof (count_bindings_le sys x) as Hle.
  pose proof (count_bindings_le
                (mkSystem (<[c := cpu s']> (cpus sys)) (spaces s') (events s')) x) as Hle'.
  cbn [cpus] in Hle'. rewrite length_insert in Hle'.
  destruct Hcases as [[Hnb Hcnt]|[[Hnb Hcnt]|[Hnb Hcnt]]]; rewrite Hnb, Hn.
  - f_equal. lia.
  - rewrite Z.mod_small by lia. lia.
  - rewrite Z.mod_small by lia. lia.
Qed.

Lemma step_cpus_length sys sys' : step sys sys' → length (cpus sys') = length (cpus sys).
Proof.
  intros Hstep. inversion Hstep; subst; cbn [cpus]; try reflexivity.
  - apply on_cpu_inv in H0 as (cd & s' & _ & _ & ->). cbn [cpus]. apply length_insert.
  - apply on_cpu_inv in H0 as (cd & s' & _ & _ & ->). cbn [cpus]. apply length_insert.
  - apply on_cpu_inv in H as (cd & s' & _ & _ & ->). cbn [cpus]. apply length_insert.
  - apply length_insert.
Qed.

Lemma unreferenced_count sys sp : unreferenced sys sp → count_bindings sys sp (λ _, true) = 0%nat.
Proof.
  unfold unreferenced, count_bindings.
  induction (concat (map bindings_of (cpus sys))) as [|b l IH]; intros Hall;
    [reflexivity|].
  apply Forall_cons in Hall as [Hb Hall]. rewrite filter_cons.
  destruct (decide (_ ∧ _)) as [[Hyes _]|_]; [contradiction|]. apply IH. exact Hall.
Qed.

Lemma step_counts_ok sys sys' :
  Z.of_nat (maxPcidCount * length (cpus sys)) < 2 ^ 32 →
  counts_ok sys → step sys sys' → counts_ok sys'.
Proof.
  intros Hbound Hok Hstep. inversion Hstep; subst.
  - apply on_cpu_inv in H0 as (cd & s' & Hc & Hop & ->).
    apply (counts_ok_on_cpu sys c cd s' Hbound Hok Hc).
    exact (activate_counts _ _ _ _ Hop).
  - apply on_cpu_inv in H0 as (cd & s' & Hc & Hop & ->).
    apply (counts_ok_on_cpu sys c cd s' Hbound Hok Hc).
    exact (shootdown_counts _ _ _ _ H Hop).
  - apply on_cpu_inv in H as (cd & s' & Hc & Hop & ->).
    apply (counts_ok_on_cpu sys c cd s' Hbound Hok Hc).
    exact (submitShootdown_counts _ _ _ _ _ Hop).
  - intros x v Hx. cbn [sys_spaces] in Hx.
    change (count_bindings (mkSystem (cpus sys) _ (sys_events sys)) x (λ _, true))
      with (count_bindings sys x (λ _, true)).
    destruct (decide (x = sp)) as [->|Hne].
    + rewrite lookup_insert_eq in Hx. injection Hx as <-.
      rewrite unreferenced_count by assumption. reflexivity.
    + rewrite lookup_insert_ne in Hx by congruence. apply Hok. exact Hx.
  - intros x v Hx. cbn [sys_spaces] in Hx.
    apply lookup_delete_Some in Hx as [_ Hx].
    change (count_bindings (mkSystem (cpus sys) _ (sys_events sys)) x (λ _, true))
      with (count_bindings sys x (λ _, true)).
    apply Hok. exact Hx.
  - apply (counts_ok_on_cpu sys c cd
             (mkState (mkCpuData (havePcids cd) enabled (pageContext cd) (pcidBindings cd))
                      (sys_spaces sys) (sys_events sys)) Hbound Hok H).
    apply counts_move_same; cbn [spaces cpu]; [eauto|].
    intros x _. apply count_cpu_same. reflexivity.
Qed.

Lemma reachable_counts_ok sys :
  reachable sys → Z.of_nat (maxPcidCount * length (cpus sys)) < 2 ^ 32 → counts_ok sys.
Proof.
  induction 1 as [pcids|sys sys' Hreach IH Hstep]; intros Hbound.
  - intros x v Hx. cbn in Hx. rewrite lookup_empty in Hx. discriminate.
  - rewrite (step_cpus_length _ _ Hstep) in Hbound.
    exact (step_counts_ok sys sys' Hbound (IH Hbound) Hstep).
Qed.

(** X15.  In every reachable state of a machine with fewer than 2^29 CPUs,
    [_numBindings] of every live space is the number of bindings, over all
    CPUs, whose [_boundSpace] points to the space. *)
Theorem X15_numBindings_counts_bindings sys sp v :
  reachable sys → Z.of_nat (maxPcidCount * length (cpus sys)) < 2 ^ 32 →
  sys_spaces sys !! sp = Some v →
  _numBindings v = Z.of_nat (count_bindings sys sp (λ _, true)).
Proof.
  intros Hreach. revert sp v.
  induction Hreach as [pcids|sys sys' Hreach IH Hstep]; intros sp v Hbound Hv.
  - cbn in Hv. rewrite lookup_empty in Hv. discriminate.
  - rewrite (step_cpus_length _ _ Hstep) in Hbound.
    assert (Hok : counts_ok sys) by (intros x w Hx; exact (IH x w Hbound Hx)).
    exact (step_counts_ok sys sys' Hbound Hok Hstep sp v Hv).
Qed.

Lemma X15_witness :
  ∃ v, sys_spaces run1_submitted !! 1%nat = Some v ∧
       _numBindings v = Z.of_nat (count_bindings run1_submitted 1 (λ _, true)).
Proof.
  assert (Hv : sys_spaces run1_submitted !! 1%nat
               = Some (mkPageSpace 0x1000 1 1 [ShootNode.mk 7 0x7000 0x1000 0 1]))
    by (vm_compute; reflexivity).
  assert (Hbound : Z.of_nat (maxPcidCount * length (cpus run1_submitted)) < 2 ^ 32)
    by (vm_compute; reflexivity).
  eexists. split; [exact Hv|].
  exact (X15_numBindings_counts_bindings _ _ _ (proj1 (proj2 run1_reachable)) Hbound Hv).
Defined.

(* ===================================================================== *)
(** ** The order of the shootdown queue *)
(* ===================================================================== *)

Lemma descending_weaken hi hi' rq : hi ≤ hi' → descending hi rq → descending hi' rq.
Proof. destruct rq as [|N rest]; [auto|]. cbn. intros Hle [Hlt Hrest]. split; [lia|auto]. Qed.

(** A scan leaves the queue in order. *)
Lemma rebind_scan_descending already rq :
  ∀ hi complete,
    descending hi rq → descending hi (PageBinding.rebind_scan already rq complete).1.
Proof.
  induction rq as [|current preds IH]; intros hi complete Hd; [exact I|].
  cbn [PageBinding.rebind_scan]. destruct Hd as [Hlt Hrest].
  destruct (ShootNode._sequence current >? already); [|split; assumption].
  destruct (ShootNode._bindingsToShoot current =? 1).
  - apply (descending_weaken (ShootNode._sequence current)); [lia|].
    apply IH. exact Hrest.
  - specialize (IH _ complete Hrest).
    destruct (PageBinding.rebind_scan already preds complete) as [rest c'].
    cbn in *. split; assumption.
Qed.

Lemma descending_below hi rq : descending hi rq → Forall (λ N, ShootNode._sequence N < hi) rq.
Proof.
  revert hi. induction rq as [|N rest IH]; intros hi Hd; [constructor|].
  destruct Hd as [Hlt Hrest]. constructor; [exact Hlt|].
  eapply Forall_impl; [apply IH; exact Hrest|]. cbn. intros M HM. lia.
Qed.

Lemma StronglySorted_snoc {A} (R : A → A → Prop) (l : list A) (x : A) :
  StronglySorted R l → Forall (λ y, R y x) l → StronglySorted R (l ++ [x]).
Proof.
  induction 1 as [|a l Hl IH Ha]; intros Hx; cbn.
  - repeat constructor.
  - apply Forall_cons in Hx as [Hax Hx]. constructor; [apply IH; exact Hx|].
    apply Forall_app. split; [exact Ha|]. constructor; [exact Hax|constructor].
Qed.

(** A queue that falls from its back rises from its front. *)
Lemma descending_sorted hi rq :
  descending hi rq → StronglySorted earlier (rev rq).
Proof.
  revert hi. induction rq as [|N rest IH]; intros hi Hd; [constructor|].
  destruct Hd as [Hlt Hrest]. cbn [rev].
  apply StronglySorted_snoc; [exact (IH _ Hrest)|].
  apply Forall_forall. intros M HM. apply (proj1 (elem_of_rev _ _)) in HM.
  pose proof (descending_below _ _ Hrest) as Hb. rewrite Forall_forall in Hb.
  exact (Hb M HM).
Qed.

Lemma queues_ok_later n alive : queues_ok n alive → queues_ok (S n) alive.
Proof. intros Hok sp v Hv. destruct (Hok sp v Hv) as [Hd Hs]. split; [exact Hd|lia]. Qed.

Lemma queues_ok_insert n alive sp v :
  queues_ok n alive →
  descending (_shootSequence v) (rev (_shootQueue v)) → 0 ≤ _shootSequence v ≤ Z.of_nat n →
  queues_ok n (<[sp := v]> alive).
Proof.
  intros Hok Hd Hs x w Hx. destruct (decide (x = sp)) as [->|Hne].
  - rewrite lookup_insert_eq in Hx. injection Hx as <-. auto.
  - rewrite lookup_insert_ne in Hx by congruence. exact (Hok x w Hx).
Qed.

(** The space that a scan leaves behind is in order if it was. *)
Lemma scanned_descending already v :
  descending (_shootSequence v) (rev (_shootQueue v)) →
  descending (_shootSequence v)
    (rev (rev (PageBinding.rebind_scan already (rev (_shootQueue v)) []).1)).
Proof. intros Hd. rewrite rev_involutive. apply rebind_scan_descending. exact Hd. Qed.

Lemma rebind_queues_ok n this space s u s' :
  queues_ok n (spaces s) →
  PageBinding.rebind this space s = Ok (u, s') → queues_ok n (spaces s').
Proof.
  intros Hok H. destruct (rebind_spec _ _ _ _ _ H) as [_ Hcases]. cbv zeta in Hcases.
  destruct Hcases as [[_ ->]|(_ & mid & done & sp0 & Hold & Hsp & -> & _)]; [exact Hok|].
  assert (Hmid : queues_ok n mid).
  { destruct (upgrade (spaces s) _) as [old|].
    - destruct Hold as (v & Hv & -> & _). destruct (Hok old v Hv) as [Hd Hs].
      apply queues_ok_insert; [exact Hok| |exact Hs].
      unfold left_space. cbn [_shootSequence _shootQueue].
      apply scanned_descending. exact Hd.
    - destruct Hold as [-> _]. exact Hok. }
  destruct (Hmid space sp0 Hsp) as [Hd Hs].
  apply queues_ok_insert; assumption.
Qed.

Lemma shootdown_queues_ok n this s u s' :
  queues_ok n (spaces s) →
  PageBinding.shootdown this s = Ok (u, s') → queues_ok n (spaces s').
Proof.
  intros Hok H.
  destruct (shootdown_spec _ _ _ _ H) as (_ & _ & _ & _ & Hcases). cbv zeta in Hcases.
  destruct (upgrade (spaces s) _) as [sp|].
  - destruct Hcases as (v & Hv & Hcases). destruct (Hok sp v Hv) as [Hd Hs].
    destruct (rev (_shootQueue v)) as [|back rest] eqn:Hrev.
    + destruct Hcases as (-> & _). exact Hok.
    + destruct Hcases as (-> & _).
      apply queues_ok_insert; [exact Hok| |exact Hs].
      unfold shot_space. cbn [_shootSequence _shootQueue].
      apply scanned_descending. rewrite Hrev. exact Hd.
  - destruct Hcases as [-> _]. exact Hok.
Qed.

Lemma submitShootdown_queues_ok n this node s node' s' :
  Z.of_nat (S n) < 2 ^ 64 →
  queues_ok n (spaces s) →
  PageSpace.submitShootdown this node s = Ok (node', s') → queues_ok (S n) (spaces s').
Proof.
  intros Hn Hok H.
  destruct (submitShootdown_spec _ _ _ _ _ H) as (sp & Hsp & _ & Hcases).
  destruct (Hok this sp Hsp) as [Hd Hs].
  destruct (_numBindings sp =? 0).
  - destruct Hcases as (_ & -> & _). apply queues_ok_later. exact Hok.
  - destruct Hcases as (-> & -> & _).
    apply queues_ok_insert; [apply queues_ok_later; exact Hok| |].
    + cbn [_shootSequence _shootQueue]. rewrite rev_app_distr. cbn.
      rewrite Z.mod_small by lia. split; [lia|exact Hd].
    + cbn [_shootSequence]. rewrite Z.mod_small by lia. lia.
Qed.

Lemma activate_queues_ok n space s u s' :
  queues_ok n (spaces s) →
  PageSpace.activate space s = Ok (u, s') → queues_ok n (spaces s').
Proof.
  intros Hok H. unfold PageSpace.activate in H.
  destruct (PageSpace.activate_loop (cpu s) (spaces s) space maxPcidCount 0 0) as [j|k].
  - destruct (makePrimary_after _ _ _ _ H) as (_ & _ & _ & _ & _ & -> & _). exact Hok.
  - bind_as H u0 s0 Hreb.
    destruct (makePrimary_after _ _ _ _ H) as (_ & _ & _ & _ & _ & -> & _).
    exact (rebind_queues_ok _ _ _ _ _ _ Hok Hreb).
Qed.

Lemma reachable_in_queues_ok n sys :
  reachable_in n sys → Z.of_nat n < 2 ^ 64 → queues_ok n (sys_spaces sys).
Proof.
  induction 1 as [pcids|n sys sys' Hreach IH Hstep]; intros Hn.
  - intros sp v Hv. cbn in Hv. rewrite lookup_empty in Hv. discriminate.
  - specialize (IH ltac:(lia)).
    inversion Hstep; subst; cbn [sys_spaces].
    + apply on_cpu_inv in H0 as (cd & s' & Hc & Hop & ->). cbn [sys_spaces].
      apply queues_ok_later. exact (activate_queues_ok n _ (mkState cd _ _) _ _ IH Hop).
    + apply on_cpu_inv in H0 as (cd & s' & Hc & Hop & ->). cbn [sys_spaces].
      apply queues_ok_later. exact (shootdown_queues_ok n _ (mkState cd _ _) _ _ IH Hop).
    + apply on_cpu_inv in H as (cd & s' & Hc & Hop & ->). cbn [sys_spaces].
      exact (submitShootdown_queues_ok n _ _ (mkState cd _ _) _ _ Hn IH Hop).
    + apply queues_ok_insert; [apply queues_ok_later; exact IH|exact I|cbn; lia].
    + intros x v Hx. apply lookup_delete_Some in Hx as [_ Hx].
      exact (queues_ok_later _ _ IH x v Hx).
    + apply queues_ok_later. exact IH.
Qed.

(** X16.  In every state of the machine that is reachable in fewer than 2^64
    steps (before [_shootSequence] can wrap), the shootdown queue of every
    live space is in strictly ascending order of [_sequence] from its front
    to its back, and every queued sequence number is below the space's
    [_shootSequence], the number that the next submission gets. *)
Theorem X16_queue_is_sorted n sys sp v :
  reachable_in n sys → Z.of_nat n < 2 ^ 64 → sys_spaces sys !! sp = Some v →
  StronglySorted earlier (_shootQueue v) ∧
  Forall (λ N, ShootNode._sequence N < _shootSequence v) (_shootQueue v) ∧
  0 ≤ _shootSequence v ≤ Z.of_nat n.
Proof.
  intros Hreach Hn Hv.
  destruct (reachable_in_queues_ok n sys Hreach Hn sp v Hv) as [Hd Hs].
  split; [|split; [|exact Hs]].
  - rewrite <- (rev_involutive (_shootQueue v)). exact (descending_sorted _ _ Hd).
  - apply Forall_forall. intros N HN.
    pose proof (descending_below _ _ Hd) as Hb. rewrite Forall_forall in Hb.
    apply Hb. apply (proj2 (elem_of_rev _ _)). exact HN.
Qed.

Lemma run2_steps_ok :
  is_ok (on_cpu 0 (PageSpace.activate 1) (create_space 1 0x1000 (System_init [false; false])))
  = true ∧
  is_ok (on_cpu 1 (PageSpace.activate 1)
           (after 0 (PageSpace.activate 1)
              (create_space 1 0x1000 (System_init [false; false])))) = true ∧
  is_ok (on_cpu 0 (PageSpace.submitShootdown 1 (new_node 1 0x7000 0x1000)) run2_bound)
  = true ∧
  is_ok (on_cpu 0 (PageSpace.submitShootdown 1 (new_node 2 0x8000 0x1000))
           (after 0 (PageSpace.submitShootdown 1 (new_node 1 0x7000 0x1000)) run2_bound))
  = true ∧
  is_ok (on_cpu 0 (PageBinding.shootdown 0) run2_submitted) = true ∧
  is_ok (on_cpu 1 (PageBinding.shootdown 0)
           (after 0 (PageBinding.shootdown 0) run2_submitted)) = true.
Proof. repeat split; vm_compute; reflexivity. Qed.

Lemma run2_reachable_in : reachable_in 5 run2_submitted ∧ reachable_in 7 run2_shot.
Proof.
  destruct run2_steps_ok as (H1 & H2 & H3 & H4 & H5 & H6).
  assert (R1 : reachable_in 1 (create_space 1 0x1000 (System_init [false; false]))).
  { apply reachable_in_step with (sys := System_init [false; false]);
      [apply reachable_in_init|].
    apply (step_create 1 0x1000); [reflexivity|].
    apply (bool_decide_unpack _). vm_compute. exact I. }
  assert (R2 : reachable_in 2 (after 0 (PageSpace.activate 1)
                                 (create_space 1 0x1000 (System_init [false; false])))).
  { eapply reachable_in_step; [exact R1|].
    apply (step_activate 0 1); [eexists; vm_compute; reflexivity|apply run_unit; exact H1]. }
  assert (R3 : reachable_in 3 run2_bound).
  { eapply reachable_in_step; [exact R2|].
    apply (step_activate 1 1); [eexists; vm_compute; reflexivity|apply run_unit; exact H2]. }
  assert (R4 : reachable_in 4 (after 0 (PageSpace.submitShootdown 1 (new_node 1 0x7000 0x1000))
                                 run2_bound)).
  { eapply reachable_in_step; [exact R3|].
    destruct (run_any _ run2_bound H3) as (n' & Hn').
    exact (step_submit 0 1 _ n' _ _ Hn'). }
  assert (R5 : reachable_in 5 run2_submitted).
  { eapply reachable_in_step; [exact R4|].
    destruct (run_any _ (after 0 (PageSpace.submitShootdown 1 (new_node 1 0x7000 0x1000))
                           run2_bound) H4) as (n' & Hn').
    exact (step_submit 0 1 _ n' _ _ Hn'). }
  split; [exact R5|].
  apply reachable_in_step with (sys := after 0 (PageBinding.shootdown 0) run2_submitted).
  - eapply reachable_in_step; [exact R5|].
    apply (step_shootdown 0 0); [unfold maxPcidCount; lia|apply run_unit; exact H5].
  - apply (step_shootdown 1 0); [unfold maxPcidCount; lia|apply run_unit; exact H6].
Qed.

Lemma run2_submitted_space :
  sys_spaces run2_submitted !! 1%nat
  = Some (mkPageSpace 0x1000 2 2 [ShootNode.mk 1 0x7000 0x1000 0 2;
                                  ShootNode.mk 2 0x8000 0x1000 1 2]).
Proof. vm_compute. reflexivity. Qed.

Lemma X16_witness :
  StronglySorted earlier [ShootNode.mk 1 0x7000 0x1000 0 2; ShootNode.mk 2 0x8000 0x1000 1 2]
  ∧ Forall (λ N, ShootNode._sequence N < 2)
           [ShootNode.mk 1 0x7000 0x1000 0 2; ShootNode.mk 2 0x8000 0x1000 1 2].
Proof.
  assert (Hn : Z.of_nat 5 < 2 ^ 64) by lia.
  destruct (X16_queue_is_sorted 5 run2_submitted 1 _ (proj1 run2_reachable_in) Hn
              run2_submitted_space) as (Hsorted & Hbelow & _).
  split; [exact Hsorted|exact Hbelow].
Defined.

(* ===================================================================== *)
(** ** The counters of the queued nodes *)
(* ===================================================================== *)

(** A scan takes a node whose counter it brings to zero out of the queue. *)
Lemma rebind_scan_pending B already rq :
  B < 2 ^ 32 →
  ∀ complete,
    Forall (λ N, 1 ≤ ShootNode._bindingsToShoot N ≤ B) rq →
    Forall (λ N, 1 ≤ ShootNode._bindingsToShoot N ≤ B)
           (PageBinding.rebind_scan already rq complete).1.
Proof.
  intros HB. induction rq as [|current preds IH]; intros complete Hall; [constructor|].
  cbn [PageBinding.rebind_scan]. apply Forall_cons in Hall as [Hc Hall].
  destruct (ShootNode._sequence current >? already);
    [|constructor; assumption].
  destruct (Z.eqb_spec (ShootNode._bindingsToShoot current) 1) as [Hone|Hmore].
  - apply IH. exact Hall.
  - specialize (IH complete Hall).
    destruct (PageBinding.rebind_scan already preds complete) as [rest c'].
    cbn in *. constructor; [|exact IH].
    unfold fetch_sub_1. cbn [ShootNode._bindingsToShoot].
    rewrite Z.mod_small by lia. lia.
Qed.

Lemma Forall_rev_iff {A} (P : A → Prop) (l : list A) : Forall P (rev l) ↔ Forall P l.
Proof.
  rewrite !Forall_forall. split; intros H x Hx; apply H.
  - apply (proj2 (elem_of_rev _ _)). exact Hx.
  - apply (proj1 (elem_of_rev _ _)). exact Hx.
Qed.

Lemma scanned_pending B already v :
  B < 2 ^ 32 →
  Forall (λ N, 1 ≤ ShootNode._bindingsToShoot N ≤ B) (_shootQueue v) →
  Forall (λ N, 1 ≤ ShootNode._bindingsToShoot N ≤ B)
         (rev (PageBinding.rebind_scan already (rev (_shootQueue v)) []).1).
Proof.
  intros HB Hall. apply Forall_rev_iff. apply rebind_scan_pending; [exact HB|].
  apply Forall_rev_iff. exact Hall.
Qed.

Lemma pending_ok_insert B alive sp v :
  pending_ok B alive →
  Forall (λ N, 1 ≤ ShootNode._bindingsToShoot N ≤ B) (_shootQueue v) →
  pending_ok B (<[sp := v]> alive).
Proof.
  intros Hok Hv x w Hx. destruct (decide (x = sp)) as [->|Hne].
  - rewrite lookup_insert_eq in Hx. injection Hx as <-. exact Hv.
  - rewrite lookup_insert_ne in Hx by congruence. exact (Hok x w Hx).
Qed.

Lemma rebind_pending B this space s u s' :
  B < 2 ^ 32 → pending_ok B (spaces s) →
  PageBinding.rebind this space s = Ok (u, s') → pending_ok B (spaces s').
Proof.
  intros HB Hok H. destruct (rebind_spec _ _ _ _ _ H) as [_ Hcases]. cbv zeta in Hcases.
  destruct Hcases as [[_ ->]|(_ & mid & done & sp0 & Hold & Hsp & -> & _)]; [exact Hok|].
  assert (Hmid : pending_ok B mid).
  { destruct (upgrade (spaces s) _) as [old|].
    - destruct Hold as (v & Hv & -> & _).
      apply pending_ok_insert; [exact Hok|].
      apply scanned_pending; [exact HB|exact (Hok old v Hv)].
    - destruct Hold as [-> _]. exact Hok. }
  apply pending_ok_insert; [exact Hmid|exact (Hmid space sp0 Hsp)].
Qed.

Lemma shootdown_pending B this s u s' :
  B < 2 ^ 32 → pending_ok B (spaces s) →
  PageBinding.shootdown this s = Ok (u, s') → pending_ok B (spaces s').
Proof.
  intros HB Hok H.
  destruct (shootdown_spec _ _ _ _ H) as (_ & _ & _ & _ & Hcases). cbv zeta in Hcases.
  destruct (upgrade (spaces s) _) as [sp|].
  - destruct Hcases as (v & Hv & Hcases).
    destruct (rev (_shootQueue v)) as [|back rest] eqn:Hrev.
    + destruct Hcases as (-> & _). exact Hok.
    + destruct Hcases as (-> & _).
      apply pending_ok_insert; [exact Hok|].
      apply scanned_pending; [exact HB|exact (Hok sp v Hv)].
  - destruct Hcases as [-> _]. exact Hok.
Qed.

Lemma activate_pending B space s u s' :
  B < 2 ^ 32 → pending_ok B (spaces s) →
  PageSpace.activate space s = Ok (u, s') → pending_ok B (spaces s').
Proof.
  intros HB Hok H. unfold PageSpace.activate in H.
  destruct (PageSpace.activate_loop (cpu s) (spaces s) space maxPcidCount 0 0) as [j|k].
  - destruct (makePrimary_after _ _ _ _ H) as (_ & _ & _ & _ & _ & -> & _). exact Hok.
  - bind_as H u0 s0 Hreb.
    destruct (makePrimary_after _ _ _ _ H) as (_ & _ & _ & _ & _ & -> & _).
    exact (rebind_pending _ _ _ _ _ _ HB Hok Hreb).
Qed.

Lemma submitShootdown_pending B this node s node' s' :
  (∀ v, spaces s !! this = Some v → 0 ≤ _numBindings v ≤ B) →
  pending_ok B (spaces s) →
  PageSpace.submitShootdown this node s = Ok (node', s') → pending_ok B (spaces s').
Proof.
  intros Hnb Hok H.
  destruct (submitShootdown_spec _ _ _ _ _ H) as (sp & Hsp & _ & Hcases).
  destruct (Z.eqb_spec (_numBindings sp) 0) as [Hz|Hnz].
  - destruct Hcases as (_ & -> & _). exact Hok.
  - destruct Hcases as (-> & -> & _).
    apply pending_ok_insert; [exact Hok|]. cbn [_shootQueue].
    apply Forall_app. split; [exact (Hok this sp Hsp)|].
    constructor; [|constructor]. cbn. specialize (Hnb sp Hsp). lia.
Qed.

Lemma reachable_pending_ok sys :
  reachable sys → Z.of_nat (maxPcidCount * length (cpus sys)) < 2 ^ 32 →
  pending_ok (Z.of_nat (maxPcidCount * length (cpus sys))) (sys_spaces sys).
Proof.
  induction 1 as [pcids|sys sys' Hreach IH Hstep]; intros Hbound.
  - intros sp v Hv. cbn in Hv. rewrite lookup_empty in Hv. discriminate.
  - rewrite (step_cpus_length _ _ Hstep) in *. specialize (IH Hbound).
    set (B := Z.of_nat (maxPcidCount * length (cpus sys))) in *.
    inversion Hstep; subst; cbn [sys_spaces].
    + apply on_cpu_inv in H0 as (cd & s' & Hc & Hop & ->). cbn [sys_spaces].
      exact (activate_pending B _ (mkState cd _ _) _ _ Hbound IH Hop).
    + apply on_cpu_inv in H0 as (cd & s' & Hc & Hop & ->). cbn [sys_spaces].
      exact (shootdown_pending B _ (mkState cd _ _) _ _ Hbound IH Hop).
    + apply on_cpu_inv in H as (cd & s' & Hc & Hop & ->). cbn [sys_spaces].
      apply (submitShootdown_pending B sp node
               (mkState cd (sys_spaces sys) (sys_events sys)) node' s');
        [|exact IH|exact Hop].
      intros v Hv. cbn [spaces] in Hv.
      rewrite (reachable_counts_ok sys Hreach Hbound sp v Hv).
      pose proof (count_bindings_le sys sp). unfold B. lia.
    + apply pending_ok_insert; [exact IH|constructor].
    + intros x v Hx. apply lookup_delete_Some in Hx as [_ Hx]. exact (IH x v Hx).
    + exact IH.
Qed.

(** X17.  In every reachable state of a machine with fewer than 2^29 CPUs,
    the counter [_bindingsToShoot] of every queued node is at least 1 and at
    most the number of bindings of the machine: no node with the counter 0
    stays in a queue, and no counter wraps around. *)
Theorem X17_pending_counters sys sp N :
  reachable sys → Z.of_nat (maxPcidCount * length (cpus sys)) < 2 ^ 32 →
  N ∈ queue_of sys sp →
  1 ≤ ShootNode._bindingsToShoot N ≤ Z.of_nat (maxPcidCount * length (cpus sys)).
Proof.
  intros Hreach Hbound HN. unfold queue_of in HN.
  destruct (sys_spaces sys !! sp) as [v|] eqn:Hv; [|inversion HN].
  pose proof (reachable_pending_ok sys Hreach Hbound sp v Hv) as Hall.
  rewrite Forall_forall in Hall. exact (Hall N HN).
Qed.

Lemma X17_witness :
  1 ≤ ShootNode._bindingsToShoot (ShootNode.mk 1 0x7000 0x1000 0 2)
  ≤ Z.of_nat (maxPcidCount * length (cpus run2_submitted)).
Proof.
  assert (Hq : queue_of run2_submitted 1
               = [ShootNode.mk 1 0x7000 0x1000 0 2; ShootNode.mk 2 0x8000 0x1000 1 2])
    by (vm_compute; reflexivity).
  assert (Hbound : Z.of_nat (maxPcidCount * length (cpus run2_submitted)) < 2 ^ 32)
    by (vm_compute; reflexivity).
  apply (X17_pending_counters run2_submitted 1);
    [exact (reachable_in_reachable _ _ (proj1 run2_reachable_in))|exact Hbound|].
  rewrite Hq. apply list_elem_of_here.
Defined.

(* ===================================================================== *)
(** ** The mutex of a space, the callbacks and the IPI *)
(* ===================================================================== *)

(** Effects that respect the discipline, one after the other. *)
Lemma locks_ok_app es1 es2 :
  ∀ held, locks_ok held es1 = true → locks_ok held (es1 ++ es2) = locks_ok None es2.
Proof.
  induction es1 as [|e es1 IH]; intros held H.
  - destruct held; [discriminate|reflexivity].
  - cbn [app]. destruct e; cbn [locks_ok] in *;
      try (apply IH; exact H);
      destruct held as [sp'|]; try discriminate; try (apply IH; exact H).
    apply andb_true_iff in H as [Hsp H]. rewrite Hsp. cbn. apply IH. exact H.
Qed.

Lemma locks_ok_invalidations tlb es held :
  forallb is_invalidation tlb = true → locks_ok held (tlb ++ es) = locks_ok held es.
Proof.
  induction tlb as [|e tlb IH]; intros H; [reflexivity|].
  cbn [forallb] in H. apply andb_true_iff in H as [He H].
  cbn [app]. destruct e; try discriminate; cbn [locks_ok]; apply IH; exact H.
Qed.

Lemma locks_ok_callbacks complete es :
  locks_ok None (callbacks complete ++ es) = locks_ok None es.
Proof. induction complete as [|N l IH]; [reflexivity|]. cbn. exact IH. Qed.

Lemma locks_ok_section sp tlb es :
  forallb is_invalidation tlb = true →
  locks_ok None ([EvAcquire sp] ++ tlb ++ [EvRelease sp] ++ es) = locks_ok None es.
Proof.
  intros H. cbn [app locks_ok]. rewrite locks_ok_invalidations by exact H.
  cbn [app locks_ok]. rewrite bool_decide_eq_true_2 by reflexivity. reflexivity.
Qed.

Lemma makePrimary_locks this s u s' :
  PageBinding.makePrimary this s = Ok (u, s') →
  ∃ es, events s' = events s ++ es ∧ locks_ok None es = true.
Proof.
  intros H. destruct (makePrimary_spec _ _ _ _ H) as (_ & _ & _ & _ & Hev).
  cbv zeta in Hev. destruct (_ || _).
  - destruct Hev as (sp & v & _ & _ & ->). eexists. split; reflexivity.
  - exists []. rewrite app_nil_r. auto.
Qed.

Lemma rebind_locks this space s u s' :
  PageBinding.rebind this space s = Ok (u, s') →
  ∃ es, events s' = events s ++ es ∧ locks_ok None es = true.
Proof.
  intros H. destruct (rebind_spec _ _ _ _ _ H) as [_ Hcases]. cbv zeta in Hcases.
  destruct Hcases as [[_ ->]|(_ & mid & done & sp0 & Hold & _ & _ & _ & _ & _ & _ & ->)].
  { exists []. rewrite app_nil_r. auto. }
  eexists. split; [reflexivity|].
  assert (Hinv : ∀ es, locks_ok None
                         ((if havePcids (cpu s)
                           then [EvInvalidatePcid (_pcid (pcidBindings (cpu s) this))]
                           else []) ++ es) = locks_ok None es).
  { intros es. destruct (havePcids (cpu s)); reflexivity. }
  rewrite Hinv.
  destruct (upgrade (spaces s) _) as [old|].
  - destruct Hold as (v & _ & _ & ->).
    rewrite <- app_assoc.
    change ([EvAcquire old; EvRelease old] ++ ?es)
      with ([EvAcquire old] ++ [] ++ [EvRelease old] ++ es).
    rewrite (locks_ok_section old [] _ eq_refl), locks_ok_callbacks.
    cbn. rewrite bool_decide_eq_true_2 by reflexivity. reflexivity.
  - destruct Hold as [_ ->]. cbn. rewrite bool_decide_eq_true_2 by reflexivity. reflexivity.
Qed.

Lemma shootdown_locks this s u s' :
  PageBinding.shootdown this s = Ok (u, s') →
  ∃ es, events s' = events s ++ es ∧ locks_ok None es = true.
Proof.
  intros H.
  destruct (shootdown_spec _ _ _ _ H) as (_ & _ & _ & _ & Hcases). cbv zeta in Hcases.
  destruct (upgrade (spaces s) _) as [sp|].
  - destruct Hcases as (v & _ & Hcases).
    destruct (rev (_shootQueue v)) as [|back rest].
    + destruct Hcases as (_ & _ & ->). eexists. split; [reflexivity|].
      cbn. rewrite bool_decide_eq_true_2 by reflexivity. reflexivity.
    + destruct Hcases as (_ & _ & tlb & Htlb & ->). eexists. split; [reflexivity|].
      rewrite (locks_ok_section sp tlb _ Htlb).
      rewrite <- (app_nil_r (callbacks _)). apply locks_ok_callbacks.
  - destruct Hcases as [_ Hcases]. destruct (_boundSpace _).
    + destruct Hcases as [_ ->]. eexists. split; reflexivity.
    + destruct Hcases as [_ ->]. exists []. rewrite app_nil_r. auto.
Qed.

Lemma submitShootdown_locks this node s node' s' :
  PageSpace.submitShootdown this node s = Ok (node', s') →
  ∃ es, events s' = events s ++ es ∧ locks_ok None es = true.
Proof.
  intros H. destruct (submitShootdown_spec _ _ _ _ _ H) as (sp & _ & _ & Hcases).
  destruct (_numBindings sp =? 0).
  - destruct Hcases as (_ & _ & ->). eexists. split; [reflexivity|].
    cbn. rewrite bool_decide_eq_true_2 by reflexivity. reflexivity.
  - destruct Hcases as (_ & _ & ->). eexists. split; [reflexivity|].
    cbn. rewrite bool_decide_eq_true_2 by reflexivity. reflexivity.
Qed.

(** X18.  The mutex discipline of the bookkeeping.  In the effects of a call
    of [activate], [shootdown] or [submitShootdown] that returns, the mutex
    of a space is taken only while no mutex of a space is held (so never two
    at a time: [rebind] releases the old space before it takes the new
    one), every mutex taken is released before the call returns, and the
    completion callbacks and the shootdown IPI happen only while no mutex is
    held. *)
Theorem X18_mutex_discipline :
  (∀ space s u s',
     PageSpace.activate space s = Ok (u, s') →
     ∃ es, events s' = events s ++ es ∧ locks_ok None es = true) ∧
  (∀ this s u s',
     PageBinding.shootdown this s = Ok (u, s') →
     ∃ es, events s' = events s ++ es ∧ locks_ok None es = true) ∧
  (∀ this node s node' s',
     PageSpace.submitShootdown this node s = Ok (node', s') →
     ∃ es, events s' = events s ++ es ∧ locks_ok None es = true).
Proof.
  split; [|split; [exact shootdown_locks|exact submitShootdown_locks]].
  intros space s u s' H. unfold PageSpace.activate in H.
  destruct (PageSpace.activate_loop (cpu s) (spaces s) space maxPcidCount 0 0) as [j|k].
  - exact (makePrimary_locks _ _ _ _ H).
  - bind_as H u0 s0 Hreb.
    destruct (rebind_locks _ _ _ _ _ Hreb) as (es1 & He1 & Hl1).
    destruct (makePrimary_locks _ _ _ _ H) as (es2 & He2 & Hl2).
    exists (es1 ++ es2). rewrite He2, He1, app_assoc. split; [reflexivity|].
    rewrite (locks_ok_app es1 es2 None Hl1). exact Hl2.
Qed.

Lemma X18_witness :
  (∃ s' es, PageSpace.activate 1 fresh_cpu_state = Ok (tt, s') ∧
            events s' = events fresh_cpu_state ++ es ∧ locks_ok None es = true) ∧
  (∃ s' es, PageBinding.shootdown 0 fresh_cpu_state = Ok (tt, s') ∧
            events s' = events fresh_cpu_state ++ es ∧ locks_ok None es = true) ∧
  (∃ node' s' es,
     PageSpace.submitShootdown 1 (new_node 7 0x7000 0x1000) fresh_cpu_state
     = Ok (node', s') ∧
     events s' = events fresh_cpu_state ++ es ∧ locks_ok None es = true).
Proof.
  destruct X18_mutex_discipline as (Hact & Hshoot & Hsub).
  split; [|split].
  - pose proof fresh_cpu_activate_ok as Hok.
    destruct (PageSpace.activate 1 fresh_cpu_state) as [[[] s']| | |] eqn:Hrun;
      try discriminate Hok.
    destruct (Hact _ _ _ _ Hrun) as (es & He & Hl). exists s', es. auto.
  - assert (Hok : is_ok (PageBinding.shootdown 0 fresh_cpu_state) = true)
      by (vm_compute; reflexivity).
    destruct (PageBinding.shootdown 0 fresh_cpu_state) as [[[] s']| | |] eqn:Hrun;
      try discriminate Hok.
    destruct (Hshoot _ _ _ _ Hrun) as (es & He & Hl). exists s', es. auto.
  - assert (Hok : is_ok (PageSpace.submitShootdown 1 (new_node 7 0x7000 0x1000)
                           fresh_cpu_state) = true) by (vm_compute; reflexivity).
    destruct (PageSpace.submitShootdown 1 (new_node 7 0x7000 0x1000) fresh_cpu_state)
      as [[node' s']| | |] eqn:Hrun; try discriminate Hok.
    destruct (Hsub _ _ _ _ _ Hrun) as (es & He & Hl). exists node', s', es. auto.
Defined.

(* ===================================================================== *)
(** ** What a scan does to a queue that is in order *)
(* ===================================================================== *)

Lemma visit_old already l :
  Forall (λ N, ShootNode._sequence N ≤ already) l → map (visit already) l = l.
Proof.
  induction 1 as [|N l HN _ IH]; [reflexivity|].
  cbn [map]. rewrite IH. unfold visit.
  destruct (Z.gtb_spec (ShootNode._sequence N) already); [lia|reflexivity].
Qed.

Lemma filter_pending l :
  Forall (λ N, 1 ≤ ShootNode._bindingsToShoot N < 2 ^ 32) l →
  filter (λ N, ShootNode._bindingsToShoot N ≠ 0) l = l ∧
  filter (λ N, ShootNode._bindingsToShoot N = 0) l = [].
Proof.
  induction 1 as [|N l HN _ [IH1 IH2]]; [split; reflexivity|].
  rewrite !filter_cons, IH1, IH2.
  destruct (decide (ShootNode._bindingsToShoot N ≠ 0)); [|lia].
  destruct (decide (ShootNode._bindingsToShoot N = 0)); [lia|]. split; reflexivity.
Qed.

Lemma rebind_scan_visits already rq :
  ∀ hi complete,
    descending hi rq →
    Forall (λ N, 1 ≤ ShootNode._bindingsToShoot N < 2 ^ 32) rq →
    PageBinding.rebind_scan already rq complete =
      (filter (λ N, ShootNode._bindingsToShoot N ≠ 0) (map (visit already) rq),
       rev (filter (λ N, ShootNode._bindingsToShoot N = 0) (map (visit already) rq))
       ++ complete).
Proof.
  induction rq as [|current preds IH]; intros hi complete Hd Hall; [reflexivity|].
  destruct Hd as [Hlt Hrest]. pose proof Hall as Hall0.
  apply Forall_cons in Hall as [Hc Hall].
  cbn [PageBinding.rebind_scan].
  destruct (Z.gtb_spec (ShootNode._sequence current) already) as [Hnew|Hold].
  - cbn [map]. unfold visit at 1 3.
    destruct (Z.gtb_spec (ShootNode._sequence current) already) as [_|]; [|lia].
    rewrite !filter_cons.
    destruct (Z.eqb_spec (ShootNode._bindingsToShoot current) 1) as [Hone|Hmore].
    + rewrite (IH _ _ Hrest Hall).
      assert (Hz : ShootNode._bindingsToShoot (fetch_sub_1 current) = 0).
      { unfold fetch_sub_1. cbn. rewrite Hone. reflexivity. }
      destruct (decide (ShootNode._bindingsToShoot (fetch_sub_1 current) ≠ 0));
        [contradiction|].
      destruct (decide (ShootNode._bindingsToShoot (fetch_sub_1 current) = 0));
        [|contradiction].
      cbn [rev]. rewrite <- app_assoc. reflexivity.
    + rewrite (IH _ _ Hrest Hall).
      assert (Hnz : ShootNode._bindingsToShoot (fetch_sub_1 current) ≠ 0).
      { unfold fetch_sub_1. cbn. rewrite Z.mod_small by lia. lia. }
      destruct (decide (ShootNode._bindingsToShoot (fetch_sub_1 current) ≠ 0));
        [|contradiction].
      destruct (decide (ShootNode._bindingsToShoot (fetch_sub_1 current) = 0));
        [contradiction|].
      reflexivity.
  - assert (Hallold : Forall (λ N, ShootNode._sequence N ≤ already) (current :: preds)).
    { constructor; [exact Hold|].
      eapply Forall_impl; [exact (descending_below _ _ Hrest)|]. cbn. intros N HN. lia. }
    rewrite (visit_old _ _ Hallold).
    destruct (filter_pending _ Hall0) as [-> ->]. reflexivity.
Qed.

(** X19.  On a queue that is in order (strictly falling sequence numbers
    from the back, counters between 1 and 2^32 - 1), the backward scans of
    [rebind] and [shootdown], which stop at the first node that is not newer
    than [alreadyShotSequence], do what the bookkeeping needs: every node
    with a greater sequence number has its counter decremented exactly once,
    every other node is untouched, the nodes whose counter has reached 0
    are taken out of the queue, and exactly those are completed. *)
Theorem X19_scan_visits_newer_nodes :
  (∀ already hi rq complete,
     descending hi rq →
     Forall (λ N, 1 ≤ ShootNode._bindingsToShoot N < 2 ^ 32) rq →
     PageBinding.rebind_scan already rq complete =
       (filter (λ N, ShootNode._bindingsToShoot N ≠ 0) (map (visit already) rq),
        rev (filter (λ N, ShootNode._bindingsToShoot N = 0) (map (visit already) rq))
        ++ complete)) ∧
  (∀ hp pcid already hi rq complete s r s',
     descending hi rq →
     Forall (λ N, 1 ≤ ShootNode._bindingsToShoot N < 2 ^ 32) rq →
     PageBinding.shootdown_scan hp pcid already rq complete s = Ok (r, s') →
     r = (filter (λ N, ShootNode._bindingsToShoot N ≠ 0) (map (visit already) rq),
          rev (filter (λ N, ShootNode._bindingsToShoot N = 0) (map (visit already) rq))
          ++ complete)).
Proof.
  split.
  - intros already hi rq complete. apply rebind_scan_visits.
  - intros hp pcid already hi rq complete s r s' Hd Hall H.
    apply shootdown_scan_spec in H as (-> & _).
    exact (rebind_scan_visits _ _ _ _ Hd Hall).
Qed.

Lemma X19_witness :
  PageBinding.rebind_scan 2
    [ShootNode.mk 2 0x8000 0x1000 5 1; ShootNode.mk 1 0x7000 0x1000 3 2;
     ShootNode.mk 0 0x6000 0x1000 2 1] []
  = (filter (λ N, ShootNode._bindingsToShoot N ≠ 0)
       (map (visit 2)
          [ShootNode.mk 2 0x8000 0x1000 5 1; ShootNode.mk 1 0x7000 0x1000 3 2;
           ShootNode.mk 0 0x6000 0x1000 2 1]),
     rev (filter (λ N, ShootNode._bindingsToShoot N = 0)
            (map (visit 2)
               [ShootNode.mk 2 0x8000 0x1000 5 1; ShootNode.mk 1 0x7000 0x1000 3 2;
                ShootNode.mk 0 0x6000 0x1000 2 1])) ++ []).
Proof.
  apply (proj1 X19_scan_visits_newer_nodes 2 6).
  - cbn. lia.
  - repeat constructor; cbn; lia.
Defined.

(* ===================================================================== *)
(** ** [activate] returns *)
(* ===================================================================== *)

Lemma deref_run sp s v : spaces s !! sp = Some v → deref sp s = Ok (v, s).
Proof. unfold deref. intros ->. reflexivity. Qed.

Lemma run_complete_run l s :
  run_complete l s = Ok (tt, mkState (cpu s) (spaces s) (events s ++ callbacks l)).
Proof.
  revert s. induction l as [|N l IH]; intros s.
  - cbn. rewrite app_nil_r. destruct s; reflexivity.
  - cbn [run_complete]. erewrite bind_run by reflexivity. rewrite IH. cbn.
    rewrite <- app_assoc. reflexivity.
Qed.

Lemma makePrimary_returns this s :
  intsEnabled (cpu s) = false →
  havePcids (cpu s) || (_pcid (pcidBindings (cpu s) this) =? 0) = true →
  is_Some (upgrade (spaces s) (_boundSpace (pcidBindings (cpu s) this))) →
  ∃ s', PageBinding.makePrimary this s = Ok (tt, s').
Proof.
  intros Hints Hpcid [sp Hup]. destruct (upgrade_Some _ _ _ Hup) as [_ [v Hv]].
  unfold PageBinding.makePrimary.
  erewrite bind_run by reflexivity.
  erewrite bind_run by (apply assert_run; rewrite Hints; reflexivity).
  erewrite bind_run by reflexivity.
  erewrite bind_run by (apply assert_run; exact Hpcid).
  cbv zeta.
  destruct (_wasRebound _ || negb (bool_decide _)).
  - erewrite bind_run.
    + erewrite bind_run by reflexivity. eexists. reflexivity.
    + erewrite bind_run by (unfold grab; rewrite Hup; reflexivity).
      cbv beta iota.
      erewrite bind_run by (apply deref_run; exact Hv). reflexivity.
  - erewrite bind_run by reflexivity.
    erewrite bind_run by reflexivity. eexists. reflexivity.
Qed.

Lemma rebind_returns this space s :
  intsEnabled (cpu s) = false → is_Some (spaces s !! space) →
  ∃ s', PageBinding.rebind this space s = Ok (tt, s').
Proof.
  intros Hints [sp Hsp]. unfold PageBinding.rebind.
  erewrite bind_run by reflexivity.
  erewrite bind_run by (apply assert_run; rewrite Hints; reflexivity).
  erewrite bind_run by reflexivity.
  erewrite bind_run by reflexivity.
  destruct (bool_decide _); [eexists; reflexivity|].
  destruct (upgrade (spaces s) (_boundSpace (pcidBindings (cpu s) this)))
    as [old|] eqn:Hup.
  - destruct (upgrade_Some _ _ _ Hup) as [_ [v Hv]].
    assert (Hsp' : ∃ sp', (<[old := mkPageSpace (_rootTable v)
                                      ((_numBindings v - 1) mod 2 ^ 32) (_shootSequence v)
                                      (rev (PageBinding.rebind_scan
                                              (_alreadyShotSequence
                                                 (pcidBindings (cpu s) this))
                                              (rev (_shootQueue v)) []).1)]> (spaces s))
                          !! space = Some sp').
    { destruct (decide (space = old)) as [->|Hne].
      - rewrite lookup_insert_eq. eauto.
      - rewrite lookup_insert_ne by congruence. eauto. }
    destruct Hsp' as [sp' Hsp'].
    destruct (havePcids (cpu s)).
    all: erewrite bind_run by reflexivity.
    all: erewrite bind_run by reflexivity.
    all: erewrite bind_run;
      [|erewrite bind_run by reflexivity;
        erewrite bind_run by (apply deref_run; cbn [spaces]; exact Hv);
        rewrite (surjective_pairing (PageBinding.rebind_scan _ _ _));
        erewrite bind_run by reflexivity;
        erewrite bind_run by reflexivity; reflexivity].
    all: erewrite bind_run by apply run_complete_run.
    all: erewrite bind_run by reflexivity.
    all: erewrite bind_run by (apply deref_run; cbn [spaces]; exact Hsp').
    all: erewrite bind_run by reflexivity.
    all: erewrite bind_run by reflexivity.
    all: eexists; reflexivity.
  - destruct (havePcids (cpu s)).
    all: erewrite bind_run by reflexivity.
    all: erewrite bind_run by reflexivity.
    all: erewrite bind_run by reflexivity.
    all: erewrite bind_run by apply run_complete_run.
    all: erewrite bind_run by reflexivity.
    all: erewrite bind_run by (apply deref_run; cbn [spaces]; exact Hsp).
    all: erewrite bind_run by reflexivity.
    all: erewrite bind_run by reflexivity.
    all: eexists; reflexivity.
Qed.

(** X20.  [PageSpace::activate(space)] returns whenever it is called the way
    the kernel calls it: with interrupts disabled, for a space that is
    alive, on a CPU whose bindings carry the tag 0 unless the CPU has
    PCIDs.  No assertion of [rebind] or [makePrimary] fails and no pointer
    to a dead space is followed. *)
Theorem X20_activate_returns space s :
  intsEnabled (cpu s) = false → is_Some (spaces s !! space) →
  (∀ i, havePcids (cpu s) || (_pcid (pcidBindings (cpu s) i) =? 0) = true) →
  ∃ s', PageSpace.activate space s = Ok (tt, s').
Proof.
  intros Hints Halive Hpcid. unfold PageSpace.activate.
  pose proof (loop_result (cpu s) (spaces s) space maxPcidCount 0 0) as Hres.
  destruct (PageSpace.activate_loop (cpu s) (spaces s) space maxPcidCount 0 0) as [j|k].
  - destruct Hres as [_ Hbound]. apply makePrimary_returns; [exact Hints|apply Hpcid|].
    unfold bound_to in Hbound. rewrite Hbound. eauto.
  - destruct (rebind_returns k space s Hints Halive) as [s0 Hreb].
    rewrite (bind_run _ _ _ _ _ Hreb).
    destruct (rebind_inv _ _ _ _ _ Hreb) as (_ & Hhp & Hi & _ & _ & _ & Hp & Hbound).
    apply makePrimary_returns.
    + rewrite Hi. exact Hints.
    + rewrite Hhp, Hp. apply Hpcid.
    + rewrite Hbound. eauto.
Qed.

Lemma X20_witness : ∃ s', PageSpace.activate 1 fresh_cpu_state = Ok (tt, s').
Proof.
  apply X20_activate_returns.
  - reflexivity.
  - exists (PageSpace_new 0x1000). reflexivity.
  - intros i. reflexivity.
Defined.

(* ===================================================================== *)
(** ** A binding that has caught up *)
(* ===================================================================== *)

(** [shootdown] on a binding that is bound to a live space and owes nothing
    to any queued node takes and releases the mutex, and that is all. *)
Lemma shootdown_caught_up this s sp v :
  intsEnabled (cpu s) = false →
  upgrade (spaces s) (_boundSpace (pcidBindings (cpu s) this)) = Some sp →
  spaces s !! sp = Some v →
  Forall (λ N, ShootNode._sequence N ≤ _alreadyShotSequence (pcidBindings (cpu s) this))
         (_shootQueue v) →
  ∃ s', PageBinding.shootdown this s = Ok (tt, s') ∧ spaces s' = spaces s ∧
        events s' = events s ++ [EvAcquire sp; EvRelease sp].
Proof.
  intros Hints Hup Hv Hold. unfold PageBinding.shootdown.
  erewrite bind_run by reflexivity.
  erewrite bind_run by (apply assert_run; rewrite Hints; reflexivity).
  erewrite bind_run by reflexivity.
  erewrite bind_run by (unfold grab; rewrite Hup; reflexivity).
  cbv beta iota.
  erewrite bind_run by reflexivity.
  erewrite bind_run by (apply deref_run; cbn [spaces]; exact Hv).
  destruct (rev (_shootQueue v)) as [|back rest] eqn:Hrev.
  - eexists. split; [reflexivity|]. cbn. rewrite <- app_assoc. auto.
  - assert (Hback : (ShootNode._sequence back
                     >? _alreadyShotSequence (pcidBindings (cpu s) this)) = false).
    { rewrite Forall_forall in Hold.
      assert (Hin : back ∈ _shootQueue v).
      { apply (proj1 (elem_of_rev _ _)). rewrite Hrev. apply list_elem_of_here. }
      specialize (Hold back Hin).
      destruct (Z.gtb_spec (ShootNode._sequence back)
                  (_alreadyShotSequence (pcidBindings (cpu s) this))); [lia|reflexivity]. }
    erewrite bind_run
      by (cbn [PageBinding.shootdown_scan cpu]; rewrite Hback; reflexivity).
    erewrite bind_run by reflexivity.
    erewrite bind_run by reflexivity.
    erewrite bind_run by reflexivity.
    eexists. split; [reflexivity|]. cbn. rewrite <- app_assoc.
    split; [|reflexivity].
    change (rev rest ++ [back]) with (rev (back :: rest)).
    rewrite <- Hrev, rev_involutive. destruct v. cbn. apply insert_id. exact Hv.
Qed.

Lemma StronglySorted_last {A} (R : A → A → Prop) (l : list A) (x : A) :
  StronglySorted R (l ++ [x]) → Forall (λ y, R y x) l.
Proof.
  induction l as [|a l IH]; intros H; [constructor|].
  cbn in H. inversion H as [|? ? Hl Ha]; subst.
  constructor; [|apply IH; exact Hl].
  apply Forall_app in Ha as [_ Hx]. inversion Hx; assumption.
Qed.

(** In a queue that is in order no node is newer than the back. *)
Lemma sorted_back q back rest :
  StronglySorted earlier q → rev q = back :: rest →
  Forall (λ N, ShootNode._sequence N ≤ ShootNode._sequence back) q.
Proof.
  intros Hsorted Hrev.
  assert (Hq : q = rev rest ++ [back]).
  { rewrite <- (rev_involutive q), Hrev. reflexivity. }
  rewrite Hq in *. apply Forall_app. split.
  - eapply Forall_impl; [exact (StronglySorted_last _ _ _ Hsorted)|].
    cbn. unfold earlier. intros N HN. lia.
  - constructor; [lia|constructor].
Qed.

Lemma shootdown_unbound this s :
  intsEnabled (cpu s) = false →
  _boundSpace (pcidBindings (cpu s) this) = None →
  PageBinding.shootdown this s = Ok (tt, s).
Proof.
  intros Hints Hbs. unfold PageBinding.shootdown.
  erewrite bind_run by reflexivity.
  erewrite bind_run by (apply assert_run; rewrite Hints; reflexivity).
  erewrite bind_run by reflexivity.
  erewrite bind_run by (unfold grab; rewrite Hbs; reflexivity).
  cbn [upgrade]. rewrite Hbs. reflexivity.
Qed.

(** X21.  A second [shootdown] on a binding, right after one that has
    returned, finds nothing to do if the queues are in order: it returns,
    changes no space (no counter is decremented a second time), invalidates
    nothing and calls no callback; at most it takes and releases the mutex
    of the bound space. *)
Theorem X21_shootdown_again this s u s1 :
  (∀ sp v, spaces s !! sp = Some v → StronglySorted earlier (_shootQueue v)) →
  PageBinding.shootdown this s = Ok (u, s1) →
  ∃ s2, PageBinding.shootdown this s1 = Ok (tt, s2) ∧ spaces s2 = spaces s1 ∧
        (events s2 = events s1 ∨
         ∃ sp, events s2 = events s1 ++ [EvAcquire sp; EvRelease sp]).
Proof.
  intros Hsorted H.
  destruct (shootdown_spec _ _ _ _ H) as (Hints & _ & Hints1 & _ & Hcases).
  cbv zeta in Hcases. rewrite <- Hints1 in Hints.
  set (b := pcidBindings (cpu s) this) in *.
  destruct (upgrade (spaces s) (_boundSpace b)) as [sp|] eqn:Hup.
  - destruct Hcases as (v & Hv & Hcases).
    destruct (rev (_shootQueue v)) as [|back rest] eqn:Hrev.
    + destruct Hcases as (Hs & Hb & _).
      destruct (shootdown_caught_up this s1 sp v Hints) as (s2 & Hrun & Hs2 & He2).
      * rewrite Hs, Hb. exact Hup.
      * rewrite Hs. exact Hv.
      * assert (Hq : _shootQueue v = []).
        { rewrite <- (rev_involutive (_shootQueue v)), Hrev. reflexivity. }
        rewrite Hq. constructor.
      * exists s2. eauto.
    + destruct Hcases as (Hs & Hb & _).
      destruct (shootdown_caught_up this s1 sp (shot_space (_alreadyShotSequence b) v)
                  Hints) as (s2 & Hrun & Hs2 & He2).
      * rewrite Hs, Hb, fn_lookup_insert. cbn [_boundSpace].
        rewrite upgrade_insert by eauto. exact Hup.
      * rewrite Hs. apply lookup_insert_eq.
      * rewrite Hb, fn_lookup_insert. cbn [_alreadyShotSequence].
        unfold shot_space. cbn [_shootQueue]. apply Forall_forall. intros N' HN'.
        apply (proj1 (elem_of_rev _ _)) in HN'.
        destruct (rebind_scan_sequences _ _ _ _ HN') as (N & HN & ->).
        apply (proj1 (elem_of_rev _ _)) in HN.
        pose proof (sorted_back _ _ _ (Hsorted sp v Hv) Hrev) as Hle.
        rewrite Forall_forall in Hle. exact (Hle N HN).
      * exists s2. eauto.
  - destruct Hcases as [_ Hcases].
    assert (Hbs1 : _boundSpace (pcidBindings (cpu s1) this) = None).
    { destruct (_boundSpace b) as [dead|] eqn:Hbs.
      - destruct Hcases as [Hb _]. rewrite Hb, fn_lookup_insert. reflexivity.
      - destruct Hcases as [Hb _]. rewrite Hb. exact Hbs. }
    exists s1. rewrite (shootdown_unbound this s1 Hints Hbs1). auto.
Qed.

Lemma queued_state_spaces :
  spaces queued_state
  = {[1%nat := mkPageSpace 0x1000 1 2 [ShootNode.mk 7 0x7000 0x1000 0 1;
                                       ShootNode.mk 8 0x8000 0x1000 1 1]]}.
Proof. vm_compute. reflexivity. Qed.

Lemma queued_state_sorted sp v :
  spaces queued_state !! sp = Some v → StronglySorted earlier (_shootQueue v).
Proof.
  rewrite queued_state_spaces. intros Hv.
  apply lookup_singleton_Some in Hv as [_ <-].
  repeat constructor.
Qed.

Lemma queued_state_shootdown_ok :
  is_ok (PageBinding.shootdown 0 queued_state) = true.
Proof. vm_compute. reflexivity. Qed.

Lemma X21_witness :
  ∃ s1 s2, PageBinding.shootdown 0 queued_state = Ok (tt, s1) ∧
           PageBinding.shootdown 0 s1 = Ok (tt, s2) ∧ spaces s2 = spaces s1.
Proof.
  pose proof queued_state_shootdown_ok as Hok.
  destruct (PageBinding.shootdown 0 queued_state) as [[[] s1]| | |] eqn:Hrun;
    try discriminate Hok.
  destruct (X21_shootdown_again _ _ _ _ queued_state_sorted Hrun) as (s2 & H2 & Hs & _).
  exists s1, s2. auto.
Defined.

(* ===================================================================== *)
(** ** What [makePrimary] writes to CR3 *)
(* ===================================================================== *)

Lemma bits_above x k n : 0 ≤ x < 2 ^ k → k ≤ n → Z.testbit x n = false.
Proof.
  intros Hx Hn. destruct (Z.eq_dec x 0) as [->|Hne]; [apply Z.bits_0|].
  apply Z.bits_above_log2; [lia|].
  assert (Z.log2 x < k); [|lia]. apply Z.log2_lt_pow2; lia.
Qed.

Lemma cr3_value_bit hp root pcid n :
  0 ≤ n →
  Z.testbit (cr3_value hp root pcid) n
  = Z.testbit root n || Z.testbit pcid n || hp && (63 =? n).
Proof.
  intros Hn. unfold cr3_value. cbv zeta. destruct hp; cbn [andb].
  - rewrite Z.shiftl_1_l, !Z.lor_spec, Z.pow2_bits_eqb by lia. reflexivity.
  - rewrite Z.lor_spec, orb_false_r. reflexivity.
Qed.

(** X22.  [makePrimary] writes CR3 exactly if the binding was rebound or is
    not the primary binding.  For a page-aligned root table below 2^52 and
    a tag below 2^12, what it writes holds the root table of the bound space
    in bits 12-51, the tag of the binding in bits 0-11, and has bit 63 (keep
    the TLB entries of the tag) exactly if the CPU has PCIDs. *)
Theorem X22_makePrimary_cr3 this s u s' :
  PageBinding.makePrimary this s = Ok (u, s') →
  let b := pcidBindings (cpu s) this in
  if _wasRebound b || negb (bool_decide (_primaryBinding (pageContext (cpu s)) = Some this))
  then ∃ sp v cr3,
         upgrade (spaces s) (_boundSpace b) = Some sp ∧ spaces s !! sp = Some v ∧
         events s' = events s ++ [EvWriteCr3 cr3] ∧
         (page_aligned (_rootTable v) → 0 ≤ _rootTable v < 2 ^ 52 → 0 ≤ _pcid b < 2 ^ 12 →
          Z.land cr3 kAddressMask = _rootTable v ∧
          Z.land cr3 0xFFF = _pcid b ∧
          Z.testbit cr3 63 = havePcids (cpu s))
  else events s' = events s.
Proof.
  intros H. destruct (makePrimary_spec _ _ _ _ H) as (_ & _ & _ & _ & Hev).
  cbv zeta in *. destruct (_ || _); [|exact Hev].
  destruct Hev as (sp & v & Hup & Hv & Hev).
  exists sp, v, (cr3_value (havePcids (cpu s)) (_rootTable v)
                   (_pcid (pcidBindings (cpu s) this))).
  split; [exact Hup|]. split; [exact Hv|]. split; [exact Hev|].
  intros Ha Hr Hp. split; [|split].
  - apply leaf_frame_field; [exact Ha|exact Hr|]. intros n Hn.
    rewrite cr3_value_bit by lia.
    rewrite (bits_above (_pcid _) 12 n) by lia.
    replace (63 =? n) with false by (symmetry; apply Z.eqb_neq; lia).
    rewrite andb_false_r, !orb_false_r. reflexivity.
  - apply Z.bits_inj'. intros n Hn.
    rewrite Z.land_spec, cr3_value_bit by lia.
    change 0xFFF with (Z.ones 12).
    destruct (Z.lt_ge_cases n 12) as [Hlow|Hhigh].
    + rewrite Z.ones_spec_low, (aligned_low_bits _ n Ha) by lia.
      replace (63 =? n) with false by (symmetry; apply Z.eqb_neq; lia).
      rewrite andb_false_r, orb_false_r, andb_true_r. reflexivity.
    + rewrite Z.ones_spec_high, andb_false_r by lia.
      symmetry. apply (bits_above _ 12); lia.
  - rewrite cr3_value_bit by lia.
    rewrite (bits_above (_rootTable v) 52 63), (bits_above (_pcid _) 12 63) by lia.
    destruct (havePcids (cpu s)); reflexivity.
Qed.

Lemma X22_witness :
  ∃ s' cr3, PageBinding.makePrimary 0 (state_after (PageBinding.rebind 0 1 fresh_cpu_state)
                                         fresh_cpu_state) = Ok (tt, s') ∧
            events s' = [EvInvalidatePcid 1; EvAcquire 1; EvRelease 1; EvWriteCr3 cr3] ∧
            Z.land cr3 kAddressMask = 0x1000 ∧ Z.land cr3 0xFFF = 1 ∧
            Z.testbit cr3 63 = true.
Proof.
  set (s := state_after (PageBinding.rebind 0 1 fresh_cpu_state) fresh_cpu_state).
  assert (Hok : is_ok (PageBinding.makePrimary 0 s) = true) by (vm_compute; reflexivity).
  destruct (PageBinding.makePrimary 0 s) as [[[] s']| | |] eqn:Hrun; try discriminate Hok.
  pose proof (X22_makePrimary_cr3 _ _ _ _ Hrun) as Hcr3. cbv zeta in Hcr3.
  match type of Hcr3 with
  | if ?c then _ else _ =>
      assert (Hcond : c = true) by (vm_compute; reflexivity); rewrite Hcond in Hcr3
  end.
  destruct Hcr3 as (sp & v & cr3 & Hup & Hv & Hev & Hbits).
  assert (Hsp : sp = 1%nat).
  { assert (Hup1 : upgrade (spaces s) (_boundSpace (pcidBindings (cpu s) 0)) = Some 1%nat)
      by (vm_compute; reflexivity).
    congruence. }
  subst sp.
  assert (Hv1 : spaces s !! 1%nat = Some (mkPageSpace 0x1000 1 0 []))
    by (vm_compute; reflexivity).
  assert (Hveq : v = mkPageSpace 0x1000 1 0 []) by congruence. subst v.
  assert (Hevs : events s = [EvInvalidatePcid 1; EvAcquire 1; EvRelease 1])
    by (vm_compute; reflexivity).
  assert (Hpcid : _pcid (pcidBindings (cpu s) 0) = 1) by (vm_compute; reflexivity).
  rewrite Hevs, Hpcid in *. cbn [_rootTable] in Hbits.
  destruct Hbits as (Hf & Hp & H63); [reflexivity|lia|lia|].
  exists s', cr3. auto.
Defined.

(* ===================================================================== *)
(** ** When [mapSingle4k] returns *)
(* ===================================================================== *)

(** A table that has just been cleared and installed is empty. *)
Lemma new_table_word m tbl i e f j :
  page_aligned tbl → page_aligned f → tbl ≠ f → 0 ≤ i < 512 → 0 ≤ j < 512 →
  (<[tbl + 8 * i := e]> (zero_words f 0 512 m)) (f + 8 * j) = 0.
Proof.
  intros Ht Hf Hne Hi Hj. rewrite fn_lookup_insert_ne.
  - apply zero_table_word. exact Hj.
  - intros Heq. apply Hne.
    eapply (frames_meet tbl f (tbl + 8 * i)); [exact Ht|exact Hf|..].
    + apply word_in_frame. exact Hi.
    + rewrite Heq. apply word_in_frame. exact Hj.
Qed.

Lemma user_assert_run e (user_page : bool) (s : PtState) :
  Z.testbit e 2 = user_page →
  assert (if user_page then has_bit e kPageUser else Z.land e kPageUser =? 0) s
  = Ok (tt, s).
Proof.
  intros H. apply assert_run. destruct user_page.
  - rewrite has_bit_user. exact H.
  - rewrite land_user_zero, H. reflexivity.
Qed.

Lemma caching_block_run (e : Z) c (s : PtState) :
  c ≠ CachingMode.uncached →
  (if CachingMode.eqb c CachingMode.writeThrough then ret (Z.lor e kPagePwt)
   else if CachingMode.eqb c CachingMode.writeCombine
        then ret (Z.lor e (Z.lor kPagePat kPagePwt))
        else assert (CachingMode.eqb c CachingMode.null
                     || CachingMode.eqb c CachingMode.writeBack) ;; ret e) s
  = Ok (if CachingMode.eqb c CachingMode.writeThrough then Z.lor e kPagePwt
        else if CachingMode.eqb c CachingMode.writeCombine
             then Z.lor e (Z.lor kPagePat kPagePwt)
             else e, s).
Proof. intros Hc. destruct c; try reflexivity. contradiction. Qed.

Section make_table_run.
Variable access : Z → M PtState Z.
Hypothesis access_transparent : transparent access.
Variable okp : Z → Prop.
Hypothesis access_run : ∀ p s, page_aligned p → okp p → access p s = Ok (p, s).
Variable user_page : bool.
Variable i1 : Z.
Hypothesis i1_range : 0 ≤ i1 < 512.

(** The block "make sure there is a next-level table" returns, takes a frame
    exactly if the entry is not present, and leaves the walk ready for the
    next level. *)
Lemma make_table_run s tbl i rest :
  walk_ready okp user_page i1 s tbl (i :: rest) →
  ∃ next s',
    make_table access user_page tbl i (mem s (tbl + 8 * i)) s = Ok (next, s') ∧
    Z.testbit (mem s' (tbl + 8 * i)) 2 = user_page ∧
    walk_ready okp user_page i1 s' next rest ∧
    drop (S (length rest) - length (walk_tables (mem s') next rest)) (frames s')
    = drop (S (length (i :: rest)) - length (walk_tables (mem s) tbl (i :: rest)))
           (frames s).
Proof.
  intros (Hinv & Hcount & Hpath & Hok & Hokf & Hleaf).
  pose proof Hinv as (Ht & Hidx & Hnd & Hfr & Hfresh).
  assert (Hi : 0 ≤ i < 512) by (inversion Hidx; assumption).
  assert (Hrest : Forall (λ j, 0 ≤ j < 512) rest) by (inversion Hidx; assumption).
  cbn [walk_tables walk_path length] in Hcount, Hpath, Hok, Hokf |- *.
  destruct (present (mem s (tbl + 8 * i))) eqn:Hp.
  - assert (Hrun : make_table access user_page tbl i (mem s (tbl + 8 * i)) s
                   = Ok (Z.land (mem s (tbl + 8 * i)) kAddressMask, s)).
    { unfold make_table. rewrite has_bit_present, Hp.
      apply access_run; [apply land_mask_aligned|].
      inversion Hok as [|? ? _ Hok']; subst.
      rewrite Forall_forall in Hok'. apply Hok', walk_tables_head. }
    destruct (make_table_present access access_transparent user_page _ _ _ _ _ _
                Hinv Hp Hrun) as (_ & _ & Hinv').
    exists (Z.land (mem s (tbl + 8 * i)) kAddressMask), s.
    split; [exact Hrun|].
    split; [inversion Hpath as [|? ? Hhead _]; apply Hhead; exact Hp|].
    split; [|reflexivity].
    split; [exact Hinv'|]. split; [exact Hcount|].
    split; [inversion Hpath; assumption|].
    split; [inversion Hok; assumption|].
    split; [exact Hokf|].
    intros a Ha. apply Hleaf.
    destruct rest as [|j rest']; cbn [app] in Ha |- *; rewrite walk_cons, Hp; exact Ha.
  - destruct (frames s) as [|f fr] eqn:Hfrs; [cbn [length] in Hcount; lia|].
    cbn [take length] in Hokf, Hcount.
    inversion Hokf as [|? ? Hokp Hokf']; subst.
    inversion Hfr as [|? ? [Hfa Hfrange] Hfr']; subst.
    set (m' := <[tbl + 8 * i := table_entry f user_page]> (zero_words f 0 512 (mem s))).
    assert (Hrun : make_table access user_page tbl i (mem s (tbl + 8 * i)) s
                   = Ok (f, mkPtState m' fr)).
    { unfold make_table. rewrite has_bit_present, Hp.
      unfold bind at 1, allocate. rewrite Hfrs.
      erewrite bind_run by (apply access_run; assumption). reflexivity. }
    destruct (make_table_absent access access_transparent user_page _ _ _ _ _ _
                Hinv Hp Hrun) as (_ & _ & Hinv' & Hne).
    assert (Hz : ∀ j, 0 ≤ j < 512 → m' (f + 8 * j) = 0).
    { intros j Hj. apply new_table_word; assumption. }
    assert (Hwt : walk_tables m' f rest = [f]).
    { destruct rest as [|j rest']; [reflexivity|]. cbn [walk_tables].
      rewrite Hz by (inversion Hrest; assumption). reflexivity. }
    exists f, (mkPtState m' fr). split; [exact Hrun|]. cbn [mem frames].
    split.
    { unfold m'. rewrite fn_lookup_insert. apply table_entry_user. exact Hfa. }
    rewrite Hwt. cbn [length].
    replace (S (length rest) - 1)%nat with (length rest) by lia.
    split; [|reflexivity].
    split; [exact Hinv'|]. cbn [mem frames]. rewrite Hwt. cbn [length].
    replace (S (length rest) - 1)%nat with (length rest) by lia.
    split; [lia|].
    split.
    { destruct rest as [|j rest']; [constructor|]. cbn [walk_path].
      inversion Hrest as [|? ? Hj _]; subst.
      rewrite Hz by exact Hj. change (present 0) with false. cbv iota.
      constructor; [|constructor].
      intros Hpj. rewrite Hz in Hpj by exact Hj. discriminate Hpj. }
    split; [constructor; [exact Hokp|constructor]|].
    split; [exact Hokf'|].
    intros a Ha. destruct rest as [|j rest'].
    + cbn in Ha. injection Ha as <-. rewrite Hz by exact i1_range. reflexivity.
    + exfalso. inversion Hrest as [|? ? Hj _]; subst.
      destruct rest' as [|j' rest'']; cbn [app] in Ha; rewrite walk_cons, Hz in Ha by exact Hj;
        discriminate Ha.
Qed.
End make_table_run.

Lemma leaf_ready okp user_page i1 s t1 :
  walk_ready okp user_page i1 s t1 [] → present (mem s (t1 + 8 * i1)) = false.
Proof. intros (_ & _ & _ & _ & _ & Hleaf). apply Hleaf. reflexivity. Qed.

Lemma fresh_frames_ready (okp : Z → Prop) user_page s root v :
  fresh_frames s root v →
  (missing_tables (mem s) root v ≤ length (frames s))%nat →
  path_user (mem s) root v user_page →
  Forall okp (tables_of (mem s) root v) →
  Forall okp (take (missing_tables (mem s) root v) (frames s)) →
  leaf_present (mem s) root v = false →
  walk_ready okp user_page (index1 v) s root [index4 v; index3 v; index2 v].
Proof.
  intros Hfresh Hcount Hpu Hok Hokf Hleaf.
  split; [apply fresh_frames_walk_inv; exact Hfresh|].
  split; [exact Hcount|]. split; [exact Hpu|]. split; [exact Hok|].
  split; [exact Hokf|].
  intros a Ha. unfold leaf_present, leaf_address, indices in Hleaf.
  cbn [app] in Ha. rewrite Ha in Hleaf. exact Hleaf.
Qed.

(** [KernelPageSpace::mapSingle4k] returns on a page without present leaf
    whose walk has no user bit, if the allocator holds a frame for every
    missing table; it takes exactly those frames. *)
Lemma kernel_map_run root v p flags c s :
  fresh_frames s root v → page_aligned v → page_aligned p →
  c ≠ CachingMode.uncached →
  (missing_tables (mem s) root v ≤ length (frames s))%nat →
  path_user (mem s) root v false →
  leaf_present (mem s) root v = false →
  ∃ s', KernelPageSpace.mapSingle4k root v p flags c s = Ok (tt, s') ∧
        frames s' = drop (missing_tables (mem s) root v) (frames s).
Proof.
  intros Hfresh Hv Hp Hc Hcount Hpu Hleaf.
  assert (Hrun : ∀ q (t : PtState), page_aligned q → True →
                                    SkeletalRegion_access q t = Ok (q, t))
    by reflexivity.
  assert (Hready : walk_ready (λ _, True) false (index1 v) s root
                     [index4 v; index3 v; index2 v]).
  { apply fresh_frames_ready; try assumption; apply Forall_forall; auto. }
  destruct (make_table_run SkeletalRegion_access SkeletalRegion_transparent _ Hrun false
              (index1 v) (index1_range v) _ _ _ _ Hready)
    as (t3 & s1 & H4 & U4 & R1 & D1).
  destruct (make_table_run SkeletalRegion_access SkeletalRegion_transparent _ Hrun false
              (index1 v) (index1_range v) _ _ _ _ R1)
    as (t2 & s2 & H3 & U3 & R2 & D2).
  destruct (make_table_run SkeletalRegion_access SkeletalRegion_transparent _ Hrun false
              (index1 v) (index1_range v) _ _ _ _ R2)
    as (t1 & s3 & H2 & U2 & R3 & D3).
  pose proof (leaf_ready _ _ _ _ _ R3) as Hl.
  exists (mkPtState (<[t1 + 8 * index1 v := kernel_leaf p flags c]> (mem s3)) (frames s3)).
  split.
  - unfold KernelPageSpace.mapSingle4k.
    erewrite bind_run by (apply assert_run, Z.eqb_eq; exact Hv).
    erewrite bind_run by (apply assert_run, Z.eqb_eq; exact Hp). cbv zeta.
    erewrite bind_run by reflexivity.
    erewrite bind_run by reflexivity.
    erewrite bind_run by exact H4.
    erewrite bind_run by reflexivity.
    erewrite bind_run by (apply assert_run; rewrite has_bit_user, U4; reflexivity).
    erewrite bind_run by reflexivity.
    erewrite bind_run by exact H3.
    erewrite bind_run by reflexivity.
    erewrite bind_run by (apply assert_run; rewrite has_bit_user, U3; reflexivity).
    erewrite bind_run by reflexivity.
    erewrite bind_run by exact H2.
    erewrite bind_run by reflexivity.
    erewrite bind_run by (apply assert_run; rewrite has_bit_user, U2; reflexivity).
    erewrite bind_run by reflexivity.
    erewrite bind_run by (apply assert_run; rewrite land_present_zero, Hl; reflexivity).
    erewrite bind_run by (apply caching_block_run; exact Hc).
    reflexivity.
  - cbn [frames]. etransitivity; [|exact D1]. etransitivity; [|exact D2].
    etransitivity; [|exact D3]. reflexivity.
Qed.

(** [ClientPageSpace::mapSingle4k] returns on a page without present leaf
    whose walk has the user bit that the call asks for, if the tables of the
    walk lie in the identity window and the allocator holds a frame in that
    window for every missing table; it takes exactly those frames. *)
Lemma client_map_run root v p user_page flags c s :
  fresh_frames s root v → page_aligned v → page_aligned p →
  c ≠ CachingMode.uncached →
  in_window (mem s) root v →
  Forall (λ f, f < 0x400000000000) (take (missing_tables (mem s) root v) (frames s)) →
  (missing_tables (mem s) root v ≤ length (frames s))%nat →
  path_user (mem s) root v user_page →
  leaf_present (mem s) root v = false →
  ∃ s', ClientPageSpace.mapSingle4k root v p user_page flags c s = Ok (tt, s') ∧
        frames s' = drop (missing_tables (mem s) root v) (frames s).
Proof.
  intros Hfresh Hv Hp Hc Hwin Hfw Hcount Hpu Hleaf.
  assert (Hroot : PageAccessor.new root s = Ok (root, s)).
  { apply PageAccessor_run; [apply Hfresh|].
    unfold in_window in Hwin. rewrite Forall_forall in Hwin.
    apply Hwin, walk_tables_head. }
  assert (Hready : walk_ready (λ t, t < 0x400000000000) user_page (index1 v) s root
                     [index4 v; index3 v; index2 v])
    by (apply fresh_frames_ready; assumption).
  destruct (make_table_run PageAccessor.new PageAccessor_transparent _ PageAccessor_run
              user_page (index1 v) (index1_range v) _ _ _ _ Hready)
    as (t3 & s1 & H4 & U4 & R1 & D1).
  destruct (make_table_run PageAccessor.new PageAccessor_transparent _ PageAccessor_run
              user_page (index1 v) (index1_range v) _ _ _ _ R1)
    as (t2 & s2 & H3 & U3 & R2 & D2).
  destruct (make_table_run PageAccessor.new PageAccessor_transparent _ PageAccessor_run
              user_page (index1 v) (index1_range v) _ _ _ _ R2)
    as (t1 & s3 & H2 & U2 & R3 & D3).
  pose proof (leaf_ready _ _ _ _ _ R3) as Hl.
  exists (mkPtState (<[t1 + 8 * index1 v := client_leaf p user_page flags c]> (mem s3))
                    (frames s3)).
  split.
  - unfold ClientPageSpace.mapSingle4k.
    erewrite bind_run by (apply assert_run, Z.eqb_eq; exact Hv).
    erewrite bind_run by (apply assert_run, Z.eqb_eq; exact Hp). cbv zeta.
    erewrite bind_run by exact Hroot.
    erewrite bind_run by reflexivity.
    erewrite bind_run by exact H4.
    erewrite bind_run by reflexivity.
    erewrite bind_run by (apply user_assert_run; exact U4).
    erewrite bind_run by reflexivity.
    erewrite bind_run by exact H3.
    erewrite bind_run by reflexivity.
    erewrite bind_run by (apply user_assert_run; exact U3).
    erewrite bind_run by reflexivity.
    erewrite bind_run by exact H2.
    erewrite bind_run by reflexivity.
    erewrite bind_run by (apply user_assert_run; exact U2).
    erewrite bind_run by reflexivity.
    erewrite bind_run by (apply assert_run; rewrite has_bit_present, Hl; reflexivity).
    erewrite bind_run by (apply caching_block_run; exact Hc).
    reflexivity.
  - cbn [frames]. etransitivity; [|exact D1]. etransitivity; [|exact D2].
    etransitivity; [|exact D3]. reflexivity.
Qed.

Lemma path_user_check m root v user_page :
  forallb (λ a, implb (present (m a)) (Bool.eqb (Z.testbit (m a) 2) user_page))
          (walk_path m root [index4 v; index3 v; index2 v]) = true →
  path_user m root v user_page.
Proof.
  intros H. unfold path_user. rewrite forallb_forall in H.
  apply Forall_forall. intros a Ha Hp.
  apply list_elem_of_In, H in Ha. rewrite Hp in Ha. apply eqb_prop. exact Ha.
Qed.

Lemma window_check (l : list Z) :
  forallb (λ f, f <? 0x400000000000) l = true → Forall (λ f, f < 0x400000000000) l.
Proof.
  intros H. rewrite forallb_forall in H. apply Forall_forall. intros f Hf.
  apply Z.ltb_lt, H, list_elem_of_In, Hf.
Qed.

(** X23.  [KernelPageSpace::mapSingle4k(v, p, flags, c)] returns whenever
    [v] and [p] are page-aligned, [c] is not [uncached], [v] has no present
    leaf PTE, no present entry above the leaf on the walk of [v] has the
    user bit, and the allocator holds a frame for every table that is
    missing on the walk.  It takes exactly those frames, one for each level
    below the first entry that is not present (none if the three tables
    exist), and the walk of [v] then ends at the leaf word it has written. *)
Theorem X23_kernel_map_returns root v p flags c s :
  fresh_frames s root v → page_aligned v → page_aligned p →
  c ≠ CachingMode.uncached →
  (missing_tables (mem s) root v ≤ length (frames s))%nat →
  path_user (mem s) root v false →
  leaf_present (mem s) root v = false →
  ∃ s' a, KernelPageSpace.mapSingle4k root v p flags c s = Ok (tt, s') ∧
          frames s' = drop (missing_tables (mem s) root v) (frames s) ∧
          leaf_address (mem s') root v = Some a ∧
          mem s' a = kernel_leaf p flags c.
Proof.
  intros Hfresh Hv Hp Hc Hcount Hpu Hleaf.
  destruct (kernel_map_run root v p flags c s Hfresh Hv Hp Hc Hcount Hpu Hleaf)
    as (s' & Hrun & Hfr).
  destruct (kernel_map_mapped _ _ _ _ _ _ _ _ Hfresh Hrun)
    as (_ & _ & _ & t3 & t2 & t1 & e4 & e3 & e2 & Hm & _).
  exists s', (t1 + 8 * index1 v).
  split; [exact Hrun|]. split; [exact Hfr|].
  split; [apply (mapped_leaf_address _ _ _ _ _ _ _ _ _ _ _ _ _ Hm)|].
  eapply mapped_leaf. exact Hm.
Qed.

Lemma X23_witness :
  ∃ s' a, KernelPageSpace.mapSingle4k 0x1000 0x8000 0x6000 0 CachingMode.null after_map
          = Ok (tt, s') ∧
          frames s' = drop (missing_tables (mem after_map) 0x1000 0x8000) (frames after_map) ∧
          leaf_address (mem s') 0x1000 0x8000 = Some a ∧
          mem s' a = kernel_leaf 0x6000 0 CachingMode.null.
Proof.
  apply (X23_kernel_map_returns 0x1000 0x8000 0x6000 0 CachingMode.null after_map).
  - apply no_frames_fresh; [reflexivity|vm_compute; reflexivity].
  - reflexivity.
  - reflexivity.
  - discriminate.
  - apply Nat.leb_le. vm_compute. reflexivity.
  - apply path_user_check. vm_compute. reflexivity.
  - vm_compute. reflexivity.
Defined.

(** X24.  [ClientPageSpace::mapSingle4k(v, p, user, flags, c)] returns
    whenever [v] and [p] are page-aligned, [c] is not [uncached], [v] has no
    present leaf PTE, every present entry above the leaf on the walk of [v]
    has the user bit exactly if [user] is true, the tables on the walk lie
    in the identity window (below [0x4000'0000'0000]), and the allocator
    holds a frame in that window for every table that is missing.  It takes
    exactly those frames, and the walk of [v] then ends at the leaf word it
    has written. *)
Theorem X24_client_map_returns root v p user_page flags c s :
  fresh_frames s root v → page_aligned v → page_aligned p →
  c ≠ CachingMode.uncached →
  in_window (mem s) root v →
  Forall (λ f, f < 0x400000000000) (take (missing_tables (mem s) root v) (frames s)) →
  (missing_tables (mem s) root v ≤ length (frames s))%nat →
  path_user (mem s) root v user_page →
  leaf_present (mem s) root v = false →
  ∃ s' a, ClientPageSpace.mapSingle4k root v p user_page flags c s = Ok (tt, s') ∧
          frames s' = drop (missing_tables (mem s) root v) (frames s) ∧
          leaf_address (mem s') root v = Some a ∧
          mem s' a = client_leaf p user_page flags c.
Proof.
  intros Hfresh Hv Hp Hc Hwin Hfw Hcount Hpu Hleaf.
  destruct (client_map_run root v p user_page flags c s Hfresh Hv Hp Hc Hwin Hfw Hcount
              Hpu Hleaf) as (s' & Hrun & Hfr).
  destruct (client_map_mapped _ _ _ _ _ _ _ _ _ Hfresh Hrun)
    as (_ & _ & _ & t3 & t2 & t1 & e4 & e3 & e2 & Hm & _).
  exists s', (t1 + 8 * index1 v).
  split; [exact Hrun|]. split; [exact Hfr|].
  split; [apply (mapped_leaf_address _ _ _ _ _ _ _ _ _ _ _ _ _ Hm)|].
  eapply mapped_leaf. exact Hm.
Qed.

Lemma X24_witness :
  ∃ s' a, ClientPageSpace.mapSingle4k 0x1000 0x7000 0x5000 true page_access.write
            CachingMode.writeCombine empty_memory = Ok (tt, s') ∧
          frames s' = drop (missing_tables (mem empty_memory) 0x1000 0x7000)
                           (frames empty_memory) ∧
          leaf_address (mem s') 0x1000 0x7000 = Some a ∧
          mem s' a = client_leaf 0x5000 true page_access.write CachingMode.writeCombine.
Proof.
  apply (X24_client_map_returns 0x1000 0x7000 0x5000 true page_access.write
           CachingMode.writeCombine empty_memory).
  - apply empty_memory_fresh.
  - reflexivity.
  - reflexivity.
  - discriminate.
  - apply empty_memory_unmapped.
  - apply window_check. vm_compute. reflexivity.
  - apply Nat.leb_le. vm_compute. reflexivity.
  - apply path_user_check. vm_compute. reflexivity.
  - vm_compute. reflexivity.
Defined.

(* ===================================================================== *)
(** ** Mapping a page again after it has been unmapped *)
(* ===================================================================== *)

Section three_levels_fresh.
Variable access : Z → M PtState Z.
Hypothesis access_transparent : transparent access.
Variable user_page : bool.

(** The frames that the allocator still holds after the three table blocks
    are none of the tables that the walk went through. *)
Lemma three_levels_fresh s0 root i4 i3 i2 t3 s1 t2 s2 t1 s3 :
  walk_inv s0 root [i4; i3; i2] →
  make_table access user_page root i4 (mem s0 (root + 8 * i4)) s0 = Ok (t3, s1) →
  make_table access user_page t3 i3 (mem s1 (t3 + 8 * i3)) s1 = Ok (t2, s2) →
  make_table access user_page t2 i2 (mem s2 (t2 + 8 * i2)) s2 = Ok (t1, s3) →
  NoDup (frames s3) ∧
  Forall (λ f, page_aligned f ∧ 0 ≤ f < 2 ^ 52) (frames s3) ∧
  Forall (λ f, f ∉ [root; t3; t2; t1]) (frames s3).
Proof.
  intros Hinv0 H4 H3 H2.
  destruct (make_table_spec access access_transparent user_page _ _ _ _ _ _ Hinv0 H4)
    as (Hinv1 & _ & _ & _ & _ & _ & _ & C4).
  destruct (make_table_spec access access_transparent user_page _ _ _ _ _ _ Hinv1 H3)
    as (Hinv2 & _ & _ & _ & _ & _ & _ & C3).
  destruct (make_table_spec access access_transparent user_page _ _ _ _ _ _ Hinv2 H2)
    as (Hinv3 & _ & _ & _ & _ & _ & _ & C2).
  assert (Hsub : ∀ (s s' : PtState) next a,
             present (mem s a) = true ∧ s' = s ∨
             present (mem s a) = false ∧ frames s = next :: frames s' ∧
             mem s' a = table_entry next user_page →
             ∀ f, f ∈ frames s' → f ∈ frames s).
  { intros s s' next a [[_ ->]|(_ & -> & _)] f Hf; [exact Hf|].
    apply list_elem_of_further. exact Hf. }
  assert (Hhead : ∀ s t idxs f, walk_inv s t idxs → f ∈ frames s → f ≠ t).
  { intros s t idxs f (_ & _ & _ & _ & Hfresh) Hf ->.
    rewrite Forall_forall in Hfresh. apply (Hfresh t Hf), walk_tables_head. }
  destruct Hinv3 as (Ht1 & Hi & Hnd & Hok & Hfresh3).
  split; [exact Hnd|]. split; [exact Hok|].
  apply Forall_forall. intros f Hf Hin.
  pose proof (Hsub _ _ _ _ C2 f Hf) as Hf2.
  pose proof (Hsub _ _ _ _ C3 f Hf2) as Hf1.
  pose proof (Hsub _ _ _ _ C4 f Hf1) as Hf0.
  set_unfold in Hin. destruct Hin as [-> | [-> | [-> | [-> | []]]]].
  - exact (Hhead _ _ _ _ Hinv0 Hf0 eq_refl).
  - exact (Hhead _ _ _ _ Hinv1 Hf1 eq_refl).
  - exact (Hhead _ _ _ _ Hinv2 Hf2 eq_refl).
  - rewrite Forall_forall in Hfresh3. apply (Hfresh3 _ Hf). apply list_elem_of_here.
Qed.
End three_levels_fresh.

(** All that a returned [ClientPageSpace::mapSingle4k] tells about the
    tables of the walk and about the allocator. *)
Lemma client_map_full root v p user_page flags c s u s' :
  fresh_frames s root v →
  ClientPageSpace.mapSingle4k root v p user_page flags c s = Ok (u, s') →
  page_aligned v ∧ page_aligned root ∧
  ∃ t3 t2 t1 e4 e3 e2,
    mapped (mem s) (mem s') (frames s) (frames s') root
           (index4 v) (index3 v) (index2 v) (index1 v) t3 t2 t1 e4 e3 e2
           (client_leaf p user_page flags c) ∧
    (Z.testbit e4 2 = user_page ∧ Z.testbit e3 2 = user_page ∧
     Z.testbit e2 2 = user_page) ∧
    Forall (λ t, t < 0x400000000000) [root; t3; t2; t1] ∧
    NoDup (frames s') ∧
    Forall (λ f, page_aligned f ∧ 0 ≤ f < 2 ^ 52) (frames s') ∧
    Forall (λ f, f ∉ [root; t3; t2; t1]) (frames s').
Proof.
  intros Hfresh H. pose proof Hfresh as (Hr & _).
  apply fresh_frames_walk_inv in Hfresh.
  unfold ClientPageSpace.mapSingle4k in H.
  run_step H. run_step H. cbv zeta in H.
  run_step H. pose proof (PageAccessor_window _ _ _ _ Hm1) as [_ Hw4].
  apply PageAccessor_transparent in Hm1 as [-> ->].
  do 15 run_step H.
  apply caching_block_inv in Hm8 as (-> & Hc & ->).
  run_prim H.
  assert (Huser : ∀ e, (if user_page then has_bit e kPageUser
                        else Z.land e kPageUser =? 0) = true →
                       Z.testbit e 2 = user_page).
  { intros e He. destruct user_page.
    - rewrite has_bit_user in He. exact He.
    - rewrite land_user_zero in He. apply negb_true_iff in He. exact He. }
  apply Huser in Hm2, Hm4, Hm6.
  rewrite has_bit_present in Hm7. apply negb_true_iff in Hm7.
  split; [apply Z.eqb_eq; exact Hm|]. split; [exact Hr|].
  pose proof (three_levels PageAccessor.new PageAccessor_transparent user_page
                s root _ _ _ (index1 v) _ _ _ _ _ _ (client_leaf p user_page flags c)
                Hfresh Hm1 Hm3 Hm5 Hm7) as Hmapped.
  pose proof (three_levels_fresh PageAccessor.new PageAccessor_transparent user_page
                s root _ _ _ _ _ _ _ _ _ Hfresh Hm1 Hm3 Hm5) as Hfr.
  eexists _, _, _, _, _, _. split; [exact Hmapped|].
  split; [auto|].
  split; [repeat constructor; [exact Hw4|eapply make_table_window; eassumption..]|].
  exact Hfr.
Qed.

Lemma kernel_map_full root v p flags c s u s' :
  fresh_frames s root v →
  KernelPageSpace.mapSingle4k root v p flags c s = Ok (u, s') →
  page_aligned v ∧ page_aligned root ∧
  ∃ t3 t2 t1 e4 e3 e2,
    mapped (mem s) (mem s') (frames s) (frames s') root
           (index4 v) (index3 v) (index2 v) (index1 v) t3 t2 t1 e4 e3 e2
           (kernel_leaf p flags c) ∧
    (Z.testbit e4 2 = false ∧ Z.testbit e3 2 = false ∧ Z.testbit e2 2 = false) ∧
    NoDup (frames s') ∧
    Forall (λ f, page_aligned f ∧ 0 ≤ f < 2 ^ 52) (frames s') ∧
    Forall (λ f, f ∉ [root; t3; t2; t1]) (frames s').
Proof.
  intros Hfresh H. pose proof Hfresh as (Hr & _).
  apply fresh_frames_walk_inv in Hfresh.
  unfold KernelPageSpace.mapSingle4k in H.
  run_step H. run_step H. cbv zeta in H.
  do 16 run_step H.
  apply caching_block_inv in Hm8 as (-> & Hc & ->).
  run_prim H.
  rewrite has_bit_user in Hm2, Hm4, Hm6. apply negb_true_iff in Hm2, Hm4, Hm6.
  rewrite land_present_zero in Hm7. apply negb_true_iff in Hm7.
  split; [apply Z.eqb_eq; exact Hm|]. split; [exact Hr|].
  pose proof (three_levels SkeletalRegion_access SkeletalRegion_transparent false
                s root _ _ _ (index1 v) _ _ _ _ _ _ (kernel_leaf p flags c)
                Hfresh Hm1 Hm3 Hm5 Hm7) as Hmapped.
  pose proof (three_levels_fresh SkeletalRegion_access SkeletalRegion_transparent false
                s root _ _ _ _ _ _ _ _ _ Hfresh Hm1 Hm3 Hm5) as Hfr.
  eexists _, _, _, _, _, _. split; [exact Hmapped|].
  split; [auto|]. exact Hfr.
Qed.

(** After the leaf of a mapped page has lost its present bit, the page can
    be mapped again: the three tables are there and carry the user bit that
    the first mapping asked for. *)
Lemma mapped_cleared_ready user_page m0 fr0 s' root v t3 t2 t1 e4 e3 e2 leaf w :
  page_aligned root →
  mapped m0 (mem s') fr0 (frames s') root (index4 v) (index3 v) (index2 v) (index1 v)
         t3 t2 t1 e4 e3 e2 leaf →
  Z.testbit e4 2 = user_page ∧ Z.testbit e3 2 = user_page ∧ Z.testbit e2 2 = user_page →
  NoDup (frames s') →
  Forall (λ f, page_aligned f ∧ 0 ≤ f < 2 ^ 52) (frames s') →
  Forall (λ f, f ∉ [root; t3; t2; t1]) (frames s') →
  present w = false →
  let s2 := mkPtState (<[t1 + 8 * index1 v := w]> (mem s')) (frames s') in
  fresh_frames s2 root v ∧
  tables_of (mem s2) root v = [root; t3; t2; t1] ∧
  missing_tables (mem s2) root v = 0%nat ∧
  path_user (mem s2) root v user_page ∧
  leaf_present (mem s2) root v = false.
Proof.
  intros Hr Hm (U4 & U3 & U2) Hnd Hok Hfresh Hw s2.
  destruct (mapped_then_cleared _ _ _ _ _ _ _ _ _ _ _ _ _ w Hm) as [Htabs Hleaf].
  destruct Hm as [E4 E3 E2 _ P4 P3 P2 T3 T2 T1 _ _ _ N4 N3 N2].
  assert (Hsame : ∀ b, b ≠ t1 + 8 * index1 v → mem s2 b = mem s' b).
  { intros b Hb. unfold s2. cbn [mem]. apply fn_lookup_insert_ne. congruence. }
  change (<[t1 + 8 * index1 v := w]> (mem s')) with (mem s2) in Htabs, Hleaf.
  split; [|split; [exact Htabs|split; [|split]]].
  - split; [exact Hr|]. split; [exact Hnd|]. split; [exact Hok|].
    rewrite Htabs. exact Hfresh.
  - unfold missing_tables. rewrite Htabs. reflexivity.
  - unfold path_user. cbn [walk_path].
    rewrite !(Hsame _ N4), E4, P4, T3, !(Hsame _ N3), E3, P3, T2, !(Hsame _ N2), E2, P2.
    constructor; [intros _; rewrite (Hsame _ N4), E4; exact U4|].
    constructor; [intros _; rewrite (Hsame _ N3), E3; exact U3|].
    constructor; [intros _; rewrite (Hsame _ N2), E2; exact U2|]. constructor.
  - unfold leaf_present. rewrite Hleaf. unfold s2. cbn [mem].
    rewrite fn_lookup_insert. exact Hw.
Qed.

(** X25.  A page that [ClientPageSpace::mapSingle4k] has mapped and
    [unmapRange] has unmapped can be mapped again: the second
    [mapSingle4k(v, p2, user, flags2, c2)], with the same [user] flag, a
    page-aligned [p2] and a caching mode [c2] other than [uncached] (the
    arguments that [mapSingle4k] asserts), returns, takes no frame from the
    allocator (the three tables of the first mapping are still there), and
    the walk of [v] ends at the new leaf word.  The allocator's frames must
    not be tables on the walk of [v], and [v] is a 64-bit address. *)
Theorem X25_client_map_unmap_map root v p user_page flags c mode p2 flags2 c2 s u s1 :
  fresh_frames s root v → 0 ≤ v < 2 ^ 64 →
  ClientPageSpace.mapSingle4k root v p user_page flags c s = Ok (u, s1) →
  page_aligned p2 → c2 ≠ CachingMode.uncached →
  ∃ s2 s3 a,
    ClientPageSpace.unmapRange root v kPageSize mode s1 = Ok (tt, s2) ∧
    ClientPageSpace.mapSingle4k root v p2 user_page flags2 c2 s2 = Ok (tt, s3) ∧
    frames s3 = frames s1 ∧
    leaf_address (mem s3) root v = Some a ∧
    mem s3 a = client_leaf p2 user_page flags2 c2.
Proof.
  intros Hfresh Hrange Hrun Hp2 Hc2.
  destruct (client_map_full _ _ _ _ _ _ _ _ _ Hfresh Hrun)
    as (Hv & Hr & t3 & t2 & t1 & e4 & e3 & e2 & Hm & Hu & Hw & Hnd & Hok & Hfr).
  destruct (mapped_leaf_address _ _ _ _ _ _ _ _ _ _ _ _ _ Hm) as [Hleaf _].
  pose proof (mapped_leaf _ _ _ _ _ _ _ _ _ _ _ _ _ _ _ _ Hm) as EL.
  pose proof (mapped_tables_of _ _ _ _ _ _ _ _ _ _ _ _ _ Hm) as Htabs.
  set (a := t1 + 8 * index1 v) in *.
  set (w := Z.land (mem s1 a) kNotPresent64).
  assert (Hpa : present (mem s1 a) = true) by (rewrite EL; apply client_leaf_present).
  destruct (mapped_cleared_ready user_page _ _ _ _ _ _ _ _ _ _ _ _ w Hr Hm Hu Hnd Hok Hfr
              (present_cleared _)) as (Hfresh2 & Htabs2 & Hmiss & Hpu & Hlp).
  fold a in Hfresh2, Htabs2, Hmiss, Hpu, Hlp.
  set (s2 := mkPtState (<[a := w]> (mem s1)) (frames s1)) in *.
  destruct (client_map_run root v p2 user_page flags2 c2 s2) as (s3 & Hrun3 & Hfr3);
    try assumption.
  { unfold in_window. rewrite Htabs2. exact Hw. }
  { rewrite Hmiss. constructor. }
  { rewrite Hmiss. lia. }
  destruct (client_map_mapped _ _ _ _ _ _ _ _ _ Hfresh2 Hrun3)
    as (_ & _ & _ & t3' & t2' & t1' & e4' & e3' & e2' & Hm3 & _).
  exists s2, s3, (t1' + 8 * index1 v).
  split; [|split; [exact Hrun3|split; [rewrite Hfr3, Hmiss; reflexivity|split]]].
  - unfold ClientPageSpace.unmapRange.
    erewrite bind_run by (apply aligned_assert_run; exact Hv).
    erewrite bind_run by (apply aligned_assert_run; reflexivity).
    change (Z.to_nat (kPageSize / kPageSize)) with 1%nat.
    cbn [ClientPageSpace.unmapRange_loop].
    rewrite Z.add_0_r, (Z.mod_small v) by lia.
    erewrite bind_run; [reflexivity|].
    rewrite unmapRange_body_run; [|exact Hr|unfold in_window; rewrite Htabs; exact Hw].
    rewrite Hleaf, Hpa. reflexivity.
  - apply (mapped_leaf_address _ _ _ _ _ _ _ _ _ _ _ _ _ Hm3).
  - eapply mapped_leaf. exact Hm3.
Qed.

Lemma X25_witness :
  ∃ s1 s2 s3 a,
    ClientPageSpace.mapSingle4k 0x1000 0x7000 0x5000 true page_access.write
      CachingMode.writeCombine empty_memory = Ok (tt, s1) ∧
    ClientPageSpace.unmapRange 0x1000 0x7000 kPageSize PageMode.normal s1 = Ok (tt, s2) ∧
    ClientPageSpace.mapSingle4k 0x1000 0x7000 0x6000 true 0 CachingMode.null s2
    = Ok (tt, s3) ∧
    frames s3 = frames s1 ∧
    leaf_address (mem s3) 0x1000 0x7000 = Some a ∧
    mem s3 a = client_leaf 0x6000 true 0 CachingMode.null.
Proof.
  pose proof client_map_empty_ok as Hok.
  destruct (ClientPageSpace.mapSingle4k 0x1000 0x7000 0x5000 true page_access.write
              CachingMode.writeCombine empty_memory) as [[[] s1]| | |] eqn:Hrun;
    try discriminate Hok.
  assert (Hrange : 0 ≤ 0x7000 < 2 ^ 64) by lia.
  assert (Hp2 : page_aligned 0x6000) by reflexivity.
  assert (Hc2 : CachingMode.null ≠ CachingMode.uncached) by discriminate.
  destruct (X25_client_map_unmap_map _ _ _ _ _ _ PageMode.normal 0x6000 0 CachingMode.null
              _ _ _ (empty_memory_fresh 0x7000) Hrange Hrun Hp2 Hc2)
    as (s2 & s3 & a & H).
  exists s1, s2, s3, a. split; [reflexivity|exact H].
Defined.

Lemma lxor_present_cleared w : present w = true → present (Z.lxor w kPagePresent) = false.
Proof.
  unfold present. intros Hp. rewrite lxor_present_bit by lia. rewrite Hp. reflexivity.
Qed.

(** X26.  A page that [KernelPageSpace::mapSingle4k] has mapped and
    [unmapSingle4k] has unmapped can be mapped again: the second
    [mapSingle4k(v, p2, flags2, c2)], with a page-aligned [p2] and a caching
    mode [c2] other than [uncached] (the arguments that [mapSingle4k]
    asserts), returns, takes no frame from the allocator, and the walk of
    [v] ends at the new leaf word.  The allocator's frames must not be
    tables on the walk of [v]. *)
Theorem X26_kernel_map_unmap_map root v p flags c p2 flags2 c2 s u s1 :
  fresh_frames s root v →
  KernelPageSpace.mapSingle4k root v p flags c s = Ok (u, s1) →
  page_aligned p2 → c2 ≠ CachingMode.uncached →
  ∃ s2 s3 a,
    KernelPageSpace.unmapSingle4k root v s1 = Ok (Z.land p kAddressMask, s2) ∧
    KernelPageSpace.mapSingle4k root v p2 flags2 c2 s2 = Ok (tt, s3) ∧
    frames s3 = frames s1 ∧
    leaf_address (mem s3) root v = Some a ∧
    mem s3 a = kernel_leaf p2 flags2 c2.
Proof.
  intros Hfresh Hrun Hp2 Hc2.
  destruct (kernel_map_full _ _ _ _ _ _ _ _ Hfresh Hrun)
    as (Hv & Hr & t3 & t2 & t1 & e4 & e3 & e2 & Hm & Hu & Hnd & Hok & Hfr).
  destruct (mapped_leaf_address _ _ _ _ _ _ _ _ _ _ _ _ _ Hm) as [Hleaf _].
  pose proof (mapped_leaf _ _ _ _ _ _ _ _ _ _ _ _ _ _ _ _ Hm) as EL.
  set (a := t1 + 8 * index1 v) in *.
  set (w := Z.lxor (mem s1 a) kPagePresent).
  assert (Hpa : present (mem s1 a) = true) by (rewrite EL; apply kernel_leaf_present).
  destruct (mapped_cleared_ready false _ _ _ _ _ _ _ _ _ _ _ _ w Hr Hm Hu Hnd Hok Hfr
              (lxor_present_cleared _ Hpa)) as (Hfresh2 & Htabs2 & Hmiss & Hpu & Hlp).
  fold a in Hfresh2, Htabs2, Hmiss, Hpu, Hlp.
  set (s2 := mkPtState (<[a := w]> (mem s1)) (frames s1)) in *.
  destruct (kernel_map_run root v p2 flags2 c2 s2) as (s3 & Hrun3 & Hfr3);
    try assumption.
  { rewrite Hmiss. lia. }
  destruct (kernel_map_mapped _ _ _ _ _ _ _ _ Hfresh2 Hrun3)
    as (_ & _ & _ & t3' & t2' & t1' & e4' & e3' & e2' & Hm3 & _).
  exists s2, s3, (t1' + 8 * index1 v).
  split; [|split; [exact Hrun3|split; [rewrite Hfr3, Hmiss; reflexivity|split]]].
  - rewrite (kernel_unmap_run root v s1 a Hv Hleaf Hpa).
    rewrite EL, kernel_leaf_unmapped_frame. unfold s2, w. rewrite EL. reflexivity.
  - apply (mapped_leaf_address _ _ _ _ _ _ _ _ _ _ _ _ _ Hm3).
  - eapply mapped_leaf. exact Hm3.
Qed.

Lemma X26_witness :
  ∃ s1 s2 s3 a,
    KernelPageSpace.mapSingle4k 0x1000 0x7000 0x5000 page_access.write
      CachingMode.writeCombine empty_memory = Ok (tt, s1) ∧
    KernelPageSpace.unmapSingle4k 0x1000 0x7000 s1 = Ok (Z.land 0x5000 kAddressMask, s2) ∧
    KernelPageSpace.mapSingle4k 0x1000 0x7000 0x6000 0 CachingMode.null s2 = Ok (tt, s3) ∧
    frames s3 = frames s1 ∧
    leaf_address (mem s3) 0x1000 0x7000 = Some a ∧
    mem s3 a = kernel_leaf 0x6000 0 CachingMode.null.
Proof.
  pose proof kernel_map_empty_ok as Hok.
  destruct (KernelPageSpace.mapSingle4k 0x1000 0x7000 0x5000 page_access.write
              CachingMode.writeCombine empty_memory) as [[[] s1]| | |] eqn:Hrun;
    try discriminate Hok.
  assert (Hp2 : page_aligned 0x6000) by reflexivity.
  assert (Hc2 : CachingMode.null ≠ CachingMode.uncached) by discriminate.
  destruct (X26_kernel_map_unmap_map _ _ _ _ _ 0x6000 0 CachingMode.null
              _ _ _ (empty_memory_fresh 0x7000) Hrun Hp2 Hc2)
    as (s2 & s3 & a & H).
  exists s1, s2, s3, a. split; [reflexivity|exact H].
Defined.

(* ===================================================================== *)
(** ** The user bit of the tables that a mapping goes through *)
(* ===================================================================== *)

(** The entries that were present before a mapping are the entries that the
    mapping went through, so they carry the user bit that it asserts. *)
Lemma mapped_path_user user_page s m' fr' root v t3 t2 t1 e4 e3 e2 leaf :
  fresh_frames s root v →
  mapped (mem s) m' (frames s) fr' root (index4 v) (index3 v) (index2 v) (index1 v)
         t3 t2 t1 e4 e3 e2 leaf →
  Z.testbit e4 2 = user_page ∧ Z.testbit e3 2 = user_page ∧ Z.testbit e2 2 = user_page →
  path_user (mem s) root v user_page.
Proof.
  intros (Hr & Hnd & Hok & Hfresh) Hm (U4 & U3 & U2).
  destruct Hm as [E4 E3 E2 _ P4 P3 P2 T3 T2 T1 _ Hkept _ N4 N3 N2].
  assert (Hold : ∀ t i, page_aligned t → t ∈ tables_of (mem s) root v → 0 ≤ i < 512 →
                        present (mem s (t + 8 * i)) = true →
                        t + 8 * i ≠ t1 + 8 * index1 v →
                        mem s (t + 8 * i) = m' (t + 8 * i)).
  { intros t i Ht Hin Hi Hp Hne. symmetry. apply Hkept; [exact Hp| |exact Hne].
    apply (table_word_outside s t i Ht); [|exact Hok|exact Hi].
    intros Hf. rewrite Forall_forall in Hfresh. exact (Hfresh t Hf Hin). }
  unfold path_user. unfold tables_of in Hold. cbn [walk_path].
  destruct (present (mem s (root + 8 * index4 v))) eqn:Q4;
    [|constructor; [intros Hc; congruence|constructor]].
  assert (A4 : mem s (root + 8 * index4 v) = e4).
  { rewrite <- E4. apply Hold; [exact Hr|apply walk_tables_head|apply index4_range
                                |exact Q4|exact N4]. }
  assert (I3 : t3 ∈ walk_tables (mem s) root [index4 v; index3 v; index2 v]).
  { cbn [walk_tables]. rewrite A4, P4, T3.
    apply list_elem_of_further, list_elem_of_here. }
  rewrite A4, T3. constructor; [intros _; rewrite A4; exact U4|].
  destruct (present (mem s (t3 + 8 * index3 v))) eqn:Q3;
    [|constructor; [intros Hc; congruence|constructor]].
  assert (A3 : mem s (t3 + 8 * index3 v) = e3).
  { rewrite <- E3. apply Hold; [rewrite <- T3; apply land_mask_aligned|exact I3
                                |apply index3_range|exact Q3|exact N3]. }
  assert (I2 : t2 ∈ walk_tables (mem s) root [index4 v; index3 v; index2 v]).
  { cbn [walk_tables]. rewrite A4, P4, T3, A3, P3, T2.
    do 2 apply list_elem_of_further. apply list_elem_of_here. }
  rewrite A3, T2. constructor; [intros _; rewrite A3; exact U3|].
  constructor; [|destruct (present (mem s (t2 + 8 * index2 v))); constructor].
  intros Q2.
  assert (A2 : mem s (t2 + 8 * index2 v) = e2).
  { rewrite <- E2. apply Hold; [rewrite <- T2; apply land_mask_aligned|exact I2
                                |apply index2_range|exact Q2|exact N2]. }
  rewrite A2. exact U2.
Qed.

(** X27.  [mapSingle4k] returns only if the tables that exist on the walk
    of [v] were made for the same kind of page: every entry above the leaf
    that was present before the call has the user bit exactly if the call
    maps a user page ([KernelPageSpace]: never).  A call that meets an
    entry with the other user bit stops the kernel at an assertion. *)
Theorem X27_map_needs_user_bits :
  (∀ root v p flags c s u s',
     fresh_frames s root v →
     KernelPageSpace.mapSingle4k root v p flags c s = Ok (u, s') →
     path_user (mem s) root v false) ∧
  (∀ root v p user_page flags c s u s',
     fresh_frames s root v →
     ClientPageSpace.mapSingle4k root v p user_page flags c s = Ok (u, s') →
     path_user (mem s) root v user_page).
Proof.
  split.
  - intros root v p flags c s u s' Hfresh Hrun.
    destruct (kernel_map_full _ _ _ _ _ _ _ _ Hfresh Hrun)
      as (_ & _ & t3 & t2 & t1 & e4 & e3 & e2 & Hm & Hu & _).
    exact (mapped_path_user false _ _ _ _ _ _ _ _ _ _ _ _ Hfresh Hm Hu).
  - intros root v p user_page flags c s u s' Hfresh Hrun.
    destruct (client_map_full _ _ _ _ _ _ _ _ _ Hfresh Hrun)
      as (_ & _ & t3 & t2 & t1 & e4 & e3 & e2 & Hm & Hu & _).
    exact (mapped_path_user user_page _ _ _ _ _ _ _ _ _ _ _ _ Hfresh Hm Hu).
Qed.

Lemma X27_witness :
  path_user (mem after_map) 0x1000 0x8000 false ∧
  path_user (mem one_mapping) 0x1000 0x8000 true ∧
  ClientPageSpace.mapSingle4k 0x1000 0x8000 0x6000 false 0 CachingMode.null one_mapping
  = AssertFail.
Proof.
  destruct second_map_ok as [Hk Hc].
  destruct (KernelPageSpace.mapSingle4k 0x1000 0x8000 0x6000 0 CachingMode.null after_map)
    as [[u1 s1]| | |] eqn:Hrun1; try discriminate Hk.
  destruct (ClientPageSpace.mapSingle4k 0x1000 0x8000 0x6000 true 0 CachingMode.null
              one_mapping) as [[u2 s2]| | |] eqn:Hrun2; try discriminate Hc.
  assert (Hf1 : fresh_frames after_map 0x1000 0x8000)
    by (apply no_frames_fresh; [reflexivity|vm_compute; reflexivity]).
  assert (Hf2 : fresh_frames one_mapping 0x1000 0x8000)
    by (apply no_frames_fresh; [reflexivity|vm_compute; reflexivity]).
  split; [exact (proj1 X27_map_needs_user_bits _ _ _ _ _ _ _ _ Hf1 Hrun1)|].
  split; [exact (proj2 X27_map_needs_user_bits _ _ _ _ _ _ _ _ _ Hf2 Hrun2)|].
  vm_compute. reflexivity.
Defined.

(* ===================================================================== *)
(** ** The TLB entries that [shootdown] invalidates *)
(* ===================================================================== *)

Lemma shootdown_scan_events hp pcid already rq :
  ∀ complete s r s',
    PageBinding.shootdown_scan hp pcid already rq complete s = Ok (r, s') →
    events s' = events s ++ concat (map (invalidations hp pcid) (visited already rq)) ∧
    Forall (λ N, page_aligned (ShootNode.address N) ∧ page_aligned (ShootNode.size N))
           (visited already rq).
Proof.
  induction rq as [|current preds IH]; intros complete s r s' H.
  - bk_prim H. cbn. rewrite app_nil_r. split; [reflexivity|constructor].
  - cbn [PageBinding.shootdown_scan visited] in *.
    destruct (ShootNode._sequence current >? already);
      [|bk_prim H; cbn; rewrite app_nil_r; split; [reflexivity|constructor]].
    bk_step H. bk_step H. bind_as H u3 s3 Hinv.
    rewrite has_bit_low12, negb_involutive in Hm, Hm0.
    apply Z.eqb_eq in Hm, Hm0.
    assert (He3 : events s3 = events s ++ invalidations hp pcid current).
    { unfold invalidations, invalidation. destruct hp; cbn [negb] in Hinv.
      - apply emit_all_inv in Hinv. subst s3. reflexivity.
      - bk_step Hinv. apply emit_all_inv in Hinv. subst s3. reflexivity. }
    assert (Hrec : ∃ complete' r', PageBinding.shootdown_scan hp pcid already preds
                                     complete' s3 = Ok (r', s')).
    { destruct (ShootNode._bindingsToShoot current =? 1); [eauto|].
      bind_as H r0 s4 Hrec. bk_prim H. eauto. }
    destruct Hrec as (complete' & r' & Hrec).
    destruct (IH _ _ _ _ Hrec) as (He & Hall).
    split.
    + cbn [map concat]. rewrite He, He3, <- app_assoc. reflexivity.
    + constructor; [split; assumption|exact Hall].
Qed.

Lemma filter_old already l :
  Forall (λ N, ShootNode._sequence N ≤ already) l →
  filter (λ N, already < ShootNode._sequence N) l = [].
Proof.
  induction 1 as [|N l HN _ IH]; [reflexivity|].
  rewrite filter_cons, IH.
  destruct (decide (already < ShootNode._sequence N)); [lia|reflexivity].
Qed.

(** On a queue in order the scan visits exactly the newer nodes. *)
Lemma visited_filter already hi rq :
  descending hi rq →
  visited already rq = filter (λ N, already < ShootNode._sequence N) rq.
Proof.
  revert hi. induction rq as [|N rest IH]; intros hi Hd; [reflexivity|].
  destruct Hd as [Hlt Hrest]. cbn [visited]. rewrite filter_cons.
  destruct (Z.gtb_spec (ShootNode._sequence N) already) as [Hnew|Hold].
  - destruct (decide (already < ShootNode._sequence N)); [|lia].
    rewrite (IH _ Hrest). reflexivity.
  - destruct (decide (already < ShootNode._sequence N)); [lia|].
    symmetry. apply filter_old.
    eapply Forall_impl; [exact (descending_below _ _ Hrest)|]. cbn. intros M HM. lia.
Qed.

(** X28.  What [PageBinding::shootdown] does to the TLB on a binding whose
    space is alive: between taking and releasing the mutex of the space it
    invalidates, from the back of the queue up to the first node that is not
    newer than [_alreadyShotSequence], every page of every node (with the
    tag of the binding if the CPU has PCIDs), and nothing else; then it
    calls the callbacks of the nodes it has completed.  The nodes it visits
    have page-aligned address and size (it asserts that), and on a queue in
    the order of its sequence numbers they are exactly the nodes newer than
    [_alreadyShotSequence]. *)
Theorem X28_shootdown_invalidates this s u s' sp v :
  PageBinding.shootdown this s = Ok (u, s') →
  let b := pcidBindings (cpu s) this in
  upgrade (spaces s) (_boundSpace b) = Some sp → spaces s !! sp = Some v →
  let nodes := visited (_alreadyShotSequence b) (rev (_shootQueue v)) in
  events s' =
    events s ++ [EvAcquire sp]
    ++ concat (map (invalidations (havePcids (cpu s)) (_pcid b)) nodes)
    ++ [EvRelease sp] ++ callbacks (left_complete (_alreadyShotSequence b) v) ∧
  Forall (λ N, page_aligned (ShootNode.address N) ∧ page_aligned (ShootNode.size N))
         nodes ∧
  (∀ N k, N ∈ nodes → (k < Z.to_nat (ShootNode.size N / kPageSize))%nat →
          invalidation (havePcids (cpu s)) (_pcid b)
            ((ShootNode.address N + kPageSize * Z.of_nat k) mod 2 ^ 64) ∈ events s') ∧
  (∀ hi, descending hi (rev (_shootQueue v)) →
         nodes = filter (λ N, _alreadyShotSequence b < ShootNode._sequence N)
                        (rev (_shootQueue v))).
Proof.
  intros H b Hup Hv nodes.
  assert (Hmain :
    events s' =
      events s ++ [EvAcquire sp]
      ++ concat (map (invalidations (havePcids (cpu s)) (_pcid b)) nodes)
      ++ [EvRelease sp] ++ callbacks (left_complete (_alreadyShotSequence b) v) ∧
    Forall (λ N, page_aligned (ShootNode.address N) ∧ page_aligned (ShootNode.size N))
           nodes).
  { unfold PageBinding.shootdown in H.
    do 4 bk_step H. fold b in H. rewrite Hup in H.
    bind_as H u0 s0 Hacq. bk_prim Hacq.
    bind_as H v0 s1 Hd. apply deref_inv in Hd as [Hv0 ->]. cbn [spaces] in Hv0.
    assert (v0 = v) by congruence. subst v0.
    unfold nodes, left_complete.
    destruct (rev (_shootQueue v)) as [|back rest] eqn:Hrev.
    - bk_prim H. cbn. rewrite <- app_assoc. split; [reflexivity|constructor].
    - bind_as H r s2 Hscan.
      pose proof (shootdown_scan_events _ _ _ _ _ _ _ _ Hscan) as [He2 Hall].
      apply shootdown_scan_spec in Hscan as (-> & _).
      cbn [cpu spaces events] in He2.
      bind_as H u3 s3 Hput. bk_prim Hput.
      bind_as H u4 s4 Hrel. bk_prim Hrel.
      bind_as H u5 s5 Hrun. apply run_complete_inv in Hrun. subst s5.
      bk_prim H. cbn [events]. rewrite He2. unfold callbacks.
      rewrite <- !app_assoc. split; [reflexivity|exact Hall]. }
  destruct Hmain as [Hev Hall].
  split; [exact Hev|]. split; [exact Hall|]. split.
  - intros N k HN Hk. rewrite Hev.
    apply elem_of_app. right. apply elem_of_app. right.
    apply elem_of_app. left.
    apply list_elem_of_In, in_concat.
    exists (invalidations (havePcids (cpu s)) (_pcid b) N).
    split; apply list_elem_of_In;
      [apply list_elem_of_fmap; exists N; split; [reflexivity|exact HN]|].
    unfold invalidations. apply list_elem_of_fmap.
    exists ((ShootNode.address N + kPageSize * Z.of_nat k) mod 2 ^ 64).
    split; [reflexivity|]. unfold pages_of. apply list_elem_of_fmap.
    exists k. split; [reflexivity|]. apply elem_of_seq. lia.
  - intros hi Hd. exact (visited_filter _ _ _ Hd).
Qed.

Lemma X28_witness :
  ∃ s', PageBinding.shootdown 0 queued_state = Ok (tt, s') ∧
        events s' = events queued_state
                    ++ [EvAcquire 1; EvInvalidatePagePcid 1 0x8000; EvRelease 1;
                        EvShotDown 8].
Proof.
  pose proof queued_state_shootdown_ok as Hok.
  destruct (PageBinding.shootdown 0 queued_state) as [[[] s1]| | |] eqn:Hrun;
    try discriminate Hok.
  assert (Hup : upgrade (spaces queued_state)
                  (_boundSpace (pcidBindings (cpu queued_state) 0)) = Some 1%nat)
    by (vm_compute; reflexivity).
  assert (Hv : spaces queued_state !! 1%nat
               = Some (mkPageSpace 0x1000 1 2 [ShootNode.mk 7 0x7000 0x1000 0 1;
                                              ShootNode.mk 8 0x8000 0x1000 1 1]))
    by (vm_compute; reflexivity).
  destruct (X28_shootdown_invalidates _ _ _ _ _ _ Hrun Hup Hv) as (Hev & _).
  exists s1. split; [reflexivity|]. rewrite Hev. vm_compute. reflexivity.
Defined.

(* ===================================================================== *)
(** ** The tags of the bindings, and [activate] on the machine *)
(* ===================================================================== *)

Lemma tags_kept_refl c : tags_kept c c.
Proof. split; reflexivity. Qed.

Lemma tags_kept_trans c1 c2 c3 : tags_kept c1 c2 → tags_kept c2 c3 → tags_kept c1 c3.
Proof.
  intros [H1 B1] [H2 B2]. split; [congruence|]. intros i. rewrite B2. apply B1.
Qed.

Lemma tags_kept_ok c c' : tags_kept c c' → tags_ok c → tags_ok c'.
Proof. intros [Hh Hb] Hok i. rewrite Hb, Hh. apply Hok. Qed.

(** Writing binding [this] back with its own tag keeps the tags. *)
Lemma tags_kept_insert (c c' : CpuData) this b :
  havePcids c' = havePcids c →
  _pcid b = _pcid (pcidBindings c this) →
  (∀ i, pcidBindings c' i = (<[this := b]> (pcidBindings c)) i) →
  tags_kept c c'.
Proof.
  intros Hh Hb Hall. split; [exact Hh|]. intros i. rewrite Hall.
  destruct (decide (i = this)) as [->|Hne].
  - rewrite fn_lookup_insert. exact Hb.
  - rewrite fn_lookup_insert_ne by congruence. reflexivity.
Qed.

Lemma makePrimary_tags this s u s' :
  PageBinding.makePrimary this s = Ok (u, s') → tags_kept (cpu s) (cpu s').
Proof.
  intros H. apply makePrimary_inv in H as (_ & _ & ->).
  eapply tags_kept_insert.
  3: intros i; cbn [pcidBindings]; reflexivity.
  all: reflexivity.
Qed.

Lemma rebind_tags this space s u s' :
  PageBinding.rebind this space s = Ok (u, s') → tags_kept (cpu s) (cpu s').
Proof.
  intros H. apply rebind_inv in H as (_ & Hh & _ & _ & Hother & _ & Hp & _).
  split; [exact Hh|]. intros i. destruct (decide (i = this)) as [->|Hne].
  - exact Hp.
  - rewrite Hother by exact Hne. reflexivity.
Qed.

Lemma shootdown_tags this s u s' :
  PageBinding.shootdown this s = Ok (u, s') → tags_kept (cpu s) (cpu s').
Proof.
  intros H. apply shootdown_spec in H. cbv zeta in H.
  destruct H as (_ & Hh & _ & _ & H).
  destruct (upgrade (spaces s) (_boundSpace (pcidBindings (cpu s) this))) as [sp|].
  - destruct H as (v & _ & H). destruct (rev (_shootQueue v)) as [|back rest].
    + destruct H as (_ & Hb & _). split; [exact Hh|]. intros i. rewrite Hb. reflexivity.
    + destruct H as (_ & Hb & _). eapply tags_kept_insert; [exact Hh| |exact Hb].
      reflexivity.
  - destruct H as (_ & H). destruct (_boundSpace (pcidBindings (cpu s) this)).
    + destruct H as (Hb & _). eapply tags_kept_insert; [exact Hh| |exact Hb].
      reflexivity.
    + destruct H as (Hb & _). split; [exact Hh|]. intros i. rewrite Hb. reflexivity.
Qed.

Lemma activate_tags space s u s' :
  PageSpace.activate space s = Ok (u, s') → tags_kept (cpu s) (cpu s').
Proof.
  unfold PageSpace.activate. intros H.
  destruct (PageSpace.activate_loop (cpu s) (spaces s) space maxPcidCount 0 0) as [j|k].
  - exact (makePrimary_tags _ _ _ _ H).
  - bind_as H u0 s0 Hreb.
    exact (tags_kept_trans _ _ _ (rebind_tags _ _ _ _ _ Hreb) (makePrimary_tags _ _ _ _ H)).
Qed.

(** No step of the machine changes a tag: they stay as CPU bring-up has set
    them. *)
Lemma reachable_tags_ok sys : reachable sys → Forall tags_ok (cpus sys).
Proof.
  induction 1 as [pcids|sys sys' Hreach IH Hstep].
  - unfold System_init. cbn. apply Forall_forall. intros cd Hin.
    apply list_elem_of_fmap in Hin as (hp & -> & _). intros i. reflexivity.
  - assert (Hone : ∀ c cd cd', cpus sys !! c = Some cd → tags_kept cd cd' →
                               Forall tags_ok (<[c := cd']> (cpus sys))).
    { intros c cd cd' Hc Hk. apply Forall_insert; [exact IH|].
      apply (tags_kept_ok _ _ Hk). rewrite Forall_forall in IH. apply IH.
      eapply list_elem_of_lookup_2. exact Hc. }
    inversion Hstep; subst; cbn [cpus]; try exact IH.
    + apply on_cpu_inv in H0 as (cd & s' & Hc & Hop & ->). cbn [cpus].
      apply (Hone c cd _ Hc). exact (activate_tags _ _ _ _ Hop).
    + apply on_cpu_inv in H0 as (cd & s' & Hc & Hop & ->). cbn [cpus].
      apply (Hone c cd _ Hc). exact (shootdown_tags _ _ _ _ Hop).
    + apply on_cpu_inv in H as (cd & s' & Hc & Hop & ->). cbn [cpus].
      apply (Hone c cd _ Hc). apply submitShootdown_inv in Hop. cbn [cpu] in Hop.
      rewrite Hop. apply tags_kept_refl.
    + apply (Hone c cd _ H). split; reflexivity.
Qed.

(** [activate] on a CPU of the machine returns if the tags are those of
    bring-up. *)
Lemma activate_on_cpu_runs c cd sp sys :
  cpus sys !! c = Some cd → tags_ok cd →
  intsEnabled cd = false → is_Some (sys_spaces sys !! sp) →
  ∃ sys', on_cpu c (PageSpace.activate sp) sys = Ok (tt, sys').
Proof.
  intros Hc Hok Hints Halive.
  set (s := mkState cd (sys_spaces sys) (sys_events sys)).
  assert (Hpcid : ∀ i, havePcids (cpu s) || (_pcid (pcidBindings (cpu s) i) =? 0) = true).
  { intros i. cbn [cpu s]. rewrite Hok. destruct (havePcids cd); reflexivity. }
  assert (Hrun : ∃ s', PageSpace.activate sp s = Ok (tt, s')).
  { unfold PageSpace.activate.
    pose proof (loop_result (cpu s) (spaces s) sp maxPcidCount 0 0) as Hres.
    destruct (PageSpace.activate_loop (cpu s) (spaces s) sp maxPcidCount 0 0) as [j|k].
    - destruct Hres as [_ Hbound].
      apply makePrimary_returns; [exact Hints|apply Hpcid|].
      unfold bound_to in Hbound. rewrite Hbound. eauto.
    - destruct (rebind_returns k sp s Hints Halive) as [s0 Hreb].
      rewrite (bind_run _ _ _ _ _ Hreb).
      destruct (rebind_tags _ _ _ _ _ Hreb) as [Hhp Hp].
      destruct (rebind_inv _ _ _ _ _ Hreb) as (_ & _ & Hi & _ & _ & _ & _ & Hbound).
      apply makePrimary_returns.
      + rewrite Hi. exact Hints.
      + rewrite Hhp, Hp. apply Hpcid.
      + rewrite Hbound. eauto. }
  destruct Hrun as [s' Hrun]. unfold on_cpu. rewrite Hc. fold s. rewrite Hrun. eauto.
Qed.

(** X29.  On the machine, as far as it can get from bring-up by context
    switches, shootdown interrupts, submissions, creation and destruction of
    spaces and changes of the interrupt flag, no binding ever changes its
    tag: binding [i] of a CPU with PCIDs has the tag [i + 1], a binding of a
    CPU without PCIDs the tag 0.  So the assertions of [makePrimary] and
    [rebind] hold there: [PageSpace::activate(space)] returns on every CPU
    that has its interrupts disabled, for every space that is alive. *)
Theorem X29_activate_on_machine sys c cd :
  reachable sys → cpus sys !! c = Some cd →
  tags_ok cd ∧
  ∀ sp, intsEnabled cd = false → is_Some (sys_spaces sys !! sp) →
        ∃ sys', on_cpu c (PageSpace.activate sp) sys = Ok (tt, sys') ∧ reachable sys'.
Proof.
  intros Hreach Hc.
  assert (Hok : tags_ok cd).
  { pose proof (reachable_tags_ok _ Hreach) as Hall. rewrite Forall_forall in Hall.
    apply Hall. eapply list_elem_of_lookup_2. exact Hc. }
  split; [exact Hok|]. intros sp Hints Halive.
  destruct (activate_on_cpu_runs c cd sp sys Hc Hok Hints Halive) as [sys' Hrun].
  exists sys'. split; [exact Hrun|].
  eapply reachable_step; [exact Hreach|].
  exact (step_activate c sp sys sys' Halive Hrun).
Qed.

Lemma X29_witness :
  tags_ok pcid_bound_cpu ∧
  ∃ sys', on_cpu 0 (PageSpace.activate 1) pcid_bound = Ok (tt, sys') ∧ reachable sys'.
Proof.
  destruct (X29_activate_on_machine pcid_bound 0 pcid_bound_cpu pcid_bound_reachable
              pcid_bound_lookup) as [Hok Hrun].
  split; [exact Hok|]. apply Hrun.
  - vm_compute. reflexivity.
  - exists (mkPageSpace 0x1000 1 0 []). vm_compute. reflexivity.
Defined.

(* ===================================================================== *)
(** ** When [shootdown] returns *)
(* ===================================================================== *)

Lemma emit_all_run es s :
  emit_all es s = Ok (tt, mkState (cpu s) (spaces s) (events s ++ es)).
Proof.
  revert s. induction es as [|e es IH]; intros s.
  - cbn. rewrite app_nil_r. destruct s; reflexivity.
  - cbn [emit_all]. erewrite bind_run by reflexivity. rewrite IH. cbn.
    rewrite <- app_assoc. reflexivity.
Qed.

(** The scan of [shootdown] returns if the nodes it visits have page-aligned
    address and size, and the tag is 0 on a CPU without PCIDs. *)
Lemma shootdown_scan_run hp pcid already rq :
  (hp = false → pcid = 0) →
  Forall (λ N, page_aligned (ShootNode.address N) ∧ page_aligned (ShootNode.size N))
         (visited already rq) →
  ∀ complete s, ∃ r s', PageBinding.shootdown_scan hp pcid already rq complete s
                        = Ok (r, s').
Proof.
  intros Hpcid. induction rq as [|current preds IH]; intros Hall complete s.
  - eexists _, _. reflexivity.
  - cbn [PageBinding.shootdown_scan visited] in *.
    destruct (ShootNode._sequence current >? already); [|eexists _, _; reflexivity].
    apply Forall_cons in Hall as [[Ha Hs] Hall].
    erewrite bind_run
      by (apply assert_run; rewrite has_bit_low12, negb_involutive; apply Z.eqb_eq;
          exact Ha).
    erewrite bind_run
      by (apply assert_run; rewrite has_bit_low12, negb_involutive; apply Z.eqb_eq;
          exact Hs).
    assert (Hinv : ∃ s3,
               (if negb hp
                then assert (pcid =? 0) ;;
                     emit_all (map EvInvalidatePage (pages_of current))
                else emit_all (map (EvInvalidatePagePcid pcid) (pages_of current))) s
               = Ok (tt, s3)).
    { destruct hp; cbn [negb].
      - eexists. apply emit_all_run.
      - erewrite bind_run by (apply assert_run; rewrite Hpcid by reflexivity; reflexivity).
        eexists. apply emit_all_run. }
    destruct Hinv as [s3 Hinv]. rewrite (bind_run _ _ _ _ _ Hinv).
    destruct (ShootNode._bindingsToShoot current =? 1); [apply IH; exact Hall|].
    destruct (IH Hall complete s3) as (r & s' & Hrec).
    rewrite (bind_run _ _ _ _ _ Hrec). eexists _, _. reflexivity.
Qed.

(** X30.  [PageBinding::shootdown] returns whenever interrupts are
    disabled, the tag of the binding is 0 unless the CPU has PCIDs, and the
    nodes that the scan visits on the bound space have page-aligned address
    and size.  ([submitShootdown] queues a node without looking at its
    address and size; [shootdown] asserts them.) *)
Theorem X30_shootdown_returns this s :
  let b := pcidBindings (cpu s) this in
  intsEnabled (cpu s) = false →
  (havePcids (cpu s) = false → _pcid b = 0) →
  (∀ sp v, upgrade (spaces s) (_boundSpace b) = Some sp → spaces s !! sp = Some v →
           Forall (λ N, page_aligned (ShootNode.address N) ∧
                        page_aligned (ShootNode.size N))
                  (visited (_alreadyShotSequence b) (rev (_shootQueue v)))) →
  ∃ s', PageBinding.shootdown this s = Ok (tt, s').
Proof.
  intros b Hints Hpcid Hall. unfold PageBinding.shootdown.
  erewrite bind_run by reflexivity.
  erewrite bind_run by (apply assert_run; rewrite Hints; reflexivity).
  erewrite bind_run by reflexivity.
  erewrite bind_run by reflexivity.
  fold b. destruct (upgrade (spaces s) (_boundSpace b)) as [sp|] eqn:Hup.
  - destruct (upgrade_Some _ _ _ Hup) as [_ [v Hv]].
    specialize (Hall sp v eq_refl Hv).
    erewrite bind_run by reflexivity.
    erewrite bind_run by (apply deref_run; cbn [spaces]; exact Hv).
    destruct (rev (_shootQueue v)) as [|back rest] eqn:Hrev; [eexists; reflexivity|].
    destruct (shootdown_scan_run (havePcids (cpu s)) (_pcid b) (_alreadyShotSequence b)
                (back :: rest) Hpcid Hall []
                (mkState (cpu s) (spaces s) (events s ++ [EvAcquire sp])))
      as (r & s2 & Hscan).
    rewrite (bind_run _ _ _ _ _ Hscan).
    erewrite bind_run by reflexivity.
    erewrite bind_run by reflexivity.
    erewrite bind_run by apply run_complete_run.
    eexists. reflexivity.
  - destruct (_boundSpace b); [|eexists; reflexivity].
    erewrite bind_run by reflexivity. eexists. reflexivity.
Qed.

Lemma X30_witness : ∃ s', PageBinding.shootdown 0 queued_state = Ok (tt, s').
Proof.
  apply X30_shootdown_returns.
  - vm_compute. reflexivity.
  - intros Hh. vm_compute in Hh. discriminate Hh.
  - intros sp v Hup Hv.
    assert (Hup1 : upgrade (spaces queued_state)
                     (_boundSpace (pcidBindings (cpu queued_state) 0)) = Some 1%nat)
      by (vm_compute; reflexivity).
    assert (Hsp : sp = 1%nat) by congruence. subst sp.
    rewrite queued_state_spaces in Hv. apply lookup_singleton_Some in Hv as [_ <-].
    vm_compute. repeat constructor.
Defined.
